(** * CON files: the binary codec and the JSON-like text codec of confile.h

    A shallow embedding of [src/confile.h].  A C++ [char] is one byte, and
    both the binary [.con] stream and the JSON text are [char] streams, so
    one type, [string], serves for [std::string], for [std::vector<uint8_t>]
    and for the contents of a stream.  Multi-byte integers are laid out in
    little-endian order (the source writes the host's order; the model
    fixes x86-64). *)

From Stdlib Require Import ZArith List Bool Ascii String Lia Sorted.
From Stdlib Require Import OrdersEx RelationClasses Permutation.
Import ListNotations.

Local Open Scope string_scope.
Local Open Scope Z_scope.

(** ** Strings as byte sequences *)

(** [size()] of a string or vector, as an integer. *)
Definition size (s : string) : Z := Z.of_nat (String.length s).

Definition byte_of (n : Z) : ascii := ascii_of_N (Z.to_N (n mod 256)).
Definition Z_of_byte (c : ascii) : Z := Z.of_N (N_of_ascii c).

(** [stream.write((char* )&x, k)] of an integer object [x] of [k] bytes:
    the two's-complement bytes, least significant first. *)
Fixpoint encode_le (k : nat) (n : Z) : string :=
  match k with
  | O => ""
  | S k' => String (byte_of n) (encode_le k' (n / 256))
  end.

(** The integer a [k]-byte object holds after [stream.read] filled it. *)
Fixpoint decode_le (s : string) : Z :=
  match s with
  | "" => 0
  | String c r => Z_of_byte c + 256 * decode_le r
  end.

Definition u64 (n : Z) : string := encode_le 8 n.

(** A [uint64_t] bit pattern read as [int64_t]. *)
Definition to_int64 (u : Z) : Z := if u <? 2 ^ 63 then u else u - 2 ^ 64.

(** ** The data model

    [ConValue] is a [ConType] tag with an untyped pointer to the payload.
    The embedding is the sum type the tag selects.  [VInvalid t] is the
    state [ConValue::read] leaves behind for a tag byte [t] that is no
    [ConType]: the tag is stored and [data] stays [nullptr].

    A [double] is kept as its 64-bit pattern, an [std::map] as the list of
    its entries in iteration order. *)
#[local] Unset Elimination Schemes.
Inductive ConValue : Type :=
| VNull
| VBoolean (b : bool)
| VInteger (z : Z)
| VFloat (bits : Z)
| VString (s : string)
| VArray (values : list ConValue)
| VObject (values : list (string * ConValue))
| VInvalid (t : ascii).
#[local] Set Elimination Schemes.

Definition ConArray : Type := list ConValue.
Definition ConObject : Type := list (string * ConValue).

(** The [ConType] byte of a value. *)
Definition type_tag (v : ConValue) : Z :=
  match v with
  | VNull => 0
  | VBoolean _ => 1
  | VInteger _ => 2
  | VFloat _ => 3
  | VString _ => 4
  | VArray _ => 5
  | VObject _ => 6
  | VInvalid t => Z_of_byte t
  end.

(** Induction over values that reaches the children of arrays and objects. *)
Section ConValue_ind.
Variable P : ConValue -> Prop.
Hypothesis HNull : P VNull.
Hypothesis HBoolean : forall b, P (VBoolean b).
Hypothesis HInteger : forall z, P (VInteger z).
Hypothesis HFloat : forall bits, P (VFloat bits).
Hypothesis HString : forall s, P (VString s).
Hypothesis HArray : forall vs, Forall P vs -> P (VArray vs).
Hypothesis HObject : forall kvs, Forall (fun kv => P (snd kv)) kvs -> P (VObject kvs).
Hypothesis HInvalid : forall t, P (VInvalid t).

Fixpoint ConValue_deep_ind (v : ConValue) : P v :=
  match v with
  | VNull => HNull
  | VBoolean b => HBoolean b
  | VInteger z => HInteger z
  | VFloat bits => HFloat bits
  | VString s => HString s
  | VArray vs =>
      HArray vs
        ((fix go (l : list ConValue) : Forall P l :=
            match l with
            | [] => Forall_nil _
            | x :: r => Forall_cons x (ConValue_deep_ind x) (go r)
            end) vs)
  | VObject kvs =>
      HObject kvs
        ((fix go (l : list (string * ConValue)) : Forall (fun kv => P (snd kv)) l :=
            match l with
            | [] => Forall_nil _
            | kv :: r => Forall_cons kv (ConValue_deep_ind (snd kv)) (go r)
            end) kvs)
  | VInvalid t => HInvalid t
  end.
End ConValue_ind.

(** ** [std::map<std::string, ConValue>]

    The map keeps its entries ordered by key, [std::string]'s [operator<]:
    bytes compared as unsigned, a proper prefix first. *)
Definition key_lt (a b : string) : Prop := String_as_OT.compare a b = Lt.

(** [values[key] = value]. *)
Fixpoint map_assign {V : Type} (key : string) (value : V) (m : list (string * V))
  : list (string * V) :=
  match m with
  | [] => [(key, value)]
  | (k, v) :: m' =>
      match String_as_OT.compare key k with
      | Lt => (key, value) :: (k, v) :: m'
      | Eq => (key, value) :: m'
      | Gt => (k, v) :: map_assign key value m'
      end
  end.

Fixpoint map_find {V : Type} (key : string) (m : list (string * V)) : option V :=
  match m with
  | [] => None
  | (k, v) :: m' => if String.eqb key k then Some v else map_find key m'
  end.

(** The entries in the order of insertion [values[k] = v], from an empty map. *)
Definition map_of_assignments {V : Type} (kvs : list (string * V)) : list (string * V) :=
  fold_left (fun m kv => map_assign (fst kv) (snd kv) m) kvs [].

Definition keys_sorted {V : Type} (m : list (string * V)) : Prop :=
  StronglySorted (fun a b => key_lt (fst a) (fst b)) m.

(** Every object in the tree is a map: keys strictly increasing. *)
Fixpoint well_formed (v : ConValue) : Prop :=
  match v with
  | VArray vs =>
      (fix all (l : list ConValue) : Prop :=
         match l with [] => True | x :: r => well_formed x /\ all r end) vs
  | VObject kvs =>
      keys_sorted kvs /\
      (fix all (l : list (string * ConValue)) : Prop :=
         match l with [] => True | kv :: r => well_formed (snd kv) /\ all r end) kvs
  | _ => True
  end.

(** ** [std::istream]

    The unread characters and the two state bits the code depends on.
    [badbit] is never raised by the operations the code performs. *)
Record istream : Type := mk_istream { buf : string; eofbit : bool; failbit : bool }.

(** A stream freshly opened on [s]. *)
Definition istream_of (s : string) : istream := mk_istream s false false.

Definition good (ist : istream) : bool := negb (eofbit ist) && negb (failbit ist).

(** [is.setstate(std::ios::failbit)]. *)
Definition setstate_failbit (ist : istream) : istream :=
  mk_istream (buf ist) (eofbit ist) true.

(** What a call of the C++ code comes to.  [Returns a is]: the function
    returned, with result [a] and the stream left as [is].  [Undefined]: the
    stream did not supply what was asked for and the code goes on with an
    object the input does not determine (an uninitialised local or
    [new char[n]] block, a byte that is no [bool]); the model stops there.
    [OutOfFuel]: the recursion budget of the model ran out. *)
Inductive outcome (A : Type) : Type :=
| Returns (a : A) (ist : istream)
| Undefined
| OutOfFuel.
Arguments Returns {A} a ist.
Arguments Undefined {A}.
Arguments OutOfFuel {A}.

(** The first [n] characters of [s] and what follows, when there are [n]. *)
Fixpoint take (n : Z) (s : string) {struct s} : option (string * string) :=
  if n <=? 0 then Some ("", s)
  else match s with
       | "" => None
       | String c r =>
           match take (n - 1) r with
           | Some (x, r') => Some (String c x, r')
           | None => None
           end
       end.

(** [stream.read(p, n)]: [Some] of the [n] characters when the stream had
    them; otherwise the destination is not (wholly) written and
    [eofbit | failbit] is set. *)
Definition istream_read (n : Z) (ist : istream) : option string * istream :=
  if good ist then
    match take n (buf ist) with
    | Some (x, r) => (Some x, mk_istream r false false)
    | None => (None, mk_istream "" true true)
    end
  else (None, setstate_failbit ist).

Fixpoint zeros (n : nat) : string :=
  match n with O => "" | S n' => String zero (zeros n') end.

(** [std::vector<uint8_t> v(n); stream.read((char* )v.data(), n)]: the vector
    starts zero-filled, so a short read leaves zeros behind the characters
    that were there. *)
Definition istream_read_vector (n : Z) (ist : istream) : string * istream :=
  match istream_read n ist with
  | (Some x, is') => (x, is')
  | (None, is') =>
      let got := if good ist then buf ist else "" in
      (got ++ zeros (Z.to_nat (n - size got)), is')
  end.

Definition flatten (l : list string) : string := fold_right append "" l.

(** ** The binary codec *)

Definition COMPRESSION_THRESHOLD : Z := 256.
Definition COMPRESSION_LEVEL_MIN : Z := 0.
Definition COMPRESSION_LEVEL_MAX : Z := 0.

(** The macro [COMPRESS_COMPARE(size)], with the [level] it captures. *)
Definition COMPRESS_COMPARE (size level : Z) : bool :=
  (COMPRESSION_THRESHOLD <? size)
  && (COMPRESSION_LEVEL_MIN <=? level) && (level <=? COMPRESSION_LEVEL_MAX).

(** [level+1] on [uint64_t]. *)
Definition next_level (level : Z) : Z := (level + 1) mod 2 ^ 64.

Section BinaryCodec.

(** zlib, behind [zcompress] and [zdecompress], is an opaque pair of byte
    transformations. *)
Variables zcompress zdecompress : string -> string.

(** [stream.put(1)], the compressed size and the compressed bytes. *)
Definition write_compressed (str : string) : string :=
  let compressed := zcompress str in
  String (byte_of 1) (u64 (size compressed) ++ compressed).

(** [ConArray::write]; the recursive call is [write]. *)
Definition ConArray_write_with (write : ConValue -> Z -> string)
  (values : ConArray) (level : Z) : string :=
  u64 (Z.of_nat (List.length values))
  ++ flatten (map (fun value => write value (next_level level)) values).

(** [ConObject::write]; the map is iterated in key order. *)
Definition ConObject_write_with (write : ConValue -> Z -> string)
  (values : ConObject) (level : Z) : string :=
  u64 (Z.of_nat (List.length values))
  ++ flatten (map (fun kv =>
                     u64 (size (fst kv)) ++ fst kv ++ write (snd kv) (next_level level))
                values).

(** [ConValue::write]: the bytes put on the stream.  The messages of the
    [default] branch go to [std::cerr], not to the stream. *)
Fixpoint ConValue_write (v : ConValue) (level : Z) {struct v} : string :=
  String (byte_of (type_tag v))
    match v with
    | VBoolean b => String (byte_of (if b then 1 else 0)) ""
    | VInteger z => encode_le 8 z
    | VFloat bits => encode_le 8 bits
    | VString str =>
        if COMPRESS_COMPARE (size str) level then write_compressed str
        else String (byte_of 0) (u64 (size str) ++ str)
    | VArray values =>
        let str := ConArray_write_with ConValue_write values level in
        if COMPRESS_COMPARE (size str) level then write_compressed str
        else String (byte_of 0) str
    | VObject values =>
        let str := ConObject_write_with ConValue_write values level in
        if COMPRESS_COMPARE (size str) level then write_compressed str
        else String (byte_of 0) str
    | VNull | VInvalid _ => ""
    end.

Definition ConArray_write : ConArray -> Z -> string :=
  ConArray_write_with ConValue_write.
Definition ConObject_write : ConObject -> Z -> string :=
  ConObject_write_with ConValue_write.

(** [ConArray::read], over the loop [loop size i values]. *)
Definition ConArray_read_with
  (loop : Z -> Z -> ConArray -> istream -> outcome ConArray)
  (ist : istream) : outcome ConArray :=
  match istream_read 8 ist with
  | (Some sz, is1) => loop (decode_le sz) 0 [] is1
  | (None, _) => Undefined
  end.

(** [ConObject::read], over its loop. *)
Definition ConObject_read_with
  (loop : Z -> Z -> ConObject -> istream -> outcome ConObject)
  (ist : istream) : outcome ConObject :=
  match istream_read 8 ist with
  | (Some sz, is1) => loop (decode_le sz) 0 [] is1
  | (None, _) => Undefined
  end.

(** [ConValue::read] and the [for] loops of [ConArray::read] and
    [ConObject::read].  Each call and each turn of a loop costs one unit of
    fuel. *)
Fixpoint ConValue_read (fuel : nat) (ist : istream) {struct fuel} : outcome ConValue :=
  match fuel with
  | O => OutOfFuel
  | S f =>
    match istream_read 1 ist with
    | (None, _) => Undefined
    | (Some t, is1) =>
      let type := decode_le t in
      if type =? 0 then Returns VNull is1
      else if type =? 1 then
        match istream_read 1 is1 with
        | (Some b, is2) =>
            if decode_le b =? 0 then Returns (VBoolean false) is2
            else if decode_le b =? 1 then Returns (VBoolean true) is2
            else Undefined
        | (None, _) => Undefined
        end
      else if type =? 2 then
        match istream_read 8 is1 with
        | (Some x, is2) => Returns (VInteger (to_int64 (decode_le x))) is2
        | (None, _) => Undefined
        end
      else if type =? 3 then
        match istream_read 8 is1 with
        | (Some x, is2) => Returns (VFloat (decode_le x)) is2
        | (None, _) => Undefined
        end
      else if type =? 4 then
        match istream_read 1 is1 with
        | (None, _) => Undefined
        | (Some compressed, is2) =>
          match istream_read 8 is2 with
          | (None, _) => Undefined
          | (Some sz, is3) =>
            match istream_read (decode_le sz) is3 with
            | (None, _) => Undefined
            | (Some buffer, is4) =>
                if decode_le compressed =? 0 then Returns (VString buffer) is4
                else Returns (VString (zdecompress buffer)) is4
            end
          end
        end
      else if type =? 5 then
        match istream_read 1 is1 with
        | (None, _) => Undefined
        | (Some compressed, is2) =>
          if decode_le compressed =? 0 then
            match ConArray_read_with (ConArray_read_loop f) is2 with
            | Returns arr is3 => Returns (VArray arr) is3
            | Undefined => Undefined
            | OutOfFuel => OutOfFuel
            end
          else
            match istream_read 8 is2 with
            | (None, _) => Undefined
            | (Some sz, is3) =>
              match istream_read (decode_le sz) is3 with
              | (None, _) => Undefined
              | (Some buffer, is4) =>
                let bufferStream := istream_of (zdecompress buffer) in
                match ConArray_read_with (ConArray_read_loop f) bufferStream with
                | Returns arr _ => Returns (VArray arr) is4
                | Undefined => Undefined
                | OutOfFuel => OutOfFuel
                end
              end
            end
        end
      else if type =? 6 then
        match istream_read 1 is1 with
        | (None, _) => Undefined
        | (Some compressed, is2) =>
          if decode_le compressed =? 0 then
            match ConObject_read_with (ConObject_read_loop f) is2 with
            | Returns obj is3 => Returns (VObject obj) is3
            | Undefined => Undefined
            | OutOfFuel => OutOfFuel
            end
          else
            match istream_read 8 is2 with
            | (None, _) => Undefined
            | (Some sz, is3) =>
              let (buffer, is4) := istream_read_vector (decode_le sz) is3 in
              let bufferStream := istream_of (zdecompress buffer) in
              match ConObject_read_with (ConObject_read_loop f) bufferStream with
              | Returns obj _ => Returns (VObject obj) is4
              | Undefined => Undefined
              | OutOfFuel => OutOfFuel
              end
            end
        end
      else
        match t with
        | String c _ => Returns (VInvalid c) is1
        | "" => Undefined
        end
    end
  end

with ConArray_read_loop (fuel : nat) (size i : Z) (values : ConArray) (ist : istream)
  {struct fuel} : outcome ConArray :=
  match fuel with
  | O => OutOfFuel
  | S f =>
    if i <? size then
      match ConValue_read f ist with
      | Returns value is1 => ConArray_read_loop f size (i + 1) (values ++ [value])%list is1
      | Undefined => Undefined
      | OutOfFuel => OutOfFuel
      end
    else Returns values ist
  end

with ConObject_read_loop (fuel : nat) (size i : Z) (values : ConObject) (ist : istream)
  {struct fuel} : outcome ConObject :=
  match fuel with
  | O => OutOfFuel
  | S f =>
    if i <? size then
      match istream_read 8 ist with
      | (None, _) => Undefined
      | (Some keySize, is1) =>
        match istream_read (decode_le keySize) is1 with
        | (None, _) => Undefined
        | (Some key, is2) =>
          match ConValue_read f is2 with
          | Returns value is3 =>
              ConObject_read_loop f size (i + 1) (map_assign key value values) is3
          | Undefined => Undefined
          | OutOfFuel => OutOfFuel
          end
        end
      end
    else Returns values ist
  end.

Definition ConArray_read (fuel : nat) : istream -> outcome ConArray :=
  ConArray_read_with (ConArray_read_loop fuel).
Definition ConObject_read (fuel : nat) : istream -> outcome ConObject :=
  ConObject_read_with (ConObject_read_loop fuel).

End BinaryCodec.

(** [f fuel] is [r] for every large enough [fuel]: the call the model
    approximates returns [r]. *)
Definition eventually {A : Type} (f : nat -> outcome A) (r : outcome A) : Prop :=
  exists n : nat, forall fuel : nat, (n <= fuel)%nat -> f fuel = r.

Section Representable.

Variable zcompress : string -> string.

(** The compressed form of [str], when the writer at [level] stores it,
    has a size a [uint64_t] holds. *)
Definition framed_fits (str : string) (level : Z) : Prop :=
  COMPRESS_COMPARE (size str) level = true -> size (zcompress str) < 2 ^ 64.

(** The value is one the C++ objects can hold: an [int64_t], a 64-bit
    [double], sizes and counts within [uint64_t], a stray tag that is no
    [ConType]. *)
Fixpoint representable (v : ConValue) (level : Z) {struct v} : Prop :=
  match v with
  | VNull | VBoolean _ => True
  | VInteger z => - 2 ^ 63 <= z < 2 ^ 63
  | VFloat bits => 0 <= bits < 2 ^ 64
  | VString str => size str < 2 ^ 64 /\ framed_fits str level
  | VArray values =>
      Z.of_nat (List.length values) < 2 ^ 64
      /\ framed_fits (ConArray_write zcompress values level) level
      /\ (fix all (l : list ConValue) : Prop :=
            match l with
            | [] => True
            | x :: r => representable x (next_level level) /\ all r
            end) values
  | VObject values =>
      Z.of_nat (List.length values) < 2 ^ 64
      /\ framed_fits (ConObject_write zcompress values level) level
      /\ (fix all (l : list (string * ConValue)) : Prop :=
            match l with
            | [] => True
            | kv :: r =>
                (size (fst kv) < 2 ^ 64 /\ representable (snd kv) (next_level level))
                /\ all r
            end) values
  | VInvalid t => 7 <= Z_of_byte t
  end.

End Representable.

(** ** [double]: IEEE-754 binary64

    The value [VFloat] keeps is the 64-bit pattern of the [double]; what the
    pattern stands for is an [fpval].  [FFinite neg m e] is the number
    [(-1)^neg * m * 2^e] with [0 < m < 2^53]. *)
Inductive fpval : Type :=
| FZero (neg : bool)
| FInf (neg : bool)
| FNaN
| FFinite (neg : bool) (m e : Z).

Definition decode_double (bits : Z) : fpval :=
  let neg := 2 ^ 63 <=? bits in
  let E := (bits / 2 ^ 52) mod 2 ^ 11 in
  let F := bits mod 2 ^ 52 in
  if E =? 2047 then (if F =? 0 then FInf neg else FNaN)
  else if E =? 0 then (if F =? 0 then FZero neg else FFinite neg F (-1074))
  else FFinite neg (2 ^ 52 + F) (E - 1075).

Definition sign_bit (neg : bool) : Z := if neg then 2 ^ 63 else 0.

Definition encode_double (x : fpval) : Z :=
  match x with
  | FZero neg => sign_bit neg
  | FInf neg => sign_bit neg + 2047 * 2 ^ 52
  | FNaN => 2047 * 2 ^ 52 + 2 ^ 51
  | FFinite neg m e =>
      if m <? 2 ^ 52 then sign_bit neg + m
      else sign_bit neg + (e + 1075) * 2 ^ 52 + (m - 2 ^ 52)
  end.

(** [num / den] rounded to an integer, ties to even. *)
Definition round_half_even (num den : Z) : Z :=
  let q := num / den in
  match 2 * (num mod den) ?= den with
  | Lt => q
  | Gt => q + 1
  | Eq => if Z.even q then q else q + 1
  end.

(** [num / den / 2^e], rounded down and rounded to nearest. *)
Definition scaled_floor (num den e : Z) : Z :=
  if e <? 0 then (num * 2 ^ (- e)) / den else num / (den * 2 ^ e).
Definition scaled_round (num den e : Z) : Z :=
  if e <? 0 then round_half_even (num * 2 ^ (- e)) den
  else round_half_even num (den * 2 ^ e).

(** The [double] nearest to [(-1)^neg * num / den] ([0 <= num], [0 < den]),
    ties to even: the rounding of [strtod] and of integer-to-[double]
    conversion.  The exponent [e] is chosen so that the quotient has 53
    bits, or is [-1074] for a subnormal result. *)
Definition round_to_double (neg : bool) (num den : Z) : fpval :=
  if num =? 0 then FZero neg
  else
    let e0 := Z.log2 num - Z.log2 den - 52 in
    let e1 := if scaled_floor num den e0 <? 2 ^ 52 then e0 - 1 else e0 in
    let e := Z.max e1 (-1074) in
    let m := scaled_round num den e in
    if m =? 0 then FZero neg
    else
      let m' := if m =? 2 ^ 53 then 2 ^ 52 else m in
      let e' := if m =? 2 ^ 53 then e + 1 else e in
      if 971 <? e' then FInf neg else FFinite neg m' e'.

(** [(double)z] for an [int64_t] [z]. *)
Definition double_of_int64 (z : Z) : Z :=
  encode_double (round_to_double (z <? 0) (Z.abs z) 1).

(** [(int64_t)d]: the value truncated toward zero.  Out of the range of
    [int64_t] the C++ conversion is undefined; the model takes what the
    x86-64 instruction ([cvttsd2si]) gives there, [INT64_MIN]. *)
Definition int64_of_double (bits : Z) : Z :=
  match decode_double bits with
  | FZero _ => 0
  | FInf _ | FNaN => - 2 ^ 63
  | FFinite neg m e =>
      let t := if e <? 0 then m / 2 ^ (- e) else m * 2 ^ e in
      let z := if neg then - t else t in
      if (- 2 ^ 63 <=? z) && (z <? 2 ^ 63) then z else - 2 ^ 63
  end.

(** [a == b] on [double]. *)
Definition double_eqb (a b : Z) : bool :=
  match decode_double a, decode_double b with
  | FNaN, _ | _, FNaN => false
  | FZero _, FZero _ => true
  | _, _ => a =? b
  end.

(** The integer [z] is the exact value of the number [x]. *)
Definition fp_is_integer (x : fpval) (z : Z) : Prop :=
  match x with
  | FZero _ => z = 0
  | FInf _ | FNaN => False
  | FFinite neg m e =>
      if e <? 0 then (if neg then - m else m) = z * 2 ^ (- e)
      else z = (if neg then - m else m) * 2 ^ e
  end.

(** ** Decimal digits *)

Definition digit_char (d : Z) : ascii := byte_of (48 + d).

Definition is_digit (c : ascii) : bool :=
  (48 <=? Z_of_byte c) && (Z_of_byte c <=? 57).

Definition digit_value (c : ascii) : Z := Z_of_byte c - 48.

(** The decimal digits of [n], most significant first, in front of [acc]. *)
Fixpoint decimal_digits (fuel : nat) (n : Z) (acc : string) : string :=
  let acc' := String (digit_char (n mod 10)) acc in
  match fuel with
  | O => acc'
  | S f => if n <? 10 then acc' else decimal_digits f (n / 10) acc'
  end.

Definition print_uint (n : Z) : string :=
  decimal_digits (Z.to_nat (Z.log2 n)) n "".

(** [os << z] for an [int64_t] [z]. *)
Definition print_int64 (z : Z) : string :=
  if z <? 0 then String "-" (print_uint (- z)) else print_uint z.

(** The number a string of decimal digits denotes, continuing from [acc]. *)
Fixpoint digits_value (s : string) (acc : Z) : Z :=
  match s with
  | "" => acc
  | String c r => digits_value r (10 * acc + digit_value c)
  end.

(** ** [os << d] for a [double]: [printf("%.6g", d)] *)

(** How many times [den] can be multiplied by ten and stay at most [num]. *)
Fixpoint log10_up (fuel : nat) (num den k : Z) : Z :=
  match fuel with
  | O => k
  | S f => if den * 10 <=? num then log10_up f num (den * 10) (k + 1) else k
  end.

(** Minus the number of times [num] must be multiplied by ten to reach [den]. *)
Fixpoint log10_down (fuel : nat) (num den k : Z) : Z :=
  match fuel with
  | O => k
  | S f => if num <? den then log10_down f (num * 10) den (k - 1) else k
  end.

(** The decimal exponent [X] of [num / den]: [10^X <= num/den < 10^(X+1)]. *)
Definition floor_log10 (num den : Z) : Z :=
  if den <=? num then log10_up (S (Z.to_nat (Z.log2 num))) num den 0
  else log10_down (S (Z.to_nat (Z.log2 den))) num den 0.

Fixpoint zeros_text (n : nat) : string :=
  match n with O => "" | S n' => String "0" (zeros_text n') end.

Fixpoint strip_zeros_rev (l : list ascii) : list ascii :=
  match l with
  | c :: r => if Ascii.eqb c "0" then strip_zeros_rev r else l
  | [] => []
  end.

(** [s] without its trailing zeros. *)
Definition strip_trailing_zeros (s : string) : string :=
  string_of_list_ascii (rev (strip_zeros_rev (rev (list_ascii_of_string s)))).

Definition with_fraction (int_part frac : string) : string :=
  match strip_trailing_zeros frac with
  | "" => int_part
  | f => int_part ++ "." ++ f
  end.

(** A decimal exponent: sign and at least two digits. *)
Definition print_exponent (X : Z) : string :=
  (if X <? 0 then "-" else "+")
  ++ (if Z.abs X <? 10 then "0" else "") ++ print_uint (Z.abs X).

(** [%.6g] of the positive number [num / den]. *)
Definition format_g (num den : Z) : string :=
  let X0 := floor_log10 num den in
  let scaled0 :=
    if X0 <=? 5 then round_half_even (num * 10 ^ (5 - X0)) den
    else round_half_even num (den * 10 ^ (X0 - 5)) in
  let X := if scaled0 =? 10 ^ 6 then X0 + 1 else X0 in
  let scaled := if scaled0 =? 10 ^ 6 then 10 ^ 5 else scaled0 in
  let digits := print_uint scaled in
  if (X <? -4) || (6 <=? X) then
    match digits with
    | String d frac => with_fraction (String d "") frac ++ "e" ++ print_exponent X
    | "" => ""
    end
  else if X <? 0 then
    with_fraction "0" (zeros_text (Z.to_nat (- X - 1)) ++ digits)
  else
    with_fraction (substring 0 (Z.to_nat (X + 1)) digits)
                  (substring (Z.to_nat (X + 1)) (6 - Z.to_nat (X + 1)) digits).

Definition print_double (bits : Z) : string :=
  let sign := if 2 ^ 63 <=? bits then "-" else "" in
  match decode_double bits with
  | FNaN => sign ++ "nan"
  | FInf _ => sign ++ "inf"
  | FZero _ => sign ++ "0"
  | FFinite _ m e =>
      sign ++ (if e <? 0 then format_g m (2 ^ (- e)) else format_g (m * 2 ^ e) 1)
  end.

(** ** Character input *)

(** The double quote. *)
Definition dquote : ascii := "034"%char.

(** [std::isspace] in the "C" locale: what formatted input skips. *)
Definition is_space (c : ascii) : bool :=
  (Z_of_byte c =? 32) || ((9 <=? Z_of_byte c) && (Z_of_byte c <=? 13)).

(** [is.get(c)]: [None] when [c] is left as it was. *)
Definition istream_get (ist : istream) : option ascii * istream :=
  if good ist then
    match buf ist with
    | "" => (None, mk_istream "" true true)
    | String c r => (Some c, mk_istream r false false)
    end
  else (None, setstate_failbit ist).

(** [is.putback(c)]: [eofbit] is cleared first; the character goes back
    unless the stream has failed. *)
Definition istream_putback (c : ascii) (ist : istream) : istream :=
  if failbit ist then mk_istream (buf ist) false true
  else mk_istream (String c (buf ist)) false false.

Fixpoint skip_space (s : string) : string :=
  match s with
  | String c r => if is_space c then skip_space r else s
  | "" => ""
  end.

(** [is >> c] for a [char]: white space is skipped first. *)
Definition istream_extract_char (ist : istream) : option ascii * istream :=
  if good ist then
    match skip_space (buf ist) with
    | "" => (None, mk_istream "" true true)
    | String c r => (Some c, mk_istream r false false)
    end
  else (None, setstate_failbit ist).

(** The characters before the first [delim], and what follows it. *)
Fixpoint split_at (delim : ascii) (s : string) : string * option string :=
  match s with
  | "" => ("", None)
  | String c r =>
      if Ascii.eqb c delim then ("", Some r)
      else let (k, rest) := split_at delim r in (String c k, rest)
  end.

(** [std::getline(is, key, delim)] into an empty [key]. *)
Definition istream_getline (delim : ascii) (ist : istream) : string * istream :=
  if good ist then
    match split_at delim (buf ist) with
    | (key, Some r) => (key, mk_istream r false false)
    | (key, None) => (key, mk_istream "" true (String.length key =? 0)%nat)
    end
  else ("", setstate_failbit ist).

(** The local [c] after a read that may have failed. *)
Definition latest (c : ascii) (oc : option ascii) : ascii :=
  match oc with Some x => x | None => c end.

(** ** [is >> d] for a [double]

    The characters [std::num_get] gathers for a floating-point number
    (libstdc++, "C" locale): a sign, leading zeros taken as one, then
    digits, one decimal point and one exponent with its sign. *)
Fixpoint scan_zeros (s xtrc : string) (mantissa : bool) : string * string * bool :=
  match s with
  | String c r =>
      if Ascii.eqb c "0" then scan_zeros r (if mantissa then xtrc else xtrc ++ "0") true
      else (s, xtrc, mantissa)
  | "" => ("", xtrc, mantissa)
  end.

Fixpoint scan_digits (s xtrc : string) (mantissa dec sci : bool) : string * string :=
  match s with
  | "" => (xtrc, "")
  | String c r =>
      if is_digit c then scan_digits r (xtrc ++ String c "") true dec sci
      else if Ascii.eqb c "." && negb dec && negb sci then
        scan_digits r (xtrc ++ ".") mantissa true sci
      else if (Ascii.eqb c "e" || Ascii.eqb c "E") && negb sci && mantissa then
        match r with
        | "" => (xtrc ++ "e", "")
        | String c2 r2 =>
            if Ascii.eqb c2 "+" || Ascii.eqb c2 "-" then
              scan_digits r2 (xtrc ++ "e" ++ String c2 "") mantissa dec true
            else scan_digits r (xtrc ++ "e") mantissa dec true
        end
      else (xtrc, s)
  end.

(** The gathered characters and the rest of the input. *)
Definition scan_float (s : string) : string * string :=
  let '(s1, xtrc1) :=
    match s with
    | String c r =>
        if Ascii.eqb c "+" || Ascii.eqb c "-" then (r, String c "") else (s, "")
    | "" => ("", "")
    end in
  let '(s2, xtrc2, mantissa) := scan_zeros s1 xtrc1 false in
  scan_digits s2 xtrc2 mantissa false false.

(** The digits [s] starts with, and what follows them. *)
Fixpoint span_digits (s : string) : string * string :=
  match s with
  | String c r =>
      if is_digit c then let (d, rest) := span_digits r in (String c d, rest)
      else ("", s)
  | "" => ("", "")
  end.

(** [strtod] on the gathered characters: the nearest [double] when the
    whole of [xtrc] is a decimal number, [None] when it is not. *)
Definition strtod (xtrc : string) : option fpval :=
  let '(neg, s1) :=
    match xtrc with
    | String c r =>
        if Ascii.eqb c "-" then (true, r)
        else if Ascii.eqb c "+" then (false, r) else (false, xtrc)
    | "" => (false, "")
    end in
  let (int_part, s2) := span_digits s1 in
  let (frac, s3) :=
    match s2 with
    | String c r => if Ascii.eqb c "." then span_digits r else ("", s2)
    | "" => ("", "")
    end in
  if (String.length int_part + String.length frac =? 0)%nat then None
  else
    let exponent : option Z :=
      match s3 with
      | "" => Some 0
      | String c r =>
          if Ascii.eqb c "e" then
            let '(eneg, s4) :=
              match r with
              | String c2 r2 =>
                  if Ascii.eqb c2 "-" then (true, r2)
                  else if Ascii.eqb c2 "+" then (false, r2) else (false, r)
              | "" => (false, "")
              end in
            match span_digits s4 with
            | (String d ds, "") =>
                let e := digits_value (String d ds) 0 in
                Some (if eneg then - e else e)
            | _ => None
            end
          else None
      end in
    match exponent with
    | None => None
    | Some e10 =>
        let M := digits_value (int_part ++ frac) 0 in
        let E := e10 - Z.of_nat (String.length frac) in
        Some (if E <? 0 then round_to_double neg M (10 ^ (- E))
              else round_to_double neg (M * 10 ^ E) 1)
    end.

(** [std::numeric_limits<double>::max()]. *)
Definition DBL_MAX : Z := 2047 * 2 ^ 52 - 1.

(** [is >> d]: [None] when [d] is left as it was (the stream was not good,
    or ended in the white space).  A token that is no number stores [0.0],
    one too large stores [DBL_MAX] with its sign, both with [failbit]. *)
Definition istream_extract_double (ist : istream) : option Z * istream :=
  if good ist then
    match skip_space (buf ist) with
    | "" => (None, mk_istream "" true true)
    | s =>
        let (xtrc, rest) := scan_float s in
        let eof := match rest with "" => true | _ => false end in
        match strtod xtrc with
        | None => (Some 0, mk_istream rest eof true)
        | Some (FInf neg) => (Some (sign_bit neg + DBL_MAX), mk_istream rest eof true)
        | Some x => (Some (encode_double x), mk_istream rest eof false)
        end
    end
  else (None, setstate_failbit ist).

(** [if (d == (int64_t)d) value = ConValue((int64_t)d); else value = ConValue(d);] *)
Definition number_value (d : Z) : ConValue :=
  if double_eqb d (double_of_int64 (int64_of_double d))
  then VInteger (int64_of_double d)
  else VFloat d.

(** ** The printer: [operator<<] *)

Fixpoint join_comma (l : list string) : string :=
  match l with
  | [] => ""
  | [x] => x
  | x :: r => x ++ ", " ++ join_comma r
  end.

Definition print_entry (print : ConValue -> string) (kv : string * ConValue) : string :=
  String dquote (fst kv) ++ String dquote ": " ++ print (snd kv).

(** [operator<<(std::ostream&, ConValue&)], with the operators for
    [ConArray] and [ConObject] it calls. *)
Fixpoint print_ConValue (value : ConValue) : string :=
  match value with
  | VNull => "null"
  | VBoolean b => if b then "true" else "false"
  | VInteger z => print_int64 z
  | VFloat d => print_double d
  | VString s => String dquote s ++ String dquote ""
  | VArray values => "[" ++ join_comma (map print_ConValue values) ++ "]"
  | VObject values =>
      "{" ++ join_comma (map (print_entry print_ConValue) values) ++ "}"
  | VInvalid _ => "Invalid type"
  end.

Definition print_ConArray (arr : ConArray) : string :=
  "[" ++ join_comma (map print_ConValue arr) ++ "]".
Definition print_ConObject (obj : ConObject) : string :=
  "{" ++ join_comma (map (print_entry print_ConValue) obj) ++ "}".

(** ** The parser: [operator>>] *)

(** What [eliminateWhitespace] skips. *)
Definition is_json_space (c : ascii) : bool :=
  Ascii.eqb c " " || Ascii.eqb c "010" || Ascii.eqb c "009" || Ascii.eqb c "013".

(** [while (is.get(c)) { if (c is no white space) { is.putback(c); break; } }] *)
Fixpoint eliminateWhitespace_loop (n : nat) (ist : istream) : istream :=
  match n with
  | O => ist
  | S n' =>
      match istream_get ist with
      | (Some c, ist1) =>
          if is_json_space c then eliminateWhitespace_loop n' ist1
          else istream_putback c ist1
      | (None, ist1) => ist1
      end
  end.

(** The loop ends with the stream: one turn per unread character, and one. *)
Definition eliminateWhitespace (ist : istream) : istream :=
  eliminateWhitespace_loop (S (String.length (buf ist))) ist.

(** [n] times [is.get(c)]. *)
Fixpoint get_n (n : nat) (ist : istream) : istream :=
  match n with
  | O => ist
  | S n' => get_n n' (snd (istream_get ist))
  end.

(** [while (true) { is.get(c); if (c == quote) break; str += c; }], [quote]
    being the double quote. *)
Fixpoint string_loop (fuel : nat) (c : ascii) (str : string) (ist : istream)
  : outcome string :=
  match fuel with
  | O => OutOfFuel
  | S f =>
      let (oc, ist1) := istream_get ist in
      let c1 := latest c oc in
      if Ascii.eqb c1 dquote then Returns str ist1
      else string_loop f c1 (str ++ String c1 "") ist1
  end.

(** [operator>>(std::istream&, ConArray&)] up to its loop. *)
Definition parse_ConArray_with
  (loop : ascii -> ConArray -> istream -> outcome ConArray)
  (ist : istream) : outcome ConArray :=
  let ist1 := eliminateWhitespace ist in
  match istream_extract_char ist1 with
  | (None, _) => Undefined
  | (Some c, ist2) =>
      if negb (Ascii.eqb c "[") then Returns [] (setstate_failbit ist2)
      else
        let ist3 := eliminateWhitespace ist2 in
        let (oc, ist4) := istream_extract_char ist3 in
        let c1 := latest c oc in
        if Ascii.eqb c1 "]" then Returns [] (eliminateWhitespace ist4)
        else loop c1 [] (istream_putback c1 ist4)
  end.

(** [operator>>(std::istream&, ConObject&)] up to its loop. *)
Definition parse_ConObject_with
  (loop : ascii -> ConObject -> istream -> outcome ConObject)
  (ist : istream) : outcome ConObject :=
  let ist1 := eliminateWhitespace ist in
  match istream_extract_char ist1 with
  | (None, _) => Undefined
  | (Some c, ist2) =>
      if negb (Ascii.eqb c "{") then Returns [] (setstate_failbit ist2)
      else
        let ist3 := eliminateWhitespace ist2 in
        let (oc, ist4) := istream_extract_char ist3 in
        let c1 := latest c oc in
        if Ascii.eqb c1 "}" then Returns [] (eliminateWhitespace ist4)
        else loop c1 [] (istream_putback c1 ist4)
  end.

(** [operator>>(std::istream&, ConValue&)] on a fresh [ConValue], and the
    [while (true)] loops of the array and object operators.  The result is
    the value left in the out-parameter; a parse failure shows as [failbit]
    of the stream returned with it. *)
Fixpoint parse_ConValue (fuel : nat) (ist : istream) {struct fuel} : outcome ConValue :=
  match fuel with
  | O => OutOfFuel
  | S f =>
    let ist1 := eliminateWhitespace ist in
    match istream_get ist1 with
    | (None, _) => Undefined
    | (Some c, ist2) =>
      let ist3 := istream_putback c ist2 in
      if Ascii.eqb c "n" then Returns VNull ist3
      else if Ascii.eqb c "t" || Ascii.eqb c "f" then
        let ist4 := eliminateWhitespace ist3 in
        let b := Ascii.eqb c "t" in
        Returns (VBoolean b) (get_n (if b then 4 else 5) ist4)
      else if Ascii.eqb c dquote then
        let ist4 := eliminateWhitespace ist3 in
        let (oc, ist5) := istream_get ist4 in
        let c1 := latest c oc in
        let ist6 := if Ascii.eqb c1 dquote then ist5 else setstate_failbit ist5 in
        match string_loop f c1 "" ist6 with
        | Returns str ist7 => Returns (VString str) ist7
        | Undefined => Undefined
        | OutOfFuel => OutOfFuel
        end
      else if Ascii.eqb c "[" then
        let ist4 := eliminateWhitespace ist3 in
        match parse_ConArray_with (parse_ConArray_loop f) ist4 with
        | Returns arr ist5 => Returns (VArray arr) ist5
        | Undefined => Undefined
        | OutOfFuel => OutOfFuel
        end
      else if Ascii.eqb c "{" then
        let ist4 := eliminateWhitespace ist3 in
        match parse_ConObject_with (parse_ConObject_loop f) ist4 with
        | Returns obj ist5 => Returns (VObject obj) ist5
        | Undefined => Undefined
        | OutOfFuel => OutOfFuel
        end
      else
        let ist4 := eliminateWhitespace ist3 in
        match istream_extract_double ist4 with
        | (None, _) => Undefined
        | (Some d, ist5) => Returns (number_value d) ist5
        end
    end
  end

with parse_ConArray_loop (fuel : nat) (c : ascii) (values : ConArray) (ist : istream)
  {struct fuel} : outcome ConArray :=
  match fuel with
  | O => OutOfFuel
  | S f =>
    let ist1 := eliminateWhitespace ist in
    match parse_ConValue f ist1 with
    | Returns value ist2 =>
        let values1 := (values ++ [value])%list in
        let ist3 := eliminateWhitespace ist2 in
        let (oc, ist4) := istream_extract_char ist3 in
        let c1 := latest c oc in
        if Ascii.eqb c1 "]" then Returns values1 ist4
        else if negb (Ascii.eqb c1 ",") then Returns values1 (setstate_failbit ist4)
        else parse_ConArray_loop f c1 values1 ist4
    | Undefined => Undefined
    | OutOfFuel => OutOfFuel
    end
  end

with parse_ConObject_loop (fuel : nat) (c : ascii) (obj : ConObject) (ist : istream)
  {struct fuel} : outcome ConObject :=
  match fuel with
  | O => OutOfFuel
  | S f =>
    let ist1 := eliminateWhitespace ist in
    let (oc, ist2) := istream_extract_char ist1 in
    let c1 := latest c oc in
    if negb (Ascii.eqb c1 dquote) then Returns obj (setstate_failbit ist2)
    else
      let (key, ist3) := istream_getline dquote ist2 in
      let ist4 := eliminateWhitespace ist3 in
      let (oc2, ist5) := istream_extract_char ist4 in
      let c2 := latest c1 oc2 in
      if negb (Ascii.eqb c2 ":") then Returns obj (setstate_failbit ist5)
      else
        let ist6 := eliminateWhitespace ist5 in
        match parse_ConValue f ist6 with
        | Returns value ist7 =>
            if failbit ist7 then Returns obj ist7
            else
              let obj1 := map_assign key value obj in
              let ist8 := eliminateWhitespace ist7 in
              let (oc3, ist9) := istream_extract_char ist8 in
              let c3 := latest c2 oc3 in
              if Ascii.eqb c3 "}" then Returns obj1 ist9
              else if negb (Ascii.eqb c3 ",") then Returns obj1 (setstate_failbit ist9)
              else parse_ConObject_loop f c3 obj1 ist9
        | Undefined => Undefined
        | OutOfFuel => OutOfFuel
        end
  end.

Definition parse_ConArray (fuel : nat) : istream -> outcome ConArray :=
  parse_ConArray_with (parse_ConArray_loop fuel).
Definition parse_ConObject (fuel : nat) : istream -> outcome ConObject :=
  parse_ConObject_with (parse_ConObject_loop fuel).

(** ** Values the text round trip is stated for *)

(** No double quote in [s]. *)
Fixpoint quote_free (s : string) : Prop :=
  match s with
  | "" => True
  | String c r => c <> dquote /\ quote_free r
  end.

(** [z] is the exact value of some [double]: it has at most 53 significant
    bits. *)
Definition exact_in_double (z : Z) : Prop :=
  Z.log2 (Z.abs z) <= 52 \/ Z.abs z mod 2 ^ (Z.log2 (Z.abs z) - 52) = 0.

(** Values whose text the parser reads back, wherever they stand in a
    document: Booleans, [int64_t] integers that are exact as [double],
    strings and keys without a double quote, arrays and maps of such. *)
Fixpoint text_stable (v : ConValue) : Prop :=
  match v with
  | VNull | VFloat _ | VInvalid _ => False
  | VBoolean _ => True
  | VInteger z => - 2 ^ 63 <= z < 2 ^ 63 /\ exact_in_double z
  | VString s => quote_free s
  | VArray vs =>
      (fix all (l : list ConValue) : Prop :=
         match l with [] => True | x :: r => text_stable x /\ all r end) vs
  | VObject kvs =>
      keys_sorted kvs /\
      (fix all (l : list (string * ConValue)) : Prop :=
         match l with
         | [] => True
         | kv :: r => (quote_free (fst kv) /\ text_stable (snd kv)) /\ all r
         end) kvs
  end.

(** The text behind a number does not continue it: it is empty or starts
    with a comma or a closing bracket. *)
Definition number_stops (rest : string) : Prop :=
  match rest with
  | "" => True
  | String c _ => c = ","%char \/ c = "]"%char \/ c = "}"%char
  end.

(** The stream after the text of [v] was parsed, [rest] being what followed
    it: a number that ran to the end of input raises [eofbit]; an empty
    array or object has [eliminateWhitespace] run behind it. *)
Definition after_value (v : ConValue) (rest : string) : istream :=
  match v with
  | VInteger _ =>
      mk_istream rest (match rest with "" => true | _ => false end) false
  | VArray [] | VObject [] => eliminateWhitespace (istream_of rest)
  | _ => istream_of rest
  end.

(** The numbers a bit pattern decodes to: a subnormal or a normal mantissa
    with its exponent in range. *)
Definition canonical (x : fpval) : Prop :=
  match x with
  | FFinite _ m e =>
      (0 < m < 2 ^ 52 /\ e = -1074) \/ (2 ^ 52 <= m < 2 ^ 53 /\ -1074 <= e <= 971)
  | _ => True
  end.

(** The mantissa of the [double] that is the positive integer [z], when
    [z] is exact as a [double]; its exponent is [Z.log2 z - 52]. *)
Definition int_mantissa (z : Z) : Z :=
  if Z.log2 z <=? 52 then z * 2 ^ (52 - Z.log2 z) else z / 2 ^ (Z.log2 z - 52).

(** Decimal digits only. *)
Fixpoint all_digits (s : string) : Prop :=
  match s with "" => True | String c r => is_digit c = true /\ all_digits r end.

(** Decoding the bytes written for [v] at [level], whatever follows them on
    the stream, returns [v] and leaves what follows unread. *)
Definition reads_back_with (zcompress zdecompress : string -> string)
  (v : ConValue) (level : Z) : Prop :=
  forall rest,
    eventually
      (fun fuel =>
         ConValue_read zdecompress fuel
           (istream_of (ConValue_write zcompress v level ++ rest)))
      (Returns v (istream_of rest)).

(** Parsing the text printed for [v], with [rest] behind it, returns [v]. *)
Definition parses_back (v : ConValue) : Prop :=
  forall rest,
    number_stops rest ->
    eventually
      (fun fuel => parse_ConValue fuel (istream_of (print_ConValue v ++ rest)))
      (Returns v (after_value v rest)).

(** [sp] is nothing or one blank. *)
Definition blank_or_empty (sp : string) : Prop := sp = "" \/ sp = " ".

(** ** Notions the properties are stated with *)

(** The serialized body of a String, Array or Object node: what the
    encoder measures against the threshold and then stores, compressed or
    not. *)
Definition node_body (zcompress : string -> string) (v : ConValue) (level : Z)
  : option string :=
  match v with
  | VString str => Some str
  | VArray values => Some (ConArray_write zcompress values level)
  | VObject values => Some (ConObject_write zcompress values level)
  | _ => None
  end.

(** The byte behind the tag byte of an encoding. *)
Definition stored_flag (bytes : string) : option Z :=
  match bytes with
  | String _ (String flag _) => Some (Z_of_byte flag)
  | _ => None
  end.

(** A compression pair that stores its input as it is. *)
Definition store_only (s : string) : string := s.

(** [s] between double quotes. *)
Definition quoted (s : string) : string := String dquote s ++ String dquote "".

(** ** Sample values and texts *)

(** An object with a nested array and a string of 300 bytes: its body is
    over the threshold, so the root is stored compressed. *)
Definition sample_value : ConValue :=
  VObject [("a", VArray [VNull; VBoolean true; VInteger (-2); VFloat (2 ^ 62)]);
           ("b", VString (zeros_text 300))].


(** A string of 10000 bytes. *)
Definition long_string : string := zeros_text (Z.to_nat 10000).

(** A document of the kinds of value whose text is read back. *)
Definition sample_document : ConValue :=
  VObject [("a", VArray [VBoolean true; VInteger (-2); VString "x y"; VArray []]);
           ("b", VInteger 9007199254740992)].

(** The stream a whole document leaves behind: the parser does not take
    the characters of [null] off the stream. *)
Definition document_end (v : ConValue) : istream :=
  match v with
  | VNull => istream_of "null"
  | _ => after_value v ""
  end.

(** The text [{"a": 1,}]: a comma and no second key. *)
Definition trailing_comma_text : string := "{" ++ quoted "a" ++ ": 1,}".

(** The text [{"b": 1, "a": 2}]. *)
Definition unsorted_text : string :=
  "{" ++ quoted "b" ++ ": 1, " ++ quoted "a" ++ ": 2}".

(** The text [{"a": 1, "a": 2}]: one key twice. *)
Definition duplicate_key_text : string :=
  "{" ++ quoted "a" ++ ": 1, " ++ quoted "a" ++ ": 2}".

(** A document in a layout of its own, on two lines: no blank behind
    commas and colons, one before a colon and one before a bracket. *)
Definition sample_layout : string :=
  "{" ++ ("" ++ quoted "id" ++ "" ++ ":" ++ "" ++ print_int64 1 ++ "" ++ ","
          ++ (String "010" "" ++ quoted "tags" ++ " " ++ ":" ++ "" ++
              ("[" ++ ("" ++ quoted "a" ++ "" ++ "," ++ ("" ++ "true" ++ " ")) ++ "]")
              ++ "")) ++ "}".

(** The value of [sample_layout]. *)
Definition sample_layout_value : ConValue :=
  VObject
    (map_of_assignments
       [("id", VInteger 1); ("tags", VArray [VString "a"; VBoolean true])]).

(** The body of the root array that holds [long_string] alone: the count
    1, then the string as it is written one level down, with its tag, flag
    0, length and bytes. *)
Definition nested_long_string_body : string :=
  u64 1 ++ String (byte_of 4) (String (byte_of 0) (u64 10000 ++ long_string)).

(** A document with Floats in it: 42.5, 0.1 and 3.14159 in an array,
    -1.25e-07 and 1e+22 as entries. *)
Definition sample_numbers : ConValue :=
  VObject [("a", VArray [VFloat 0x4045400000000000; VFloat 0x3FB999999999999A;
                         VFloat 0x400921F9F01B866E;
                         VBoolean true; VString "x y"; VArray []]);
           ("b", VFloat 0xBE80C6F7A0B5ED8D);
           ("c", VFloat 0x4480F0CF064DD592);
           ("d", VInteger 9007199254740992)].

(** ** [ConObject::operator[]] *)

(** [obj[key]], for a [std::string] or a [const char*] key: a reference to
    the entry of [key].  [std::map::operator[]] first inserts a
    default-constructed [ConValue], which is Null, when the map has no
    entry for [key].  The result is the value referred to and the map
    afterwards. *)
Definition ConObject_subscript (key : string) (obj : ConObject) : ConValue * ConObject :=
  match map_find key obj with
  | Some value => (value, obj)
  | None => (VNull, map_assign key VNull obj)
  end.

(** ** [main]

    [main] opens [MOCK_DATA.json], parses one value from it, prints the
    value to [MOCK_DATA2.json] and writes it in binary form to
    [MOCK_DATA.con].  No stream state is looked at. *)

(** [std::ifstream f(name)]: a file that cannot be opened gives a stream
    with [failbit] set. *)
Definition ifstream_open (file : option string) : istream :=
  match file with
  | Some contents => istream_of contents
  | None => mk_istream "" false true
  end.

(** The two files [main] writes. *)
Record output_files : Type :=
  mk_output_files { MOCK_DATA2_json : string; MOCK_DATA_con : string }.

(** [main], from the contents of [MOCK_DATA.json] ([None]: there is no such
    file) to the files written; the stream is the input stream as the
    parser left it. *)
Definition main (zcompress : string -> string) (fuel : nat)
  (MOCK_DATA_json : option string) : outcome output_files :=
  match parse_ConValue fuel (ifstream_open MOCK_DATA_json) with
  | Returns value randomjson =>
      Returns (mk_output_files (print_ConValue value) (ConValue_write zcompress value 0))
        randomjson
  | Undefined => Undefined
  | OutOfFuel => OutOfFuel
  end.

(** ** Further notions the properties are stated with *)

(** Only characters [eliminateWhitespace] skips: blank, tab, line feed,
    carriage return. *)
Fixpoint json_blank (s : string) : Prop :=
  match s with
  | "" => True
  | String c r => is_json_space c = true /\ json_blank r
  end.

(** How many containers are nested in [v]. *)
Fixpoint depth (v : ConValue) : Z :=
  match v with
  | VArray values => 1 + fold_right (fun x d => Z.max (depth x) d) 0 values
  | VObject values => 1 + fold_right (fun kv d => Z.max (depth (snd kv)) d) 0 values
  | _ => 0
  end.

(** The first character of a token is none of those [operator>>] takes for
    [null], [true], [false], a string, an array or an object: the token
    goes to the number branch. *)
Definition number_branch (c : ascii) : Prop :=
  Ascii.eqb c "n" = false /\ Ascii.eqb c "t" = false /\ Ascii.eqb c "f" = false
  /\ Ascii.eqb c dquote = false /\ Ascii.eqb c "[" = false /\ Ascii.eqb c "{" = false.

(** The stream [is >> d] leaves when it fails on a token: the characters it
    gathered are gone, [failbit] is set, and [eofbit] with it when the
    input ran out. *)
Definition failed_at (rest : string) : istream :=
  mk_istream rest (match rest with "" => true | _ => false end) true.

(** Every node of [v] has one of the seven types of [ConType]. *)
Fixpoint known_types (v : ConValue) : Prop :=
  match v with
  | VInvalid _ => False
  | VArray vs =>
      (fix all (l : list ConValue) : Prop :=
         match l with [] => True | x :: r => known_types x /\ all r end) vs
  | VObject kvs =>
      (fix all (l : list (string * ConValue)) : Prop :=
         match l with [] => True | kv :: r => known_types (snd kv) /\ all r end) kvs
  | _ => True
  end.

(** Decoding any proper prefix of the bytes written for [v] at [level]
    comes to a read the input cannot serve: the decoder goes on with an
    object that was not filled. *)
Definition cut_short_with (zcompress zdecompress : string -> string)
  (v : ConValue) (level : Z) : Prop :=
  forall p q,
    ConValue_write zcompress v level = p ++ q -> q <> "" ->
    eventually (fun fuel => ConValue_read zdecompress fuel (istream_of p)) Undefined.

(** The root of [v] is stored as it is: the body of a String, Array or
    Object root is not one the writer compresses at [level]. *)
Definition stored_plain (zcompress : string -> string) (v : ConValue) (level : Z) : Prop :=
  forall body,
    node_body zcompress v level = Some body ->
    COMPRESS_COMPARE (size body) level = false.

(** ** Documents in any layout *)

(** The text behind a number does not continue it: [is >> d] stops
    gathering at a character that is no digit, no decimal point and no
    exponent mark. *)
Definition number_ends (rest : string) : Prop :=
  match rest with
  | "" => True
  | String c _ =>
      is_digit c = false /\ Ascii.eqb c "." = false
      /\ Ascii.eqb c "e" = false /\ Ascii.eqb c "E" = false
  end.

(** What stands behind a value in a document: nothing, white space, a
    comma, a closing bracket or a closing brace. *)
Definition value_ends (rest : string) : Prop :=
  match rest with
  | "" => True
  | String c _ =>
      is_json_space c = true \/ c = ","%char \/ c = "]"%char \/ c = "}"%char
  end.

(** [t] is a number as [is >> d] reads it: it starts with a digit or a minus
    sign, [std::num_get] gathers exactly [t] whatever ends the number behind
    it, and [strtod] turns [t] into the finite [double] [x]. *)
Definition number_token (t : string) (x : fpval) : Prop :=
  (exists c r, t = String c r /\ (c = "-"%char \/ is_digit c = true))
  /\ (forall rest, number_ends rest -> scan_float (t ++ rest) = (t, rest))
  /\ strtod t = Some x
  /\ (forall neg, x <> FInf neg).

(** The stream after a value was parsed, [rest] being what followed its
    text: a number that ran to the end of the input raises [eofbit]; an
    empty array or object has [eliminateWhitespace] run behind it. *)
Definition after_parsed (v : ConValue) (rest : string) : istream :=
  match v with
  | VInteger _ | VFloat _ =>
      mk_istream rest (match rest with "" => true | _ => false end) false
  | VArray [] | VObject [] => eliminateWhitespace (istream_of rest)
  | _ => istream_of rest
  end.

(** [denotes t v]: the text [t] is a document for the value [v].  White
    space (blank, tab, line feed, carriage return) may stand around every
    value, key, comma and colon.  The literals are [true] and [false],
    strings hold no double quote, numbers are number tokens; the entries of
    an object are assigned in the order of the text. *)
Inductive denotes : string -> ConValue -> Prop :=
| denotes_true : denotes "true" (VBoolean true)
| denotes_false : denotes "false" (VBoolean false)
| denotes_Number (t : string) (x : fpval) :
    number_token t x -> denotes t (number_value (encode_double x))
| denotes_String (s : string) :
    quote_free s -> denotes (quoted s) (VString s)
| denotes_empty_Array (ws : string) :
    json_blank ws -> denotes ("[" ++ ws ++ "]") (VArray [])
| denotes_Array (body : string) (v : ConValue) (vs : list ConValue) :
    elements body (v :: vs) -> denotes ("[" ++ body ++ "]") (VArray (v :: vs))
| denotes_empty_Object (ws : string) :
    json_blank ws -> denotes ("{" ++ ws ++ "}") (VObject [])
| denotes_Object (body : string) (kv : string * ConValue)
    (kvs : list (string * ConValue)) :
    entries body (kv :: kvs) ->
    denotes ("{" ++ body ++ "}") (VObject (map_of_assignments (kv :: kvs)))

with elements : string -> list ConValue -> Prop :=
| elements_last (ws1 t ws2 : string) (v : ConValue) :
    json_blank ws1 -> denotes t v -> json_blank ws2 ->
    elements (ws1 ++ t ++ ws2) [v]
| elements_more (ws1 t ws2 body : string) (v : ConValue) (vs : list ConValue) :
    json_blank ws1 -> denotes t v -> json_blank ws2 -> elements body vs ->
    elements (ws1 ++ t ++ ws2 ++ "," ++ body) (v :: vs)

with entries : string -> list (string * ConValue) -> Prop :=
| entries_last (ws1 k ws2 ws3 t ws4 : string) (v : ConValue) :
    json_blank ws1 -> quote_free k -> json_blank ws2 -> json_blank ws3 ->
    denotes t v -> json_blank ws4 ->
    entries (ws1 ++ quoted k ++ ws2 ++ ":" ++ ws3 ++ t ++ ws4) [(k, v)]
| entries_more (ws1 k ws2 ws3 t ws4 body : string) (v : ConValue)
    (kvs : list (string * ConValue)) :
    json_blank ws1 -> quote_free k -> json_blank ws2 -> json_blank ws3 ->
    denotes t v -> json_blank ws4 -> entries body kvs ->
    entries (ws1 ++ quoted k ++ ws2 ++ ":" ++ ws3 ++ t ++ ws4 ++ "," ++ body)
      ((k, v) :: kvs).

Scheme denotes_mut := Minimality for denotes Sort Prop
  with elements_mut := Minimality for elements Sort Prop
  with entries_mut := Minimality for entries Sort Prop.

Combined Scheme denotes_elements_entries_ind
  from denotes_mut, elements_mut, entries_mut.

(** What the parser does on a document, on the elements of an array and on
    the entries of an object. *)
Definition parses_to (t : string) (v : ConValue) : Prop :=
  forall rest,
    value_ends rest ->
    eventually (fun fuel => parse_ConValue fuel (istream_of (t ++ rest)))
      (Returns v (after_parsed v rest)).

Definition elements_parse_to (body : string) (vs : list ConValue) : Prop :=
  forall (c : ascii) (acc : ConArray) (rest : string),
    eventually
      (fun fuel => parse_ConArray_loop fuel c acc (istream_of (body ++ String "]" rest)))
      (Returns (acc ++ vs)%list (istream_of rest)).

Definition entries_parse_to (body : string) (kvs : list (string * ConValue)) : Prop :=
  forall (c : ascii) (obj : ConObject) (rest : string),
    eventually
      (fun fuel => parse_ConObject_loop fuel c obj (istream_of (body ++ String "}" rest)))
      (Returns (fold_left (fun m e => map_assign (fst e) (snd e) m) kvs obj)
         (istream_of rest)).

(** ** Numbers whose text is exact *)

(** The text [%.6g] writes for a finite number: digits with no zero in
    front of them unless it is the only one, then a decimal point with
    digits, then an exponent with its sign, each of the two or none. *)
Definition fraction_part (s : string) : Prop :=
  s = "" \/ exists f, s = "." ++ f /\ all_digits f.

Definition exponent_part (s : string) : Prop :=
  s = "" \/ exists sg n,
      s = "e" ++ String sg n /\ (sg = "+"%char \/ sg = "-"%char) /\ all_digits n.

Definition decimal_text (t : string) : Prop :=
  exists c i f e,
    t = String c i ++ f ++ e
    /\ is_digit c = true /\ all_digits i /\ (c = "0"%char -> i = "")
    /\ fraction_part f /\ exponent_part e.

(** [num / den / 2^e] as a fraction [scaled_num / scaled_den]. *)
Definition scaled_num (num e : Z) : Z := if e <? 0 then num * 2 ^ (- e) else num.
Definition scaled_den (den e : Z) : Z := if e <? 0 then den else den * 2 ^ e.

(** The value [m * 2^e] of a finite [double] as a fraction. *)
Definition double_num (m e : Z) : Z := if e <? 0 then m else m * 2 ^ e.
Definition double_den (e : Z) : Z := if e <? 0 then 2 ^ (- e) else 1.

(** [X] is the decimal exponent of the positive number [num / den]:
    [10^X <= num / den < 10^(X + 1)]. *)
Definition decimal_exponent_is (num den X : Z) : Prop :=
  if X <? 0 then den <= num * 10 ^ (- X) < den * 10
  else den * 10 ^ X <= num < den * 10 ^ (X + 1).

(** The six significant digits of [num / den], whose decimal exponent is
    [X], as an integer: [num / den * 10^(5 - X)] rounded to the nearest
    integer, ties to even. *)
Definition six_digits (num den X : Z) : Z :=
  if X <=? 5 then round_half_even (num * 10 ^ (5 - X)) den
  else round_half_even num (den * 10 ^ (X - 5)).

(** The [double] nearest to [(-1)^neg * M * 10^E]. *)
Definition decimal_to_double (neg : bool) (M E : Z) : fpval :=
  if E <? 0 then round_to_double neg M (10 ^ (- E))
  else round_to_double neg (M * 10 ^ E) 1.

(** The [double] with the bits [d] is the one six digits stand for: it is
    finite and not zero, it is the [double] nearest to its own value
    rounded to six significant decimal digits, and its value is no
    [int64_t], so that the parser keeps it a Float.  42.5 and 0.1 are such,
    42.0 and 0.1234567 are not. *)
Definition decimal_exact (d : Z) : Prop :=
  0 <= d < 2 ^ 64
  /\ exists (neg : bool) (m e : Z),
       decode_double d = FFinite neg m e
       /\ (exists X : Z,
              decimal_exponent_is (double_num m e) (double_den e) X
              /\ decimal_to_double neg
                   (six_digits (double_num m e) (double_den e) X) (X - 5)
                 = FFinite neg m e)
       /\ (forall z, - 2 ^ 63 <= z < 2 ^ 63 -> ~ fp_is_integer (FFinite neg m e) z).

(** The values of the text round trip: Booleans, [int64_t] integers that
    are exact as [double], Floats that six digits stand for, strings and
    keys without a double quote, arrays and maps of such. *)
Fixpoint text_exact (v : ConValue) : Prop :=
  match v with
  | VNull | VInvalid _ => False
  | VBoolean _ => True
  | VInteger z => - 2 ^ 63 <= z < 2 ^ 63 /\ exact_in_double z
  | VFloat d => decimal_exact d
  | VString s => quote_free s
  | VArray vs =>
      (fix all (l : list ConValue) : Prop :=
         match l with [] => True | x :: r => text_exact x /\ all r end) vs
  | VObject kvs =>
      keys_sorted kvs /\
      (fix all (l : list (string * ConValue)) : Prop :=
         match l with
         | [] => True
         | kv :: r => (quote_free (fst kv) /\ text_exact (snd kv)) /\ all r
         end) kvs
  end.

(** * Properties *)

(** ** Bytes and fixed-width integers *)

Lemma append_assoc (a b c : string) : (a ++ b) ++ c = a ++ (b ++ c).
Proof. induction a as [|x a IH]; simpl; [reflexivity | now rewrite IH]. Qed.

Lemma append_nil_r (a : string) : a ++ "" = a.
Proof. induction a as [|x a IH]; simpl; [reflexivity | now rewrite IH]. Qed.

Lemma size_append (a b : string) : size (a ++ b) = size a + size b.
Proof.
  unfold size. induction a as [|x a IH]; simpl String.length; [reflexivity | lia].
Qed.

Lemma size_nonneg (s : string) : 0 <= size s.
Proof. unfold size. lia. Qed.

Lemma Z_of_byte_range (c : ascii) : 0 <= Z_of_byte c < 256.
Proof.
  unfold Z_of_byte. pose proof (N_ascii_bounded c). lia.
Qed.

Lemma Z_of_byte_of (n : Z) : Z_of_byte (byte_of n) = n mod 256.
Proof.
  unfold Z_of_byte, byte_of.
  pose proof (Z.mod_pos_bound n 256 ltac:(lia)).
  rewrite N_ascii_embedding by lia. lia.
Qed.

Lemma byte_of_Z_of (c : ascii) : byte_of (Z_of_byte c) = c.
Proof.
  unfold byte_of. pose proof (Z_of_byte_range c).
  rewrite Z.mod_small by lia. unfold Z_of_byte.
  rewrite N2Z.id. apply ascii_N_embedding.
Qed.

Lemma size_String (c : ascii) (s : string) : size (String c s) = 1 + size s.
Proof. unfold size. cbn [String.length]. lia. Qed.

Lemma size_encode_le (k : nat) (n : Z) : size (encode_le k n) = Z.of_nat k.
Proof.
  revert n. induction k as [|k IH]; intros n; cbn [encode_le]; [reflexivity|].
  rewrite size_String, IH. lia.
Qed.

Lemma decode_encode_le (k : nat) (n : Z) :
  decode_le (encode_le k n) = n mod 256 ^ Z.of_nat k.
Proof.
  revert n. induction k as [|k IH]; intros n.
  - simpl. now rewrite Z.mod_1_r.
  - cbn [encode_le decode_le]. rewrite IH, Z_of_byte_of.
    rewrite Nat2Z.inj_succ, Z.pow_succ_r by lia.
    rewrite (Z.rem_mul_r n 256 (256 ^ Z.of_nat k)) by lia. reflexivity.
Qed.

Lemma decode_u64 (n : Z) : 0 <= n < 2 ^ 64 -> decode_le (u64 n) = n.
Proof.
  intros H. unfold u64. rewrite decode_encode_le.
  change (256 ^ Z.of_nat 8) with (2 ^ 64). now apply Z.mod_small.
Qed.

Lemma decode_int64 (z : Z) :
  - 2 ^ 63 <= z < 2 ^ 63 -> to_int64 (decode_le (encode_le 8 z)) = z.
Proof.
  intros H. rewrite decode_encode_le.
  change (256 ^ Z.of_nat 8) with (2 ^ 64). unfold to_int64.
  destruct (Z.ltb_spec z 0) as [Hneg|Hpos].
  - replace (z mod 2 ^ 64) with (z + 2 ^ 64).
    + destruct (Z.ltb_spec (z + 2 ^ 64) (2 ^ 63)); lia.
    + apply Z.mod_unique with (q := -1); lia.
  - rewrite Z.mod_small by lia.
    destruct (Z.ltb_spec z (2 ^ 63)); lia.
Qed.


(** ** Reading from a stream *)

Lemma take_0 (s : string) : take 0 s = Some ("", s).
Proof. destruct s; reflexivity. Qed.

Lemma take_append (x rest : string) : take (size x) (x ++ rest) = Some (x, rest).
Proof.
  induction x as [|c x IH].
  - apply take_0.
  - rewrite size_String. cbn [append take].
    pose proof (size_nonneg x).
    destruct (Z.leb_spec (1 + size x) 0); [lia|].
    replace (1 + size x - 1) with (size x) by lia.
    now rewrite IH.
Qed.

Lemma istream_read_exact (n : Z) (x rest : string) :
  n = size x ->
  istream_read n (istream_of (x ++ rest)) = (Some x, istream_of rest).
Proof.
  intros ->. unfold istream_read, istream_of. cbn [good eofbit failbit negb andb buf].
  now rewrite take_append.
Qed.

Lemma istream_read_byte (c : ascii) (rest : string) :
  istream_read 1 (istream_of (String c rest)) = (Some (String c ""), istream_of rest).
Proof. apply (istream_read_exact 1 (String c "") rest). reflexivity. Qed.

Lemma istream_read_u64 (n : Z) (rest : string) :
  istream_read 8 (istream_of (u64 n ++ rest)) = (Some (u64 n), istream_of rest).
Proof. apply istream_read_exact. unfold u64. now rewrite size_encode_le. Qed.

Lemma decode_byte (t : Z) : 0 <= t < 256 -> decode_le (String (byte_of t) "") = t.
Proof.
  intros H. cbn [decode_le]. rewrite Z_of_byte_of, Z.mod_small by lia. lia.
Qed.

Lemma eventually_intro {A : Type} (f : nat -> outcome A) (r : outcome A) (n : nat) :
  (forall fuel, (n <= fuel)%nat -> f fuel = r) -> eventually f r.
Proof. intros H. now exists n. Qed.

(** ** The ordered map *)

Lemma key_compare_refl (k : string) : String_as_OT.compare k k = Eq.
Proof.
  destruct (String_as_OT.compare_spec k k) as [_|H|H]; [reflexivity| |];
    exfalso; exact (StrictOrder_Irreflexive k H).
Qed.

Lemma key_compare_eq (a b : string) : String_as_OT.compare a b = Eq -> a = b.
Proof.
  intros H. destruct (String_as_OT.compare_spec a b) as [E|L|L];
    [exact E | discriminate | discriminate].
Qed.

Lemma key_compare_gt (a b : string) : String_as_OT.compare a b = Gt -> key_lt b a.
Proof.
  intros H. destruct (String_as_OT.compare_spec a b) as [E|L|L];
    [discriminate | discriminate | exact L].
Qed.

Lemma key_lt_trans (a b c : string) : key_lt a b -> key_lt b c -> key_lt a c.
Proof. exact (StrictOrder_Transitive a b c). Qed.

Lemma key_lt_irrefl (a : string) : ~ key_lt a a.
Proof. exact (StrictOrder_Irreflexive a). Qed.

Lemma key_lt_neq (a b : string) : key_lt a b -> a <> b.
Proof. intros H ->. exact (key_lt_irrefl b H). Qed.

Section MapProperties.
Context {V : Type}.
Implicit Types (m : list (string * V)) (k : string) (v : V).

Lemma map_assign_keys_bound m k v (lo : string) :
  key_lt lo k ->
  Forall (fun e => key_lt lo (fst e)) m ->
  Forall (fun e => key_lt lo (fst e)) (map_assign k v m).
Proof.
  intros Hk Hm. induction Hm as [|[k0 v0] m H0 Hm IH]; cbn [map_assign].
  - repeat constructor. exact Hk.
  - destruct (String_as_OT.compare k k0); repeat constructor; auto.
Qed.

(** Assignment keeps the keys strictly increasing. *)
Lemma map_assign_sorted m k v : keys_sorted m -> keys_sorted (map_assign k v m).
Proof.
  unfold keys_sorted. intros Hm.
  induction Hm as [|[k0 v0] m Hm IH H0]; cbn [map_assign].
  - repeat constructor.
  - destruct (String_as_OT.compare k k0) eqn:E.
    + apply key_compare_eq in E. subst k0. constructor; assumption.
    + constructor; [constructor; assumption|].
      constructor; [exact E|].
      eapply Forall_impl; [|exact H0]. cbn. intros e He.
      eapply key_lt_trans; [exact E | exact He].
    + constructor; [exact IH|].
      apply map_assign_keys_bound; [now apply key_compare_gt | exact H0].
Qed.

Lemma map_of_assignments_sorted_from (kvs m : list (string * V)) :
  keys_sorted m ->
  keys_sorted (fold_left (fun m kv => map_assign (fst kv) (snd kv) m) kvs m).
Proof.
  revert m. induction kvs as [|kv kvs IH]; intros m Hm; cbn [fold_left].
  - exact Hm.
  - apply IH. now apply map_assign_sorted.
Qed.

Lemma map_of_assignments_sorted (kvs : list (string * V)) :
  keys_sorted (map_of_assignments kvs).
Proof. apply map_of_assignments_sorted_from. constructor. Qed.

(** A key above every key of the map goes to its end. *)
Lemma map_assign_above m k v :
  Forall (fun e => key_lt (fst e) k) m -> map_assign k v m = (m ++ [(k, v)])%list.
Proof.
  intros Hm. induction Hm as [|[k0 v0] m H0 Hm IH]; cbn [map_assign app].
  - reflexivity.
  - cbn [fst] in H0.
    destruct (String_as_OT.compare k k0) eqn:E.
    + apply key_compare_eq in E. subst k0. now apply key_lt_irrefl in H0.
    + exfalso. exact (key_lt_irrefl k (key_lt_trans _ _ _ E H0)).
    + now rewrite IH.
Qed.

Lemma fold_assign_sorted (kvs m : list (string * V)) :
  keys_sorted (m ++ kvs)%list ->
  fold_left (fun m kv => map_assign (fst kv) (snd kv) m) kvs m = (m ++ kvs)%list.
Proof.
  revert m. induction kvs as [|[k v] kvs IH]; intros m Hs; cbn [fold_left].
  - now rewrite app_nil_r.
  - cbn [fst snd]. rewrite map_assign_above.
    + rewrite IH; rewrite <- app_assoc; [reflexivity | exact Hs].
    + unfold keys_sorted in Hs. clear IH.
      induction m as [|e m IHm]; [constructor|].
      cbn [app] in Hs. inversion Hs as [|? ? Hs' Hall]; subst.
      constructor.
      * rewrite Forall_app in Hall. destruct Hall as [_ Hall].
        now inversion Hall.
      * now apply IHm.
Qed.

(** Re-inserting the entries of a map in iteration order gives the map. *)
Lemma map_of_assignments_id (kvs : list (string * V)) :
  keys_sorted kvs -> map_of_assignments kvs = kvs.
Proof. intros H. unfold map_of_assignments. now rewrite fold_assign_sorted. Qed.

Lemma map_find_assign_same m k v : map_find k (map_assign k v m) = Some v.
Proof.
  induction m as [|[k0 v0] m IH]; cbn [map_assign map_find].
  - now rewrite String.eqb_refl.
  - destruct (String_as_OT.compare k k0) eqn:E; cbn [map_find].
    + now rewrite String.eqb_refl.
    + now rewrite String.eqb_refl.
    + apply key_compare_gt, key_lt_neq in E.
      destruct (String.eqb_spec k k0); [congruence | exact IH].
Qed.

Lemma map_find_assign_other m k v k' :
  k' <> k -> map_find k' (map_assign k v m) = map_find k' m.
Proof.
  intros Hne. induction m as [|[k0 v0] m IH]; cbn [map_assign map_find].
  - destruct (String.eqb_spec k' k); [congruence | reflexivity].
  - destruct (String_as_OT.compare k k0) eqn:E; cbn [map_find].
    + apply key_compare_eq in E. subst k0.
      destruct (String.eqb_spec k' k); [congruence | reflexivity].
    + destruct (String.eqb_spec k' k); [congruence | reflexivity].
    + now rewrite IH.
Qed.

Lemma keys_sorted_NoDup m : keys_sorted m -> NoDup (map fst m).
Proof.
  unfold keys_sorted. induction 1 as [|e m Hm IH H0]; cbn [map]; constructor.
  - intros Hin. apply in_map_iff in Hin. destruct Hin as [e' [Heq Hin]].
    rewrite Forall_forall in H0. specialize (H0 e' Hin).
    rewrite Heq in H0. exact (key_lt_irrefl _ H0).
  - exact IH.
Qed.

End MapProperties.

Lemma map_find_app {V : Type} (k : string) (a b : list (string * V)) :
  map_find k (a ++ b)
  = match map_find k a with Some v => Some v | None => map_find k b end.
Proof.
  induction a as [|[k0 v0] a IH]; cbn [app map_find]; [reflexivity|].
  destruct (String.eqb k k0); [reflexivity | exact IH].
Qed.

(** The value a key has after a run of assignments is the last one
    assigned to it. *)
Lemma map_find_fold_assign {V : Type} (k : string) (kvs m : list (string * V)) :
  map_find k (fold_left (fun m kv => map_assign (fst kv) (snd kv) m) kvs m)
  = match map_find k (rev kvs) with Some v => Some v | None => map_find k m end.
Proof.
  revert m. induction kvs as [|[k0 v0] kvs IH]; intros m; cbn [fold_left rev fst snd].
  - reflexivity.
  - rewrite IH, map_find_app. cbn [map_find].
    destruct (map_find k (rev kvs)); [reflexivity|].
    destruct (String.eqb_spec k k0) as [->|Hne].
    + apply map_find_assign_same.
    + now apply map_find_assign_other.
Qed.

Lemma map_find_assignments {V : Type} (k : string) (kvs : list (string * V)) :
  map_find k (map_of_assignments kvs) = map_find k (rev kvs).
Proof.
  unfold map_of_assignments. rewrite map_find_fold_assign.
  now destruct (map_find k (rev kvs)).
Qed.

Section MapExtensionality.
Context {V : Type}.
Implicit Types (m : list (string * V)) (k : string) (v : V).

Lemma map_find_above m k :
  Forall (fun e => key_lt k (fst e)) m -> map_find k m = None.
Proof.
  induction 1 as [|[k0 v0] m H0 Hm IH]; cbn [map_find]; [reflexivity|].
  cbn [fst] in H0. destruct (String.eqb_spec k k0) as [->|_]; [|exact IH].
  now apply key_lt_irrefl in H0.
Qed.

(** Two maps with the same bindings are the same list of entries. *)
Lemma keys_sorted_ext m m' :
  keys_sorted m -> keys_sorted m' ->
  (forall k, map_find k m = map_find k m') -> m = m'.
Proof.
  unfold keys_sorted. intros Hm. revert m'.
  induction Hm as [|[k v] m Hm IH Hk]; intros m' Hm' Hfind.
  - destruct m' as [|[k' v'] m']; [reflexivity|].
    specialize (Hfind k'). cbn [map_find] in Hfind.
    rewrite String.eqb_refl in Hfind. discriminate Hfind.
  - destruct m' as [|[k' v'] m'].
    + specialize (Hfind k). cbn [map_find] in Hfind.
      rewrite String.eqb_refl in Hfind. discriminate Hfind.
    + inversion Hm' as [|? ? Hm'' Hk']; subst.
      assert (Hkk : k = k').
      { destruct (String_as_OT.compare_spec k k') as [E|L|L]; [exact E| |]; exfalso.
        - pose proof (Hfind k) as Hf. cbn [map_find] in Hf.
          rewrite String.eqb_refl in Hf.
          destruct (String.eqb_spec k k') as [E|_]; [now apply key_lt_neq in L|].
          rewrite map_find_above in Hf; [discriminate Hf|].
          eapply Forall_impl; [|exact Hk']. cbn. intros e He.
          eapply key_lt_trans; [exact L | exact He].
        - pose proof (Hfind k') as Hf. cbn [map_find] in Hf.
          rewrite String.eqb_refl in Hf.
          destruct (String.eqb_spec k' k) as [E|_]; [now apply key_lt_neq in L|].
          rewrite map_find_above in Hf; [discriminate Hf|].
          eapply Forall_impl; [|exact Hk]. cbn. intros e He.
          eapply key_lt_trans; [exact L | exact He]. }
      subst k'.
      assert (Hvv : v = v').
      { specialize (Hfind k). cbn [map_find] in Hfind.
        rewrite String.eqb_refl in Hfind. now injection Hfind. }
      subst v'. f_equal. apply IH; [exact Hm''|].
      intros x. specialize (Hfind x). cbn [map_find] in Hfind.
      destruct (String.eqb_spec x k) as [E|_]; [|exact Hfind].
      rewrite E. now rewrite !map_find_above.
Qed.

Lemma map_find_In (l : list (string * V)) k v :
  NoDup (map fst l) -> (map_find k l = Some v <-> In (k, v) l).
Proof.
  induction l as [|[k0 v0] l IH]; cbn [map map_find In fst].
  - intros _. split; [discriminate | contradiction].
  - intros Hnd. inversion Hnd as [|? ? Hnotin Hnd']; subst.
    destruct (String.eqb_spec k k0) as [->|Hne].
    + split.
      * intros H. injection H as ->. now left.
      * intros [H|H]; [now injection H as -> | ].
        exfalso. apply Hnotin. apply in_map_iff. now exists (k0, v).
    + rewrite (IH Hnd'). split; [now right|].
      intros [H|H]; [injection H as -> ->; contradiction | exact H].
Qed.

Lemma map_find_Permutation (l l' : list (string * V)) k :
  NoDup (map fst l) -> Permutation l l' -> map_find k l = map_find k l'.
Proof.
  intros Hnd Hp.
  assert (Hnd' : NoDup (map fst l')).
  { eapply Permutation_NoDup; [|exact Hnd]. now apply Permutation_map. }
  destruct (map_find k l) as [v|] eqn:E, (map_find k l') as [v'|] eqn:E';
    try reflexivity.
  - apply (map_find_In l k v Hnd) in E.
    apply (Permutation_in _ Hp), (map_find_In l' k v Hnd') in E. congruence.
  - apply (map_find_In l k v Hnd) in E.
    apply (Permutation_in _ Hp), (map_find_In l' k v Hnd') in E. congruence.
  - apply (map_find_In l' k v' Hnd') in E'.
    apply (Permutation_in _ (Permutation_sym Hp)), (map_find_In l k v' Hnd) in E'.
    congruence.
Qed.

(** The map does not depend on the order in which distinct keys were
    assigned. *)
Lemma map_of_assignments_Permutation (l l' : list (string * V)) :
  NoDup (map fst l) -> Permutation l l' ->
  map_of_assignments l = map_of_assignments l'.
Proof.
  intros Hnd Hp. apply keys_sorted_ext; try apply map_of_assignments_sorted.
  intros k. rewrite !map_find_assignments.
  apply map_find_Permutation.
  - rewrite map_rev. apply NoDup_rev. exact Hnd.
  - rewrite <- !Permutation_rev. exact Hp.
Qed.

End MapExtensionality.

(** ** Decoding what the encoder wrote *)

Section BinaryRoundTrip.

Variables zcompress zdecompress : string -> string.
Hypothesis zlib_inverse : forall s, zdecompress (zcompress s) = s.

#[local] Abbreviation reads_back := (reads_back_with zcompress zdecompress).

Ltac read_tag :=
  cbn [ConValue_read]; rewrite istream_read_byte;
  rewrite decode_byte by lia; cbn [Z.eqb Pos.eqb].

Lemma reads_back_Null level : reads_back VNull level.
Proof.
  intros rest. apply eventually_intro with (n := 1%nat). intros [|f] Hf; [lia|].
  cbn [ConValue_write type_tag append]. read_tag. reflexivity.
Qed.

Lemma reads_back_Boolean b level : reads_back (VBoolean b) level.
Proof.
  intros rest. apply eventually_intro with (n := 1%nat). intros [|f] Hf; [lia|].
  cbn [ConValue_write type_tag append]. read_tag.
  rewrite istream_read_byte. destruct b; reflexivity.
Qed.

Lemma reads_back_Integer z level :
  - 2 ^ 63 <= z < 2 ^ 63 -> reads_back (VInteger z) level.
Proof.
  intros Hz rest. apply eventually_intro with (n := 1%nat). intros [|f] Hf; [lia|].
  cbn [ConValue_write type_tag append]. read_tag.
  rewrite (istream_read_exact 8 (encode_le 8 z)) by now rewrite size_encode_le.
  now rewrite decode_int64.
Qed.

Lemma reads_back_Float bits level :
  0 <= bits < 2 ^ 64 -> reads_back (VFloat bits) level.
Proof.
  intros Hz rest. apply eventually_intro with (n := 1%nat). intros [|f] Hf; [lia|].
  cbn [ConValue_write type_tag append]. read_tag.
  rewrite (istream_read_exact 8 (encode_le 8 bits)) by now rewrite size_encode_le.
  change (encode_le 8 bits) with (u64 bits). now rewrite decode_u64.
Qed.

Lemma reads_back_Invalid t level : 7 <= Z_of_byte t -> reads_back (VInvalid t) level.
Proof.
  intros Ht rest. apply eventually_intro with (n := 1%nat). intros [|f] Hf; [lia|].
  cbn [ConValue_write type_tag append]. rewrite byte_of_Z_of.
  cbn [ConValue_read]. rewrite istream_read_byte.
  replace (decode_le (String t "")) with (Z_of_byte t) by (cbn [decode_le]; lia).
  repeat match goal with
         | |- context [Z_of_byte t =? ?k] =>
             destruct (Z.eqb_spec (Z_of_byte t) k); [lia|]
         end.
  reflexivity.
Qed.

Lemma reads_back_String str level :
  size str < 2 ^ 64 -> framed_fits zcompress str level -> reads_back (VString str) level.
Proof.
  intros Hs Hc rest. apply eventually_intro with (n := 1%nat). intros [|f] Hf; [lia|].
  cbn [ConValue_write type_tag]. pose proof (size_nonneg str).
  destruct (COMPRESS_COMPARE (size str) level) eqn:E.
  - unfold write_compressed. cbn [append]. read_tag.
    rewrite istream_read_byte, append_assoc, istream_read_u64.
    pose proof (size_nonneg (zcompress str)). specialize (Hc E).
    rewrite decode_u64 by lia.
    rewrite istream_read_exact by reflexivity.
    rewrite decode_byte by lia. cbn [Z.eqb]. now rewrite zlib_inverse.
  - cbn [append]. read_tag.
    rewrite istream_read_byte, append_assoc, istream_read_u64.
    rewrite decode_u64 by lia.
    rewrite istream_read_exact by reflexivity.
    rewrite decode_byte by lia. reflexivity.
Qed.

(** The loop of [ConArray::read] over the encodings of [vs]. *)
Lemma ConArray_read_loop_spec (level : Z) (vs : list ConValue) :
  Forall (fun v => reads_back v level) vs ->
  forall (sz i : Z) (acc : ConArray) (rest : string),
    sz = i + Z.of_nat (List.length vs) ->
    eventually
      (fun fuel =>
         ConArray_read_loop zdecompress fuel sz i acc
           (istream_of
              (flatten (map (fun v => ConValue_write zcompress v level) vs) ++ rest)))
      (Returns (acc ++ vs)%list (istream_of rest)).
Proof.
  induction 1 as [|v vs Hv Hvs IH]; intros sz i acc rest Hsz.
  - apply eventually_intro with (n := 1%nat). intros [|f] Hf; [lia|].
    cbn [ConArray_read_loop]. cbn [List.length] in Hsz.
    destruct (Z.ltb_spec i sz); [lia|]. now rewrite app_nil_r.
  - cbn [List.length] in Hsz. cbn [map flatten fold_right].
    rewrite append_assoc.
    destruct (Hv (flatten (map (fun v => ConValue_write zcompress v level) vs) ++ rest))
      as [n1 H1].
    destruct (IH sz (i + 1) (acc ++ [v])%list rest ltac:(lia)) as [n2 H2].
    apply eventually_intro with (n := S (Nat.max n1 n2)). intros [|f] Hf; [lia|].
    cbn [ConArray_read_loop].
    destruct (Z.ltb_spec i sz); [|lia].
    unfold flatten in H1. rewrite H1 by lia.
    unfold flatten in H2. rewrite H2 by lia.
    now rewrite <- app_assoc.
Qed.

Lemma ConArray_read_spec (level : Z) (vs : list ConValue) (rest : string) :
  Z.of_nat (List.length vs) < 2 ^ 64 ->
  Forall (fun v => reads_back v (next_level level)) vs ->
  eventually
    (fun fuel =>
       ConArray_read zdecompress fuel
         (istream_of (ConArray_write zcompress vs level ++ rest)))
    (Returns vs (istream_of rest)).
Proof.
  intros Hn Hvs.
  destruct (ConArray_read_loop_spec _ vs Hvs (Z.of_nat (List.length vs)) 0 [] rest
              ltac:(lia)) as [n Hloop].
  apply eventually_intro with (n := n). intros f Hf.
  unfold ConArray_read, ConArray_read_with, ConArray_write, ConArray_write_with.
  rewrite append_assoc, istream_read_u64, decode_u64 by lia.
  now rewrite Hloop.
Qed.

(** The loop of [ConObject::read] over the encodings of the pairs [kvs],
    in any key order: every pair is assigned into the map. *)
Lemma ConObject_read_loop_spec (level : Z) (kvs : list (string * ConValue)) :
  Forall (fun kv => size (fst kv) < 2 ^ 64 /\ reads_back (snd kv) level) kvs ->
  forall (sz i : Z) (acc : ConObject) (rest : string),
    sz = i + Z.of_nat (List.length kvs) ->
    eventually
      (fun fuel =>
         ConObject_read_loop zdecompress fuel sz i acc
           (istream_of
              (flatten
                 (map (fun kv =>
                         u64 (size (fst kv)) ++ fst kv
                         ++ ConValue_write zcompress (snd kv) level) kvs)
               ++ rest)))
      (Returns (fold_left (fun m kv => map_assign (fst kv) (snd kv) m) kvs acc)
         (istream_of rest)).
Proof.
  induction 1 as [|[k v] kvs [Hk Hv] Hkvs IH]; intros sz i acc rest Hsz.
  - apply eventually_intro with (n := 1%nat). intros [|f] Hf; [lia|].
    cbn [ConObject_read_loop]. cbn [List.length] in Hsz.
    destruct (Z.ltb_spec i sz); [lia|]. reflexivity.
  - cbn [List.length] in Hsz. cbn [map flatten fold_right fst snd] in *.
    rewrite !append_assoc.
    match goal with
    | |- context [ConValue_write zcompress v level ++ ?r] =>
        destruct (Hv r) as [n1 H1]
    end.
    destruct (IH sz (i + 1) (map_assign k v acc) rest ltac:(lia)) as [n2 H2].
    apply eventually_intro with (n := S (Nat.max n1 n2)). intros [|f] Hf; [lia|].
    cbn [ConObject_read_loop].
    destruct (Z.ltb_spec i sz); [|lia].
    pose proof (size_nonneg k).
    rewrite istream_read_u64, decode_u64 by lia.
    rewrite istream_read_exact by reflexivity.
    rewrite H1 by lia. unfold flatten in H2. rewrite H2 by lia.
    reflexivity.
Qed.

Lemma ConObject_read_spec (level : Z) (kvs : list (string * ConValue)) (rest : string) :
  Z.of_nat (List.length kvs) < 2 ^ 64 ->
  Forall (fun kv => size (fst kv) < 2 ^ 64 /\ reads_back (snd kv) (next_level level)) kvs ->
  eventually
    (fun fuel =>
       ConObject_read zdecompress fuel
         (istream_of (ConObject_write zcompress kvs level ++ rest)))
    (Returns (map_of_assignments kvs) (istream_of rest)).
Proof.
  intros Hn Hkvs.
  destruct (ConObject_read_loop_spec _ kvs Hkvs (Z.of_nat (List.length kvs)) 0 [] rest
              ltac:(lia)) as [n Hloop].
  apply eventually_intro with (n := n). intros f Hf.
  unfold ConObject_read, ConObject_read_with, ConObject_write, ConObject_write_with.
  rewrite append_assoc, istream_read_u64, decode_u64 by lia.
  now rewrite Hloop.
Qed.

Lemma reads_back_Array (vs : list ConValue) (level : Z) :
  Z.of_nat (List.length vs) < 2 ^ 64 ->
  framed_fits zcompress (ConArray_write zcompress vs level) level ->
  Forall (fun v => reads_back v (next_level level)) vs ->
  reads_back (VArray vs) level.
Proof.
  intros Hn Hc Hvs rest.
  cbn [ConValue_write type_tag].
  change (ConArray_write_with (ConValue_write zcompress) vs level)
    with (ConArray_write zcompress vs level).
  destruct (COMPRESS_COMPARE (size (ConArray_write zcompress vs level)) level) eqn:E.
  - destruct (ConArray_read_spec level vs "" Hn Hvs) as [n Hr].
    apply eventually_intro with (n := S n). intros [|f] Hf; [lia|].
    unfold write_compressed. cbn [append]. read_tag.
    rewrite istream_read_byte, decode_byte by lia. cbn [Z.eqb].
    rewrite append_assoc, istream_read_u64.
    pose proof (size_nonneg (zcompress (ConArray_write zcompress vs level))).
    specialize (Hc E). rewrite decode_u64 by lia.
    rewrite istream_read_exact by reflexivity.
    rewrite zlib_inverse. unfold ConArray_read in Hr.
    rewrite append_nil_r in Hr. now rewrite Hr by lia.
  - destruct (ConArray_read_spec level vs rest Hn Hvs) as [n Hr].
    apply eventually_intro with (n := S n). intros [|f] Hf; [lia|].
    cbn [append]. read_tag.
    rewrite istream_read_byte, decode_byte by lia. cbn [Z.eqb].
    unfold ConArray_read in Hr. now rewrite Hr by lia.
Qed.

Lemma reads_back_Object (kvs : list (string * ConValue)) (level : Z) :
  Z.of_nat (List.length kvs) < 2 ^ 64 ->
  framed_fits zcompress (ConObject_write zcompress kvs level) level ->
  Forall (fun kv => size (fst kv) < 2 ^ 64 /\ reads_back (snd kv) (next_level level)) kvs ->
  forall rest,
    eventually
      (fun fuel =>
         ConValue_read zdecompress fuel
           (istream_of (ConValue_write zcompress (VObject kvs) level ++ rest)))
      (Returns (VObject (map_of_assignments kvs)) (istream_of rest)).
Proof.
  intros Hn Hc Hkvs rest.
  cbn [ConValue_write type_tag].
  change (ConObject_write_with (ConValue_write zcompress) kvs level)
    with (ConObject_write zcompress kvs level).
  destruct (COMPRESS_COMPARE (size (ConObject_write zcompress kvs level)) level) eqn:E.
  - destruct (ConObject_read_spec level kvs "" Hn Hkvs) as [n Hr].
    apply eventually_intro with (n := S n). intros [|f] Hf; [lia|].
    unfold write_compressed. cbn [append]. read_tag.
    rewrite istream_read_byte, decode_byte by lia. cbn [Z.eqb].
    rewrite append_assoc, istream_read_u64.
    pose proof (size_nonneg (zcompress (ConObject_write zcompress kvs level))).
    specialize (Hc E). rewrite decode_u64 by lia.
    unfold istream_read_vector. rewrite istream_read_exact by reflexivity.
    rewrite zlib_inverse. unfold ConObject_read in Hr.
    rewrite append_nil_r in Hr. now rewrite Hr by lia.
  - destruct (ConObject_read_spec level kvs rest Hn Hkvs) as [n Hr].
    apply eventually_intro with (n := S n). intros [|f] Hf; [lia|].
    cbn [append]. read_tag.
    rewrite istream_read_byte, decode_byte by lia. cbn [Z.eqb].
    unfold ConObject_read in Hr. now rewrite Hr by lia.
Qed.

(** Round trip at any level, with anything behind the encoding. *)
Lemma reads_back_all (v : ConValue) :
  forall level, well_formed v -> representable zcompress v level -> reads_back v level.
Proof.
  induction v as [| b | z | bits | str | vs IH | kvs IH | t] using ConValue_deep_ind;
    intros level Hwf Hrep.
  - apply reads_back_Null.
  - apply reads_back_Boolean.
  - now apply reads_back_Integer.
  - now apply reads_back_Float.
  - destruct Hrep. now apply reads_back_String.
  - destruct Hrep as [Hn [Hc Hall]]. apply reads_back_Array; [exact Hn | exact Hc |].
    cbn [well_formed] in Hwf. clear Hn Hc.
    induction IH as [|v vs Hv _ IHvs]; constructor.
    + apply Hv; [apply Hwf | apply Hall].
    + apply IHvs; [apply Hwf | apply Hall].
  - destruct Hrep as [Hn [Hc Hall]]. cbn [well_formed] in Hwf.
    destruct Hwf as [Hsorted Hwf]. intros rest.
    assert (Hkvs : Forall (fun kv => size (fst kv) < 2 ^ 64
                                     /\ reads_back (snd kv) (next_level level)) kvs).
    2: { pose proof (reads_back_Object kvs level Hn Hc Hkvs rest) as H.
         now rewrite (map_of_assignments_id kvs Hsorted) in H. }
    clear Hn Hc Hsorted.
    induction IH as [|kv kvs Hv _ IHkvs]; constructor.
    + split; [apply Hall|]. apply Hv; [apply Hwf | apply Hall].
    + apply IHkvs; [apply Hwf | apply Hall].
  - now apply reads_back_Invalid.
Qed.

End BinaryRoundTrip.

(** ** The compression test *)

Lemma COMPRESS_COMPARE_spec (sz level : Z) :
  COMPRESS_COMPARE sz level = true
  <-> COMPRESSION_THRESHOLD < sz
      /\ COMPRESSION_LEVEL_MIN <= level <= COMPRESSION_LEVEL_MAX.
Proof.
  unfold COMPRESS_COMPARE. rewrite !andb_true_iff, Z.ltb_lt, !Z.leb_le. tauto.
Qed.

Lemma COMPRESS_COMPARE_below_root (sz : Z) : COMPRESS_COMPARE sz (next_level 0) = false.
Proof.
  unfold COMPRESS_COMPARE. change (next_level 0 <=? COMPRESSION_LEVEL_MAX) with false.
  apply andb_false_r.
Qed.

Lemma stored_flag_write (zcompress : string -> string) (v : ConValue) (level : Z)
  (body : string) :
  node_body zcompress v level = Some body ->
  stored_flag (ConValue_write zcompress v level)
  = Some (if COMPRESS_COMPARE (size body) level then 1 else 0).
Proof.
  destruct v; cbn [node_body]; intros H; try discriminate H; injection H as <-;
    cbn [ConValue_write];
    [ | change (ConArray_write_with (ConValue_write zcompress) values level)
          with (ConArray_write zcompress values level)
      | change (ConObject_write_with (ConValue_write zcompress) values level)
          with (ConObject_write zcompress values level) ];
    match goal with |- context [COMPRESS_COMPARE ?a ?b] =>
      destruct (COMPRESS_COMPARE a b) end; reflexivity.
Qed.


Section DuplicateKeys.
Variables zcompress zdecompress : string -> string.
Hypothesis zlib_inverse : forall s, zdecompress (zcompress s) = s.

(** The body of an object with its pairs in any key order, decoded. *)
Lemma ConObject_read_pairs (kvs : list (string * ConValue)) (level : Z) (rest : string) :
  Z.of_nat (List.length kvs) < 2 ^ 64 ->
  Forall (fun kv => size (fst kv) < 2 ^ 64 /\ well_formed (snd kv)
                    /\ representable zcompress (snd kv) (next_level level)) kvs ->
  eventually
    (fun fuel =>
       ConObject_read zdecompress fuel
         (istream_of (ConObject_write zcompress kvs level ++ rest)))
    (Returns (map_of_assignments kvs) (istream_of rest)).
Proof.
  intros Hn Hall. apply ConObject_read_spec; [exact Hn |].
  eapply Forall_impl; [|exact Hall]. cbn beta. intros kv (Hk & Hwf & Hrep).
  split; [exact Hk|]. apply reads_back_all; assumption.
Qed.

End DuplicateKeys.


(** ** Bit patterns and numbers *)

Lemma double_fields (d : Z) :
  0 <= d < 2 ^ 64 ->
  exists S E F,
    d = S * 2 ^ 63 + E * 2 ^ 52 + F /\ 0 <= S <= 1 /\ 0 <= E < 2 ^ 11 /\ 0 <= F < 2 ^ 52
    /\ (d / 2 ^ 52) mod 2 ^ 11 = E /\ d mod 2 ^ 52 = F
    /\ (2 ^ 63 <=? d) = (S =? 1).
Proof.
  intros Hd.
  exists (d / 2 ^ 52 / 2 ^ 11), ((d / 2 ^ 52) mod 2 ^ 11), (d mod 2 ^ 52).
  pose proof (Z.div_mod d (2 ^ 52) ltac:(lia)) as H1.
  pose proof (Z.mod_pos_bound d (2 ^ 52) ltac:(lia)) as H2.
  pose proof (Z.div_mod (d / 2 ^ 52) (2 ^ 11) ltac:(lia)) as H3.
  pose proof (Z.mod_pos_bound (d / 2 ^ 52) (2 ^ 11) ltac:(lia)) as H4.
  set (F := d mod 2 ^ 52) in *. set (Q := d / 2 ^ 52) in *.
  set (E := Q mod 2 ^ 11) in *. set (S := Q / 2 ^ 11) in *.
  assert (0 <= S <= 1) by lia.
  repeat split; try lia.
Qed.

(** The three fields of an assembled pattern. *)
Lemma fields_of_pattern (S E F : Z) :
  0 <= S <= 1 -> 0 <= E < 2 ^ 11 -> 0 <= F < 2 ^ 52 ->
  let d := S * 2 ^ 63 + E * 2 ^ 52 + F in
  (d / 2 ^ 52) mod 2 ^ 11 = E /\ d mod 2 ^ 52 = F /\ (2 ^ 63 <=? d) = (S =? 1).
Proof.
  intros HS HE HF d.
  assert (Hq : d / 2 ^ 52 = S * 2 ^ 11 + E).
  { symmetry. apply Z.div_unique with (r := F); subst d; lia. }
  repeat split.
  - rewrite Hq. symmetry. apply Z.mod_unique with (q := S); lia.
  - symmetry. apply Z.mod_unique with (q := S * 2 ^ 11 + E); subst d; lia.
  - subst d. destruct (Z.leb_spec (2 ^ 63) (S * 2 ^ 63 + E * 2 ^ 52 + F)),
      (Z.eqb_spec S 1); lia.
Qed.

Lemma decode_canonical (d : Z) : 0 <= d < 2 ^ 64 -> canonical (decode_double d).
Proof.
  intros Hd. destruct (double_fields d Hd) as (S & E & F & _ & _ & HE & HF & HdE & HdF & _).
  unfold decode_double. cbv zeta. rewrite HdE, HdF.
  destruct (Z.eqb_spec E 2047); [destruct (F =? 0); exact I|].
  destruct (Z.eqb_spec E 0).
  - destruct (Z.eqb_spec F 0); [exact I|]. cbn [canonical]. left. lia.
  - cbn [canonical]. right. lia.
Qed.

Lemma encode_decode (d : Z) :
  0 <= d < 2 ^ 64 -> decode_double d <> FNaN -> encode_double (decode_double d) = d.
Proof.
  intros Hd. destruct (double_fields d Hd) as (S & E & F & Heq & HS & HE & HF & HdE & HdF & Hs).
  unfold decode_double. cbv zeta. rewrite HdE, HdF, Hs.
  assert (Hsb : sign_bit (S =? 1) = S * 2 ^ 63).
  { unfold sign_bit. destruct (Z.eqb_spec S 1); lia. }
  destruct (Z.eqb_spec E 2047).
  - destruct (Z.eqb_spec F 0); [|congruence]. intros _. cbn [encode_double]. lia.
  - destruct (Z.eqb_spec E 0).
    + destruct (Z.eqb_spec F 0); intros _; cbn [encode_double].
      * lia.
      * destruct (Z.ltb_spec F (2 ^ 52)); lia.
    + intros _. cbn [encode_double].
      destruct (Z.ltb_spec (2 ^ 52 + F) (2 ^ 52)); lia.
Qed.

Lemma sign_bit_cases (neg : bool) :
  exists S, sign_bit neg = S * 2 ^ 63 /\ 0 <= S <= 1 /\ (S =? 1) = neg.
Proof. destruct neg; [exists 1 | exists 0]; cbn; repeat split; lia. Qed.

Lemma decode_encode (x : fpval) : canonical x -> decode_double (encode_double x) = x.
Proof.
  destruct x as [neg | neg | | neg m e]; cbn [canonical encode_double].
  - intros _. destruct (sign_bit_cases neg) as (S & HS & HS1 & HSn).
    destruct (fields_of_pattern S 0 0 HS1 ltac:(lia) ltac:(lia)) as (H1 & H2 & H3).
    unfold decode_double. cbv zeta. rewrite HS.
    replace (S * 2 ^ 63) with (S * 2 ^ 63 + 0 * 2 ^ 52 + 0) by lia.
    rewrite H1, H2, H3, HSn. reflexivity.
  - intros _. destruct (sign_bit_cases neg) as (S & HS & HS1 & HSn).
    destruct (fields_of_pattern S 2047 0 HS1 ltac:(lia) ltac:(lia)) as (H1 & H2 & H3).
    unfold decode_double. cbv zeta. rewrite HS.
    replace (S * 2 ^ 63 + 2047 * 2 ^ 52) with (S * 2 ^ 63 + 2047 * 2 ^ 52 + 0) by lia.
    rewrite H1, H2, H3, HSn. reflexivity.
  - intros _. reflexivity.
  - intros Hc. destruct (sign_bit_cases neg) as (S & HS & HS1 & HSn).
    destruct (Z.ltb_spec m (2 ^ 52)) as [Hsub|Hnorm].
    + destruct Hc as [[Hm He]|[Hm He]]; [|lia]. subst e.
      destruct (fields_of_pattern S 0 m HS1 ltac:(lia) ltac:(lia)) as (H1 & H2 & H3).
      unfold decode_double. cbv zeta. rewrite HS.
      replace (S * 2 ^ 63 + m) with (S * 2 ^ 63 + 0 * 2 ^ 52 + m) by lia.
      rewrite H1, H2, H3, HSn. cbn [Z.eqb].
      destruct (Z.eqb_spec m 0); [lia | reflexivity].
    + destruct Hc as [[Hm He]|[Hm He]]; [lia|].
      destruct (fields_of_pattern S (e + 1075) (m - 2 ^ 52) HS1 ltac:(lia) ltac:(lia))
        as (H1 & H2 & H3).
      unfold decode_double. cbv zeta. rewrite HS.
      rewrite H1, H2, H3, HSn.
      destruct (Z.eqb_spec (e + 1075) 2047); [lia|].
      destruct (Z.eqb_spec (e + 1075) 0); [lia|].
      f_equal; lia.
Qed.

(** ** Rounding an integer to [double] *)

Lemma round_half_even_exact (num den : Z) :
  0 < den -> num mod den = 0 -> round_half_even num den = num / den.
Proof.
  intros Hden Hmod. unfold round_half_even. rewrite Hmod.
  destruct (Z.compare_spec (2 * 0) den); lia.
Qed.

Lemma int_mantissa_range (z : Z) :
  0 < z -> 2 ^ 52 <= int_mantissa z < 2 ^ 53.
Proof.
  intros Hz. unfold int_mantissa.
  pose proof (Z.log2_spec z Hz) as Hl. pose proof (Z.log2_nonneg z) as Hn.
  set (n := Z.log2 z) in *.
  destruct (Z.leb_spec n 52).
  - assert (E : 2 ^ 52 = 2 ^ n * 2 ^ (52 - n)).
    { rewrite <- Z.pow_add_r by lia. f_equal. lia. }
    assert (E2 : 2 ^ 53 = 2 ^ (n + 1) * 2 ^ (52 - n)).
    { rewrite <- Z.pow_add_r by lia. f_equal. lia. }
    assert (0 < 2 ^ (52 - n)) by (apply Z.pow_pos_nonneg; lia).
    rewrite E, E2. nia.
  - assert (E : 2 ^ n = 2 ^ 52 * 2 ^ (n - 52)).
    { rewrite <- Z.pow_add_r by lia. f_equal. lia. }
    assert (E2 : 2 ^ (n + 1) = 2 ^ 53 * 2 ^ (n - 52)).
    { rewrite <- Z.pow_add_r by lia. f_equal. lia. }
    assert (0 < 2 ^ (n - 52)) by (apply Z.pow_pos_nonneg; lia).
    split.
    + apply Z.div_le_lower_bound; lia.
    + apply Z.div_lt_upper_bound; lia.
Qed.

Lemma round_to_double_integer (neg : bool) (z : Z) :
  0 < z -> Z.log2 z <= 1023 -> exact_in_double z ->
  round_to_double neg z 1 = FFinite neg (int_mantissa z) (Z.log2 z - 52).
Proof.
  intros Hz Hmax Hex. unfold exact_in_double in Hex. rewrite Z.abs_eq in Hex by lia.
  pose proof (int_mantissa_range z Hz) as Hm. unfold int_mantissa in *.
  pose proof (Z.log2_nonneg z) as Hn.
  unfold round_to_double. destruct (Z.eqb_spec z 0) as [Hz0|Hz0]; [lia|].
  change (Z.log2 1) with 0. rewrite Z.sub_0_r. cbv zeta.
  set (n := Z.log2 z) in *.
  assert (Hfloor : scaled_floor z 1 (n - 52)
                   = if n <=? 52 then z * 2 ^ (52 - n) else z / 2 ^ (n - 52)).
  { unfold scaled_floor. destruct (Z.ltb_spec (n - 52) 0), (Z.leb_spec n 52); try lia.
    - rewrite Z.div_1_r. f_equal. f_equal. lia.
    - replace n with 52 by lia. cbn. now rewrite Z.div_1_r, Z.mul_1_r.
    - now rewrite Z.mul_1_l. }
  assert (Hround : scaled_round z 1 (n - 52)
                   = if n <=? 52 then z * 2 ^ (52 - n) else z / 2 ^ (n - 52)).
  { unfold scaled_round. destruct (Z.ltb_spec (n - 52) 0), (Z.leb_spec n 52); try lia.
    - rewrite round_half_even_exact by (try apply Z.mod_1_r; lia).
      rewrite Z.div_1_r. f_equal. f_equal. lia.
    - replace n with 52 by lia. cbn.
      rewrite round_half_even_exact by (try apply Z.mod_1_r; lia).
      now rewrite Z.div_1_r, Z.mul_1_r.
    - rewrite Z.mul_1_l.
      assert (0 < 2 ^ (n - 52)) by (apply Z.pow_pos_nonneg; lia).
      assert (z mod 2 ^ (n - 52) = 0) by (destruct Hex; [lia | assumption]).
      rewrite round_half_even_exact by assumption.
      reflexivity. }
  rewrite Hfloor.
  destruct (Z.ltb_spec (if n <=? 52 then z * 2 ^ (52 - n) else z / 2 ^ (n - 52)) (2 ^ 52));
    [lia|].
  rewrite Z.max_l by lia. rewrite Hround.
  destruct (Z.eqb_spec (if n <=? 52 then z * 2 ^ (52 - n) else z / 2 ^ (n - 52)) 0); [lia|].
  destruct (Z.eqb_spec (if n <=? 52 then z * 2 ^ (52 - n) else z / 2 ^ (n - 52)) (2 ^ 53));
    [lia|].
  destruct (Z.ltb_spec 971 (n - 52)); [lia | reflexivity].
Qed.

Lemma int_mantissa_small (t k : Z) :
  0 < k -> 2 ^ 52 <= t * 2 ^ k < 2 ^ 53 ->
  Z.log2 t = 52 - k /\ int_mantissa t = t * 2 ^ k.
Proof.
  intros Hk Hm.
  assert (Hp : 0 < 2 ^ k) by (apply Z.pow_pos_nonneg; lia).
  assert (Ht : 0 < t) by nia.
  assert (Hk52 : k <= 52).
  { destruct (Z.le_gt_cases k 52) as [|Hgt]; [assumption|].
    assert (2 ^ 53 <= 2 ^ k) by (apply Z.pow_le_mono_r; lia). nia. }
  assert (Hlog : Z.log2 t = 52 - k).
  { apply Z.log2_unique; [lia|].
    assert (E : 2 ^ 52 = 2 ^ (52 - k) * 2 ^ k).
    { rewrite <- Z.pow_add_r by lia. f_equal. lia. }
    assert (E2 : 2 ^ 53 = 2 ^ (52 - k + 1) * 2 ^ k).
    { rewrite <- Z.pow_add_r by lia. f_equal. lia. }
    rewrite Z.pow_succ_r by lia. rewrite E in Hm.
    replace (2 ^ 53) with (2 * 2 ^ (52 - k) * 2 ^ k) in Hm.
    2:{ rewrite E2, Z.pow_add_r by lia. lia. }
    nia. }
  split; [exact Hlog|].
  unfold int_mantissa. rewrite Hlog.
  destruct (Z.leb_spec (52 - k) 52); [|lia]. f_equal. f_equal. lia.
Qed.

Lemma int_mantissa_large (m e : Z) :
  0 <= e -> 2 ^ 52 <= m < 2 ^ 53 ->
  Z.log2 (m * 2 ^ e) = 52 + e /\ int_mantissa (m * 2 ^ e) = m
  /\ exact_in_double (m * 2 ^ e).
Proof.
  intros He Hm.
  assert (Hp : 0 < 2 ^ e) by (apply Z.pow_pos_nonneg; lia).
  assert (Hlog : Z.log2 (m * 2 ^ e) = 52 + e).
  { apply Z.log2_unique; [lia|].
    rewrite Z.pow_succ_r, (Z.pow_add_r 2 52 e) by lia. nia. }
  split; [exact Hlog|]. split.
  - unfold int_mantissa. rewrite Hlog.
    destruct (Z.leb_spec (52 + e) 52).
    + replace e with 0 by lia. cbn. lia.
    + replace (52 + e - 52) with e by lia. now apply Z.div_mul; lia.
  - unfold exact_in_double. right. rewrite Z.abs_eq by nia. rewrite Hlog.
    replace (52 + e - 52) with e by lia. apply Z.mod_mul. lia.
Qed.

Lemma double_of_int64_exact (z : Z) :
  z <> 0 -> Z.log2 (Z.abs z) <= 1023 -> exact_in_double z ->
  double_of_int64 z
  = encode_double (FFinite (z <? 0) (int_mantissa (Z.abs z)) (Z.log2 (Z.abs z) - 52)).
Proof.
  intros Hz Hl Hex. unfold double_of_int64.
  assert (Hex' : exact_in_double (Z.abs z)).
  { unfold exact_in_double in *. now rewrite (Z.abs_eq (Z.abs z)) by lia. }
  now rewrite round_to_double_integer by (assumption || lia).
Qed.

Lemma double_eqb_finite_same (d : Z) neg m e :
  decode_double d = FFinite neg m e -> double_eqb d d = true.
Proof. intros H. unfold double_eqb. rewrite H. apply Z.eqb_refl. Qed.

Lemma double_eqb_finite_other (d d' : Z) neg m e :
  decode_double d = FFinite neg m e -> d <> d' -> double_eqb d d' = false.
Proof.
  intros H Hne. unfold double_eqb. rewrite H.
  destruct (decode_double d'); try reflexivity; now apply Z.eqb_neq.
Qed.

Lemma int64_of_double_finite (d : Z) neg m e :
  decode_double d = FFinite neg m e ->
  int64_of_double d =
    let t := if e <? 0 then m / 2 ^ (- e) else m * 2 ^ e in
    let z := if neg then - t else t in
    if (- 2 ^ 63 <=? z) && (z <? 2 ^ 63) then z else - 2 ^ 63.
Proof. intros H. unfold int64_of_double. now rewrite H. Qed.

Lemma number_value_integer (d z : Z) :
  0 <= d < 2 ^ 64 -> - 2 ^ 63 <= z < 2 ^ 63 ->
  fp_is_integer (decode_double d) z -> number_value d = VInteger z.
Proof.
  intros Hd Hz Hint. pose proof (decode_canonical d Hd) as Hc.
  destruct (decode_double d) as [neg | neg | | neg m e] eqn:Hx; cbn [fp_is_integer] in Hint;
    try contradiction.
  - subst z. unfold number_value, int64_of_double. rewrite Hx.
    change (double_of_int64 0) with 0. unfold double_eqb. rewrite Hx.
    reflexivity.
  - cbn [canonical] in Hc.
    assert (Hback : encode_double (FFinite neg m e) = d).
    { rewrite <- Hx. apply encode_decode; [exact Hd | congruence]. }
    assert (Hz' : int64_of_double d = z /\ z <> 0 /\ (z <? 0) = neg
                  /\ int_mantissa (Z.abs z) = m /\ Z.log2 (Z.abs z) - 52 = e
                  /\ exact_in_double z).
    { rewrite (int64_of_double_finite d neg m e Hx). cbv zeta.
      destruct (Z.ltb_spec e 0) as [He|He].
      - assert (Hp : 0 < 2 ^ (- e)) by (apply Z.pow_pos_nonneg; lia).
        assert (Hm : 2 ^ 52 <= m < 2 ^ 53).
        { destruct Hc as [[Hm He']|[Hm _]]; [|exact Hm]. subst e.
          assert (2 ^ 52 <= 2 ^ (- -1074)) by (apply Z.pow_le_mono_r; lia).
          destruct neg; nia. }
        assert (Habs : m = Z.abs z * 2 ^ (- e)) by (destruct neg; nia).
        assert (Hdiv : m / 2 ^ (- e) = Z.abs z).
        { rewrite Habs. apply Z.div_mul. lia. }
        rewrite Habs in Hm.
        destruct (int_mantissa_small (Z.abs z) (- e) ltac:(lia) Hm) as [Hlog Hman].
        rewrite Hdiv.
        assert (Hzs : (if neg then - Z.abs z else Z.abs z) = z) by (destruct neg; nia).
        rewrite Hzs.
        destruct (Z.leb_spec (- 2 ^ 63) z), (Z.ltb_spec z (2 ^ 63)); try lia. cbn [andb].
        repeat split; try lia.
        + destruct neg, (Z.ltb_spec z 0); try reflexivity; nia.
        + unfold exact_in_double. left. lia.
      - assert (Hp : 0 < 2 ^ e) by (apply Z.pow_pos_nonneg; lia).
        assert (Hm : 2 ^ 52 <= m < 2 ^ 53) by (destruct Hc as [[_ He']|[Hm _]]; lia).
        destruct (int_mantissa_large m e He Hm) as (Hlog & Hman & Hex).
        assert (Habs : Z.abs z = m * 2 ^ e) by (destruct neg; nia).
        assert (Hzs : (if neg then - (m * 2 ^ e) else m * 2 ^ e) = z) by (destruct neg; lia).
        rewrite Hzs.
        destruct (Z.leb_spec (- 2 ^ 63) z), (Z.ltb_spec z (2 ^ 63)); try lia. cbn [andb].
        rewrite Habs. repeat split; try lia.
        + destruct neg, (Z.ltb_spec z 0); try reflexivity; nia.
        + unfold exact_in_double in *. rewrite Habs.
          rewrite Z.abs_eq in Hex by lia. exact Hex. }
    destruct Hz' as (Hi & Hz0 & Hneg & Hman & Hexp & Hex).
    unfold number_value. rewrite Hi.
    rewrite double_of_int64_exact; try assumption.
    + rewrite Hneg, Hman, Hexp, Hback.
      now rewrite (double_eqb_finite_same d neg m e Hx).
    + assert (Z.abs z < 2 ^ 64) by lia.
      assert (Z.log2 (Z.abs z) < 64) by (apply Z.log2_lt_pow2; lia). lia.
Qed.

Lemma number_value_float (d : Z) :
  0 <= d < 2 ^ 64 ->
  (forall z, - 2 ^ 63 <= z < 2 ^ 63 -> ~ fp_is_integer (decode_double d) z) ->
  number_value d = VFloat d.
Proof.
  intros Hd Hnot. pose proof (decode_canonical d Hd) as Hc.
  assert (Hmin : double_of_int64 (- 2 ^ 63) = encode_double (FFinite true (2 ^ 52) 11))
    by (vm_compute; reflexivity).
  assert (Hzero : double_of_int64 0 = 0) by reflexivity.
  unfold number_value.
  destruct (decode_double d) as [neg | neg | | neg m e] eqn:Hx.
  - exfalso. apply (Hnot 0); [lia | reflexivity].
  - replace (int64_of_double d) with (- 2 ^ 63) by (unfold int64_of_double; now rewrite Hx).
    rewrite Hmin. unfold double_eqb. rewrite Hx, decode_encode by (cbn [canonical]; lia).
    destruct (Z.eqb_spec d (encode_double (FFinite true (2 ^ 52) 11))) as [E|E];
      [|reflexivity].
    rewrite E, decode_encode in Hx by (cbn [canonical]; lia). discriminate Hx.
  - unfold double_eqb. rewrite Hx. reflexivity.
  - cbn [canonical] in Hc.
    assert (Hne : forall d' z', d <> d' ->
              (if double_eqb d d' then VInteger z' else VFloat d) = VFloat d).
    { intros d' z' Hd'. now rewrite (double_eqb_finite_other d d' neg m e Hx Hd'). }
    rewrite (int64_of_double_finite d neg m e Hx). cbv zeta.
    cbn [fp_is_integer] in Hnot.
    destruct (Z.ltb_spec e 0) as [He|He].
    + (* a fraction of a power of two *)
      assert (Hp : 0 < 2 ^ (- e)) by (apply Z.pow_pos_nonneg; lia).
      set (t := m / 2 ^ (- e)).
      assert (Hm53 : 0 < m < 2 ^ 53) by lia.
      assert (Hk1 : 2 <= 2 ^ (- e)).
      { change 2 with (2 ^ 1) at 1. apply Z.pow_le_mono_r; lia. }
      assert (Ht : 0 <= t < 2 ^ 53).
      { subst t. split; [apply Z.div_pos; lia|].
        apply Z.div_lt_upper_bound; nia. }
      assert (Hrange : (- 2 ^ 63 <=? (if neg then - t else t))
                       && ((if neg then - t else t) <? 2 ^ 63) = true).
      { destruct neg; apply andb_true_intro; split;
          (apply Z.leb_le || apply Z.ltb_lt); lia. }
      rewrite Hrange.
      assert (Hrem : m mod 2 ^ (- e) <> 0).
      { intros Hrem. apply (Hnot (if neg then - t else t)).
        - destruct neg; lia.
        - pose proof (Z.div_mod m (2 ^ (- e)) ltac:(lia)) as Hdm.
          fold t in Hdm. destruct neg; nia. }
      apply Hne. intros Heq.
      destruct (Z.eq_dec t 0) as [Ht0|Ht0].
      * rewrite Ht0 in Heq. replace (if neg then - 0 else 0) with 0 in Heq by now destruct neg.
        rewrite Hzero in Heq. subst d. vm_compute in Hx. discriminate Hx.
      * assert (Hlt : Z.log2 t <= 52).
        { assert (Z.log2 t < 53) by (apply Z.log2_lt_pow2; lia). lia. }
        assert (Habs : Z.abs (if neg then - t else t) = t) by (destruct neg; lia).
        rewrite double_of_int64_exact in Heq.
        2:{ destruct neg; lia. }
        2:{ rewrite Habs. lia. }
        2:{ unfold exact_in_double. rewrite Habs. now left. }
        rewrite Habs in Heq.
        pose proof (int_mantissa_range t ltac:(lia)) as Hmr.
        pose proof (Z.log2_nonneg t) as Hl0.
        rewrite Heq, decode_encode in Hx by (cbn [canonical]; lia).
        injection Hx as _ Hman Hexp.
        unfold int_mantissa in Hman.
        destruct (Z.leb_spec (Z.log2 t) 52); [|lia].
        replace (52 - Z.log2 t) with (- e) in Hman by lia.
        apply Hrem. rewrite <- Hman. apply Z.mod_mul. lia.
    + (* an integer *)
      assert (Hp : 0 < 2 ^ e) by (apply Z.pow_pos_nonneg; lia).
      destruct ((- 2 ^ 63 <=? (if neg then - (m * 2 ^ e) else m * 2 ^ e))
                && ((if neg then - (m * 2 ^ e) else m * 2 ^ e) <? 2 ^ 63)) eqn:Hrange.
      * exfalso. apply andb_prop in Hrange. destruct Hrange as [H1 H2].
        apply Z.leb_le in H1. apply Z.ltb_lt in H2.
        apply (Hnot (if neg then - (m * 2 ^ e) else m * 2 ^ e)); [lia|].
        destruct neg; lia.
      * apply Hne. intros Heq. rewrite Hmin in Heq.
        rewrite Heq, decode_encode in Hx by (cbn [canonical]; lia).
        injection Hx as Hneg Hman Hexp. subst neg m e.
        vm_compute in Hrange. discriminate Hrange.
Qed.

Lemma encode_double_range (x : fpval) :
  canonical x -> 0 <= encode_double x < 2 ^ 64.
Proof.
  destruct x as [neg | neg | | neg m e]; cbn [canonical encode_double]; intros Hc.
  - destruct neg; cbn [sign_bit]; lia.
  - destruct neg; cbn [sign_bit]; lia.
  - lia.
  - destruct (Z.ltb_spec m (2 ^ 52)); destruct neg; cbn [sign_bit]; lia.
Qed.

Lemma number_value_of_int64 (z : Z) :
  - 2 ^ 63 <= z < 2 ^ 63 -> exact_in_double z ->
  number_value (double_of_int64 z) = VInteger z.
Proof.
  intros Hz Hex.
  destruct (Z.eq_dec z 0) as [->|Hz0]; [reflexivity|].
  assert (Hl : Z.log2 (Z.abs z) < 64) by (apply Z.log2_lt_pow2; lia).
  pose proof (Z.log2_nonneg (Z.abs z)) as Hl0.
  pose proof (int_mantissa_range (Z.abs z) ltac:(lia)) as Hm.
  assert (Hc : canonical (FFinite (z <? 0) (int_mantissa (Z.abs z)) (Z.log2 (Z.abs z) - 52))).
  { cbn [canonical]. right. lia. }
  rewrite double_of_int64_exact by (assumption || lia).
  apply number_value_integer; [now apply encode_double_range | exact Hz |].
  rewrite decode_encode by exact Hc. cbn [fp_is_integer].
  unfold int_mantissa in *. unfold exact_in_double in Hex.
  set (a := Z.abs z) in *. set (n := Z.log2 a) in *.
  assert (Hsign : (if z <? 0 then - a else a) = z).
  { subst a. destruct (Z.ltb_spec z 0); lia. }
  destruct (Z.ltb_spec (n - 52) 0) as [He|He].
  - destruct (Z.leb_spec n 52); [|lia].
    replace (- (n - 52)) with (52 - n) by lia.
    destruct (z <? 0); nia.
  - destruct (Z.leb_spec n 52).
    + replace n with 52 in * by lia. change (2 ^ (52 - 52)) with 1.
      destruct (z <? 0); lia.
    + assert (Hp : 0 < 2 ^ (n - 52)) by (apply Z.pow_pos_nonneg; lia).
      assert (Hmod : a mod 2 ^ (n - 52) = 0) by (destruct Hex; [lia | assumption]).
      pose proof (Z.div_mod a (2 ^ (n - 52)) ltac:(lia)) as Hdm.
      rewrite Hmod in Hdm.
      destruct (z <? 0); nia.
Qed.


(** ** Decimal text of integers *)

Lemma digit_char_props (d : Z) :
  0 <= d < 10 -> is_digit (digit_char d) = true /\ digit_value (digit_char d) = d.
Proof.
  intros Hd. unfold is_digit, digit_value, digit_char.
  rewrite Z_of_byte_of, Z.mod_small by lia.
  split; [|lia].
  destruct (Z.leb_spec 48 (48 + d)), (Z.leb_spec (48 + d) 57); try lia; reflexivity.
Qed.

Lemma digits_value_append (a b : string) (acc : Z) :
  digits_value (a ++ b) acc = digits_value b (digits_value a acc).
Proof.
  revert acc. induction a as [|c a IH]; intros acc; cbn [append digits_value];
    [reflexivity | apply IH].
Qed.

(** The digits written for [n]: digits only, no leading zero unless [n] is
    zero, and their value is [n]. *)
Lemma decimal_digits_spec (fuel : nat) :
  forall (n : Z) (acc : string),
    0 <= n < 10 ^ (Z.of_nat fuel + 1) ->
    exists d ds,
      decimal_digits fuel n acc = String d ds ++ acc
      /\ all_digits (String d ds)
      /\ (0 < n -> d <> "0"%char)
      /\ (n = 0 -> String d ds = "0")
      /\ digits_value (String d ds) 0 = n.
Proof.
  induction fuel as [|f IH]; intros n acc Hn.
  - cbn [decimal_digits]. change (10 ^ (Z.of_nat 0 + 1)) with 10 in Hn.
    rewrite Z.mod_small by lia.
    destruct (digit_char_props n Hn) as [Hd Hv].
    exists (digit_char n), "". cbn [append all_digits digits_value].
    split; [reflexivity|]. split; [tauto|]. split; [|split; [|lia]].
    + intros Hpos Heq. rewrite Heq in Hv. vm_compute in Hv. lia.
    + intros ->. reflexivity.
  - cbn [decimal_digits].
    destruct (Z.ltb_spec n 10) as [Hlt|Hge].
    + rewrite Z.mod_small by lia.
      destruct (digit_char_props n ltac:(lia)) as [Hd Hv].
      exists (digit_char n), "". cbn [append all_digits digits_value].
      split; [reflexivity|]. split; [tauto|]. split; [|split; [|lia]].
      * intros Hpos Heq. rewrite Heq in Hv. vm_compute in Hv. lia.
      * intros ->. reflexivity.
    + pose proof (Z.mod_pos_bound n 10 ltac:(lia)) as Hmod.
      pose proof (Z.div_mod n 10 ltac:(lia)) as Hdm.
      destruct (digit_char_props (n mod 10) Hmod) as [Hd Hv].
      assert (Hq : 0 <= n / 10 < 10 ^ (Z.of_nat f + 1)).
      { split; [apply Z.div_pos; lia|].
        apply Z.div_lt_upper_bound; [lia|].
        rewrite Nat2Z.inj_succ in Hn.
        replace (Z.succ (Z.of_nat f) + 1) with (Z.succ (Z.of_nat f + 1)) in Hn by lia.
        rewrite Z.pow_succ_r in Hn by lia. lia. }
      destruct (IH (n / 10) (String (digit_char (n mod 10)) acc) Hq)
        as (d & ds & Heq & Hall & Hlead & _ & Hval).
      exists d, (ds ++ String (digit_char (n mod 10)) "").
      split; [|split; [|split; [|split]]].
      * rewrite Heq. cbn [append]. now rewrite append_assoc.
      * clear - Hall Hd. cbn [all_digits] in *. destruct Hall as [H1 H2]. split; [exact H1|].
        induction ds as [|c ds IHds]; cbn [append all_digits] in *; [tauto|].
        destruct H2. split; auto.
      * intros _. apply Hlead. lia.
      * intros ->. lia.
      * change (String d (ds ++ String (digit_char (n mod 10)) ""))
          with (String d ds ++ String (digit_char (n mod 10)) "").
        rewrite digits_value_append, Hval. cbn [digits_value]. rewrite Hv. lia.
Qed.

Lemma print_uint_spec (n : Z) :
  0 <= n ->
  exists d ds,
    print_uint n = String d ds
    /\ all_digits (String d ds)
    /\ (0 < n -> d <> "0"%char)
    /\ (n = 0 -> String d ds = "0")
    /\ digits_value (String d ds) 0 = n.
Proof.
  intros Hn. unfold print_uint.
  assert (Hb : 0 <= n < 10 ^ (Z.of_nat (Z.to_nat (Z.log2 n)) + 1)).
  { split; [exact Hn|]. pose proof (Z.log2_nonneg n). rewrite Z2Nat.id by lia.
    destruct (Z.eq_dec n 0) as [->|Hn0]; [cbn; lia|].
    pose proof (Z.log2_spec n ltac:(lia)) as [_ Hlt].
    eapply Z.lt_le_trans; [exact Hlt|].
    replace (Z.succ (Z.log2 n)) with (Z.log2 n + 1) by lia.
    apply Z.pow_le_mono_l. lia. }
  destruct (decimal_digits_spec _ n "" Hb) as (d & ds & Heq & H).
  exists d, ds. rewrite Heq, append_nil_r. auto.
Qed.

(** The characters gathered from digits that a comma, a bracket or the end
    of input follows. *)
Lemma scan_digits_digits (ds : string) :
  forall (rest xtrc : string) (mantissa : bool),
    all_digits ds -> number_stops rest ->
    scan_digits (ds ++ rest) xtrc mantissa false false = (xtrc ++ ds, rest).
Proof.
  induction ds as [|c ds IH]; intros rest xtrc mantissa Hall Hstop.
  - cbn [append]. rewrite append_nil_r.
    destruct rest as [|c r]; [reflexivity|].
    cbn [number_stops] in Hstop. cbn [scan_digits].
    destruct Hstop as [->|[->| ->]]; reflexivity.
  - cbn [all_digits] in Hall. destruct Hall as [Hc Hall].
    cbn [append scan_digits]. rewrite Hc.
    rewrite IH by assumption. now rewrite append_assoc.
Qed.

Lemma span_digits_all (ds : string) : all_digits ds -> span_digits ds = (ds, "").
Proof.
  induction ds as [|c ds IH]; [reflexivity|].
  cbn [all_digits]. intros [Hc Hall]. cbn [span_digits]. now rewrite Hc, IH.
Qed.

Lemma is_digit_not_sign (c : ascii) :
  is_digit c = true ->
  Ascii.eqb c "+" = false /\ Ascii.eqb c "-" = false /\ Ascii.eqb c "." = false.
Proof.
  intros H. repeat split; apply Ascii.eqb_neq; intros ->; vm_compute in H; discriminate H.
Qed.

Lemma scan_float_int64 (z : Z) (rest : string) :
  number_stops rest ->
  scan_float (print_int64 z ++ rest) = (print_int64 z, rest).
Proof.
  intros Hstop.
  assert (Hzeros : forall d ds x,
             is_digit d = true -> d <> "0"%char ->
             scan_zeros (String d ds ++ rest) x false = (String d ds ++ rest, x, false)).
  { intros d ds x Hd Hd0. cbn [append scan_zeros].
    destruct (Ascii.eqb_spec d "0"); [contradiction | reflexivity]. }
  assert (Hrest0 : forall x, scan_zeros rest x true = (rest, x, true)).
  { intros x. destruct rest as [|c r]; [reflexivity|]. cbn [scan_zeros].
    cbn [number_stops] in Hstop. destruct Hstop as [->|[->| ->]]; reflexivity. }
  unfold print_int64. destruct (Z.ltb_spec z 0) as [Hneg|Hpos].
  - destruct (print_uint_spec (- z) ltac:(lia)) as (d & ds & Heq & Hall & Hlead & _ & _).
    rewrite Heq. unfold scan_float. cbn [append Ascii.eqb Bool.eqb orb].
    pose proof Hall as Hall'. cbn [all_digits] in Hall'. destruct Hall' as [Hd _].
    change (String d (ds ++ rest)) with (String d ds ++ rest).
    rewrite Hzeros by (try assumption; apply Hlead; lia).
    now rewrite scan_digits_digits by assumption.
  - destruct (print_uint_spec z Hpos) as (d & ds & Heq & Hall & Hlead & Hzero & _).
    rewrite Heq. unfold scan_float.
    pose proof Hall as Hall'. cbn [all_digits] in Hall'. destruct Hall' as [Hd _].
    destruct (is_digit_not_sign d Hd) as (Hp & Hm & _).
    cbn [append]. rewrite Hp, Hm. cbn [orb].
    change (String d (ds ++ rest)) with (String d ds ++ rest).
    destruct (Z.eq_dec z 0) as [Hz0|Hz0].
    + specialize (Hzero Hz0). injection Hzero as -> ->.
      cbn [append scan_zeros Ascii.eqb Bool.eqb]. rewrite Hrest0.
      pose proof (scan_digits_digits "" rest "0" true I Hstop) as Hs.
      cbn [append] in Hs. now rewrite Hs.
    + rewrite Hzeros by (try assumption; apply Hlead; lia).
      now rewrite scan_digits_digits by assumption.
Qed.

Lemma strtod_digits (neg : bool) (d : ascii) (ds : string) :
  all_digits (String d ds) ->
  strtod ((if neg then "-" else "") ++ String d ds)
  = Some (round_to_double neg (digits_value (String d ds) 0) 1).
Proof.
  intros Hall. pose proof Hall as Hall'. cbn [all_digits] in Hall'. destruct Hall' as [Hd _].
  destruct (is_digit_not_sign d Hd) as (Hp & Hm & _).
  unfold strtod.
  assert (Hsign : (match (if neg then "-" else "") ++ String d ds with
                   | "" => (false, "")
                   | String c r =>
                       if Ascii.eqb c "-" then (true, r)
                       else if Ascii.eqb c "+" then (false, r)
                            else (false, (if neg then "-" else "") ++ String d ds)
                   end) = (neg, String d ds)).
  { destruct neg; cbn [append]; [reflexivity|]. now rewrite Hm, Hp. }
  rewrite Hsign. rewrite (span_digits_all _ Hall).
  cbv beta iota.
  replace (String.length (String d ds) + String.length "" =? 0)%nat with false
    by (cbn [String.length Nat.add Nat.eqb]; reflexivity).
  rewrite append_nil_r. cbn [String.length Z.of_nat].
  change (0 - 0) with 0. cbn [Z.ltb Z.compare].
  change (10 ^ 0) with 1. now rewrite Z.mul_1_r.
Qed.

Lemma strtod_int64 (z : Z) :
  strtod (print_int64 z) = Some (round_to_double (z <? 0) (Z.abs z) 1).
Proof.
  unfold print_int64. destruct (Z.ltb_spec z 0) as [Hneg|Hpos].
  - destruct (print_uint_spec (- z) ltac:(lia)) as (d & ds & Heq & Hall & _ & _ & Hval).
    rewrite Heq. pose proof (strtod_digits true d ds Hall) as Hs.
    cbn [append] in Hs. rewrite Hs, Hval.
    f_equal. f_equal. lia.
  - destruct (print_uint_spec z Hpos) as (d & ds & Heq & Hall & _ & _ & Hval).
    rewrite Heq. pose proof (strtod_digits false d ds Hall) as Hs.
    cbn [append] in Hs. rewrite Hs, Hval.
    f_equal. f_equal. lia.
Qed.

Lemma print_int64_head (z : Z) :
  exists c r, print_int64 z = String c r
              /\ (c = "-"%char \/ is_digit c = true).
Proof.
  unfold print_int64. destruct (Z.ltb_spec z 0) as [Hneg|Hpos].
  - eexists _, _. split; [reflexivity | now left].
  - destruct (print_uint_spec z Hpos) as (d & ds & Heq & Hall & _).
    exists d, ds. split; [exact Heq|]. right. apply Hall.
Qed.

Lemma is_digit_not_space (c : ascii) :
  c = "-"%char \/ is_digit c = true -> is_space c = false /\ is_json_space c = false.
Proof.
  intros [->|H]; [split; reflexivity|].
  unfold is_digit in H. apply andb_prop in H. destruct H as [H1 H2].
  apply Z.leb_le in H1. apply Z.leb_le in H2.
  split.
  - unfold is_space.
    destruct (Z.eqb_spec (Z_of_byte c) 32), (Z.leb_spec 9 (Z_of_byte c)),
      (Z.leb_spec (Z_of_byte c) 13); try lia; reflexivity.
  - unfold is_json_space.
    repeat match goal with
           | |- context [Ascii.eqb c ?k] =>
               destruct (Ascii.eqb_spec c k) as [->|_];
               [vm_compute in H1; vm_compute in H2; contradiction|]
           end.
    reflexivity.
Qed.

(** [is >> d] on the decimal text of an [int64_t] that is exact as a
    [double]. *)
Lemma istream_extract_double_int64 (z : Z) (rest : string) :
  - 2 ^ 63 <= z < 2 ^ 63 -> exact_in_double z -> number_stops rest ->
  istream_extract_double (istream_of (print_int64 z ++ rest))
  = (Some (double_of_int64 z),
     mk_istream rest (match rest with "" => true | _ => false end) false).
Proof.
  intros Hz Hex Hstop.
  destruct (print_int64_head z) as (c & r & Heq & Hc).
  destruct (is_digit_not_space c Hc) as [Hsp _].
  unfold istream_extract_double, istream_of.
  cbn [good eofbit failbit negb andb buf].
  assert (Hskip : skip_space (print_int64 z ++ rest) = print_int64 z ++ rest).
  { rewrite Heq. cbn [append skip_space]. now rewrite Hsp. }
  rewrite Hskip.
  assert (Hcat : print_int64 z ++ rest = String c (r ++ rest)) by now rewrite Heq.
  rewrite Hcat. cbv iota. rewrite <- Hcat.
  rewrite scan_float_int64 by exact Hstop.
  rewrite strtod_int64.
  unfold double_of_int64.
  destruct (Z.eq_dec z 0) as [->|Hz0]; [reflexivity|].
  assert (Hl : Z.log2 (Z.abs z) < 64) by (apply Z.log2_lt_pow2; lia).
  assert (Hex' : exact_in_double (Z.abs z)).
  { unfold exact_in_double in *. now rewrite (Z.abs_eq (Z.abs z)) by lia. }
  rewrite round_to_double_integer by (assumption || lia). reflexivity.
Qed.

(** ** Reading characters *)

Lemma istream_get_cons (c : ascii) (r : string) :
  istream_get (istream_of (String c r)) = (Some c, istream_of r).
Proof. reflexivity. Qed.

Lemma istream_putback_good (c : ascii) (r : string) :
  istream_putback c (istream_of r) = istream_of (String c r).
Proof. reflexivity. Qed.

Lemma eliminateWhitespace_head (c : ascii) (r : string) :
  is_json_space c = false ->
  eliminateWhitespace (istream_of (String c r)) = istream_of (String c r).
Proof.
  intros Hc. unfold eliminateWhitespace. cbn [istream_of buf String.length].
  cbn [eliminateWhitespace_loop].
  change (mk_istream (String c r) false false) with (istream_of (String c r)).
  rewrite istream_get_cons, Hc. reflexivity.
Qed.

Lemma eliminateWhitespace_blank (c : ascii) (r : string) :
  is_json_space c = false ->
  eliminateWhitespace (istream_of (String " " (String c r))) = istream_of (String c r).
Proof.
  intros Hc. unfold eliminateWhitespace. cbn [istream_of buf String.length].
  cbn [eliminateWhitespace_loop].
  change (mk_istream (String " " (String c r)) false false)
    with (istream_of (String " " (String c r))).
  rewrite istream_get_cons. cbn [is_json_space Ascii.eqb Bool.eqb orb].
  rewrite istream_get_cons, Hc. reflexivity.
Qed.

Lemma istream_extract_char_head (c : ascii) (r : string) :
  is_space c = false ->
  istream_extract_char (istream_of (String c r)) = (Some c, istream_of r).
Proof.
  intros Hc. unfold istream_extract_char, istream_of.
  cbn [good eofbit failbit negb andb buf skip_space]. now rewrite Hc.
Qed.

Lemma split_at_quote (key rest : string) :
  quote_free key -> split_at dquote (key ++ String dquote rest) = (key, Some rest).
Proof.
  induction key as [|c key IH]; cbn [quote_free append split_at].
  - intros _. reflexivity.
  - intros [Hc Hk]. destruct (Ascii.eqb_spec c dquote); [contradiction|].
    now rewrite IH.
Qed.

Lemma istream_getline_key (key rest : string) :
  quote_free key ->
  istream_getline dquote (istream_of (key ++ String dquote rest))
  = (key, istream_of rest).
Proof.
  intros Hk. unfold istream_getline, istream_of.
  cbn [good eofbit failbit negb andb buf]. now rewrite split_at_quote.
Qed.

Lemma string_loop_spec (s : string) :
  forall (fuel : nat) (c : ascii) (acc rest : string),
    quote_free s -> (String.length s < fuel)%nat ->
    string_loop fuel c acc (istream_of (s ++ String dquote rest))
    = Returns (acc ++ s) (istream_of rest).
Proof.
  induction s as [|x s IH]; intros fuel c acc rest Hq Hfuel.
  - destruct fuel as [|f]; [cbn in Hfuel; lia|].
    cbn [append string_loop]. rewrite istream_get_cons. cbn [latest].
    rewrite Ascii.eqb_refl. now rewrite append_nil_r.
  - destruct fuel as [|f]; [cbn in Hfuel; lia|].
    cbn [quote_free] in Hq. destruct Hq as [Hx Hq].
    cbn [append string_loop]. rewrite istream_get_cons. cbn [latest].
    destruct (Ascii.eqb_spec x dquote); [contradiction|].
    rewrite IH by (try assumption; cbn [String.length] in Hfuel; lia).
    now rewrite append_assoc.
Qed.

(** ** Parsing what the printer wrote *)

(** One step of [parse_ConValue] on a stream whose first character [c] is
    no white space: the character is looked at and put back. *)
Lemma parse_ConValue_peek (f : nat) (c : ascii) (r : string) :
  is_json_space c = false ->
  parse_ConValue (S f) (istream_of (String c r)) =
    let ist3 := istream_of (String c r) in
    if Ascii.eqb c "n" then Returns VNull ist3
    else if Ascii.eqb c "t" || Ascii.eqb c "f" then
      Returns (VBoolean (Ascii.eqb c "t")) (get_n (if Ascii.eqb c "t" then 4 else 5) ist3)
    else if Ascii.eqb c dquote then
      match string_loop f dquote "" (istream_of r) with
      | Returns str ist7 => Returns (VString str) ist7
      | Undefined => Undefined
      | OutOfFuel => OutOfFuel
      end
    else if Ascii.eqb c "[" then
      match parse_ConArray f ist3 with
      | Returns arr ist5 => Returns (VArray arr) ist5
      | Undefined => Undefined
      | OutOfFuel => OutOfFuel
      end
    else if Ascii.eqb c "{" then
      match parse_ConObject f ist3 with
      | Returns obj ist5 => Returns (VObject obj) ist5
      | Undefined => Undefined
      | OutOfFuel => OutOfFuel
      end
    else
      match istream_extract_double ist3 with
      | (None, _) => Undefined
      | (Some d, ist5) => Returns (number_value d) ist5
      end.
Proof.
  intros Hc. cbn [parse_ConValue]. cbv zeta.
  rewrite (eliminateWhitespace_head c r Hc), istream_get_cons, istream_putback_good.
  rewrite (eliminateWhitespace_head c r Hc).
  destruct (Ascii.eqb_spec c "n"); [reflexivity|].
  destruct (Ascii.eqb c "t" || Ascii.eqb c "f"); [reflexivity|].
  destruct (Ascii.eqb_spec c dquote) as [->|Hq].
  - rewrite istream_get_cons. cbn [latest]. rewrite Ascii.eqb_refl. reflexivity.
  - reflexivity.
Qed.

Lemma parses_back_Boolean (b : bool) : parses_back (VBoolean b).
Proof.
  intros rest _. apply eventually_intro with (n := 1%nat). intros [|f] Hf; [lia|].
  destruct b; cbn [print_ConValue append]; rewrite parse_ConValue_peek by reflexivity;
    reflexivity.
Qed.

Lemma parses_back_String (s : string) : quote_free s -> parses_back (VString s).
Proof.
  intros Hq rest _.
  apply eventually_intro with (n := S (S (String.length s))). intros [|f] Hf; [lia|].
  cbn [print_ConValue append]. rewrite parse_ConValue_peek by reflexivity.
  cbv zeta. cbn [Ascii.eqb Bool.eqb orb]. unfold dquote at 1. cbn [Ascii.eqb Bool.eqb orb].
  rewrite Ascii.eqb_refl.
  rewrite append_assoc. cbn [append].
  rewrite string_loop_spec by (try assumption; lia). reflexivity.
Qed.

Lemma number_head_dispatch (c : ascii) :
  c = "-"%char \/ is_digit c = true ->
  Ascii.eqb c "n" = false /\ (Ascii.eqb c "t" || Ascii.eqb c "f") = false
  /\ Ascii.eqb c dquote = false /\ Ascii.eqb c "[" = false /\ Ascii.eqb c "{" = false
  /\ Ascii.eqb c "]" = false.
Proof.
  intros [->|H]; [repeat split; reflexivity|].
  assert (Hne : forall k, is_digit k = false -> Ascii.eqb c k = false).
  { intros k Hk. apply Ascii.eqb_neq. intros ->. congruence. }
  repeat split; try (apply Hne; reflexivity).
  rewrite !Hne by reflexivity. reflexivity.
Qed.

Lemma parses_back_Integer (z : Z) :
  - 2 ^ 63 <= z < 2 ^ 63 -> exact_in_double z -> parses_back (VInteger z).
Proof.
  intros Hz Hex rest Hstop.
  apply eventually_intro with (n := 1%nat). intros [|f] Hf; [lia|].
  cbn [print_ConValue after_value].
  destruct (print_int64_head z) as (c & r & Heq & Hc).
  destruct (is_digit_not_space c Hc) as [_ Hjs].
  destruct (number_head_dispatch c Hc) as (Hn & Htf & Hq & Ha & Ho & _).
  assert (Hcat : print_int64 z ++ rest = String c (r ++ rest)) by now rewrite Heq.
  rewrite Hcat, parse_ConValue_peek by exact Hjs.
  cbv zeta. rewrite Hn, Htf, Hq, Ha, Ho. rewrite <- Hcat.
  rewrite istream_extract_double_int64 by assumption.
  now rewrite number_value_of_int64.
Qed.

(** The text of a value starts with a character that is no white space and
    no closing bracket. *)
Lemma print_ConValue_head (v : ConValue) :
  text_stable v ->
  exists c r, print_ConValue v = String c r
              /\ is_space c = false /\ is_json_space c = false
              /\ Ascii.eqb c "]" = false.
Proof.
  destruct v as [| b | z | bits | s | vs | kvs | t]; cbn [text_stable]; intros H;
    try contradiction.
  - destruct b; eexists _, _; cbn [print_ConValue]; repeat split; reflexivity.
  - destruct (print_int64_head z) as (c & r & Heq & Hc).
    destruct (is_digit_not_space c Hc) as [Hs Hjs].
    destruct (number_head_dispatch c Hc) as (_ & _ & _ & _ & _ & Hb).
    exists c, r. cbn [print_ConValue]. auto.
  - eexists _, _; cbn [print_ConValue append]; repeat split; reflexivity.
  - eexists _, _; cbn [print_ConValue append]; repeat split; reflexivity.
  - eexists _, _; cbn [print_ConValue append]; repeat split; reflexivity.
Qed.

Lemma after_value_delimiter (v : ConValue) (c : ascii) (r : string) :
  is_json_space c = false ->
  after_value v (String c r) = istream_of (String c r).
Proof.
  intros Hc. destruct v as [| b | z | bits | s | [|x vs] | [|kv kvs] | t];
    cbn [after_value]; try reflexivity; now apply eliminateWhitespace_head.
Qed.

Lemma eliminateWhitespace_sep (sp : string) (c : ascii) (r : string) :
  blank_or_empty sp -> is_json_space c = false ->
  eliminateWhitespace (istream_of (sp ++ String c r)) = istream_of (String c r).
Proof.
  intros [->| ->] Hc; cbn [append].
  - now apply eliminateWhitespace_head.
  - now apply eliminateWhitespace_blank.
Qed.

Lemma eventually_mono {A : Type} (f g : nat -> outcome A) (r : outcome A) (n : nat) :
  (forall fuel, (n <= fuel)%nat -> f fuel = g fuel) ->
  eventually g r -> eventually f r.
Proof.
  intros Hfg [m Hg]. exists (Nat.max n m). intros fuel Hfuel.
  rewrite Hfg by lia. apply Hg. lia.
Qed.

(** One element of an array that a comma follows: the loop goes on behind
    the comma with the element appended. *)
Lemma parse_ConArray_loop_comma (v : ConValue) (sp tail : string) (c : ascii)
  (acc : ConArray) (R : outcome ConArray) :
  text_stable v -> parses_back v -> blank_or_empty sp ->
  eventually (fun f => parse_ConArray_loop f "," (acc ++ [v])%list (istream_of tail)) R ->
  eventually
    (fun f => parse_ConArray_loop f c acc
                (istream_of (sp ++ print_ConValue v ++ String "," tail))) R.
Proof.
  intros Hst Hv Hsp [n2 H2].
  destruct (print_ConValue_head v Hst) as (c0 & r0 & Heq & Hs0 & Hjs0 & _).
  destruct (Hv (String "," tail)) as [n1 H1]; [cbn; auto|].
  rewrite after_value_delimiter in H1 by reflexivity.
  apply eventually_intro with (n := S (Nat.max n1 n2)). intros [|f] Hf; [lia|].
  cbn [parse_ConArray_loop]. cbv zeta.
  replace (sp ++ print_ConValue v ++ String "," tail)
    with (sp ++ String c0 (r0 ++ String "," tail)) by now rewrite Heq.
  rewrite eliminateWhitespace_sep by assumption.
  replace (String c0 (r0 ++ String "," tail))
    with (print_ConValue v ++ String "," tail) by now rewrite Heq.
  rewrite H1 by lia.
  rewrite eliminateWhitespace_head by reflexivity.
  rewrite istream_extract_char_head by reflexivity.
  cbn [latest Ascii.eqb Bool.eqb negb]. apply H2. lia.
Qed.

(** The last element of an array: the closing bracket ends the loop. *)
Lemma parse_ConArray_loop_last (v : ConValue) (sp rest : string) (c : ascii)
  (acc : ConArray) :
  text_stable v -> parses_back v -> blank_or_empty sp ->
  eventually
    (fun f => parse_ConArray_loop f c acc
                (istream_of (sp ++ print_ConValue v ++ String "]" rest)))
    (Returns (acc ++ [v])%list (istream_of rest)).
Proof.
  intros Hst Hv Hsp.
  destruct (print_ConValue_head v Hst) as (c0 & r0 & Heq & Hs0 & Hjs0 & _).
  destruct (Hv (String "]" rest)) as [n1 H1]; [cbn; auto|].
  rewrite after_value_delimiter in H1 by reflexivity.
  apply eventually_intro with (n := S n1). intros [|f] Hf; [lia|].
  cbn [parse_ConArray_loop]. cbv zeta.
  replace (sp ++ print_ConValue v ++ String "]" rest)
    with (sp ++ String c0 (r0 ++ String "]" rest)) by now rewrite Heq.
  rewrite eliminateWhitespace_sep by assumption.
  replace (String c0 (r0 ++ String "]" rest))
    with (print_ConValue v ++ String "]" rest) by now rewrite Heq.
  rewrite H1 by lia.
  rewrite eliminateWhitespace_head by reflexivity.
  rewrite istream_extract_char_head by reflexivity.
  reflexivity.
Qed.

(** The loop over the elements of a non-empty array. *)
Lemma parse_ConArray_loop_elements (vs : list ConValue) :
  forall (v : ConValue) (sp rest : string) (c : ascii) (acc : ConArray),
    Forall (fun x => text_stable x /\ parses_back x) (v :: vs) ->
    blank_or_empty sp ->
    eventually
      (fun f => parse_ConArray_loop f c acc
                  (istream_of
                     (sp ++ join_comma (map print_ConValue (v :: vs)) ++ String "]" rest)))
      (Returns (acc ++ v :: vs)%list (istream_of rest)).
Proof.
  induction vs as [|w vs IH]; intros v sp rest c acc Hall Hsp.
  - inversion Hall as [|? ? [Hst Hv] _]; subst.
    cbn [map join_comma]. now apply parse_ConArray_loop_last.
  - inversion Hall as [|? ? [Hst Hv] Hall']; subst.
    cbn [map join_comma].
    change (join_comma (print_ConValue w :: map print_ConValue vs))
      with (join_comma (map print_ConValue (w :: vs))).
    rewrite !append_assoc. cbn [append].
    apply parse_ConArray_loop_comma; try assumption.
    replace (acc ++ v :: w :: vs)%list with ((acc ++ [v]) ++ w :: vs)%list
      by now rewrite <- app_assoc.
    apply (IH w " " rest ","%char (acc ++ [v])%list Hall'). now right.
Qed.

Lemma parse_ConArray_open (f : nat) (c : ascii) (r : string) :
  is_space c = false -> is_json_space c = false ->
  parse_ConArray f (istream_of (String "[" (String c r))) =
    if Ascii.eqb c "]" then Returns [] (eliminateWhitespace (istream_of r))
    else parse_ConArray_loop f c [] (istream_of (String c r)).
Proof.
  intros Hs Hjs. unfold parse_ConArray, parse_ConArray_with. cbv zeta.
  rewrite eliminateWhitespace_head by reflexivity.
  rewrite istream_extract_char_head by reflexivity.
  cbn [Ascii.eqb Bool.eqb negb].
  rewrite eliminateWhitespace_head by exact Hjs.
  rewrite istream_extract_char_head by exact Hs.
  cbn [latest]. now rewrite istream_putback_good.
Qed.

Lemma parses_back_Array (vs : list ConValue) :
  Forall (fun x => text_stable x /\ parses_back x) vs -> parses_back (VArray vs).
Proof.
  intros Hall rest _. cbn [print_ConValue]. rewrite !append_assoc. cbn [append].
  destruct vs as [|v vs].
  - apply eventually_intro with (n := 2%nat). intros [|f] Hf; [lia|].
    cbn [map join_comma append after_value].
    rewrite parse_ConValue_peek by reflexivity. cbv zeta. cbn [Ascii.eqb Bool.eqb orb].
    unfold dquote. cbn [Ascii.eqb Bool.eqb orb].
    now rewrite parse_ConArray_open by reflexivity.
  - pose proof Hall as Hall0. inversion Hall0 as [|? ? [Hst Hv] _]; subst.
    destruct (print_ConValue_head v Hst) as (c0 & r0 & Heq & Hs0 & Hjs0 & Hb0).
    destruct (parse_ConArray_loop_elements vs v "" rest c0 [] Hall (or_introl eq_refl))
      as [n Hn].
    apply eventually_intro with (n := S n). intros [|f] Hf; [lia|].
    rewrite parse_ConValue_peek by reflexivity. cbv zeta. cbn [Ascii.eqb Bool.eqb orb].
    unfold dquote. cbn [Ascii.eqb Bool.eqb orb].
    cbn [append app] in Hn.
    assert (Hcat : join_comma (map print_ConValue (v :: vs)) ++ String "]" rest
                   = String c0 (match vs with
                                | [] => r0
                                | _ => r0 ++ ", " ++ join_comma (map print_ConValue vs)
                                end ++ String "]" rest)).
    { cbn [map join_comma]. rewrite Heq. destruct vs; [reflexivity|].
      cbn [map]. cbn [append]. now rewrite !append_assoc. }
    rewrite Hcat, parse_ConArray_open by assumption.
    rewrite Hb0. rewrite <- Hcat. now rewrite Hn by lia.
Qed.

Lemma print_entry_text (k : string) (v : ConValue) (tail : string) :
  print_entry print_ConValue (k, v) ++ tail
  = String dquote (k ++ String dquote (String ":" (String " " (print_ConValue v ++ tail)))).
Proof.
  unfold print_entry. cbn [fst snd]. rewrite !append_assoc. cbn [append].
  reflexivity.
Qed.

(** The loop of the object operator up to the value of an entry. *)
Lemma parse_ConObject_loop_entry (f : nat) (k : string) (v : ConValue)
  (sp tail : string) (c : ascii) (obj : ConObject) :
  text_stable v -> quote_free k -> blank_or_empty sp ->
  parse_ConObject_loop (S f) c obj
    (istream_of (sp ++ print_entry print_ConValue (k, v) ++ tail))
  = match parse_ConValue f (istream_of (print_ConValue v ++ tail)) with
    | Returns value ist7 =>
        if failbit ist7 then Returns obj ist7
        else
          let obj1 := map_assign k value obj in
          let ist8 := eliminateWhitespace ist7 in
          let (oc3, ist9) := istream_extract_char ist8 in
          let c3 := latest ":" oc3 in
          if Ascii.eqb c3 "}" then Returns obj1 ist9
          else if negb (Ascii.eqb c3 ",") then Returns obj1 (setstate_failbit ist9)
               else parse_ConObject_loop f c3 obj1 ist9
    | Undefined => Undefined
    | OutOfFuel => OutOfFuel
    end.
Proof.
  intros Hst Hk Hsp.
  destruct (print_ConValue_head v Hst) as (c0 & r0 & Heq & Hs0 & Hjs0 & _).
  rewrite print_entry_text.
  cbn [parse_ConObject_loop]. cbv zeta.
  rewrite eliminateWhitespace_sep by (assumption || reflexivity).
  rewrite istream_extract_char_head by reflexivity.
  cbn [latest]. rewrite Ascii.eqb_refl. cbn [negb].
  rewrite istream_getline_key by assumption.
  rewrite eliminateWhitespace_head by reflexivity.
  rewrite istream_extract_char_head by reflexivity.
  cbn [latest Ascii.eqb Bool.eqb negb].
  replace (print_ConValue v ++ tail) with (String c0 (r0 ++ tail)) by now rewrite Heq.
  rewrite eliminateWhitespace_blank by assumption.
  reflexivity.
Qed.

Lemma parse_ConObject_loop_comma (k : string) (v : ConValue) (sp tail : string)
  (c : ascii) (obj : ConObject) (R : outcome ConObject) :
  text_stable v -> parses_back v -> quote_free k -> blank_or_empty sp ->
  eventually (fun f => parse_ConObject_loop f "," (map_assign k v obj) (istream_of tail)) R ->
  eventually
    (fun f => parse_ConObject_loop f c obj
                (istream_of (sp ++ print_entry print_ConValue (k, v) ++ String "," tail))) R.
Proof.
  intros Hst Hv Hk Hsp [n2 H2].
  destruct (Hv (String "," tail)) as [n1 H1]; [cbn; auto|].
  rewrite after_value_delimiter in H1 by reflexivity.
  apply eventually_intro with (n := S (Nat.max n1 n2)). intros [|f] Hf; [lia|].
  rewrite parse_ConObject_loop_entry by assumption.
  rewrite H1 by lia. cbn [failbit istream_of]. cbv zeta.
  change (mk_istream (String "," tail) false false) with (istream_of (String "," tail)).
  rewrite eliminateWhitespace_head by reflexivity.
  rewrite istream_extract_char_head by reflexivity.
  cbn [latest Ascii.eqb Bool.eqb negb]. apply H2. lia.
Qed.

Lemma parse_ConObject_loop_last (k : string) (v : ConValue) (sp rest : string)
  (c : ascii) (obj : ConObject) :
  text_stable v -> parses_back v -> quote_free k -> blank_or_empty sp ->
  eventually
    (fun f => parse_ConObject_loop f c obj
                (istream_of (sp ++ print_entry print_ConValue (k, v) ++ String "}" rest)))
    (Returns (map_assign k v obj) (istream_of rest)).
Proof.
  intros Hst Hv Hk Hsp.
  destruct (Hv (String "}" rest)) as [n1 H1]; [cbn; auto|].
  rewrite after_value_delimiter in H1 by reflexivity.
  apply eventually_intro with (n := S n1). intros [|f] Hf; [lia|].
  rewrite parse_ConObject_loop_entry by assumption.
  rewrite H1 by lia. cbn [failbit istream_of]. cbv zeta.
  change (mk_istream (String "}" rest) false false) with (istream_of (String "}" rest)).
  rewrite eliminateWhitespace_head by reflexivity.
  rewrite istream_extract_char_head by reflexivity.
  reflexivity.
Qed.

(** Where a key must start the loop finds the closing brace: [failbit]. *)
Lemma parse_ConObject_loop_no_key (f : nat) (c : ascii) (obj : ConObject) (rest : string) :
  parse_ConObject_loop (S f) c obj (istream_of (String "}" rest))
  = Returns obj (setstate_failbit (istream_of rest)).
Proof.
  cbn [parse_ConObject_loop]. cbv zeta.
  rewrite eliminateWhitespace_head by reflexivity.
  rewrite istream_extract_char_head by reflexivity.
  reflexivity.
Qed.

(** The loop over the entries of a non-empty object, in the order of the
    text: each is assigned into the map. *)
Lemma parse_ConObject_loop_entries (kvs : list (string * ConValue)) :
  forall (kv : string * ConValue) (sp rest : string) (c : ascii) (obj : ConObject),
    Forall (fun e => quote_free (fst e) /\ text_stable (snd e) /\ parses_back (snd e))
      (kv :: kvs) ->
    blank_or_empty sp ->
    eventually
      (fun f => parse_ConObject_loop f c obj
                  (istream_of
                     (sp ++ join_comma (map (print_entry print_ConValue) (kv :: kvs))
                      ++ String "}" rest)))
      (Returns (fold_left (fun m e => map_assign (fst e) (snd e) m) (kv :: kvs) obj)
         (istream_of rest)).
Proof.
  induction kvs as [|kw kvs IH]; intros [k v] sp rest c obj Hall Hsp.
  - inversion Hall as [|? ? (Hk & Hst & Hv) _]; subst. cbn [fst snd] in *.
    cbn [map join_comma fold_left fst snd]. now apply parse_ConObject_loop_last.
  - inversion Hall as [|? ? (Hk & Hst & Hv) Hall']; subst. cbn [fst snd] in *.
    cbn [map join_comma].
    change (join_comma (print_entry print_ConValue kw :: map (print_entry print_ConValue) kvs))
      with (join_comma (map (print_entry print_ConValue) (kw :: kvs))).
    rewrite !append_assoc. cbn [append].
    apply parse_ConObject_loop_comma; try assumption.
    cbn [fold_left fst snd].
    apply (IH kw " " rest ","%char (map_assign k v obj) Hall'). now right.
Qed.

(** The same with a comma before the closing brace: every entry is
    assigned, then the loop fails on the brace. *)
Lemma parse_ConObject_loop_trailing (kvs : list (string * ConValue)) :
  forall (kv : string * ConValue) (sp rest : string) (c : ascii) (obj : ConObject),
    Forall (fun e => quote_free (fst e) /\ text_stable (snd e) /\ parses_back (snd e))
      (kv :: kvs) ->
    blank_or_empty sp ->
    eventually
      (fun f => parse_ConObject_loop f c obj
                  (istream_of
                     (sp ++ join_comma (map (print_entry print_ConValue) (kv :: kvs))
                      ++ String "," (String "}" rest))))
      (Returns (fold_left (fun m e => map_assign (fst e) (snd e) m) (kv :: kvs) obj)
         (setstate_failbit (istream_of rest))).
Proof.
  induction kvs as [|kw kvs IH]; intros [k v] sp rest c obj Hall Hsp.
  - inversion Hall as [|? ? (Hk & Hst & Hv) _]; subst. cbn [fst snd] in *.
    cbn [map join_comma fold_left fst snd].
    apply parse_ConObject_loop_comma; try assumption.
    apply eventually_intro with (n := 1%nat). intros [|f] Hf; [lia|].
    apply parse_ConObject_loop_no_key.
  - inversion Hall as [|? ? (Hk & Hst & Hv) Hall']; subst. cbn [fst snd] in *.
    cbn [map join_comma].
    change (join_comma (print_entry print_ConValue kw :: map (print_entry print_ConValue) kvs))
      with (join_comma (map (print_entry print_ConValue) (kw :: kvs))).
    rewrite !append_assoc. cbn [append].
    apply parse_ConObject_loop_comma; try assumption.
    cbn [fold_left fst snd].
    apply (IH kw " " rest ","%char (map_assign k v obj) Hall'). now right.
Qed.

Lemma parse_ConObject_open (f : nat) (c : ascii) (r : string) :
  is_space c = false -> is_json_space c = false ->
  parse_ConObject f (istream_of (String "{" (String c r))) =
    if Ascii.eqb c "}" then Returns [] (eliminateWhitespace (istream_of r))
    else parse_ConObject_loop f c [] (istream_of (String c r)).
Proof.
  intros Hs Hjs. unfold parse_ConObject, parse_ConObject_with. cbv zeta.
  rewrite eliminateWhitespace_head by reflexivity.
  rewrite istream_extract_char_head by reflexivity.
  cbn [Ascii.eqb Bool.eqb negb].
  rewrite eliminateWhitespace_head by exact Hjs.
  rewrite istream_extract_char_head by exact Hs.
  cbn [latest]. now rewrite istream_putback_good.
Qed.

Lemma parse_ConValue_object (f : nat) (r : string) :
  parse_ConValue (S f) (istream_of (String "{" r)) =
    match parse_ConObject f (istream_of (String "{" r)) with
    | Returns obj ist5 => Returns (VObject obj) ist5
    | Undefined => Undefined
    | OutOfFuel => OutOfFuel
    end.
Proof. now rewrite parse_ConValue_peek by reflexivity. Qed.

Lemma entries_text_head (kv : string * ConValue) (kvs : list (string * ConValue))
  (tail : string) :
  exists r,
    join_comma (map (print_entry print_ConValue) (kv :: kvs)) ++ tail
    = String dquote r.
Proof.
  destruct kv as [k v]. cbn [map join_comma].
  destruct (map (print_entry print_ConValue) kvs) as [|e es].
  - rewrite print_entry_text. eexists. reflexivity.
  - rewrite append_assoc, print_entry_text. eexists. reflexivity.
Qed.

(** An object text whose entries stand in any key order, keys repeated or
    not: the value parsed holds the map the assignments build. *)
Lemma parse_object_text (kvs : list (string * ConValue)) (rest : string) :
  Forall (fun e => quote_free (fst e) /\ text_stable (snd e) /\ parses_back (snd e)) kvs ->
  eventually
    (fun f => parse_ConValue f (istream_of (print_ConObject kvs ++ rest)))
    (Returns (VObject (map_of_assignments kvs)) (after_value (VObject kvs) rest)).
Proof.
  intros Hall. unfold print_ConObject. rewrite !append_assoc. cbn [append].
  destruct kvs as [|kv kvs].
  - apply eventually_intro with (n := 2%nat). intros [|f] Hf; [lia|].
    cbn [map join_comma append after_value].
    rewrite parse_ConValue_object.
    now rewrite parse_ConObject_open by reflexivity.
  - destruct (parse_ConObject_loop_entries kvs kv "" rest dquote [] Hall (or_introl eq_refl))
      as [n Hn].
    apply eventually_intro with (n := S n). intros [|f] Hf; [lia|].
    rewrite parse_ConValue_object. cbn [append] in Hn.
    destruct (entries_text_head kv kvs (String "}" rest)) as [r Hr].
    rewrite Hr, parse_ConObject_open by reflexivity.
    unfold dquote at 1. cbn [Ascii.eqb Bool.eqb].
    rewrite <- Hr. rewrite Hn by lia. reflexivity.
Qed.

(** An object text with a comma before its closing brace. *)
Lemma parse_object_text_trailing_comma (kv : string * ConValue)
  (kvs : list (string * ConValue)) (rest : string) :
  Forall (fun e => quote_free (fst e) /\ text_stable (snd e) /\ parses_back (snd e))
    (kv :: kvs) ->
  eventually
    (fun f =>
       parse_ConValue f
         (istream_of
            ("{" ++ join_comma (map (print_entry print_ConValue) (kv :: kvs))
             ++ ",}" ++ rest)))
    (Returns (VObject (map_of_assignments (kv :: kvs)))
       (setstate_failbit (istream_of rest))).
Proof.
  intros Hall. cbn [append].
  destruct (parse_ConObject_loop_trailing kvs kv "" rest dquote [] Hall (or_introl eq_refl))
    as [n Hn].
  apply eventually_intro with (n := S n). intros [|f] Hf; [lia|].
  rewrite parse_ConValue_object. cbn [append] in Hn.
  destruct (entries_text_head kv kvs (String "," (String "}" rest))) as [r Hr].
  rewrite Hr, parse_ConObject_open by reflexivity.
  unfold dquote at 1. cbn [Ascii.eqb Bool.eqb].
  rewrite <- Hr. rewrite Hn by lia. reflexivity.
Qed.

Lemma parses_back_Object (kvs : list (string * ConValue)) :
  keys_sorted kvs ->
  Forall (fun e => quote_free (fst e) /\ text_stable (snd e) /\ parses_back (snd e)) kvs ->
  parses_back (VObject kvs).
Proof.
  intros Hsorted Hall rest _.
  pose proof (parse_object_text kvs rest Hall) as H.
  now rewrite (map_of_assignments_id kvs Hsorted) in H.
Qed.

(** Every value of the class is read back from its text. *)
Lemma parses_back_all (v : ConValue) : text_stable v -> parses_back v.
Proof.
  induction v as [| b | z | bits | str | vs IH | kvs IH | t] using ConValue_deep_ind;
    cbn [text_stable]; intros Hst; try contradiction.
  - apply parses_back_Boolean.
  - now apply parses_back_Integer.
  - now apply parses_back_String.
  - apply parses_back_Array.
    induction IH as [|v vs Hv _ IHvs]; constructor.
    + split; [apply Hst | apply Hv, Hst].
    + apply IHvs, Hst.
  - destruct Hst as [Hsorted Hst]. apply parses_back_Object; [exact Hsorted|].
    clear Hsorted.
    induction IH as [|kv kvs Hv _ IHkvs]; constructor.
    + destruct Hst as [[Hk Hs] _]. repeat split; [exact Hk | exact Hs | apply Hv, Hs].
    + apply IHkvs, Hst.
Qed.

(** Once the stream has failed, the loop that reads a string never sees
    its closing quote. *)
Lemma string_loop_failed (fuel : nat) :
  forall (c : ascii) (str : string) (ist : istream),
    good ist = false -> c <> dquote -> string_loop fuel c str ist = OutOfFuel.
Proof.
  induction fuel as [|f IH]; intros c str ist Hbad Hc; [reflexivity|].
  cbn [string_loop]. unfold istream_get. rewrite Hbad. cbn [latest].
  destruct (Ascii.eqb_spec c dquote); [contradiction|].
  apply IH; [|exact Hc]. unfold good, setstate_failbit. cbn [failbit negb].
  apply andb_false_r.
Qed.

(** A string that is not closed: the parser does not return, whatever the
    budget. *)
Lemma unterminated_string_never_returns (fuel : nat) :
  parse_ConValue fuel (istream_of (String dquote "a")) = OutOfFuel.
Proof.
  destruct fuel as [|[|[|f]]]; try reflexivity.
  rewrite parse_ConValue_peek by reflexivity. cbv zeta.
  unfold dquote at 1 2 3. cbn [Ascii.eqb Bool.eqb orb].
  rewrite Ascii.eqb_refl.
  cbn [string_loop]. rewrite istream_get_cons. cbn [latest].
  unfold dquote at 1. cbn [Ascii.eqb Bool.eqb].
  change (istream_get (istream_of "")) with (@None ascii, mk_istream "" true true).
  cbn [latest]. unfold dquote at 1. cbn [Ascii.eqb Bool.eqb].
  now rewrite string_loop_failed.
Qed.


(** ** Objects stay maps *)

Lemma well_formed_Array (vs : list ConValue) :
  well_formed (VArray vs) <-> Forall well_formed vs.
Proof.
  cbn [well_formed]. induction vs as [|v vs IH].
  - split; constructor.
  - split.
    + intros [Hv Hvs]. constructor; [exact Hv | now apply IH].
    + intros H. inversion H; subst. split; [assumption | now apply IH].
Qed.

Lemma well_formed_Object (kvs : list (string * ConValue)) :
  well_formed (VObject kvs)
  <-> keys_sorted kvs /\ Forall (fun kv => well_formed (snd kv)) kvs.
Proof.
  cbn [well_formed]. apply and_iff_compat_l. induction kvs as [|kv kvs IH].
  - split; constructor.
  - split.
    + intros [Hv Hvs]. constructor; [exact Hv | now apply IH].
    + intros H. inversion H; subst. split; [assumption | now apply IH].
Qed.

Lemma map_assign_Forall {V : Type} (P : V -> Prop) (k : string) (v : V)
  (m : list (string * V)) :
  P v -> Forall (fun kv => P (snd kv)) m ->
  Forall (fun kv => P (snd kv)) (map_assign k v m).
Proof.
  intros Hv Hm. induction Hm as [|[k0 v0] m H0 Hm IH]; cbn [map_assign].
  - now constructor.
  - destruct (String_as_OT.compare k k0); repeat constructor; assumption.
Qed.

Lemma well_formed_assign (k : string) (v : ConValue) (obj : ConObject) :
  well_formed v -> well_formed (VObject obj) -> well_formed (VObject (map_assign k v obj)).
Proof.
  rewrite !well_formed_Object. intros Hv [Hs Hall]. split.
  - now apply map_assign_sorted.
  - now apply map_assign_Forall.
Qed.

Ltac break_match H :=
  match type of H with
  | context [match ?x with _ => _ end] => destruct x eqn:?
  end.

Lemma parse_ConArray_with_wf
  (loop : ascii -> ConArray -> istream -> outcome ConArray) :
  (forall c acc ist vs ist',
      Forall well_formed acc -> loop c acc ist = Returns vs ist' -> Forall well_formed vs) ->
  forall ist vs ist',
    parse_ConArray_with loop ist = Returns vs ist' -> Forall well_formed vs.
Proof.
  intros Hloop ist vs ist' H. unfold parse_ConArray_with in H. cbv zeta in H.
  repeat (break_match H; try discriminate H); try (injection H as <- <-);
    try constructor.
  eapply Hloop; [|eassumption]. constructor.
Qed.

Lemma parse_ConObject_with_wf
  (loop : ascii -> ConObject -> istream -> outcome ConObject) :
  (forall c obj ist obj' ist',
      well_formed (VObject obj) -> loop c obj ist = Returns obj' ist' ->
      well_formed (VObject obj')) ->
  forall ist obj ist',
    parse_ConObject_with loop ist = Returns obj ist' -> well_formed (VObject obj).
Proof.
  intros Hloop ist obj ist' H. unfold parse_ConObject_with in H. cbv zeta in H.
  assert (Hnil : well_formed (VObject [])) by (apply well_formed_Object; split; constructor).
  repeat (break_match H; try discriminate H); try (injection H as <- <-);
    try exact Hnil.
  eapply Hloop; [|eassumption]. exact Hnil.
Qed.

(** Whatever the parser returns, every object in it is a map with strictly
    increasing keys. *)
Lemma parse_well_formed (fuel : nat) :
  (forall ist v ist', parse_ConValue fuel ist = Returns v ist' -> well_formed v)
  /\ (forall c acc ist vs ist',
        Forall well_formed acc ->
        parse_ConArray_loop fuel c acc ist = Returns vs ist' -> Forall well_formed vs)
  /\ (forall c obj ist obj' ist',
        well_formed (VObject obj) ->
        parse_ConObject_loop fuel c obj ist = Returns obj' ist' ->
        well_formed (VObject obj')).
Proof.
  induction fuel as [|f (IHv & IHa & IHo)].
  - repeat split; intros; discriminate.
  - split; [|split].
    + intros ist v ist' H. cbn [parse_ConValue] in H. cbv zeta in H.
      repeat (break_match H; try discriminate H);
        try (injection H as <- <-); try exact I.
      * apply well_formed_Array. eapply parse_ConArray_with_wf; eassumption.
      * eapply parse_ConObject_with_wf; eassumption.
      * unfold number_value. destruct (double_eqb _ _); exact I.
    + intros c acc ist vs ist' Hacc H. cbn [parse_ConArray_loop] in H. cbv zeta in H.
      destruct (parse_ConValue f (eliminateWhitespace ist)) as [v ist2| |] eqn:Hv;
        try discriminate H.
      assert (Hacc' : Forall well_formed (acc ++ [v])).
      { apply Forall_app. split; [exact Hacc|]. constructor; [|constructor].
        eapply IHv; eassumption. }
      repeat (break_match H; try discriminate H); try (injection H as <- <-);
        try assumption.
      eapply IHa; eassumption.
    + intros c obj ist obj' ist' Hobj H. cbn [parse_ConObject_loop] in H. cbv zeta in H.
      repeat (break_match H; try discriminate H);
        try (injection H as <- <-); try assumption;
        try (apply well_formed_assign; [eapply IHv; eassumption | assumption]).
      eapply IHo; [|eassumption].
      apply well_formed_assign; [eapply IHv; eassumption | assumption].
Qed.

Section ReadWellFormed.
Variable zdecompress : string -> string.

Lemma ConArray_read_with_wf
  (loop : Z -> Z -> ConArray -> istream -> outcome ConArray) :
  (forall sz i acc ist vs ist',
      Forall well_formed acc -> loop sz i acc ist = Returns vs ist' ->
      Forall well_formed vs) ->
  forall ist vs ist',
    ConArray_read_with loop ist = Returns vs ist' -> Forall well_formed vs.
Proof.
  intros Hloop ist vs ist' H. unfold ConArray_read_with in H.
  repeat (break_match H; try discriminate H).
  eapply Hloop; [|eassumption]. constructor.
Qed.

Lemma ConObject_read_with_wf
  (loop : Z -> Z -> ConObject -> istream -> outcome ConObject) :
  (forall sz i obj ist obj' ist',
      well_formed (VObject obj) -> loop sz i obj ist = Returns obj' ist' ->
      well_formed (VObject obj')) ->
  forall ist obj ist',
    ConObject_read_with loop ist = Returns obj ist' -> well_formed (VObject obj).
Proof.
  intros Hloop ist obj ist' H. unfold ConObject_read_with in H.
  repeat (break_match H; try discriminate H).
  eapply Hloop; [|eassumption]. apply well_formed_Object. split; constructor.
Qed.

(** Whatever the decoder returns, every object in it is a map with
    strictly increasing keys. *)
Lemma read_well_formed (fuel : nat) :
  (forall ist v ist',
      ConValue_read zdecompress fuel ist = Returns v ist' -> well_formed v)
  /\ (forall sz i acc ist vs ist',
        Forall well_formed acc ->
        ConArray_read_loop zdecompress fuel sz i acc ist = Returns vs ist' ->
        Forall well_formed vs)
  /\ (forall sz i obj ist obj' ist',
        well_formed (VObject obj) ->
        ConObject_read_loop zdecompress fuel sz i obj ist = Returns obj' ist' ->
        well_formed (VObject obj')).
Proof.
  induction fuel as [|f (IHv & IHa & IHo)].
  - repeat split; intros; discriminate.
  - split; [|split].
    + intros ist v ist' H. cbn [ConValue_read] in H. cbv zeta in H.
      repeat (break_match H; try discriminate H);
        try (injection H as <- <-); try exact I;
        try (apply well_formed_Array; eapply ConArray_read_with_wf; eassumption);
        try (eapply ConObject_read_with_wf; eassumption).
    + intros sz i acc ist vs ist' Hacc H. cbn [ConArray_read_loop] in H.
      repeat (break_match H; try discriminate H); try (injection H as <- <-);
        try assumption.
      eapply IHa; [|eassumption].
      apply Forall_app. split; [exact Hacc|]. constructor; [|constructor].
      eapply IHv; eassumption.
    + intros sz i obj ist obj' ist' Hobj H. cbn [ConObject_read_loop] in H.
      repeat (break_match H; try discriminate H); try (injection H as <- <-);
        try assumption.
      eapply IHo; [|eassumption].
      apply well_formed_assign; [eapply IHv; eassumption | assumption].
Qed.

End ReadWellFormed.

(** * Lemmas for the further properties *)

(** ** White space and stream state *)

Lemma eliminateWhitespace_loop_skip (ws : string) :
  forall (n : nat) (c : ascii) (r : string),
    json_blank ws -> is_json_space c = false -> (String.length ws < n)%nat ->
    eliminateWhitespace_loop n (istream_of (ws ++ String c r)) = istream_of (String c r).
Proof.
  induction ws as [|x ws IH]; intros n c r Hws Hc Hn.
  - destruct n as [|n]; [cbn in Hn; lia|].
    cbn [append eliminateWhitespace_loop]. rewrite istream_get_cons, Hc. reflexivity.
  - destruct n as [|n]; [cbn in Hn; lia|].
    cbn [json_blank] in Hws. destruct Hws as [Hx Hws].
    cbn [append eliminateWhitespace_loop]. rewrite istream_get_cons, Hx.
    apply IH; try assumption. cbn [String.length] in Hn. lia.
Qed.

Lemma eliminateWhitespace_loop_end (ws : string) :
  forall n : nat,
    json_blank ws -> (String.length ws < n)%nat ->
    eliminateWhitespace_loop n (istream_of ws) = mk_istream "" true true.
Proof.
  induction ws as [|x ws IH]; intros n Hws Hn.
  - destruct n as [|n]; [cbn in Hn; lia|]. reflexivity.
  - destruct n as [|n]; [cbn in Hn; lia|].
    cbn [json_blank] in Hws. destruct Hws as [Hx Hws].
    cbn [eliminateWhitespace_loop]. rewrite istream_get_cons, Hx.
    apply IH; try assumption. cbn [String.length] in Hn. lia.
Qed.

Lemma length_append (a b : string) :
  String.length (a ++ b) = (String.length a + String.length b)%nat.
Proof. induction a as [|x a IH]; cbn [append String.length plus]; [reflexivity|now rewrite IH]. Qed.

Lemma eliminateWhitespace_skip (ws : string) (c : ascii) (r : string) :
  json_blank ws -> is_json_space c = false ->
  eliminateWhitespace (istream_of (ws ++ String c r)) = istream_of (String c r).
Proof.
  intros Hws Hc. unfold eliminateWhitespace.
  apply eliminateWhitespace_loop_skip; try assumption.
  cbn [istream_of buf]. rewrite length_append. cbn [String.length]. lia.
Qed.

Lemma eliminateWhitespace_end (ws : string) :
  json_blank ws -> eliminateWhitespace (istream_of ws) = mk_istream "" true true.
Proof.
  intros Hws. unfold eliminateWhitespace.
  apply eliminateWhitespace_loop_end; try assumption. cbn [istream_of buf]. lia.
Qed.

Lemma eliminateWhitespace_not_good (ist : istream) :
  good ist = false -> eliminateWhitespace ist = setstate_failbit ist.
Proof.
  intros Hg. unfold eliminateWhitespace. cbn [eliminateWhitespace_loop].
  unfold istream_get. now rewrite Hg.
Qed.

Lemma parse_ConValue_not_good (f : nat) (ist : istream) :
  good ist = false -> parse_ConValue (S f) ist = Undefined.
Proof.
  intros Hg. cbn [parse_ConValue]. cbv zeta.
  rewrite eliminateWhitespace_not_good by assumption.
  unfold istream_get.
  assert (Hg' : good (setstate_failbit ist) = false).
  { unfold good, setstate_failbit. cbn [eofbit failbit]. now rewrite andb_false_r. }
  now rewrite Hg'.
Qed.

Lemma is_space_json (c : ascii) : is_space c = false -> is_json_space c = false.
Proof.
  destruct c as [[] [] [] [] [] [] [] []]; vm_compute; congruence.
Qed.

Lemma failed_at_not_good (rest : string) : good (failed_at rest) = false.
Proof. unfold good, failed_at. cbn [eofbit failbit]. now rewrite andb_false_r. Qed.

Lemma setstate_failbit_failed_at (rest : string) :
  setstate_failbit (failed_at rest) = failed_at rest.
Proof. reflexivity. Qed.

Lemma istream_extract_char_not_good (ist : istream) :
  good ist = false -> istream_extract_char ist = (None, setstate_failbit ist).
Proof. intros Hg. unfold istream_extract_char. now rewrite Hg. Qed.

(** ** Literals and strings *)

Lemma get_n_append (a : string) :
  forall rest : string,
    get_n (String.length a) (istream_of (a ++ rest)) = istream_of rest.
Proof.
  induction a as [|x a IH]; intros rest; [reflexivity|].
  cbn [String.length append get_n]. rewrite istream_get_cons. cbn [snd]. apply IH.
Qed.

Lemma get_n_failed (n : nat) :
  forall b e, get_n n (mk_istream b e true) = mk_istream b e true.
Proof.
  induction n as [|n IH]; intros b e; [reflexivity|].
  cbn [get_n]. unfold istream_get, good. cbn [eofbit failbit negb andb].
  rewrite andb_false_r. cbn [snd setstate_failbit buf eofbit]. apply IH.
Qed.

Lemma get_n_short (a : string) :
  forall n : nat,
    (String.length a < n)%nat ->
    get_n n (istream_of a) = mk_istream "" true true.
Proof.
  induction a as [|x a IH]; intros n Hn.
  - destruct n as [|n]; [cbn in Hn; lia|].
    cbn [get_n]. cbn [istream_get istream_of good eofbit failbit negb andb buf snd].
    unfold istream_get. cbn. apply get_n_failed.
  - destruct n as [|n]; [cbn in Hn; lia|].
    cbn [get_n]. rewrite istream_get_cons. cbn [snd]. apply IH.
    cbn [String.length] in Hn. lia.
Qed.

(** ** Tokens that are no number *)

Lemma number_value_zero : number_value 0 = VInteger 0.
Proof. vm_compute. reflexivity. Qed.

Lemma number_value_DBL_MAX (neg : bool) :
  number_value (sign_bit neg + DBL_MAX) = VFloat (sign_bit neg + DBL_MAX).
Proof. destruct neg; vm_compute; reflexivity. Qed.

Lemma parse_ConValue_number_branch (f : nat) (c : ascii) (r : string) :
  is_json_space c = false -> number_branch c ->
  parse_ConValue (S f) (istream_of (String c r))
  = match istream_extract_double (istream_of (String c r)) with
    | (None, _) => Undefined
    | (Some d, ist5) => Returns (number_value d) ist5
    end.
Proof.
  intros Hs (Hn & Ht & Hf & Hq & Ha & Ho).
  rewrite parse_ConValue_peek by assumption. cbv zeta.
  now rewrite Hn, Ht, Hf, Hq, Ha, Ho.
Qed.

Lemma istream_extract_double_head (c : ascii) (r : string) :
  is_space c = false ->
  istream_extract_double (istream_of (String c r))
  = let (xtrc, rest) := scan_float (String c r) in
    let eof := match rest with "" => true | _ => false end in
    match strtod xtrc with
    | None => (Some 0, mk_istream rest eof true)
    | Some (FInf neg) => (Some (sign_bit neg + DBL_MAX), mk_istream rest eof true)
    | Some x => (Some (encode_double x), mk_istream rest eof false)
    end.
Proof.
  intros Hc. unfold istream_extract_double, istream_of.
  cbn [good eofbit failbit negb andb buf skip_space]. rewrite Hc. reflexivity.
Qed.

Lemma parse_ConValue_non_number (f : nat) (c : ascii) (r xtrc rest : string) :
  is_space c = false -> number_branch c ->
  scan_float (String c r) = (xtrc, rest) ->
  strtod xtrc = None ->
  parse_ConValue (S f) (istream_of (String c r))
  = Returns (VInteger 0) (failed_at rest).
Proof.
  intros Hs Hb Hscan Hnone.
  rewrite parse_ConValue_number_branch by (try apply is_space_json; assumption).
  rewrite istream_extract_double_head by assumption.
  rewrite Hscan. cbv zeta. rewrite Hnone. now rewrite number_value_zero.
Qed.

(** ** Failures inside arrays and objects *)

Lemma parse_ConArray_loop_failed_element (f : nat) (c c0 : ascii) (r xtrc rest : string)
  (acc : ConArray) :
  is_space c = false -> number_branch c ->
  scan_float (String c r) = (xtrc, rest) ->
  strtod xtrc = None ->
  parse_ConArray_loop (S (S f)) c0 acc (istream_of (String c r))
  = if Ascii.eqb c0 "]" then Returns (acc ++ [VInteger 0])%list (failed_at rest)
    else if negb (Ascii.eqb c0 ",")
         then Returns (acc ++ [VInteger 0])%list (failed_at rest)
         else parse_ConArray_loop (S f) c0 (acc ++ [VInteger 0])%list (failed_at rest).
Proof.
  intros Hs Hb Hscan Hnone.
  pose proof (parse_ConValue_non_number f c r xtrc rest Hs Hb Hscan Hnone) as Hv.
  remember (S f) as f1 eqn:Hf1.
  cbn [parse_ConArray_loop]. cbv zeta.
  rewrite eliminateWhitespace_head by now apply is_space_json.
  rewrite Hv.
  rewrite eliminateWhitespace_not_good by apply failed_at_not_good.
  rewrite setstate_failbit_failed_at.
  rewrite istream_extract_char_not_good by apply failed_at_not_good.
  rewrite setstate_failbit_failed_at. cbn [latest]. subst f1. reflexivity.
Qed.

Lemma parse_ConArray_loop_not_good (f : nat) (c : ascii) (acc : ConArray) (ist : istream) :
  good ist = false -> parse_ConArray_loop (S (S f)) c acc ist = Undefined.
Proof.
  intros Hg.
  assert (Hv : parse_ConValue (S f) (setstate_failbit ist) = Undefined).
  { apply parse_ConValue_not_good.
    unfold good, setstate_failbit. cbn [eofbit failbit]. now rewrite andb_false_r. }
  remember (S f) as f1 eqn:Hf1.
  cbn [parse_ConArray_loop]. cbv zeta.
  rewrite eliminateWhitespace_not_good by assumption.
  now rewrite Hv.
Qed.

Lemma scan_float_bracket (rest : string) :
  scan_float (String "]" rest) = ("", String "]" rest).
Proof. reflexivity. Qed.

Lemma parse_ConArray_loop_comma_bracket (f : nat) (acc : ConArray) (rest : string) :
  parse_ConArray_loop (S (S (S f))) "," acc (istream_of (String "]" rest)) = Undefined.
Proof.
  rewrite (parse_ConArray_loop_failed_element (S f) "]" "," rest "" (String "]" rest))
    by (repeat split; reflexivity).
  cbn [Ascii.eqb Bool.eqb negb].
  apply parse_ConArray_loop_not_good. apply failed_at_not_good.
Qed.

Lemma parse_ConArray_loop_commas (vs : list ConValue) :
  forall (v : ConValue) (sp tail : string) (c : ascii) (acc : ConArray)
         (R : outcome ConArray),
    Forall (fun x => text_stable x /\ parses_back x) (v :: vs) ->
    blank_or_empty sp ->
    eventually
      (fun f => parse_ConArray_loop f "," (acc ++ v :: vs)%list (istream_of tail)) R ->
    eventually
      (fun f => parse_ConArray_loop f c acc
                  (istream_of
                     (sp ++ join_comma (map print_ConValue (v :: vs)) ++ String "," tail)))
      R.
Proof.
  induction vs as [|w vs IH]; intros v sp tail c acc R Hall Hsp HR.
  - inversion Hall as [|? ? [Hst Hv] _]; subst.
    cbn [map join_comma]. now apply parse_ConArray_loop_comma.
  - inversion Hall as [|? ? [Hst Hv] Hall']; subst.
    cbn [map join_comma].
    change (join_comma (print_ConValue w :: map print_ConValue vs))
      with (join_comma (map print_ConValue (w :: vs))).
    rewrite !append_assoc. cbn [append].
    apply parse_ConArray_loop_comma; try assumption.
    apply (IH w " " tail ","%char (acc ++ [v])%list R Hall'); [now right|].
    now rewrite <- app_assoc.
Qed.

Lemma parse_array_text_trailing_comma (v : ConValue) (vs : list ConValue) (rest : string) :
  Forall (fun x => text_stable x /\ parses_back x) (v :: vs) ->
  eventually
    (fun f =>
       parse_ConValue f
         (istream_of ("[" ++ join_comma (map print_ConValue (v :: vs)) ++ ",]" ++ rest)))
    Undefined.
Proof.
  intros Hall.
  pose proof Hall as Hall0. inversion Hall0 as [|? ? [Hst Hv] _]; subst.
  destruct (print_ConValue_head v Hst) as (c0 & r0 & Heq & Hs0 & Hjs0 & Hb0).
  assert (HR : eventually
                 (fun f => parse_ConArray_loop f "," ([] ++ v :: vs)%list
                             (istream_of (String "]" rest))) Undefined).
  { apply eventually_intro with (n := 3%nat).
    intros [|[|[|f]]] Hf; try lia. apply parse_ConArray_loop_comma_bracket. }
  destruct (parse_ConArray_loop_commas vs v "" (String "]" rest) c0 [] Undefined Hall
              (or_introl eq_refl) HR) as [n Hn].
  apply eventually_intro with (n := S n). intros [|f] Hf; [lia|].
  cbn [append]. rewrite parse_ConValue_peek by reflexivity. cbv zeta.
  cbn [Ascii.eqb Bool.eqb orb]. unfold dquote. cbn [Ascii.eqb Bool.eqb orb].
  cbn [append] in Hn.
  assert (Hcat : exists r1,
             join_comma (map print_ConValue (v :: vs)) ++ String "," (String "]" rest)
             = String c0 r1).
  { cbn [map join_comma]. rewrite Heq. destruct vs; cbn [map append]; eexists; reflexivity. }
  destruct Hcat as [r1 Hcat].
  change (",]" ++ rest) with (String "," (String "]" rest)).
  rewrite Hcat, parse_ConArray_open by assumption.
  rewrite Hb0. rewrite <- Hcat. now rewrite Hn by lia.
Qed.

Lemma parse_ConValue_array (f : nat) (r : string) :
  parse_ConValue (S f) (istream_of (String "[" r)) =
    match parse_ConArray f (istream_of (String "[" r)) with
    | Returns arr ist5 => Returns (VArray arr) ist5
    | Undefined => Undefined
    | OutOfFuel => OutOfFuel
    end.
Proof. now rewrite parse_ConValue_peek by reflexivity. Qed.

Lemma parse_array_failed_element (f : nat) (c : ascii) (r xtrc rest : string) :
  is_space c = false -> number_branch c ->
  c <> ","%char -> c <> "]"%char ->
  scan_float (String c r) = (xtrc, rest) ->
  strtod xtrc = None ->
  parse_ConValue (S (S (S f))) (istream_of (String "[" (String c r)))
  = Returns (VArray [VInteger 0]) (failed_at rest).
Proof.
  intros Hs Hb Hcomma Hbr Hscan Hnone.
  rewrite parse_ConValue_array.
  rewrite parse_ConArray_open by (try apply is_space_json; assumption).
  destruct (Ascii.eqb_spec c "]"); [contradiction|].
  rewrite (parse_ConArray_loop_failed_element f c c r xtrc rest) by assumption.
  destruct (Ascii.eqb_spec c "]"); [contradiction|].
  destruct (Ascii.eqb_spec c ","); [contradiction|].
  reflexivity.
Qed.

Lemma parse_object_failed_value (f : nat) (k : string) (c : ascii) (r xtrc rest : string) :
  quote_free k ->
  is_space c = false -> number_branch c ->
  scan_float (String c r) = (xtrc, rest) ->
  strtod xtrc = None ->
  parse_ConValue (S (S (S f))) (istream_of ("{" ++ quoted k ++ ": " ++ String c r))
  = Returns (VObject []) (failed_at rest).
Proof.
  intros Hk Hs Hb Hscan Hnone.
  pose proof (parse_ConValue_non_number f c r xtrc rest Hs Hb Hscan Hnone) as Hv.
  unfold quoted. rewrite !append_assoc. cbn [append].
  rewrite parse_ConValue_object.
  rewrite parse_ConObject_open by reflexivity.
  unfold dquote at 1. cbn [Ascii.eqb Bool.eqb].
  remember (S f) as f1 eqn:Hf1.
  cbn [parse_ConObject_loop]. cbv zeta.
  rewrite eliminateWhitespace_head by reflexivity.
  rewrite istream_extract_char_head by reflexivity.
  cbn [latest]. rewrite Ascii.eqb_refl. cbn [negb].
  rewrite istream_getline_key by assumption.
  rewrite eliminateWhitespace_head by reflexivity.
  rewrite istream_extract_char_head by reflexivity.
  cbn [latest Ascii.eqb Bool.eqb negb].
  rewrite eliminateWhitespace_blank by now apply is_space_json.
  rewrite Hv. reflexivity.
Qed.

Lemma text_stable_well_formed (v : ConValue) : text_stable v -> well_formed v.
Proof.
  induction v as [| b | z | bits | s | vs IH | kvs IH | t] using ConValue_deep_ind;
    cbn [text_stable]; intros H; try exact I; try contradiction.
  - apply well_formed_Array. induction IH as [|x l Hx _ IHl]; constructor.
    + apply Hx, H.
    + apply IHl, H.
  - destruct H as [Hs H]. apply well_formed_Object. split; [exact Hs|].
    clear Hs. induction IH as [|kv l Hx _ IHl]; constructor.
    + apply Hx, H.
    + apply IHl, H.
Qed.


(** ** Levels below the root *)

Lemma COMPRESS_COMPARE_nested (sz level : Z) :
  0 < level -> COMPRESS_COMPARE sz level = false.
Proof.
  intros H. unfold COMPRESS_COMPARE, COMPRESSION_LEVEL_MAX.
  destruct (Z.leb_spec level 0); [lia|]. apply andb_false_r.
Qed.

Lemma next_level_small (level : Z) :
  0 <= level -> level + 1 < 2 ^ 64 -> next_level level = level + 1.
Proof. intros H0 H1. unfold next_level. apply Z.mod_small. lia. Qed.

Lemma depth_elements_nonneg (vs : list ConValue) :
  0 <= fold_right (fun x d => Z.max (depth x) d) 0 vs.
Proof. induction vs as [|x vs IH]; cbn [fold_right]; lia. Qed.

Lemma depth_entries_nonneg (kvs : list (string * ConValue)) :
  0 <= fold_right (fun kv d => Z.max (depth (snd kv)) d) 0 kvs.
Proof. induction kvs as [|x vs IH]; cbn [fold_right]; lia. Qed.

Lemma depth_nonneg (v : ConValue) : 0 <= depth v.
Proof.
  destruct v as [| b | z | bits | s | vs | kvs | t]; cbn [depth]; try lia.
  - pose proof (depth_elements_nonneg vs). lia.
  - pose proof (depth_entries_nonneg kvs). lia.
Qed.

Lemma depth_element (vs : list ConValue) (x : ConValue) :
  In x vs -> depth x <= fold_right (fun x d => Z.max (depth x) d) 0 vs.
Proof.
  induction vs as [|y vs IH]; cbn [In fold_right]; [contradiction|].
  intros [->|H]; [lia|]. specialize (IH H). lia.
Qed.

Lemma depth_entry (kvs : list (string * ConValue)) (kv : string * ConValue) :
  In kv kvs -> depth (snd kv) <= fold_right (fun kv d => Z.max (depth (snd kv)) d) 0 kvs.
Proof.
  induction kvs as [|y vs IH]; cbn [In fold_right]; [contradiction|].
  intros [->|H]; [lia|]. specialize (IH H). lia.
Qed.

Lemma flatten_map_ext {A : Type} (f g : A -> string) (l : list A) :
  (forall x, In x l -> f x = g x) -> flatten (map f l) = flatten (map g l).
Proof.
  induction l as [|x l IH]; intros H; cbn [map flatten fold_right]; [reflexivity|].
  rewrite (H x) by now left.
  unfold flatten in IH. rewrite IH; [reflexivity|].
  intros y Hy. apply H. now right.
Qed.

(** Below the root the bytes written do not depend on the compressor. *)
Lemma ConValue_write_nested (zc zc' : string -> string) (v : ConValue) :
  forall level,
    0 < level -> level + depth v < 2 ^ 64 ->
    ConValue_write zc v level = ConValue_write zc' v level.
Proof.
  induction v as [| b | z | bits | str | vs IH | kvs IH | t] using ConValue_deep_ind;
    intros level Hl Hd; try reflexivity.
  - cbn [ConValue_write]. now rewrite COMPRESS_COMPARE_nested.
  - cbn [ConValue_write]. rewrite !COMPRESS_COMPARE_nested by assumption.
    f_equal. f_equal. unfold ConArray_write_with. f_equal.
    apply flatten_map_ext. intros x Hx.
    rewrite Forall_forall in IH.
    pose proof (depth_element vs x Hx). cbn [depth] in Hd.
    pose proof (depth_nonneg x).
    rewrite next_level_small by lia.
    apply IH; [assumption | lia | lia].
  - cbn [ConValue_write]. rewrite !COMPRESS_COMPARE_nested by assumption.
    f_equal. f_equal. unfold ConObject_write_with. f_equal.
    apply flatten_map_ext. intros x Hx.
    rewrite Forall_forall in IH.
    pose proof (depth_entry kvs x Hx). cbn [depth] in Hd.
    pose proof (depth_nonneg (snd x)).
    rewrite next_level_small by lia.
    do 2 f_equal. apply IH; [assumption | lia | lia].
Qed.

Section BinaryFraming.

Variables zcompress zdecompress : string -> string.
Hypothesis zlib_inverse : forall s, zdecompress (zcompress s) = s.

Ltac read_tag :=
  cbn [ConValue_read]; rewrite istream_read_byte;
  rewrite decode_byte by lia; cbn [Z.eqb Pos.eqb].

(** The encoding of one value is no proper prefix of the encoding of
    another. *)
Lemma ConValue_write_prefix_free (v v' : ConValue) (level : Z) (rest rest' : string) :
  well_formed v -> representable zcompress v level ->
  well_formed v' -> representable zcompress v' level ->
  ConValue_write zcompress v level ++ rest = ConValue_write zcompress v' level ++ rest' ->
  v = v' /\ rest = rest'.
Proof.
  intros Hwf Hrep Hwf' Hrep' Heq.
  destruct (reads_back_all zcompress zdecompress zlib_inverse v level Hwf Hrep rest)
    as [n Hn].
  destruct (reads_back_all zcompress zdecompress zlib_inverse v' level Hwf' Hrep' rest')
    as [n' Hn'].
  specialize (Hn (Nat.max n n') ltac:(lia)).
  specialize (Hn' (Nat.max n n') ltac:(lia)).
  cbv beta in Hn, Hn'. rewrite Heq, Hn' in Hn.
  injection Hn as Hv Hr. split; congruence.
Qed.

(** A String stored with a flag byte other than 0. *)
Lemma ConValue_read_flagged_String (flag : ascii) (str rest : string) (f : nat) :
  Z_of_byte flag <> 0 ->
  size (zcompress str) < 2 ^ 64 ->
  ConValue_read zdecompress (S f)
    (istream_of
       (String (byte_of 4)
          (String flag (u64 (size (zcompress str)) ++ zcompress str)) ++ rest))
  = Returns (VString str) (istream_of rest).
Proof.
  intros Hflag Hsz. cbn [append]. read_tag.
  rewrite istream_read_byte, append_assoc, istream_read_u64.
  pose proof (size_nonneg (zcompress str)).
  rewrite decode_u64 by lia.
  rewrite istream_read_exact by reflexivity.
  replace (decode_le (String flag "")) with (Z_of_byte flag) by (cbn [decode_le]; lia).
  destruct (Z.eqb_spec (Z_of_byte flag) 0); [contradiction|].
  now rewrite zlib_inverse.
Qed.

Lemma ConValue_read_flagged_Array (flag : ascii) (vs : list ConValue) (level : Z)
  (rest : string) :
  Z_of_byte flag <> 0 ->
  Z.of_nat (List.length vs) < 2 ^ 64 ->
  size (zcompress (ConArray_write zcompress vs level)) < 2 ^ 64 ->
  Forall (fun v => reads_back_with zcompress zdecompress v (next_level level)) vs ->
  eventually
    (fun fuel =>
       ConValue_read zdecompress fuel
         (istream_of
            (String (byte_of 5)
               (String flag
                  (u64 (size (zcompress (ConArray_write zcompress vs level)))
                   ++ zcompress (ConArray_write zcompress vs level))) ++ rest)))
    (Returns (VArray vs) (istream_of rest)).
Proof.
  intros Hflag Hn Hsz Hvs.
  destruct (ConArray_read_spec zcompress zdecompress level vs "" Hn Hvs) as [n Hr].
  apply eventually_intro with (n := S n). intros [|f] Hf; [lia|].
  cbn [append]. read_tag.
  rewrite istream_read_byte.
  replace (decode_le (String flag "")) with (Z_of_byte flag) by (cbn [decode_le]; lia).
  destruct (Z.eqb_spec (Z_of_byte flag) 0); [contradiction|].
  rewrite append_assoc, istream_read_u64.
  pose proof (size_nonneg (zcompress (ConArray_write zcompress vs level))).
  rewrite decode_u64 by lia.
  rewrite istream_read_exact by reflexivity.
  rewrite zlib_inverse. unfold ConArray_read in Hr.
  rewrite append_nil_r in Hr. now rewrite Hr by lia.
Qed.

Lemma ConValue_read_flagged_Object (flag : ascii) (kvs : list (string * ConValue))
  (level : Z) (rest : string) :
  Z_of_byte flag <> 0 ->
  Z.of_nat (List.length kvs) < 2 ^ 64 ->
  size (zcompress (ConObject_write zcompress kvs level)) < 2 ^ 64 ->
  Forall (fun kv => size (fst kv) < 2 ^ 64
                    /\ reads_back_with zcompress zdecompress (snd kv) (next_level level))
    kvs ->
  eventually
    (fun fuel =>
       ConValue_read zdecompress fuel
         (istream_of
            (String (byte_of 6)
               (String flag
                  (u64 (size (zcompress (ConObject_write zcompress kvs level)))
                   ++ zcompress (ConObject_write zcompress kvs level))) ++ rest)))
    (Returns (VObject (map_of_assignments kvs)) (istream_of rest)).
Proof.
  intros Hflag Hn Hsz Hkvs.
  destruct (ConObject_read_spec zcompress zdecompress level kvs "" Hn Hkvs) as [n Hr].
  apply eventually_intro with (n := S n). intros [|f] Hf; [lia|].
  cbn [append]. read_tag.
  rewrite istream_read_byte.
  replace (decode_le (String flag "")) with (Z_of_byte flag) by (cbn [decode_le]; lia).
  destruct (Z.eqb_spec (Z_of_byte flag) 0); [contradiction|].
  rewrite append_assoc, istream_read_u64.
  pose proof (size_nonneg (zcompress (ConObject_write zcompress kvs level))).
  rewrite decode_u64 by lia.
  unfold istream_read_vector. rewrite istream_read_exact by reflexivity.
  rewrite zlib_inverse. unfold ConObject_read in Hr.
  rewrite append_nil_r in Hr. now rewrite Hr by lia.
Qed.

End BinaryFraming.

(** ** Truncated input *)

Lemma take_short (p : string) : forall n, size p < n -> take n p = None.
Proof.
  induction p as [|c p IH]; intros n Hn.
  - cbn [take]. change (size "") with 0 in Hn. destruct (Z.leb_spec n 0); [lia|reflexivity].
  - cbn [take]. rewrite size_String in Hn. pose proof (size_nonneg p).
    destruct (Z.leb_spec n 0); [lia|]. rewrite IH by lia. reflexivity.
Qed.

Lemma istream_read_short (n : Z) (p : string) :
  size p < n -> istream_read n (istream_of p) = (None, mk_istream "" true true).
Proof.
  intros Hn. unfold istream_read, istream_of.
  cbn [good eofbit failbit negb andb buf]. now rewrite take_short.
Qed.

Lemma String_split (c : ascii) (s p q : string) :
  String c s = p ++ q -> p = "" \/ exists p', p = String c p' /\ s = p' ++ q.
Proof.
  destruct p as [|x p]; [now left|]. cbn [append]. intros H. injection H as -> ->.
  right. now exists p.
Qed.

Lemma append_split (a : string) :
  forall b p q : string,
    a ++ b = p ++ q ->
    (exists p', p = a ++ p' /\ b = p' ++ q)
    \/ (exists a', a = p ++ a' /\ a' <> "" /\ size p < size a).
Proof.
  induction a as [|c a IH]; intros b p q H.
  - left. exists p. cbn [append] in *. auto.
  - cbn [append] in H. destruct (String_split _ _ _ _ H) as [->|(p' & -> & H')].
    + right. exists (String c a). cbn [append].
      split; [reflexivity|]. split; [discriminate|].
      rewrite size_String. change (size "") with 0. pose proof (size_nonneg a). lia.
    + destruct (IH b p' q H') as [(p2 & -> & Hb)|(a' & -> & Hne & Hsz)].
      * left. exists p2. cbn [append]. auto.
      * right. exists a'. cbn [append].
        split; [reflexivity|]. split; [assumption|].
        rewrite !size_String. lia.
Qed.

Section Truncation.

Variables zcompress zdecompress : string -> string.
Hypothesis zlib_inverse : forall s, zdecompress (zcompress s) = s.

#[local] Abbreviation reads_back := (reads_back_with zcompress zdecompress).

Ltac read_tag :=
  cbn [ConValue_read]; rewrite istream_read_byte;
  rewrite decode_byte by lia; cbn [Z.eqb Pos.eqb].

#[local] Abbreviation cut_short := (cut_short_with zcompress zdecompress).

Lemma ConValue_read_empty (f : nat) :
  ConValue_read zdecompress (S f) (istream_of "") = Undefined.
Proof. reflexivity. Qed.

Lemma ConArray_read_loop_cut (level : Z) (vs : list ConValue) :
  Forall (fun v => reads_back v level /\ cut_short v level) vs ->
  forall (sz i : Z) (acc : ConArray) (p q : string),
    sz = i + Z.of_nat (List.length vs) ->
    flatten (map (fun v => ConValue_write zcompress v level) vs) = p ++ q ->
    q <> "" ->
    eventually
      (fun fuel => ConArray_read_loop zdecompress fuel sz i acc (istream_of p))
      Undefined.
Proof.
  induction 1 as [|v vs [Hv Hcut] Hvs IH]; intros sz i acc p q Hsz Heq Hq.
  - cbn [map flatten fold_right] in Heq. destruct p; [|discriminate Heq].
    cbn [append] in Heq. congruence.
  - cbn [List.length] in Hsz. cbn [map flatten fold_right] in Heq.
    destruct (append_split _ _ _ _ Heq) as [(p' & -> & Hb)|(a' & Ha & Hne & _)].
    + destruct (Hv p') as [n1 H1].
      destruct (IH sz (i + 1) (acc ++ [v])%list p' q ltac:(lia) Hb Hq) as [n2 H2].
      apply eventually_intro with (n := S (Nat.max n1 n2)). intros [|f] Hf; [lia|].
      cbn [ConArray_read_loop]. destruct (Z.ltb_spec i sz); [|lia].
      rewrite H1 by lia. apply H2. lia.
    + destruct (Hcut p a' Ha Hne) as [n1 H1].
      apply eventually_intro with (n := S n1). intros [|f] Hf; [lia|].
      cbn [ConArray_read_loop]. destruct (Z.ltb_spec i sz); [|lia].
      now rewrite H1 by lia.
Qed.

Lemma ConObject_read_loop_cut (level : Z) (kvs : list (string * ConValue)) :
  Forall (fun kv => size (fst kv) < 2 ^ 64
                    /\ reads_back (snd kv) level /\ cut_short (snd kv) level) kvs ->
  forall (sz i : Z) (acc : ConObject) (p q : string),
    sz = i + Z.of_nat (List.length kvs) ->
    flatten (map (fun kv => u64 (size (fst kv)) ++ fst kv
                            ++ ConValue_write zcompress (snd kv) level) kvs)
    = p ++ q ->
    q <> "" ->
    eventually
      (fun fuel => ConObject_read_loop zdecompress fuel sz i acc (istream_of p))
      Undefined.
Proof.
  induction 1 as [|[k v] kvs (Hk & Hv & Hcut) Hkvs IH]; intros sz i acc p q Hsz Heq Hq.
  - cbn [map flatten fold_right] in Heq. destruct p; [|discriminate Heq].
    cbn [append] in Heq. congruence.
  - cbn [List.length] in Hsz. cbn [map flatten fold_right fst snd] in *.
    pose proof (size_nonneg k) as Hk0.
    rewrite !append_assoc in Heq.
    destruct (append_split _ _ _ _ Heq) as [(p1 & -> & Hb1)|(a' & Ha & Hne & Hlt)].
    2: { apply eventually_intro with (n := 1%nat). intros [|f] Hf; [lia|].
         cbn [ConObject_read_loop]. destruct (Z.ltb_spec i sz); [|lia].
         unfold u64 in Hlt. rewrite size_encode_le in Hlt.
         now rewrite istream_read_short by lia. }
    destruct (append_split _ _ _ _ Hb1) as [(p2 & -> & Hb2)|(a' & Ha & Hne & Hlt)].
    2: { apply eventually_intro with (n := 1%nat). intros [|f] Hf; [lia|].
         cbn [ConObject_read_loop]. destruct (Z.ltb_spec i sz); [|lia].
         rewrite istream_read_u64, decode_u64 by lia.
         now rewrite istream_read_short by lia. }
    destruct (append_split _ _ _ _ Hb2) as [(p3 & -> & Hb3)|(a' & Ha & Hne & _)].
    + destruct (Hv p3) as [n1 H1].
      destruct (IH sz (i + 1) (map_assign k v acc) p3 q ltac:(lia) Hb3 Hq) as [n2 H2].
      apply eventually_intro with (n := S (Nat.max n1 n2)). intros [|f] Hf; [lia|].
      cbn [ConObject_read_loop]. destruct (Z.ltb_spec i sz); [|lia].
      rewrite istream_read_u64, decode_u64 by lia.
      rewrite istream_read_exact by reflexivity.
      rewrite H1 by lia. apply H2. lia.
    + destruct (Hcut p2 a' Ha Hne) as [n1 H1].
      apply eventually_intro with (n := S n1). intros [|f] Hf; [lia|].
      cbn [ConObject_read_loop]. destruct (Z.ltb_spec i sz); [|lia].
      rewrite istream_read_u64, decode_u64 by lia.
      rewrite istream_read_exact by reflexivity.
      now rewrite H1 by lia.
Qed.

(** A tag byte with a payload of [n] bytes read by one [stream.read]. *)
Lemma cut_short_fixed (v : ConValue) (level : Z) (payload : string) (n : Z) :
  0 <= type_tag v < 256 ->
  ConValue_write zcompress v level = String (byte_of (type_tag v)) payload ->
  size payload = n ->
  (forall f p, size p < n ->
     ConValue_read zdecompress (S f) (istream_of (String (byte_of (type_tag v)) p))
     = Undefined) ->
  cut_short v level.
Proof.
  intros Ht Hw Hn Hread p q Heq Hq.
  apply eventually_intro with (n := 1%nat). intros [|f] Hf; [lia|].
  rewrite Hw in Heq.
  destruct (String_split _ _ _ _ Heq) as [->|(p' & -> & Hp)]; [reflexivity|].
  apply Hread. rewrite <- Hn, Hp, size_append.
  destruct q; [congruence|]. rewrite size_String. pose proof (size_nonneg q). lia.
Qed.

Lemma cut_short_Null level : cut_short VNull level.
Proof.
  apply cut_short_fixed with (payload := "") (n := 0); try reflexivity; [cbn; lia|].
  intros f p Hp. pose proof (size_nonneg p). lia.
Qed.

Lemma cut_short_Invalid t level : cut_short (VInvalid t) level.
Proof.
  apply cut_short_fixed with (payload := "") (n := 0); try reflexivity.
  - cbn [type_tag]. apply Z_of_byte_range.
  - intros f p Hp. pose proof (size_nonneg p). lia.
Qed.

Lemma cut_short_Boolean b level : cut_short (VBoolean b) level.
Proof.
  apply cut_short_fixed with (payload := String (byte_of (if b then 1 else 0)) "") (n := 1);
    try reflexivity; [cbn; lia|].
  intros f p Hp. cbn [type_tag]. read_tag. now rewrite istream_read_short.
Qed.

Lemma cut_short_Integer z level : cut_short (VInteger z) level.
Proof.
  apply cut_short_fixed with (payload := encode_le 8 z) (n := 8);
    try reflexivity; [cbn; lia|].
  intros f p Hp. cbn [type_tag]. read_tag. now rewrite istream_read_short.
Qed.

Lemma cut_short_Float bits level : cut_short (VFloat bits) level.
Proof.
  apply cut_short_fixed with (payload := encode_le 8 bits) (n := 8);
    try reflexivity; [cbn; lia|].
  intros f p Hp. cbn [type_tag]. read_tag. now rewrite istream_read_short.
Qed.

Lemma cut_short_String str level :
  size str < 2 ^ 64 -> COMPRESS_COMPARE (size str) level = false ->
  cut_short (VString str) level.
Proof.
  intros Hsz Hplain p q Heq Hq.
  apply eventually_intro with (n := 1%nat). intros [|f] Hf; [lia|].
  cbn [ConValue_write type_tag] in Heq. rewrite Hplain in Heq.
  pose proof (size_nonneg str) as H0.
  destruct (String_split _ _ _ _ Heq) as [->|(p1 & -> & Hp1)]; [reflexivity|].
  read_tag.
  destruct (String_split _ _ _ _ Hp1) as [->|(p2 & -> & Hp2)]; [reflexivity|].
  rewrite istream_read_byte.
  destruct (append_split _ _ _ _ Hp2) as [(p3 & -> & Hb)|(a' & Ha & Hne & Hlt)].
  - rewrite istream_read_u64, decode_u64 by lia.
    rewrite istream_read_short; [reflexivity|].
    rewrite Hb, size_append. destruct q; [congruence|].
    rewrite size_String. pose proof (size_nonneg q). lia.
  - unfold u64 in Hlt. rewrite size_encode_le in Hlt.
    now rewrite istream_read_short by lia.
Qed.

Lemma cut_short_Array (vs : list ConValue) (level : Z) :
  Z.of_nat (List.length vs) < 2 ^ 64 ->
  COMPRESS_COMPARE (size (ConArray_write zcompress vs level)) level = false ->
  Forall (fun v => reads_back v (next_level level) /\ cut_short v (next_level level)) vs ->
  cut_short (VArray vs) level.
Proof.
  intros Hn Hplain Hvs p q Heq Hq.
  cbn [ConValue_write type_tag] in Heq.
  change (ConArray_write_with (ConValue_write zcompress) vs level)
    with (ConArray_write zcompress vs level) in Heq.
  rewrite Hplain in Heq.
  destruct (String_split _ _ _ _ Heq) as [->|(p1 & -> & Hp1)].
  { apply eventually_intro with (n := 1%nat). intros [|f] Hf; [lia|]. reflexivity. }
  destruct (String_split _ _ _ _ Hp1) as [->|(p2 & -> & Hp2)].
  { apply eventually_intro with (n := 1%nat). intros [|f] Hf; [lia|].
    read_tag. reflexivity. }
  unfold ConArray_write, ConArray_write_with in Hp2.
  destruct (append_split _ _ _ _ Hp2) as [(p3 & -> & Hb)|(a' & Ha & Hne & Hlt)].
  - destruct (ConArray_read_loop_cut _ vs Hvs (Z.of_nat (List.length vs)) 0 [] p3 q
                ltac:(lia) Hb Hq) as [n Hloop].
    apply eventually_intro with (n := S n). intros [|f] Hf; [lia|].
    read_tag. rewrite istream_read_byte, decode_byte by lia. cbn [Z.eqb].
    unfold ConArray_read_with.
    rewrite istream_read_u64, decode_u64 by lia.
    now rewrite Hloop by lia.
  - apply eventually_intro with (n := 1%nat). intros [|f] Hf; [lia|].
    read_tag. rewrite istream_read_byte, decode_byte by lia. cbn [Z.eqb].
    unfold ConArray_read_with.
    unfold u64 in Hlt. rewrite size_encode_le in Hlt.
    now rewrite istream_read_short by lia.
Qed.

Lemma cut_short_Object (kvs : list (string * ConValue)) (level : Z) :
  Z.of_nat (List.length kvs) < 2 ^ 64 ->
  COMPRESS_COMPARE (size (ConObject_write zcompress kvs level)) level = false ->
  Forall (fun kv => size (fst kv) < 2 ^ 64
                    /\ reads_back (snd kv) (next_level level)
                    /\ cut_short (snd kv) (next_level level)) kvs ->
  cut_short (VObject kvs) level.
Proof.
  intros Hn Hplain Hkvs p q Heq Hq.
  cbn [ConValue_write type_tag] in Heq.
  change (ConObject_write_with (ConValue_write zcompress) kvs level)
    with (ConObject_write zcompress kvs level) in Heq.
  rewrite Hplain in Heq.
  destruct (String_split _ _ _ _ Heq) as [->|(p1 & -> & Hp1)].
  { apply eventually_intro with (n := 1%nat). intros [|f] Hf; [lia|]. reflexivity. }
  destruct (String_split _ _ _ _ Hp1) as [->|(p2 & -> & Hp2)].
  { apply eventually_intro with (n := 1%nat). intros [|f] Hf; [lia|].
    read_tag. reflexivity. }
  unfold ConObject_write, ConObject_write_with in Hp2.
  destruct (append_split _ _ _ _ Hp2) as [(p3 & -> & Hb)|(a' & Ha & Hne & Hlt)].
  - destruct (ConObject_read_loop_cut _ kvs Hkvs (Z.of_nat (List.length kvs)) 0 [] p3 q
                ltac:(lia) Hb Hq) as [n Hloop].
    apply eventually_intro with (n := S n). intros [|f] Hf; [lia|].
    read_tag. rewrite istream_read_byte, decode_byte by lia. cbn [Z.eqb].
    unfold ConObject_read_with.
    rewrite istream_read_u64, decode_u64 by lia.
    now rewrite Hloop by lia.
  - apply eventually_intro with (n := 1%nat). intros [|f] Hf; [lia|].
    read_tag. rewrite istream_read_byte, decode_byte by lia. cbn [Z.eqb].
    unfold ConObject_read_with.
    unfold u64 in Hlt. rewrite size_encode_le in Hlt.
    now rewrite istream_read_short by lia.
Qed.

(** No node of [v] is stored compressed when the root is not. *)
Lemma cut_short_all (v : ConValue) :
  forall level,
    well_formed v -> representable zcompress v level ->
    0 <= level -> level + depth v < 2 ^ 64 ->
    stored_plain zcompress v level ->
    cut_short v level.
Proof.
  induction v as [| b | z | bits | str | vs IH | kvs IH | t] using ConValue_deep_ind;
    intros level Hwf Hrep Hl Hd Hplain.
  - apply cut_short_Null.
  - apply cut_short_Boolean.
  - apply cut_short_Integer.
  - apply cut_short_Float.
  - destruct Hrep. apply cut_short_String; [assumption|]. now apply Hplain.
  - destruct Hrep as [Hn [Hc Hall]].
    apply cut_short_Array; [exact Hn | now apply Hplain |].
    cbn [well_formed] in Hwf. cbn [depth] in Hd. clear Hn Hc Hplain.
    assert (Hnext : next_level level = level + 1).
    { pose proof (depth_elements_nonneg vs). apply next_level_small; lia. }
    rewrite Hnext in *.
    induction IH as [|v vs Hv _ IHvs]; constructor.
    + cbn [fold_right] in Hd. split.
      * apply (reads_back_all zcompress zdecompress zlib_inverse); [apply Hwf | apply Hall].
      * apply Hv; [apply Hwf | apply Hall | lia | lia |].
        intros body _. apply COMPRESS_COMPARE_nested. lia.
    + cbn [fold_right] in Hd. apply IHvs; [apply Hwf | apply Hall | lia].
  - destruct Hrep as [Hn [Hc Hall]].
    apply cut_short_Object; [exact Hn | now apply Hplain |].
    cbn [well_formed] in Hwf. destruct Hwf as [_ Hwf]. cbn [depth] in Hd.
    clear Hn Hc Hplain.
    assert (Hnext : next_level level = level + 1).
    { pose proof (depth_entries_nonneg kvs). apply next_level_small; lia. }
    rewrite Hnext in *.
    induction IH as [|kv kvs Hv _ IHkvs]; constructor.
    + cbn [fold_right] in Hd. split; [apply Hall|]. split.
      * apply (reads_back_all zcompress zdecompress zlib_inverse); [apply Hwf | apply Hall].
      * apply Hv; [apply Hwf | apply Hall | lia | lia |].
        intros body _. apply COMPRESS_COMPARE_nested. lia.
    + cbn [fold_right] in Hd. apply IHkvs; [apply Hwf | apply Hall | lia].
  - apply cut_short_Invalid.
Qed.

End Truncation.


(** ** Maps *)

Lemma map_find_eq_compare {V : Type} (k k0 : string) (v0 : V) (m : list (string * V)) :
  map_find k ((k0, v0) :: m)
  = if String.eqb k k0 then Some v0 else map_find k m.
Proof. reflexivity. Qed.

Lemma compare_eqb (a b : string) :
  String.eqb a b = match String_as_OT.compare a b with Eq => true | _ => false end.
Proof.
  destruct (String_as_OT.compare a b) eqn:E.
  - apply key_compare_eq in E. subst. apply String.eqb_refl.
  - apply String.eqb_neq. intros ->. rewrite key_compare_refl in E. discriminate E.
  - apply String.eqb_neq. intros ->. rewrite key_compare_refl in E. discriminate E.
Qed.

Lemma map_assign_length_new {V : Type} (k : string) (v : V) (m : list (string * V)) :
  map_find k m = None -> List.length (map_assign k v m) = S (List.length m).
Proof.
  induction m as [|[k0 v0] m IH]; cbn [map_assign map_find List.length]; [reflexivity|].
  rewrite compare_eqb. destruct (String_as_OT.compare k k0); intros H.
  - discriminate H.
  - reflexivity.
  - cbn [List.length]. now rewrite IH.
Qed.

Lemma map_assign_length_old {V : Type} (k : string) (v v0 : V) (m : list (string * V)) :
  keys_sorted m -> map_find k m = Some v0 ->
  List.length (map_assign k v m) = List.length m.
Proof.
  induction m as [|[k1 v1] m IH]; cbn [map_assign map_find List.length]; [discriminate|].
  intros Hs. rewrite compare_eqb. destruct (String_as_OT.compare k k1) eqn:E; intros H.
  - reflexivity.
  - exfalso. inversion Hs as [|? ? Hs' Hall]; subst.
    rewrite (map_find_above m k) in H; [discriminate H|].
    eapply Forall_impl; [|exact Hall]. intros e He. cbn [fst] in He.
    eapply key_lt_trans; [exact E | exact He].
  - cbn [List.length]. inversion Hs; subst. now rewrite IH.
Qed.

Lemma map_assign_twice {V : Type} (k : string) (v v' : V) (m : list (string * V)) :
  map_assign k v (map_assign k v' m) = map_assign k v m.
Proof.
  induction m as [|[k1 v1] m IH]; cbn [map_assign].
  - now rewrite key_compare_refl.
  - destruct (String_as_OT.compare k k1) eqn:E; cbn [map_assign].
    + now rewrite key_compare_refl.
    + now rewrite key_compare_refl.
    + rewrite E. now rewrite IH.
Qed.

Lemma ConObject_subscript_spec (key : string) (obj : ConObject) :
  (map_find key obj = None ->
   ConObject_subscript key obj = (VNull, map_assign key VNull obj)
   /\ List.length (snd (ConObject_subscript key obj)) = S (List.length obj))
  /\ (forall value, map_find key obj = Some value ->
                    ConObject_subscript key obj = (value, obj))
  /\ map_find key (snd (ConObject_subscript key obj))
     = Some (fst (ConObject_subscript key obj))
  /\ (forall k, k <> key ->
                map_find k (snd (ConObject_subscript key obj)) = map_find k obj)
  /\ (keys_sorted obj -> keys_sorted (snd (ConObject_subscript key obj))).
Proof.
  unfold ConObject_subscript.
  destruct (map_find key obj) as [value|] eqn:E; cbn [fst snd].
  - split; [discriminate|]. split; [now intros ? [= ->]|].
    split; [exact E|]. split; auto.
  - split; [intros _; split; [reflexivity | now apply map_assign_length_new]|].
    split; [discriminate|].
    split; [apply map_find_assign_same|].
    split; [intros k Hk; now apply map_find_assign_other|].
    apply map_assign_sorted.
Qed.

(** ** The types of parsed values *)

Lemma known_types_Array (vs : list ConValue) :
  known_types (VArray vs) <-> Forall known_types vs.
Proof.
  cbn [known_types]. induction vs as [|v vs IH].
  - split; constructor.
  - split.
    + intros [Hv Hvs]. constructor; [exact Hv | now apply IH].
    + intros H. inversion H; subst. split; [assumption | now apply IH].
Qed.

Lemma known_types_Object (kvs : list (string * ConValue)) :
  known_types (VObject kvs) <-> Forall (fun kv => known_types (snd kv)) kvs.
Proof.
  cbn [known_types]. induction kvs as [|kv kvs IH].
  - split; constructor.
  - split.
    + intros [Hv Hvs]. constructor; [exact Hv | now apply IH].
    + intros H. inversion H; subst. split; [assumption | now apply IH].
Qed.

Lemma known_types_assign (k : string) (v : ConValue) (obj : ConObject) :
  known_types v -> known_types (VObject obj) -> known_types (VObject (map_assign k v obj)).
Proof.
  rewrite !known_types_Object. intros Hv Hall. now apply map_assign_Forall.
Qed.

Lemma parse_ConArray_with_known
  (loop : ascii -> ConArray -> istream -> outcome ConArray) :
  (forall c acc ist vs ist',
      Forall known_types acc -> loop c acc ist = Returns vs ist' -> Forall known_types vs) ->
  forall ist vs ist',
    parse_ConArray_with loop ist = Returns vs ist' -> Forall known_types vs.
Proof.
  intros Hloop ist vs ist' H. unfold parse_ConArray_with in H. cbv zeta in H.
  repeat (break_match H; try discriminate H); try (injection H as <- <-);
    try constructor.
  eapply Hloop; [|eassumption]. constructor.
Qed.

Lemma parse_ConObject_with_known
  (loop : ascii -> ConObject -> istream -> outcome ConObject) :
  (forall c obj ist obj' ist',
      known_types (VObject obj) -> loop c obj ist = Returns obj' ist' ->
      known_types (VObject obj')) ->
  forall ist obj ist',
    parse_ConObject_with loop ist = Returns obj ist' -> known_types (VObject obj).
Proof.
  intros Hloop ist obj ist' H. unfold parse_ConObject_with in H. cbv zeta in H.
  assert (Hnil : known_types (VObject [])) by exact I.
  repeat (break_match H; try discriminate H); try (injection H as <- <-);
    try exact Hnil.
  eapply Hloop; [|eassumption]. exact Hnil.
Qed.

Lemma parse_known_types (fuel : nat) :
  (forall ist v ist', parse_ConValue fuel ist = Returns v ist' -> known_types v)
  /\ (forall c acc ist vs ist',
        Forall known_types acc ->
        parse_ConArray_loop fuel c acc ist = Returns vs ist' -> Forall known_types vs)
  /\ (forall c obj ist obj' ist',
        known_types (VObject obj) ->
        parse_ConObject_loop fuel c obj ist = Returns obj' ist' ->
        known_types (VObject obj')).
Proof.
  induction fuel as [|f (IHv & IHa & IHo)].
  - repeat split; intros; discriminate.
  - split; [|split].
    + intros ist v ist' H. cbn [parse_ConValue] in H. cbv zeta in H.
      repeat (break_match H; try discriminate H);
        try (injection H as <- <-); try exact I.
      * apply known_types_Array. eapply parse_ConArray_with_known; eassumption.
      * eapply parse_ConObject_with_known; eassumption.
      * unfold number_value. destruct (double_eqb _ _); exact I.
    + intros c acc ist vs ist' Hacc H. cbn [parse_ConArray_loop] in H. cbv zeta in H.
      destruct (parse_ConValue f (eliminateWhitespace ist)) as [v ist2| |] eqn:Hv;
        try discriminate H.
      assert (Hacc' : Forall known_types (acc ++ [v])).
      { apply Forall_app. split; [exact Hacc|]. constructor; [|constructor].
        eapply IHv; eassumption. }
      repeat (break_match H; try discriminate H); try (injection H as <- <-);
        try assumption.
      eapply IHa; eassumption.
    + intros c obj ist obj' ist' Hobj H. cbn [parse_ConObject_loop] in H. cbv zeta in H.
      repeat (break_match H; try discriminate H);
        try (injection H as <- <-); try assumption;
        try (apply known_types_assign; [eapply IHv; eassumption | assumption]).
      eapply IHo; [|eassumption].
      apply known_types_assign; [eapply IHv; eassumption | assumption].
Qed.

(** ** Empty containers *)

Lemma parse_empty_Array (f : nat) (ws rest : string) :
  json_blank ws ->
  parse_ConValue (S f) (istream_of ("[" ++ ws ++ "]" ++ rest))
  = Returns (VArray []) (eliminateWhitespace (istream_of rest)).
Proof.
  intros Hws. cbn [append]. rewrite parse_ConValue_array.
  unfold parse_ConArray, parse_ConArray_with. cbv zeta.
  rewrite eliminateWhitespace_head by reflexivity.
  rewrite istream_extract_char_head by reflexivity.
  cbn [Ascii.eqb Bool.eqb negb].
  rewrite eliminateWhitespace_skip by (assumption || reflexivity).
  rewrite istream_extract_char_head by reflexivity.
  reflexivity.
Qed.

Lemma parse_empty_Object (f : nat) (ws rest : string) :
  json_blank ws ->
  parse_ConValue (S f) (istream_of ("{" ++ ws ++ "}" ++ rest))
  = Returns (VObject []) (eliminateWhitespace (istream_of rest)).
Proof.
  intros Hws. cbn [append]. rewrite parse_ConValue_object.
  unfold parse_ConObject, parse_ConObject_with. cbv zeta.
  rewrite eliminateWhitespace_head by reflexivity.
  rewrite istream_extract_char_head by reflexivity.
  cbn [Ascii.eqb Bool.eqb negb].
  rewrite eliminateWhitespace_skip by (assumption || reflexivity).
  rewrite istream_extract_char_head by reflexivity.
  reflexivity.
Qed.


(** ** Strings the input does not close *)

Lemma string_loop_unterminated (s : string) :
  forall (fuel : nat) (c : ascii) (acc : string),
    quote_free s -> s <> "" \/ c <> dquote ->
    string_loop fuel c acc (istream_of s) = OutOfFuel.
Proof.
  induction s as [|x s IH]; intros fuel c acc Hq Hc.
  - destruct Hc as [Hc|Hc]; [congruence|].
    destruct fuel as [|f]; [reflexivity|].
    cbn [string_loop].
    change (istream_get (istream_of "")) with (@None ascii, mk_istream "" true true).
    cbn [latest]. destruct (Ascii.eqb_spec c dquote); [contradiction|].
    now apply string_loop_failed.
  - destruct fuel as [|f]; [reflexivity|].
    cbn [quote_free] in Hq. destruct Hq as [Hx Hq].
    cbn [string_loop]. rewrite istream_get_cons. cbn [latest].
    destruct (Ascii.eqb_spec x dquote); [contradiction|].
    apply IH; [assumption|]. now right.
Qed.

Lemma split_at_no_quote (key : string) :
  quote_free key -> split_at dquote key = (key, None).
Proof.
  induction key as [|c key IH]; cbn [quote_free split_at]; [reflexivity|].
  intros [Hc Hk]. destruct (Ascii.eqb_spec c dquote); [contradiction|].
  now rewrite IH.
Qed.

Lemma parse_unterminated_string (s : string) (fuel : nat) :
  quote_free s -> s <> "" ->
  parse_ConValue fuel (istream_of (String dquote s)) = OutOfFuel.
Proof.
  intros Hq Hs. destruct fuel as [|f]; [reflexivity|].
  rewrite parse_ConValue_peek by reflexivity. cbv zeta.
  unfold dquote at 1 2 3. cbn [Ascii.eqb Bool.eqb orb].
  rewrite Ascii.eqb_refl.
  rewrite string_loop_unterminated; [reflexivity | assumption | now left].
Qed.

Lemma parse_lone_quote (fuel : nat) :
  parse_ConValue (S (S fuel)) (istream_of (String dquote ""))
  = Returns (VString "") (mk_istream "" true true).
Proof.
  rewrite parse_ConValue_peek by reflexivity. cbv zeta.
  unfold dquote at 1 2 3. cbn [Ascii.eqb Bool.eqb orb].
  rewrite Ascii.eqb_refl. cbn [string_loop].
  change (istream_get (istream_of "")) with (@None ascii, mk_istream "" true true).
  cbn [latest]. now rewrite Ascii.eqb_refl.
Qed.

Lemma parse_unterminated_key (key : string) (fuel : nat) :
  quote_free key ->
  parse_ConValue (S (S fuel)) (istream_of ("{" ++ String dquote key))
  = Returns (VObject []) (mk_istream "" true true).
Proof.
  intros Hq. cbn [append]. rewrite parse_ConValue_object.
  rewrite parse_ConObject_open by reflexivity.
  unfold dquote at 1. cbn [Ascii.eqb Bool.eqb].
  cbn [parse_ConObject_loop]. cbv zeta.
  rewrite eliminateWhitespace_head by reflexivity.
  rewrite istream_extract_char_head by reflexivity.
  cbn [latest]. rewrite Ascii.eqb_refl. cbn [negb].
  unfold istream_getline. cbn [istream_of good eofbit failbit negb andb buf].
  rewrite split_at_no_quote by assumption.
  rewrite eliminateWhitespace_not_good by reflexivity.
  rewrite istream_extract_char_not_good by reflexivity.
  cbn [latest]. unfold dquote at 1. cbn [Ascii.eqb Bool.eqb negb].
  reflexivity.
Qed.

(** ** Floats that are no numbers *)

Lemma print_double_NaN (bits : Z) :
  decode_double bits = FNaN ->
  print_double bits = if 2 ^ 63 <=? bits then "-nan" else "nan".
Proof.
  intros H. unfold print_double. rewrite H. now destruct (2 ^ 63 <=? bits).
Qed.

Lemma print_double_Inf (bits : Z) (neg : bool) :
  decode_double bits = FInf neg ->
  print_double bits = if neg then "-inf" else "inf".
Proof.
  intros H. unfold print_double. rewrite H.
  unfold decode_double in H. cbv zeta in H.
  destruct ((bits / 2 ^ 52) mod 2 ^ 11 =? 2047).
  - destruct (bits mod 2 ^ 52 =? 0); [|discriminate H].
    injection H as <-. change (Z.pow_pos 2 63) with (2 ^ 63).
    now destruct (2 ^ 63 <=? bits).
  - destruct ((bits / 2 ^ 52) mod 2 ^ 11 =? 0); [|discriminate H].
    destruct (bits mod 2 ^ 52 =? 0); discriminate H.
Qed.

Lemma parse_nan (fuel : nat) :
  parse_ConValue (S fuel) (istream_of "nan") = Returns VNull (istream_of "nan").
Proof. now rewrite parse_ConValue_peek by reflexivity. Qed.

Lemma parse_minus_nan (fuel : nat) :
  parse_ConValue (S fuel) (istream_of "-nan") = Returns (VInteger 0) (failed_at "nan").
Proof.
  apply parse_ConValue_non_number with (xtrc := "-");
    [ reflexivity | repeat split; reflexivity | reflexivity | reflexivity ].
Qed.

Lemma parse_inf (fuel : nat) (neg : bool) :
  parse_ConValue (S fuel) (istream_of (if neg then "-inf" else "inf"))
  = Returns (VInteger 0) (failed_at "inf").
Proof.
  destruct neg.
  - apply parse_ConValue_non_number with (xtrc := "-");
      [ reflexivity | repeat split; reflexivity | reflexivity | reflexivity ].
  - apply parse_ConValue_non_number with (xtrc := "");
      [ reflexivity | repeat split; reflexivity | reflexivity | reflexivity ].
Qed.



(** ** Decimal digit strings *)

Lemma digits_value_acc (s : string) :
  forall acc, digits_value s acc = acc * 10 ^ Z.of_nat (String.length s) + digits_value s 0.
Proof.
  induction s as [|c s IH]; intros acc.
  - cbn [digits_value String.length]. change (10 ^ Z.of_nat 0) with 1. lia.
  - cbn [digits_value String.length].
    rewrite (IH (10 * acc + digit_value c)), (IH (10 * 0 + digit_value c)).
    rewrite Nat2Z.inj_succ, Z.pow_succ_r by lia. ring.
Qed.

Lemma digit_value_range (c : ascii) : is_digit c = true -> 0 <= digit_value c <= 9.
Proof.
  unfold is_digit, digit_value. intros H. apply andb_true_iff in H as [H1 H2].
  apply Z.leb_le in H1, H2. lia.
Qed.

Lemma digit_value_inj (c c' : ascii) : digit_value c = digit_value c' -> c = c'.
Proof.
  unfold digit_value. intros H.
  rewrite <- (byte_of_Z_of c), <- (byte_of_Z_of c'). f_equal. lia.
Qed.

Lemma digits_value_lt (s : string) :
  all_digits s -> 0 <= digits_value s 0 < 10 ^ Z.of_nat (String.length s).
Proof.
  induction s as [|c s IH]; cbn [all_digits digits_value String.length].
  - intros _. change (10 ^ Z.of_nat 0) with 1. lia.
  - intros [Hc Hs]. specialize (IH Hs). pose proof (digit_value_range c Hc).
    rewrite digits_value_acc.
    rewrite Nat2Z.inj_succ, Z.pow_succ_r by lia. nia.
Qed.

Lemma digits_value_ge (d : ascii) (ds : string) :
  all_digits (String d ds) -> d <> "0"%char ->
  10 ^ Z.of_nat (String.length ds) <= digits_value (String d ds) 0.
Proof.
  cbn [all_digits digits_value]. intros [Hd Hds] Hne.
  pose proof (digit_value_range d Hd). pose proof (digits_value_lt ds Hds).
  assert (digit_value d <> 0).
  { intros Hz. apply Hne. apply digit_value_inj. rewrite Hz. reflexivity. }
  rewrite digits_value_acc. nia.
Qed.

Lemma digits_same_length_inj (s : string) :
  forall t,
    all_digits s -> all_digits t -> String.length s = String.length t ->
    digits_value s 0 = digits_value t 0 -> s = t.
Proof.
  induction s as [|c s IH]; intros [|c' t]; cbn [String.length]; try discriminate;
    [reflexivity|].
  cbn [all_digits digits_value]. intros [Hc Hs] [Hc' Ht] Hlen Hval.
  injection Hlen as Hlen.
  rewrite (digits_value_acc s), (digits_value_acc t), <- Hlen in Hval.
  pose proof (digit_value_range c Hc). pose proof (digit_value_range c' Hc').
  pose proof (digits_value_lt s Hs). pose proof (digits_value_lt t Ht) as Ht'.
  rewrite <- Hlen in Ht'.
  set (P := 10 ^ Z.of_nat (String.length s)) in *.
  assert (digit_value c = digit_value c') by nia.
  assert (digits_value s 0 = digits_value t 0) by nia.
  f_equal; [now apply digit_value_inj | now apply IH].
Qed.

(** A number has one decimal representation without leading zero. *)
Lemma digits_canonical_unique (d d' : ascii) (ds ds' : string) :
  all_digits (String d ds) -> d <> "0"%char ->
  all_digits (String d' ds') -> d' <> "0"%char ->
  digits_value (String d ds) 0 = digits_value (String d' ds') 0 ->
  String d ds = String d' ds'.
Proof.
  intros Ha Hd Ha' Hd' Hval.
  apply digits_same_length_inj; try assumption.
  pose proof (digits_value_lt _ Ha) as H1. pose proof (digits_value_ge d ds Ha Hd) as H2.
  pose proof (digits_value_lt _ Ha') as H1'. pose proof (digits_value_ge d' ds' Ha' Hd') as H2'.
  cbn [String.length] in *. rewrite Hval in *.
  f_equal.
  destruct (Nat.lt_trichotomy (String.length ds) (String.length ds')) as [Hlt|[Heq|Hgt]];
    [exfalso | exact Heq | exfalso].
  - assert (10 ^ Z.of_nat (S (String.length ds)) <= 10 ^ Z.of_nat (String.length ds'))
      by (apply Z.pow_le_mono_r; lia).
    lia.
  - assert (10 ^ Z.of_nat (S (String.length ds')) <= 10 ^ Z.of_nat (String.length ds))
      by (apply Z.pow_le_mono_r; lia).
    lia.
Qed.

Lemma all_digits_append (a b : string) :
  all_digits a -> all_digits b -> all_digits (a ++ b).
Proof.
  induction a as [|c a IH]; cbn [append all_digits]; [tauto|].
  intros [Hc Ha] Hb. auto.
Qed.

Lemma all_digits_zeros (j : nat) : all_digits (zeros_text j).
Proof. induction j as [|j IH]; cbn [zeros_text all_digits]; auto. Qed.

Lemma length_zeros_text (j : nat) : String.length (zeros_text j) = j.
Proof. induction j as [|j IH]; cbn [zeros_text String.length]; auto. Qed.

Lemma digits_value_zeros (j : nat) (acc : Z) :
  digits_value (zeros_text j) acc = acc * 10 ^ Z.of_nat j.
Proof.
  rewrite digits_value_acc, length_zeros_text.
  assert (H : digits_value (zeros_text j) 0 = 0); [|lia].
  induction j as [|j IH]; cbn [zeros_text digits_value]; [reflexivity|].
  exact IH.
Qed.

(** The digits of [n * 10^j] are those of [n] and [j] zeros. *)
Lemma print_uint_shift (n : Z) (j : nat) :
  0 < n -> print_uint (n * 10 ^ Z.of_nat j) = print_uint n ++ zeros_text j.
Proof.
  intros Hn.
  assert (Hp : 0 < 10 ^ Z.of_nat j) by (apply Z.pow_pos_nonneg; lia).
  destruct (print_uint_spec n ltac:(lia)) as (d & ds & Heq & Hall & Hlead & _ & Hval).
  destruct (print_uint_spec (n * 10 ^ Z.of_nat j) ltac:(nia))
    as (d' & ds' & Heq' & Hall' & Hlead' & _ & Hval').
  rewrite Heq, Heq'. cbn [append].
  apply digits_canonical_unique.
  - exact Hall'.
  - apply Hlead'. nia.
  - change (String d (ds ++ zeros_text j)) with (String d ds ++ zeros_text j).
    apply all_digits_append; [exact Hall | apply all_digits_zeros].
  - apply Hlead. exact Hn.
  - change (String d (ds ++ zeros_text j)) with (String d ds ++ zeros_text j).
    rewrite Hval', digits_value_append, Hval, digits_value_zeros. reflexivity.
Qed.

(** The number of digits of [n]. *)
Lemma print_uint_length (n X : Z) :
  0 <= X -> 10 ^ X <= n < 10 ^ (X + 1) ->
  String.length (print_uint n) = Z.to_nat (X + 1).
Proof.
  intros HX Hn.
  assert (0 < 10 ^ X) by (apply Z.pow_pos_nonneg; lia).
  destruct (print_uint_spec n ltac:(lia)) as (d & ds & Heq & Hall & Hlead & _ & Hval).
  pose proof (digits_value_lt _ Hall) as H1.
  pose proof (digits_value_ge d ds Hall (Hlead ltac:(lia))) as H2.
  rewrite Heq. rewrite Hval in *. cbn [String.length] in *.
  set (L := String.length ds) in *.
  destruct (Z.lt_trichotomy (Z.of_nat L) X) as [Hlt|[Heq'|Hgt]].
  - exfalso.
    assert (10 ^ Z.of_nat (S L) <= 10 ^ X) by (apply Z.pow_le_mono_r; lia). lia.
  - lia.
  - exfalso.
    assert (10 ^ (X + 1) <= 10 ^ Z.of_nat L) by (apply Z.pow_le_mono_r; lia). lia.
Qed.

(** Every positive number lies between two powers of ten. *)
Lemma decimal_exponent (n : Z) :
  0 < n -> exists X, 0 <= X /\ 10 ^ X <= n < 10 ^ (X + 1).
Proof.
  intros Hn.
  destruct (print_uint_spec n ltac:(lia)) as (d & ds & Heq & Hall & Hlead & _ & Hval).
  pose proof (digits_value_lt _ Hall) as H1.
  pose proof (digits_value_ge d ds Hall (Hlead Hn)) as H2.
  rewrite Hval in *. cbn [String.length] in H1.
  exists (Z.of_nat (String.length ds)). split; [lia|].
  rewrite Nat2Z.inj_succ in H1. split; [exact H2|].
  replace (Z.of_nat (String.length ds) + 1) with (Z.succ (Z.of_nat (String.length ds)))
    by lia.
  lia.
Qed.

(** ** [%.6g] of an integer *)

Lemma log10_up_spec (fuel : nat) :
  forall num den k X,
    0 < den -> 0 <= X -> den * 10 ^ X <= num < den * 10 ^ (X + 1) ->
    (Z.to_nat X < fuel)%nat ->
    log10_up fuel num den k = k + X.
Proof.
  induction fuel as [|f IH]; intros num den k X Hden HX Hn Hf; [lia|].
  cbn [log10_up].
  destruct (Z.eq_dec X 0) as [->|HX0].
  - change (10 ^ 0) with 1 in Hn. change (10 ^ (0 + 1)) with 10 in Hn.
    destruct (Z.leb_spec (den * 10) num); lia.
  - assert (Hp : 10 ^ X = 10 * 10 ^ (X - 1)).
    { rewrite <- Z.pow_succ_r by lia. f_equal. lia. }
    assert (0 < 10 ^ (X - 1)) by (apply Z.pow_pos_nonneg; lia).
    destruct (Z.leb_spec (den * 10) num); [|nia].
    rewrite (IH num (den * 10) (k + 1) (X - 1)); try lia.
    replace (X - 1 + 1) with X by lia.
    replace (X + 1) with (Z.succ X) in Hn by lia.
    rewrite Z.pow_succ_r in Hn by lia. nia.
Qed.

Lemma floor_log10_integer (n D X : Z) :
  0 < D -> 0 <= X -> 10 ^ X <= n < 10 ^ (X + 1) ->
  floor_log10 (n * D) D = X.
Proof.
  intros HD HX Hn. unfold floor_log10.
  assert (0 < 10 ^ X) by (apply Z.pow_pos_nonneg; lia).
  destruct (Z.leb_spec D (n * D)); [|nia].
  rewrite (log10_up_spec _ (n * D) D 0 X); try lia; [nia|].
  assert (X <= Z.log2 (n * D)); [|lia].
  apply Z.log2_le_pow2; [nia|].
  assert (2 ^ X <= 10 ^ X) by (apply Z.pow_le_mono_l; lia). nia.
Qed.

Lemma substring_prefix (a b : string) :
  substring 0 (String.length a) (a ++ b) = a.
Proof.
  induction a as [|c a IH]; cbn [String.length append substring].
  - destruct b; reflexivity.
  - now rewrite IH.
Qed.

Lemma substring_all (b : string) : substring 0 (String.length b) b = b.
Proof.
  induction b as [|c b IH]; cbn [String.length substring]; [reflexivity|].
  now rewrite IH.
Qed.

Lemma substring_suffix (a b : string) :
  substring (String.length a) (String.length b) (a ++ b) = b.
Proof.
  induction a as [|c a IH]; cbn [String.length append substring].
  - apply substring_all.
  - exact IH.
Qed.

Lemma strip_zeros_rev_zeros (l : list ascii) :
  Forall (fun c => c = "0"%char) l -> strip_zeros_rev l = [].
Proof.
  induction 1 as [|c l Hc Hl IH]; cbn [strip_zeros_rev]; [reflexivity|].
  subst c. cbn [Ascii.eqb Bool.eqb]. exact IH.
Qed.

Lemma strip_trailing_zeros_zeros (j : nat) : strip_trailing_zeros (zeros_text j) = "".
Proof.
  unfold strip_trailing_zeros. rewrite strip_zeros_rev_zeros; [reflexivity|].
  apply Forall_rev.
  induction j as [|j IH]; cbn [zeros_text list_ascii_of_string]; constructor; auto.
Qed.

Lemma format_g_integer (n D : Z) :
  0 < D -> 0 < n < 10 ^ 6 -> format_g (n * D) D = print_uint n.
Proof.
  intros HD Hn.
  destruct (decimal_exponent n ltac:(lia)) as (X & HX & Hpow).
  assert (HX5 : X <= 5).
  { destruct (Z.le_gt_cases X 5) as [|Hgt]; [assumption|exfalso].
    assert (10 ^ 6 <= 10 ^ X) by (apply Z.pow_le_mono_r; lia). lia. }
  unfold format_g. rewrite (floor_log10_integer n D X HD HX Hpow). cbv zeta.
  destruct (Z.leb_spec X 5); [|lia].
  assert (Hp : 0 < 10 ^ (5 - X)) by (apply Z.pow_pos_nonneg; lia).
  assert (Hscaled : round_half_even (n * D * 10 ^ (5 - X)) D = n * 10 ^ (5 - X)).
  { rewrite round_half_even_exact; [| lia |].
    - replace (n * D * 10 ^ (5 - X)) with (n * 10 ^ (5 - X) * D) by ring.
      apply Z.div_mul. lia.
    - replace (n * D * 10 ^ (5 - X)) with (n * 10 ^ (5 - X) * D) by ring.
      apply Z.mod_mul. lia. }
  rewrite Hscaled.
  assert (Hlt : n * 10 ^ (5 - X) < 10 ^ 6).
  { replace 6 with ((X + 1) + (5 - X)) by lia.
    rewrite Z.pow_add_r by lia. nia. }
  destruct (Z.eqb_spec (n * 10 ^ (5 - X)) (10 ^ 6)); [lia|].
  destruct (Z.ltb_spec X (-4)); [lia|]. destruct (Z.leb_spec 6 X); [lia|].
  cbn [orb]. destruct (Z.ltb_spec X 0); [lia|].
  replace (5 - X) with (Z.of_nat (Z.to_nat (5 - X))) by lia.
  rewrite print_uint_shift by lia.
  pose proof (print_uint_length n X HX Hpow) as Hlen.
  rewrite <- Hlen.
  rewrite substring_prefix.
  replace (6 - String.length (print_uint n))%nat
    with (String.length (zeros_text (Z.to_nat (5 - X))))
    by (rewrite length_zeros_text, Hlen; lia).
  rewrite substring_suffix.
  unfold with_fraction. now rewrite strip_trailing_zeros_zeros.
Qed.

(** ** Floats with an integer value *)

Lemma encode_double_sign (neg : bool) (m e : Z) :
  2 ^ 52 <= m < 2 ^ 53 -> -1074 <= e <= 971 ->
  (2 ^ 63 <=? encode_double (FFinite neg m e)) = neg.
Proof.
  intros Hm He. cbn [encode_double].
  destruct (Z.ltb_spec m (2 ^ 52)); [lia|].
  unfold sign_bit. destruct neg.
  - apply Z.leb_le. nia.
  - apply Z.leb_gt. nia.
Qed.

Lemma print_double_integer (z : Z) :
  - 10 ^ 6 < z < 10 ^ 6 -> print_double (double_of_int64 z) = print_int64 z.
Proof.
  intros Hz.
  destruct (Z.eq_dec z 0) as [->|Hz0]; [reflexivity|].
  assert (Ha : 0 < Z.abs z < 10 ^ 6) by lia.
  assert (Hl : Z.log2 (Z.abs z) < 20) by (apply Z.log2_lt_pow2; lia).
  pose proof (Z.log2_nonneg (Z.abs z)) as Hl0.
  pose proof (int_mantissa_range (Z.abs z) ltac:(lia)) as Hm.
  assert (Hex : exact_in_double z) by (left; lia).
  assert (Hc : canonical (FFinite (z <? 0) (int_mantissa (Z.abs z)) (Z.log2 (Z.abs z) - 52))).
  { cbn [canonical]. right. lia. }
  rewrite double_of_int64_exact by (assumption || lia).
  unfold print_double.
  rewrite encode_double_sign by lia.
  rewrite decode_encode by exact Hc.
  destruct (Z.ltb_spec (Z.log2 (Z.abs z) - 52) 0); [|lia].
  unfold int_mantissa. destruct (Z.leb_spec (Z.log2 (Z.abs z)) 52); [|lia].
  replace (- (Z.log2 (Z.abs z) - 52)) with (52 - Z.log2 (Z.abs z)) by lia.
  rewrite format_g_integer by (try apply Z.pow_pos_nonneg; lia).
  unfold print_int64. destruct (Z.ltb_spec z 0).
  - cbn [append]. f_equal. f_equal. lia.
  - cbn [append]. f_equal. lia.
Qed.


(** ** Documents in any layout *)

Lemma value_ends_number_ends (rest : string) : value_ends rest -> number_ends rest.
Proof.
  destruct rest as [|c r]; cbn [value_ends number_ends]; [tauto|].
  intros [H|[->|[->| ->]]]; try (repeat split; reflexivity).
  destruct c as [[] [] [] [] [] [] [] []]; vm_compute in H; try discriminate H;
    repeat split; reflexivity.
Qed.

Lemma value_ends_blank (ws : string) (c : ascii) (r : string) :
  json_blank ws -> c = ","%char \/ c = "]"%char \/ c = "}"%char ->
  value_ends (ws ++ String c r).
Proof.
  destruct ws as [|x ws]; cbn [json_blank append value_ends]; [tauto|].
  intros [Hx _] _. now left.
Qed.

Lemma after_parsed_number (d : Z) (rest : string) :
  after_parsed (number_value d) rest
  = mk_istream rest (match rest with "" => true | _ => false end) false.
Proof. unfold number_value. now destruct (double_eqb _ _). Qed.

(** Behind a value and white space, the next character is reached. *)
Lemma eliminateWhitespace_after_parsed (v : ConValue) (ws : string) (c : ascii)
  (r : string) :
  json_blank ws -> is_json_space c = false ->
  eliminateWhitespace (after_parsed v (ws ++ String c r)) = istream_of (String c r)
  /\ failbit (after_parsed v (ws ++ String c r)) = false.
Proof.
  intros Hws Hc.
  assert (Hne : match ws ++ String c r with "" => true | _ => false end = false)
    by now destruct ws.
  assert (Hskip := eliminateWhitespace_skip ws c r Hws Hc).
  destruct v as [| b | z | bits | s | [|x vs] | [|kv kvs] | t]; cbn [after_parsed];
    try (split; [exact Hskip | reflexivity]);
    try (rewrite Hne; split; [exact Hskip | reflexivity]);
    rewrite Hskip; split; try reflexivity; now apply eliminateWhitespace_head.
Qed.

Lemma parse_true (f : nat) (rest : string) :
  parse_ConValue (S f) (istream_of ("true" ++ rest))
  = Returns (VBoolean true) (istream_of rest).
Proof. cbn [append]. now rewrite parse_ConValue_peek by reflexivity. Qed.

Lemma parse_false (f : nat) (rest : string) :
  parse_ConValue (S f) (istream_of ("false" ++ rest))
  = Returns (VBoolean false) (istream_of rest).
Proof. cbn [append]. now rewrite parse_ConValue_peek by reflexivity. Qed.

Lemma parse_quoted (f : nat) (s rest : string) :
  quote_free s -> (String.length s < f)%nat ->
  parse_ConValue (S f) (istream_of (quoted s ++ rest))
  = Returns (VString s) (istream_of rest).
Proof.
  intros Hq Hf. unfold quoted. cbn [append].
  rewrite parse_ConValue_peek by reflexivity.
  cbv zeta. cbn [Ascii.eqb Bool.eqb orb]. unfold dquote at 1. cbn [Ascii.eqb Bool.eqb orb].
  rewrite Ascii.eqb_refl.
  rewrite append_assoc. cbn [append].
  now rewrite string_loop_spec by assumption.
Qed.

Lemma parse_number_token (f : nat) (t : string) (x : fpval) (rest : string) :
  number_token t x -> number_ends rest ->
  parse_ConValue (S f) (istream_of (t ++ rest))
  = Returns (number_value (encode_double x))
      (after_parsed (number_value (encode_double x)) rest).
Proof.
  intros ((c & r & -> & Hc) & Hscan & Hstrtod & Hfin) Hrest.
  destruct (is_digit_not_space c Hc) as [Hsp Hjs].
  destruct (number_head_dispatch c Hc) as (Hn & Htf & Hq & Ha & Ho & _).
  specialize (Hscan rest Hrest).
  cbn [append] in *. rewrite parse_ConValue_peek by exact Hjs.
  cbv zeta. rewrite Hn, Htf, Hq, Ha, Ho.
  rewrite istream_extract_double_head by exact Hsp.
  rewrite Hscan. cbv zeta. rewrite Hstrtod, after_parsed_number.
  destruct x; try reflexivity. now destruct (Hfin neg).
Qed.

(** The text of a value starts with a character that is no white space and
    no closing bracket. *)
Lemma denotes_head (t : string) (v : ConValue) :
  denotes t v ->
  exists c r, t = String c r /\ is_space c = false /\ Ascii.eqb c "]" = false.
Proof.
  intros H. destruct H as [| | t x ((c & r & -> & Hc) & _) | s _ | ws _ | body v vs _
                          | ws _ | body kv kvs _];
    try (eexists _, _; cbn [append quoted]; repeat split; reflexivity).
  exists c, r. split; [reflexivity|].
  destruct (is_digit_not_space c Hc) as [Hsp _].
  destruct (number_head_dispatch c Hc) as (_ & _ & _ & _ & _ & Hb). auto.
Qed.

Lemma elements_head (body : string) (vs : list ConValue) (tail : string) :
  elements body vs ->
  exists ws c r,
    body ++ tail = ws ++ String c r /\ json_blank ws
    /\ is_space c = false /\ Ascii.eqb c "]" = false.
Proof.
  intros H.
  destruct H as [ws1 t ws2 v Hws1 Ht _ | ws1 t ws2 body v vs Hws1 Ht _ _];
    destruct (denotes_head t v Ht) as (c & r & -> & Hs & Hb);
    exists ws1, c; eexists; (split; [|auto]);
    rewrite !append_assoc; cbn [append]; reflexivity.
Qed.

Lemma entries_head (body : string) (kvs : list (string * ConValue)) (tail : string) :
  entries body kvs ->
  exists ws r, body ++ tail = ws ++ String dquote r /\ json_blank ws.
Proof.
  intros H.
  destruct H as [ws1 k ws2 ws3 t ws4 v Hws1 _ _ _ _ _
                | ws1 k ws2 ws3 t ws4 body v kvs Hws1 _ _ _ _ _ _];
    exists ws1; eexists; (split; [|assumption]);
    unfold quoted; rewrite !append_assoc; cbn [append]; reflexivity.
Qed.

(** The loops look at the stream behind its leading white space only. *)
Lemma parse_ConArray_loop_skip (f : nat) (c : ascii) (acc : ConArray) (ist ist' : istream) :
  eliminateWhitespace ist = eliminateWhitespace ist' ->
  parse_ConArray_loop f c acc ist = parse_ConArray_loop f c acc ist'.
Proof.
  intros H. destruct f as [|f]; [reflexivity|].
  cbn [parse_ConArray_loop]. cbv zeta. now rewrite H.
Qed.

Lemma parse_ConObject_loop_skip (f : nat) (c : ascii) (obj : ConObject)
  (ist ist' : istream) :
  eliminateWhitespace ist = eliminateWhitespace ist' ->
  parse_ConObject_loop f c obj ist = parse_ConObject_loop f c obj ist'.
Proof.
  intros H. destruct f as [|f]; [reflexivity|].
  cbn [parse_ConObject_loop]. cbv zeta. now rewrite H.
Qed.

(** One element of an array, with what follows it. *)
Lemma parse_ConArray_loop_element (ws1 t ws2 : string) (v : ConValue) (d : ascii)
  (tail : string) (c : ascii) (acc : ConArray) (R : outcome ConArray) :
  json_blank ws1 -> denotes t v -> parses_to t v -> json_blank ws2 ->
  d = ","%char \/ d = "]"%char ->
  eventually
    (fun f =>
       if Ascii.eqb d "]" then Returns (acc ++ [v])%list (istream_of tail)
       else parse_ConArray_loop f d (acc ++ [v])%list (istream_of tail)) R ->
  eventually
    (fun f => parse_ConArray_loop f c acc
                (istream_of (ws1 ++ t ++ ws2 ++ String d tail))) R.
Proof.
  intros Hws1 Ht Hv Hws2 Hd [n2 H2].
  destruct (denotes_head t v Ht) as (c0 & r0 & Heq & Hs0 & _).
  pose proof (is_space_json c0 Hs0) as Hjs0.
  assert (Hdj : is_json_space d = false) by (destruct Hd as [->| ->]; reflexivity).
  assert (Hds : is_space d = false) by (destruct Hd as [->| ->]; reflexivity).
  destruct (Hv (ws2 ++ String d tail)) as [n1 H1].
  { apply value_ends_blank; [assumption|]. destruct Hd; auto. }
  destruct (eliminateWhitespace_after_parsed v ws2 d tail Hws2 Hdj) as [Hafter _].
  apply eventually_intro with (n := S (Nat.max n1 n2)). intros [|f] Hf; [lia|].
  cbn [parse_ConArray_loop]. cbv zeta.
  replace (ws1 ++ t ++ ws2 ++ String d tail)
    with (ws1 ++ String c0 (r0 ++ ws2 ++ String d tail)) by now rewrite Heq.
  rewrite eliminateWhitespace_skip by assumption.
  replace (String c0 (r0 ++ ws2 ++ String d tail))
    with (t ++ ws2 ++ String d tail) by now rewrite Heq.
  rewrite H1 by lia. rewrite Hafter.
  rewrite istream_extract_char_head by exact Hds.
  cbn [latest]. specialize (H2 f ltac:(lia)). cbv beta in H2.
  destruct Hd as [->| ->]; cbn [Ascii.eqb Bool.eqb negb] in *; exact H2.
Qed.

(** One entry of an object, with what follows it. *)
Lemma parse_ConObject_loop_entry_layout (ws1 k ws2 ws3 t ws4 : string) (v : ConValue)
  (d : ascii) (tail : string) (c : ascii) (obj : ConObject) (R : outcome ConObject) :
  json_blank ws1 -> quote_free k -> json_blank ws2 -> json_blank ws3 ->
  denotes t v -> parses_to t v -> json_blank ws4 ->
  d = ","%char \/ d = "}"%char ->
  eventually
    (fun f =>
       if Ascii.eqb d "}" then Returns (map_assign k v obj) (istream_of tail)
       else parse_ConObject_loop f d (map_assign k v obj) (istream_of tail)) R ->
  eventually
    (fun f => parse_ConObject_loop f c obj
                (istream_of
                   (ws1 ++ quoted k ++ ws2 ++ ":" ++ ws3 ++ t ++ ws4 ++ String d tail))) R.
Proof.
  intros Hws1 Hk Hws2 Hws3 Ht Hv Hws4 Hd [n2 H2].
  destruct (denotes_head t v Ht) as (c0 & r0 & Heq & Hs0 & _).
  pose proof (is_space_json c0 Hs0) as Hjs0.
  assert (Hdj : is_json_space d = false) by (destruct Hd as [->| ->]; reflexivity).
  assert (Hds : is_space d = false) by (destruct Hd as [->| ->]; reflexivity).
  destruct (Hv (ws4 ++ String d tail)) as [n1 H1].
  { apply value_ends_blank; [assumption|]. destruct Hd; auto. }
  destruct (eliminateWhitespace_after_parsed v ws4 d tail Hws4 Hdj) as [Hafter Hfail].
  apply eventually_intro with (n := S (Nat.max n1 n2)). intros [|f] Hf; [lia|].
  cbn [parse_ConObject_loop]. cbv zeta.
  unfold quoted. rewrite !append_assoc. cbn [append].
  rewrite eliminateWhitespace_skip by (assumption || reflexivity).
  rewrite istream_extract_char_head by reflexivity.
  cbn [latest]. rewrite Ascii.eqb_refl. cbn [negb].
  rewrite istream_getline_key by assumption.
  rewrite eliminateWhitespace_skip by (assumption || reflexivity).
  rewrite istream_extract_char_head by reflexivity.
  cbn [latest Ascii.eqb Bool.eqb negb].
  replace (ws3 ++ t ++ ws4 ++ String d tail)
    with (ws3 ++ String c0 (r0 ++ ws4 ++ String d tail)) by now rewrite Heq.
  rewrite eliminateWhitespace_skip by assumption.
  replace (String c0 (r0 ++ ws4 ++ String d tail))
    with (t ++ ws4 ++ String d tail) by now rewrite Heq.
  rewrite H1 by lia. rewrite Hfail, Hafter.
  rewrite istream_extract_char_head by exact Hds.
  cbn [latest]. specialize (H2 f ltac:(lia)). cbv beta in H2.
  destruct Hd as [->| ->]; cbn [Ascii.eqb Bool.eqb negb] in *; exact H2.
Qed.

Lemma map_assign_nonempty {V : Type} (k : string) (v : V) (m : list (string * V)) :
  map_assign k v m <> [].
Proof.
  destruct m as [|[k0 v0] m]; cbn [map_assign]; [discriminate|].
  destruct (String_as_OT.compare k k0); discriminate.
Qed.

Lemma map_of_assignments_nonempty {V : Type} (kv : string * V) (kvs : list (string * V)) :
  map_of_assignments (kv :: kvs) <> [].
Proof.
  unfold map_of_assignments. cbn [fold_left].
  generalize (map_assign_nonempty (fst kv) (snd kv) []).
  generalize (map_assign (fst kv) (snd kv) (@nil (string * V))).
  induction kvs as [|x l IH]; intros m Hm; cbn [fold_left]; [exact Hm|].
  apply IH. apply map_assign_nonempty.
Qed.

Lemma after_parsed_Object (kv : string * ConValue) (kvs : list (string * ConValue))
  (rest : string) :
  after_parsed (VObject (map_of_assignments (kv :: kvs))) rest = istream_of rest.
Proof.
  pose proof (map_of_assignments_nonempty kv kvs) as H.
  destruct (map_of_assignments (kv :: kvs)); [congruence|reflexivity].
Qed.

(** The array operator on a text with elements. *)
Lemma parse_array_layout (body : string) (v : ConValue) (vs : list ConValue) :
  elements body (v :: vs) -> elements_parse_to body (v :: vs) ->
  parses_to ("[" ++ body ++ "]") (VArray (v :: vs)).
Proof.
  intros Hel Hloop rest _.
  destruct (elements_head body (v :: vs) (String "]" rest) Hel)
    as (ws & c0 & r0 & Heq & Hws & Hs0 & Hb0).
  pose proof (is_space_json c0 Hs0) as Hjs0.
  destruct (Hloop c0 [] rest) as [n Hn].
  apply eventually_intro with (n := S n). intros [|f] Hf; [lia|].
  rewrite !append_assoc. cbn [append after_parsed].
  rewrite parse_ConValue_array.
  unfold parse_ConArray, parse_ConArray_with. cbv zeta.
  rewrite eliminateWhitespace_head by reflexivity.
  rewrite istream_extract_char_head by reflexivity.
  cbn [Ascii.eqb Bool.eqb negb].
  rewrite Heq. rewrite eliminateWhitespace_skip by assumption.
  rewrite istream_extract_char_head by exact Hs0.
  cbn [latest]. rewrite Hb0, istream_putback_good.
  rewrite (parse_ConArray_loop_skip f c0 [] (istream_of (String c0 r0))
             (istream_of (ws ++ String c0 r0))).
  - rewrite <- Heq. now rewrite Hn by lia.
  - rewrite eliminateWhitespace_head, eliminateWhitespace_skip by assumption.
    reflexivity.
Qed.

(** The object operator on a text with entries. *)
Lemma parse_object_layout (body : string) (kv : string * ConValue)
  (kvs : list (string * ConValue)) :
  entries body (kv :: kvs) -> entries_parse_to body (kv :: kvs) ->
  parses_to ("{" ++ body ++ "}") (VObject (map_of_assignments (kv :: kvs))).
Proof.
  intros Hel Hloop rest _.
  destruct (entries_head body (kv :: kvs) (String "}" rest) Hel) as (ws & r0 & Heq & Hws).
  destruct (Hloop dquote [] rest) as [n Hn].
  apply eventually_intro with (n := S n). intros [|f] Hf; [lia|].
  rewrite after_parsed_Object.
  rewrite !append_assoc. cbn [append].
  rewrite parse_ConValue_object.
  unfold parse_ConObject, parse_ConObject_with. cbv zeta.
  rewrite eliminateWhitespace_head by reflexivity.
  rewrite istream_extract_char_head by reflexivity.
  cbn [Ascii.eqb Bool.eqb negb].
  rewrite Heq. rewrite eliminateWhitespace_skip by (assumption || reflexivity).
  rewrite istream_extract_char_head by reflexivity.
  cbn [latest]. unfold dquote at 1. cbn [Ascii.eqb Bool.eqb].
  rewrite istream_putback_good.
  rewrite (parse_ConObject_loop_skip f dquote [] (istream_of (String dquote r0))
             (istream_of (ws ++ String dquote r0))).
  - rewrite <- Heq. now rewrite Hn by lia.
  - rewrite eliminateWhitespace_head, eliminateWhitespace_skip
      by (assumption || reflexivity).
    reflexivity.
Qed.

Lemma denotes_parses :
  (forall t v, denotes t v -> parses_to t v)
  /\ (forall body vs, elements body vs -> elements_parse_to body vs)
  /\ (forall body kvs, entries body kvs -> entries_parse_to body kvs).
Proof.
  assert (Hboth :
    (forall t v, denotes t v -> denotes t v /\ parses_to t v)
    /\ (forall body vs, elements body vs -> elements body vs /\ elements_parse_to body vs)
    /\ (forall body kvs, entries body kvs -> entries body kvs /\ entries_parse_to body kvs)).
  2: { destruct Hboth as (H1 & H2 & H3).
       repeat split; intros; [apply H1 | apply H2 | apply H3]; assumption. }
  apply denotes_elements_entries_ind.
  - split; [constructor|]. intros rest _.
    apply eventually_intro with (n := 1%nat). intros [|f] Hf; [lia|]. apply parse_true.
  - split; [constructor|]. intros rest _.
    apply eventually_intro with (n := 1%nat). intros [|f] Hf; [lia|]. apply parse_false.
  - intros t x Hx. split; [now constructor|]. intros rest Hrest.
    apply eventually_intro with (n := 1%nat). intros [|f] Hf; [lia|].
    apply parse_number_token; [assumption | now apply value_ends_number_ends].
  - intros s Hs. split; [now constructor|]. intros rest _.
    apply eventually_intro with (n := S (S (String.length s))). intros [|f] Hf; [lia|].
    apply parse_quoted; [assumption | lia].
  - intros ws Hws. split; [now constructor|]. intros rest _.
    apply eventually_intro with (n := 1%nat). intros [|f] Hf; [lia|].
    rewrite !append_assoc. now apply parse_empty_Array.
  - intros body v vs Hel [_ IH]. split; [now constructor|].
    now apply parse_array_layout.
  - intros ws Hws. split; [now constructor|]. intros rest _.
    apply eventually_intro with (n := 1%nat). intros [|f] Hf; [lia|].
    rewrite !append_assoc. now apply parse_empty_Object.
  - intros body kv kvs Hel [_ IH]. split; [now constructor|].
    now apply parse_object_layout.
  - intros ws1 t ws2 v Hws1 _ [Ht Hv] Hws2. split; [now constructor|].
    intros c acc rest. rewrite !append_assoc.
    apply (parse_ConArray_loop_element ws1 t ws2 v "]" rest c acc); auto.
    apply eventually_intro with (n := 0%nat). intros f _. reflexivity.
  - intros ws1 t ws2 body v vs Hws1 _ [Ht Hv] Hws2 _ [Hel IH]. split; [now constructor|].
    intros c acc rest. rewrite !append_assoc. cbn [append].
    apply (parse_ConArray_loop_element ws1 t ws2 v "," (body ++ String "]" rest) c acc);
      auto.
    cbn [Ascii.eqb Bool.eqb].
    replace (acc ++ v :: vs)%list with ((acc ++ [v]) ++ vs)%list
      by now rewrite <- app_assoc.
    apply IH.
  - intros ws1 k ws2 ws3 t ws4 v Hws1 Hk Hws2 Hws3 _ [Ht Hv] Hws4.
    split; [now constructor|].
    intros c obj rest. rewrite !append_assoc. cbn [append fold_left fst snd].
    pose proof (parse_ConObject_loop_entry_layout ws1 k ws2 ws3 t ws4 v "}" rest c obj
                  (Returns (map_assign k v obj) (istream_of rest))) as H.
    rewrite ?append_assoc in H. cbn [append] in H.
    apply H; auto.
    apply eventually_intro with (n := 0%nat). intros f _. reflexivity.
  - intros ws1 k ws2 ws3 t ws4 body v kvs Hws1 Hk Hws2 Hws3 _ [Ht Hv] Hws4 _ [Hel IH].
    split; [now constructor|].
    intros c obj rest. rewrite !append_assoc. cbn [append fold_left fst snd].
    pose proof (parse_ConObject_loop_entry_layout ws1 k ws2 ws3 t ws4 v ","
                  (body ++ String "}" rest) c obj
                  (Returns (fold_left (fun m e => map_assign (fst e) (snd e) m) kvs
                              (map_assign k v obj)) (istream_of rest))) as H.
    rewrite ?append_assoc in H. cbn [append] in H.
    apply H; auto.
    cbn [Ascii.eqb Bool.eqb]. apply IH.
Qed.


(** ** Integers as number tokens *)

Lemma scan_digits_digits_ends (ds : string) :
  forall (rest xtrc : string) (mantissa : bool),
    all_digits ds -> number_ends rest ->
    scan_digits (ds ++ rest) xtrc mantissa false false = (xtrc ++ ds, rest).
Proof.
  induction ds as [|c ds IH]; intros rest xtrc mantissa Hall Hstop.
  - cbn [append]. rewrite append_nil_r.
    destruct rest as [|c r]; [reflexivity|].
    cbn [number_ends] in Hstop. destruct Hstop as (Hd & Hp & He & HE).
    cbn [scan_digits]. now rewrite Hd, Hp, He, HE.
  - cbn [all_digits] in Hall. destruct Hall as [Hc Hall].
    cbn [append scan_digits]. rewrite Hc.
    rewrite IH by assumption. now rewrite append_assoc.
Qed.

Lemma scan_float_int64_ends (z : Z) (rest : string) :
  number_ends rest ->
  scan_float (print_int64 z ++ rest) = (print_int64 z, rest).
Proof.
  intros Hstop.
  assert (Hzeros : forall d ds x,
             is_digit d = true -> d <> "0"%char ->
             scan_zeros (String d ds ++ rest) x false = (String d ds ++ rest, x, false)).
  { intros d ds x Hd Hd0. cbn [append scan_zeros].
    destruct (Ascii.eqb_spec d "0"); [contradiction | reflexivity]. }
  assert (Hrest0 : forall x, scan_zeros rest x true = (rest, x, true)).
  { intros x. destruct rest as [|c r]; [reflexivity|]. cbn [scan_zeros].
    cbn [number_ends] in Hstop. destruct Hstop as (Hd & _).
    destruct (Ascii.eqb_spec c "0") as [->|]; [discriminate Hd | reflexivity]. }
  unfold print_int64. destruct (Z.ltb_spec z 0) as [Hneg|Hpos].
  - destruct (print_uint_spec (- z) ltac:(lia)) as (d & ds & Heq & Hall & Hlead & _ & _).
    rewrite Heq. unfold scan_float. cbn [append Ascii.eqb Bool.eqb orb].
    pose proof Hall as Hall'. cbn [all_digits] in Hall'. destruct Hall' as [Hd _].
    change (String d (ds ++ rest)) with (String d ds ++ rest).
    rewrite Hzeros by (try assumption; apply Hlead; lia).
    now rewrite scan_digits_digits_ends by assumption.
  - destruct (print_uint_spec z Hpos) as (d & ds & Heq & Hall & Hlead & Hzero & _).
    rewrite Heq. unfold scan_float.
    pose proof Hall as Hall'. cbn [all_digits] in Hall'. destruct Hall' as [Hd _].
    destruct (is_digit_not_sign d Hd) as (Hp & Hm & _).
    cbn [append]. rewrite Hp, Hm. cbn [orb].
    change (String d (ds ++ rest)) with (String d ds ++ rest).
    destruct (Z.eq_dec z 0) as [Hz0|Hz0].
    + specialize (Hzero Hz0). injection Hzero as -> ->.
      cbn [append scan_zeros Ascii.eqb Bool.eqb]. rewrite Hrest0.
      pose proof (scan_digits_digits_ends "" rest "0" true I Hstop) as Hs.
      cbn [append] in Hs. now rewrite Hs.
    + rewrite Hzeros by (try assumption; apply Hlead; lia).
      now rewrite scan_digits_digits_ends by assumption.
Qed.

Lemma number_token_int64 (z : Z) :
  - 2 ^ 63 <= z < 2 ^ 63 -> exact_in_double z ->
  number_token (print_int64 z) (round_to_double (z <? 0) (Z.abs z) 1).
Proof.
  intros Hz Hex. split; [|split; [|split]].
  - destruct (print_int64_head z) as (c & r & Heq & Hc). eauto.
  - intros rest Hrest. now apply scan_float_int64_ends.
  - apply strtod_int64.
  - intros neg. destruct (Z.eq_dec z 0) as [->|Hz0]; [discriminate|].
    assert (Hl : Z.log2 (Z.abs z) < 64) by (apply Z.log2_lt_pow2; lia).
    assert (Hex' : exact_in_double (Z.abs z)).
    { unfold exact_in_double in *. now rewrite (Z.abs_eq (Z.abs z)) by lia. }
    rewrite round_to_double_integer by (assumption || lia). discriminate.
Qed.

Lemma denotes_Integer (z : Z) :
  - 2 ^ 63 <= z < 2 ^ 63 -> exact_in_double z -> denotes (print_int64 z) (VInteger z).
Proof.
  intros Hz Hex. rewrite <- (number_value_of_int64 z Hz Hex).
  unfold double_of_int64. apply denotes_Number. now apply number_token_int64.
Qed.

Lemma parse_ConValue_leading_blanks (ws : string) (c : ascii) (r : string) (fuel : nat) :
  json_blank ws -> is_json_space c = false ->
  parse_ConValue fuel (istream_of (ws ++ String c r))
  = parse_ConValue fuel (istream_of (String c r)).
Proof.
  intros Hws Hc. destruct fuel as [|f]; [reflexivity|].
  cbn [parse_ConValue]. cbv zeta.
  rewrite (eliminateWhitespace_skip ws c r Hws Hc).
  now rewrite (eliminateWhitespace_head c r Hc).
Qed.

(** The text the printer writes is a document for the value. *)
Lemma elements_printed (vs : list ConValue) :
  forall (v : ConValue) (sp : string),
    Forall (fun x => denotes (print_ConValue x) x) (v :: vs) ->
    json_blank sp ->
    elements (sp ++ join_comma (map print_ConValue (v :: vs))) (v :: vs).
Proof.
  induction vs as [|w vs IH]; intros v sp Hall Hsp.
  - inversion Hall as [|? ? Hv _]; subst. cbn [map join_comma].
    replace (sp ++ print_ConValue v) with (sp ++ print_ConValue v ++ "")
      by now rewrite append_nil_r.
    now apply elements_last.
  - inversion Hall as [|? ? Hv Hall']; subst.
    assert (Heq : sp ++ join_comma (map print_ConValue (v :: w :: vs))
                  = sp ++ print_ConValue v ++ "" ++ ","
                    ++ (" " ++ join_comma (map print_ConValue (w :: vs))))
      by reflexivity.
    rewrite Heq.
    apply (elements_more sp (print_ConValue v) "" _ v (w :: vs)); try assumption;
      [exact I|].
    apply IH; [assumption|]. cbn [json_blank]. auto.
Qed.

Lemma entries_printed (kvs : list (string * ConValue)) :
  forall (kv : string * ConValue) (sp : string),
    Forall (fun e => quote_free (fst e) /\ denotes (print_ConValue (snd e)) (snd e))
      (kv :: kvs) ->
    json_blank sp ->
    entries (sp ++ join_comma (map (print_entry print_ConValue) (kv :: kvs))) (kv :: kvs).
Proof.
  induction kvs as [|w kvs IH]; intros [k v] sp Hall Hsp.
  - inversion Hall as [|? ? [Hk Hv] _]; subst. cbn [map join_comma fst snd] in *.
    assert (Heq : sp ++ print_entry print_ConValue (k, v)
                  = sp ++ quoted k ++ "" ++ ":" ++ " " ++ print_ConValue v ++ "").
    { unfold print_entry, quoted. cbn [fst snd]. rewrite append_nil_r.
      rewrite !append_assoc. reflexivity. }
    rewrite Heq. apply entries_last; cbn [json_blank]; auto.
  - inversion Hall as [|? ? [Hk Hv] Hall']; subst. cbn [fst snd] in *.
    assert (Heq : sp ++ join_comma (map (print_entry print_ConValue) ((k, v) :: w :: kvs))
                  = sp ++ quoted k ++ "" ++ ":" ++ " " ++ print_ConValue v ++ "" ++ ","
                    ++ (" " ++ join_comma (map (print_entry print_ConValue) (w :: kvs)))).
    { cbn [map join_comma]. unfold print_entry at 1, quoted. cbn [fst snd].
      rewrite !append_assoc. reflexivity. }
    rewrite Heq.
    apply (entries_more sp k "" " " (print_ConValue v) "" _ v (w :: kvs));
      cbn [json_blank]; auto.
    apply IH; [assumption|]. cbn [json_blank]. auto.
Qed.

Lemma denotes_printed (v : ConValue) : text_stable v -> denotes (print_ConValue v) v.
Proof.
  induction v as [| b | z | bits | s | vs IH | kvs IH | t] using ConValue_deep_ind;
    cbn [text_stable]; intros H; try contradiction.
  - destruct b; constructor.
  - destruct H. now apply denotes_Integer.
  - now apply denotes_String.
  - assert (Hall : Forall (fun x => denotes (print_ConValue x) x) vs).
    { clear - IH H. induction IH as [|x l Hx _ IHl]; constructor.
      - apply Hx, H.
      - apply IHl, H. }
    destruct vs as [|v vs]; [apply (denotes_empty_Array ""); exact I|].
    cbn [print_ConValue].
    apply denotes_Array.
    replace (join_comma (map print_ConValue (v :: vs)))
      with ("" ++ join_comma (map print_ConValue (v :: vs))) by reflexivity.
    apply elements_printed; [exact Hall|exact I].
  - destruct H as [Hs H].
    assert (Hall : Forall (fun e => quote_free (fst e)
                                    /\ denotes (print_ConValue (snd e)) (snd e)) kvs).
    { clear - IH H. induction IH as [|x l Hx _ IHl]; constructor.
      - split; [apply H|]. apply Hx, H.
      - apply IHl, H. }
    destruct kvs as [|kv kvs]; [apply (denotes_empty_Object ""); exact I|].
    cbn [print_ConValue].
    rewrite <- (map_of_assignments_id (kv :: kvs) Hs) at 2.
    apply denotes_Object.
    replace (join_comma (map (print_entry print_ConValue) (kv :: kvs)))
      with ("" ++ join_comma (map (print_entry print_ConValue) (kv :: kvs)))
      by reflexivity.
    apply entries_printed; [exact Hall|exact I].
Qed.

(** A document with white space in front of it. *)
Lemma parse_document (t : string) (v : ConValue) (ws rest : string) :
  denotes t v -> json_blank ws -> value_ends rest ->
  eventually
    (fun fuel => parse_ConValue fuel (istream_of (ws ++ t ++ rest)))
    (Returns v (after_parsed v rest)).
Proof.
  intros Ht Hws Hrest.
  destruct (denotes_head t v Ht) as (c & r & Heq & Hs & _).
  destruct (proj1 denotes_parses t v Ht rest Hrest) as [n Hn].
  apply eventually_intro with (n := n). intros fuel Hf.
  rewrite <- (Hn fuel Hf). rewrite Heq. cbn [append].
  apply parse_ConValue_leading_blanks; [assumption | now apply is_space_json].
Qed.

(** The sample layout is a document of its value. *)
Lemma sample_layout_denotes : denotes sample_layout sample_layout_value.
Proof.
  unfold sample_layout, sample_layout_value. apply denotes_Object.
  apply entries_more; try exact I;
    [ split; [discriminate | split; [discriminate | exact I]]
    | apply denotes_Integer; [lia | left; vm_compute; discriminate] | ].
  apply entries_last; try exact I; try (cbn [json_blank]; auto; fail).
  - repeat split; discriminate.
  - apply denotes_Array. apply elements_more; try exact I.
    + apply denotes_String. split; [discriminate | exact I].
    + apply elements_last; try exact I; [constructor | cbn [json_blank]; auto].
Qed.


(** ** The characters of a decimal number *)

Lemma scan_digits_end (rest xtrc : string) (mantissa dec sci : bool) :
  number_ends rest -> scan_digits rest xtrc mantissa dec sci = (xtrc, rest).
Proof.
  destruct rest as [|c r]; [reflexivity|].
  cbn [number_ends]. intros (Hd & Hp & He & HE).
  cbn [scan_digits]. now rewrite Hd, Hp, He, HE.
Qed.

Lemma scan_digits_run (ds : string) :
  forall (s xtrc : string) (mantissa dec sci : bool),
    all_digits ds ->
    scan_digits (ds ++ s) xtrc mantissa dec sci
    = scan_digits s (xtrc ++ ds) (match ds with "" => mantissa | _ => true end) dec sci.
Proof.
  induction ds as [|c ds IH]; intros s xtrc mantissa dec sci Hall.
  - cbn [append]. now rewrite append_nil_r.
  - cbn [all_digits] in Hall. destruct Hall as [Hc Hall].
    cbn [append scan_digits]. rewrite Hc.
    rewrite IH by assumption. rewrite append_assoc. cbn [append].
    destruct ds; reflexivity.
Qed.

Lemma scan_digits_exponent (e rest xtrc : string) (dec : bool) :
  exponent_part e -> number_ends rest ->
  scan_digits (e ++ rest) xtrc true dec false = (xtrc ++ e, rest).
Proof.
  intros [->|(sg & n & -> & Hsg & Hn)] Hrest.
  - cbn [append]. rewrite append_nil_r. now apply scan_digits_end.
  - cbn [append scan_digits].
    replace (is_digit "e") with false by reflexivity.
    cbn [Ascii.eqb Bool.eqb andb orb negb].
    assert (Hs : Ascii.eqb sg "+" || Ascii.eqb sg "-" = true)
      by (destruct Hsg as [->| ->]; reflexivity).
    rewrite Hs. rewrite scan_digits_run by assumption.
    rewrite scan_digits_end by assumption.
    now rewrite !append_assoc.
Qed.

Lemma scan_digits_fraction (f e rest xtrc : string) :
  fraction_part f -> exponent_part e -> number_ends rest ->
  scan_digits (f ++ e ++ rest) xtrc true false false = (xtrc ++ f ++ e, rest).
Proof.
  intros [->|(ds & -> & Hds)] He Hrest.
  - cbn [append]. now apply scan_digits_exponent.
  - cbn [append scan_digits].
    replace (is_digit ".") with false by reflexivity.
    cbn [Ascii.eqb Bool.eqb andb orb negb].
    rewrite scan_digits_run by assumption.
    replace (match ds with "" => true | String _ _ => true end) with true
      by (destruct ds; reflexivity).
    rewrite scan_digits_exponent by assumption.
    now rewrite !append_assoc.
Qed.

Lemma scan_zeros_stop (s xtrc : string) (mantissa : bool) :
  (forall r, s <> String "0" r) -> scan_zeros s xtrc mantissa = (s, xtrc, mantissa).
Proof.
  intros H. destruct s as [|c r]; [reflexivity|]. cbn [scan_zeros].
  destruct (Ascii.eqb_spec c "0") as [->|]; [now destruct (H r) | reflexivity].
Qed.

Lemma decimal_tail_head (f e rest : string) :
  fraction_part f -> exponent_part e -> number_ends rest ->
  forall r, f ++ e ++ rest <> String "0" r.
Proof.
  intros [->|(ds & -> & _)] He Hrest r; [|discriminate].
  destruct He as [->|(sg & n & -> & _)]; [|discriminate].
  cbn [append]. intros ->. cbn [number_ends] in Hrest.
  destruct Hrest as [Hd _]. discriminate Hd.
Qed.

Lemma scan_float_decimal (sign t rest : string) :
  sign = "" \/ sign = "-" -> decimal_text t -> number_ends rest ->
  scan_float (sign ++ t ++ rest) = (sign ++ t, rest).
Proof.
  intros Hsign (c & i & f & e & -> & Hc & Hi & Hzero & Hf & He) Hrest.
  destruct (is_digit_not_sign c Hc) as (Hp & Hm & _).
  assert (Hbody : forall x,
             (let '(s2, xtrc2, mantissa) :=
                scan_zeros ((String c i ++ f ++ e) ++ rest) x false in
              scan_digits s2 xtrc2 mantissa false false)
             = (x ++ String c i ++ f ++ e, rest)).
  { intros x. rewrite !append_assoc.
    destruct (Ascii.eqb_spec c "0") as [->|Hc0].
    - rewrite (Hzero eq_refl). cbn [append scan_zeros Ascii.eqb Bool.eqb].
      rewrite scan_zeros_stop by now apply decimal_tail_head.
      rewrite scan_digits_fraction by assumption.
      now rewrite append_assoc.
    - rewrite scan_zeros_stop
        by (cbn [append]; intros r Heq; injection Heq as Heq _; contradiction).
      rewrite (scan_digits_run (String c i)) by (cbn [all_digits]; auto).
      rewrite scan_digits_fraction by assumption.
      now rewrite !append_assoc. }
  unfold scan_float. destruct Hsign as [-> | ->].
  - cbn [append]. rewrite Hp, Hm. cbn [orb].
    change (String c ((i ++ f ++ e) ++ rest)) with ((String c i ++ f ++ e) ++ rest).
    rewrite Hbody. reflexivity.
  - cbn [append Ascii.eqb Bool.eqb orb].
    change (String c ((i ++ f ++ e) ++ rest)) with ((String c i ++ f ++ e) ++ rest).
    rewrite Hbody. reflexivity.
Qed.

(** The shape of [%.6g] output *)

Lemma all_digits_Forall (s : string) :
  all_digits s <-> Forall (fun c => is_digit c = true) (list_ascii_of_string s).
Proof.
  induction s as [|c s IH]; cbn [all_digits list_ascii_of_string].
  - split; auto.
  - split.
    + intros [Hc Hs]. constructor; [exact Hc | now apply IH].
    + intros H. inversion H; subst. split; [assumption | now apply IH].
Qed.

Lemma strip_zeros_rev_Forall (P : ascii -> Prop) (l : list ascii) :
  Forall P l -> Forall P (strip_zeros_rev l).
Proof.
  induction 1 as [|c l Hc Hl IH]; cbn [strip_zeros_rev]; [constructor|].
  destruct (Ascii.eqb c "0"); [exact IH | now constructor].
Qed.

Lemma all_digits_strip (s : string) :
  all_digits s -> all_digits (strip_trailing_zeros s).
Proof.
  intros H. apply all_digits_Forall. unfold strip_trailing_zeros.
  rewrite list_ascii_of_string_of_list_ascii.
  apply Forall_rev, strip_zeros_rev_Forall, Forall_rev.
  now apply all_digits_Forall.
Qed.

Lemma all_digits_substring (s : string) :
  forall n m : nat, all_digits s -> all_digits (substring n m s).
Proof.
  induction s as [|c s IH]; intros n m H.
  - destruct n, m; exact I.
  - cbn [all_digits] in H. destruct H as [Hc Hs].
    destruct n as [|n]; cbn [substring].
    + destruct m as [|m]; [exact I|]. cbn [all_digits]. split; [exact Hc|].
      now apply IH.
    + now apply IH.
Qed.

Lemma with_fraction_shape (i frac : string) :
  all_digits frac ->
  exists f, with_fraction i frac = i ++ f /\ fraction_part f.
Proof.
  intros H. pose proof (all_digits_strip frac H) as Hs.
  unfold with_fraction. destruct (strip_trailing_zeros frac) as [|c r].
  - exists "". rewrite append_nil_r. split; [reflexivity | now left].
  - exists ("." ++ String c r). split; [reflexivity|]. right. eauto.
Qed.

Lemma round_half_even_nonneg (num den : Z) :
  0 <= num -> 0 < den -> 0 <= round_half_even num den.
Proof.
  intros Hn Hd. unfold round_half_even.
  assert (0 <= num / den) by (apply Z.div_pos; lia).
  destruct (2 * (num mod den) ?= den); [destruct (Z.even (num / den))| |]; lia.
Qed.

Lemma print_exponent_shape (X : Z) : exponent_part ("e" ++ print_exponent X).
Proof.
  right. unfold print_exponent.
  destruct (print_uint_spec (Z.abs X) ltac:(lia)) as (d & ds & Heq & Hall & _).
  exists (if X <? 0 then "-"%char else "+"%char),
    ((if Z.abs X <? 10 then "0" else "") ++ print_uint (Z.abs X)).
  split; [|split].
  - destruct (X <? 0); reflexivity.
  - destruct (X <? 0); auto.
  - rewrite Heq. apply all_digits_append; [|exact Hall].
    destruct (Z.abs X <? 10); cbn [all_digits]; auto.
Qed.

Lemma format_g_shape (num den : Z) :
  0 <= num -> 0 < den -> decimal_text (format_g num den).
Proof.
  intros Hnum Hden. unfold format_g.
  set (X0 := floor_log10 num den).
  set (scaled0 := if X0 <=? 5 then round_half_even (num * 10 ^ (5 - X0)) den
                  else round_half_even num (den * 10 ^ (X0 - 5))).
  cbv zeta.
  set (X := if scaled0 =? 10 ^ 6 then X0 + 1 else X0).
  set (scaled := if scaled0 =? 10 ^ 6 then 10 ^ 5 else scaled0).
  assert (Hs0 : 0 <= scaled0).
  { unfold scaled0. destruct (Z.leb_spec X0 5).
    - apply round_half_even_nonneg; [|lia].
      assert (0 < 10 ^ (5 - X0)) by (apply Z.pow_pos_nonneg; lia). nia.
    - apply round_half_even_nonneg; [lia|].
      assert (0 < 10 ^ (X0 - 5)) by (apply Z.pow_pos_nonneg; lia). nia. }
  assert (Hs : 0 <= scaled).
  { unfold scaled. destruct (scaled0 =? 10 ^ 6); [|exact Hs0]. lia. }
  destruct (print_uint_spec scaled Hs) as (d & ds & Heq & Hall & Hlead & Hzero & _).
  rewrite Heq. pose proof Hall as Hall'. cbn [all_digits] in Hall'.
  destruct Hall' as [Hd Hds].
  destruct ((X <? -4) || (6 <=? X)).
  - destruct (with_fraction_shape (String d "") ds Hds) as (f & -> & Hf).
    exists d, "", f, ("e" ++ print_exponent X).
    rewrite append_assoc.
    split; [reflexivity|]. split; [exact Hd|]. split; [exact I|].
    split; [reflexivity|]. split; [exact Hf|]. apply print_exponent_shape.
  - destruct (Z.ltb_spec X 0) as [HX|HX].
    + destruct (with_fraction_shape "0" (zeros_text (Z.to_nat (- X - 1)) ++ String d ds))
        as (f & -> & Hf).
      { apply all_digits_append; [apply all_digits_zeros | exact Hall]. }
      exists "0"%char, "", f, "".
      rewrite append_nil_r.
      split; [reflexivity|]. split; [reflexivity|]. split; [exact I|].
      split; [reflexivity|]. split; [exact Hf|]. now left.
    + destruct (with_fraction_shape
                  (substring 0 (Z.to_nat (X + 1)) (String d ds))
                  (substring (Z.to_nat (X + 1)) (6 - Z.to_nat (X + 1)) (String d ds)))
        as (f & -> & Hf).
      { now apply all_digits_substring. }
      destruct (Z.to_nat (X + 1)) as [|k] eqn:Hk; [lia|].
      cbn [substring].
      exists d, (substring 0 k ds), f, "".
      rewrite append_nil_r.
      split; [reflexivity|]. split; [exact Hd|].
      split; [now apply all_digits_substring|].
      split; [|split; [exact Hf | now left]].
      intros ->. destruct (Z.eq_dec scaled 0) as [Hz|Hz].
      * specialize (Hzero Hz). injection Hzero as ->. now destruct k.
      * exfalso. apply Hlead; [lia | reflexivity].
Qed.

Lemma print_double_shape (d : Z) (neg : bool) (m e : Z) :
  0 <= d < 2 ^ 64 -> decode_double d = FFinite neg m e ->
  exists sign t,
    print_double d = sign ++ t /\ (sign = "" \/ sign = "-") /\ decimal_text t.
Proof.
  intros Hd Hdec. pose proof (decode_canonical d Hd) as Hc.
  rewrite Hdec in Hc. cbn [canonical] in Hc.
  unfold print_double. rewrite Hdec.
  exists (if 2 ^ 63 <=? d then "-" else ""),
    (if e <? 0 then format_g m (2 ^ (- e)) else format_g (m * 2 ^ e) 1).
  split; [reflexivity|]. split; [destruct (2 ^ 63 <=? d); auto|].
  destruct (Z.ltb_spec e 0).
  - apply format_g_shape; [lia|]. apply Z.pow_pos_nonneg; lia.
  - apply format_g_shape; [|lia].
    assert (0 < 2 ^ e) by (apply Z.pow_pos_nonneg; lia). nia.
Qed.

(** ** The bytes of a String, Array or Object node *)

Lemma ConValue_write_node (zcompress : string -> string) (v : ConValue) (level : Z)
  (body : string) :
  node_body zcompress v level = Some body ->
  ConValue_write zcompress v level
  = String (byte_of (type_tag v))
      (if COMPRESS_COMPARE (size body) level
       then String (byte_of 1) (u64 (size (zcompress body)) ++ zcompress body)
       else String (byte_of 0)
              (match v with VString _ => u64 (size body) ++ body | _ => body end)).
Proof.
  destruct v; cbn [node_body]; intros H; try discriminate H; injection H as <-;
    cbn [ConValue_write];
    [ | change (ConArray_write_with (ConValue_write zcompress) values level)
          with (ConArray_write zcompress values level)
      | change (ConObject_write_with (ConValue_write zcompress) values level)
          with (ConObject_write zcompress values level) ];
    match goal with |- context [COMPRESS_COMPARE ?a ?b] =>
      destruct (COMPRESS_COMPARE a b) end; reflexivity.
Qed.

Lemma ConArray_write_nested_string (zcompress : string -> string) (str : string) :
  ConArray_write zcompress [VString str] 0
  = u64 1 ++ String (byte_of 4) (String (byte_of 0) (u64 (size str) ++ str)).
Proof.
  unfold ConArray_write, ConArray_write_with.
  cbn [List.length map flatten fold_right ConValue_write type_tag].
  now rewrite COMPRESS_COMPARE_below_root, append_nil_r.
Qed.

Lemma size_long_string : size long_string = 10000.
Proof. vm_compute. reflexivity. Qed.

Lemma nested_long_string_written (zcompress : string -> string) :
  ConValue_write zcompress (VArray [VString long_string]) 0
  = String (byte_of 5)
      (String (byte_of 1)
         (u64 (size (zcompress nested_long_string_body))
          ++ zcompress nested_long_string_body)).
Proof.
  rewrite (ConValue_write_node zcompress (VArray [VString long_string]) 0
             nested_long_string_body).
  - cbn [type_tag].
    replace (COMPRESS_COMPARE (size nested_long_string_body) 0) with true
      by (vm_compute; reflexivity).
    reflexivity.
  - cbn [node_body]. rewrite ConArray_write_nested_string, size_long_string.
    reflexivity.
Qed.

(** ** Containers stored as they are *)

Section PlainContainers.

Variables zcompress zdecompress : string -> string.
Hypothesis zlib_inverse : forall s, zdecompress (zcompress s) = s.

(** Behind the tag and the flag 0 the decoder takes the body of the array
    off the stream it was given, count and children, and stops behind the
    last child. *)
Lemma plain_Array_read (values : ConArray) (level : Z) (rest : string) :
  well_formed (VArray values) ->
  representable zcompress (VArray values) level ->
  COMPRESS_COMPARE (size (ConArray_write zcompress values level)) level = false ->
  eventually
    (fun fuel =>
       ConValue_read zdecompress fuel
         (istream_of
            (String (byte_of 5)
               (String (byte_of 0) (ConArray_write zcompress values level ++ rest)))))
    (Returns (VArray values) (istream_of rest)).
Proof.
  intros Hwf Hrep Hcc.
  pose proof (reads_back_all zcompress zdecompress zlib_inverse (VArray values) level
                Hwf Hrep rest) as H.
  cbn [ConValue_write type_tag] in H.
  change (ConArray_write_with (ConValue_write zcompress) values level)
    with (ConArray_write zcompress values level) in H.
  rewrite Hcc in H. exact H.
Qed.

Lemma plain_Object_read (values : ConObject) (level : Z) (rest : string) :
  well_formed (VObject values) ->
  representable zcompress (VObject values) level ->
  COMPRESS_COMPARE (size (ConObject_write zcompress values level)) level = false ->
  eventually
    (fun fuel =>
       ConValue_read zdecompress fuel
         (istream_of
            (String (byte_of 6)
               (String (byte_of 0) (ConObject_write zcompress values level ++ rest)))))
    (Returns (VObject values) (istream_of rest)).
Proof.
  intros Hwf Hrep Hcc.
  pose proof (reads_back_all zcompress zdecompress zlib_inverse (VObject values) level
                Hwf Hrep rest) as H.
  cbn [ConValue_write type_tag] in H.
  change (ConObject_write_with (ConValue_write zcompress) values level)
    with (ConObject_write zcompress values level) in H.
  rewrite Hcc in H. exact H.
Qed.

End PlainContainers.

(** ** Rounding to [double] is a function of the number *)

Lemma scaled_floor_fraction (num den e : Z) :
  scaled_floor num den e = scaled_num num e / scaled_den den e.
Proof. unfold scaled_floor, scaled_num, scaled_den. now destruct (e <? 0). Qed.

Lemma scaled_round_fraction (num den e : Z) :
  scaled_round num den e = round_half_even (scaled_num num e) (scaled_den den e).
Proof. unfold scaled_round, scaled_num, scaled_den. now destruct (e <? 0). Qed.

Lemma scaled_positive (num den e : Z) :
  0 < num -> 0 < den -> 0 < scaled_num num e /\ 0 < scaled_den den e.
Proof.
  intros Hn Hd. unfold scaled_num, scaled_den.
  destruct (Z.ltb_spec e 0).
  - assert (0 < 2 ^ (- e)) by (apply Z.pow_pos_nonneg; lia). nia.
  - assert (0 < 2 ^ e) by (apply Z.pow_pos_nonneg; lia). nia.
Qed.

(** Raising the exponent by [k] divides the fraction by [2^k]. *)
Lemma scaled_shift (num den e k : Z) :
  0 <= k ->
  scaled_num num (e + k) * scaled_den den e * 2 ^ k
  = scaled_num num e * scaled_den den (e + k).
Proof.
  intros Hk. unfold scaled_num, scaled_den.
  destruct (Z.ltb_spec e 0), (Z.ltb_spec (e + k) 0); try lia.
  - replace (- e) with (- (e + k) + k) by lia.
    rewrite Z.pow_add_r by lia. ring.
  - replace k with (- e + (e + k)) at 1 by lia.
    rewrite Z.pow_add_r by lia. ring.
  - rewrite Z.pow_add_r by lia. ring.
Qed.

Lemma floor_bounds (N D a b : Z) :
  0 < D -> a * D <= N < b * D -> a <= N / D < b.
Proof.
  intros HD [Hlo Hhi]. split.
  - apply Z.div_le_lower_bound; lia.
  - apply Z.div_lt_upper_bound; lia.
Qed.

Lemma floor_bounds_inv (N D a b : Z) :
  0 < D -> a <= N / D < b -> a * D <= N < b * D.
Proof.
  intros HD H. pose proof (Z.div_mod N D ltac:(lia)) as Hdm.
  pose proof (Z.mod_pos_bound N D HD). nia.
Qed.

(** The first guess of the exponent leaves 52 or 53 bits. *)
Lemma first_exponent_bounds (num den : Z) :
  0 < num -> 0 < den ->
  let e0 := Z.log2 num - Z.log2 den - 52 in
  2 ^ 51 * scaled_den den e0 <= scaled_num num e0 < 2 ^ 53 * scaled_den den e0.
Proof.
  intros Hn Hd e0.
  pose proof (Z.log2_spec num Hn) as [Hn1 Hn2].
  pose proof (Z.log2_spec den Hd) as [Hd1 Hd2].
  pose proof (Z.log2_nonneg num). pose proof (Z.log2_nonneg den).
  rewrite Z.pow_succ_r in Hn2, Hd2 by lia.
  set (ln := Z.log2 num) in *. set (ld := Z.log2 den) in *.
  assert (Hpn : 0 < 2 ^ ln) by (apply Z.pow_pos_nonneg; lia).
  assert (Hpd : 0 < 2 ^ ld) by (apply Z.pow_pos_nonneg; lia).
  unfold scaled_num, scaled_den. destruct (Z.ltb_spec e0 0) as [He|He].
  - assert (E : 2 ^ ln * 2 ^ (- e0) = 2 ^ 52 * 2 ^ ld).
    { rewrite <- !Z.pow_add_r by lia. f_equal. lia. }
    assert (0 < 2 ^ (- e0)) by (apply Z.pow_pos_nonneg; lia).
    nia.
  - assert (E : 2 ^ ln = 2 ^ 52 * (2 ^ ld * 2 ^ e0)).
    { rewrite <- !Z.pow_add_r by lia. f_equal. lia. }
    assert (0 < 2 ^ e0) by (apply Z.pow_pos_nonneg; lia).
    nia.
Qed.

(** The exponent [round_to_double] settles on before it looks at the
    subnormal range leaves exactly 53 bits. *)
Lemma normal_exponent_bounds (num den : Z) :
  0 < num -> 0 < den ->
  let e0 := Z.log2 num - Z.log2 den - 52 in
  let e1 := if scaled_floor num den e0 <? 2 ^ 52 then e0 - 1 else e0 in
  2 ^ 52 * scaled_den den e1 <= scaled_num num e1 < 2 ^ 53 * scaled_den den e1.
Proof.
  intros Hnpos Hd e0 e1.
  pose proof (first_exponent_bounds num den Hnpos Hd) as H0. cbv zeta in H0.
  fold e0 in H0.
  subst e1. rewrite scaled_floor_fraction.
  destruct (scaled_positive num den e0 Hnpos Hd) as [Hsn Hsd].
  destruct (Z.ltb_spec (scaled_num num e0 / scaled_den den e0) (2 ^ 52)) as [Hlt|Hge].
  - assert (Hlt' : scaled_num num e0 < 2 ^ 52 * scaled_den den e0).
    { apply (floor_bounds_inv _ _ 0 (2 ^ 52)); [exact Hsd|]. split; [|exact Hlt].
      apply Z.div_pos; lia. }
    pose proof (scaled_shift num den (e0 - 1) 1 ltac:(lia)) as Hs.
    replace (e0 - 1 + 1) with e0 in Hs by lia. change (2 ^ 1) with 2 in Hs.
    destruct (scaled_positive num den (e0 - 1) Hnpos Hd) as [Hsn' Hsd'].
    nia.
  - split; [|apply H0].
    pose proof (Z.div_mod (scaled_num num e0) (scaled_den den e0) ltac:(lia)) as Hdm.
    pose proof (Z.mod_pos_bound (scaled_num num e0) (scaled_den den e0) Hsd). nia.
Qed.

(** There is one such exponent. *)
Lemma normal_exponent_unique (num den a b : Z) :
  0 < num -> 0 < den ->
  2 ^ 52 * scaled_den den a <= scaled_num num a < 2 ^ 53 * scaled_den den a ->
  2 ^ 52 * scaled_den den b <= scaled_num num b < 2 ^ 53 * scaled_den den b ->
  a = b.
Proof.
  intros Hn Hd.
  assert (Hlt : forall x y,
             x < y ->
             2 ^ 52 * scaled_den den x <= scaled_num num x < 2 ^ 53 * scaled_den den x ->
             2 ^ 52 * scaled_den den y <= scaled_num num y < 2 ^ 53 * scaled_den den y ->
             False).
  { intros x y Hxy Hx Hy.
    pose proof (scaled_shift num den x (y - x) ltac:(lia)) as Hs.
    replace (x + (y - x)) with y in Hs by lia.
    destruct (scaled_positive num den x Hn Hd) as [Hsn Hsd].
    destruct (scaled_positive num den y Hn Hd) as [Hsn' Hsd'].
    assert (HP : 2 <= 2 ^ (y - x)).
    { change 2 with (2 ^ 1) at 1. apply Z.pow_le_mono_r; lia. }
    set (P := 2 ^ (y - x)) in *.
    assert (A1 : 2 ^ 52 * scaled_den den y * (scaled_den den x * 2)
                 <= scaled_num num y * (scaled_den den x * P)).
    { apply Z.mul_le_mono_nonneg; nia. }
    assert (A2 : scaled_num num x * scaled_den den y
                 < 2 ^ 53 * scaled_den den x * scaled_den den y).
    { apply Z.mul_lt_mono_pos_r; lia. }
    nia. }
  intros Ha Hb. destruct (Z.lt_trichotomy a b) as [H|[H|H]]; [|exact H|].
  - destruct (Hlt a b H Ha Hb).
  - destruct (Hlt b a H Hb Ha).
Qed.

Lemma scaled_num_scale (num e c : Z) : scaled_num (num * c) e = scaled_num num e * c.
Proof. unfold scaled_num. destruct (e <? 0); ring. Qed.

Lemma scaled_den_scale (den e c : Z) : scaled_den (den * c) e = scaled_den den e * c.
Proof. unfold scaled_den. destruct (e <? 0); ring. Qed.

Lemma round_half_even_scale (a b c : Z) :
  0 < b -> 0 < c -> round_half_even (a * c) (b * c) = round_half_even a b.
Proof.
  intros Hb Hc. unfold round_half_even.
  rewrite Z.div_mul_cancel_r by lia.
  rewrite Z.mul_mod_distr_r by lia.
  assert (Hcmp : (2 * (a mod b * c) ?= b * c) = (2 * (a mod b) ?= b)).
  { destruct (Z.compare_spec (2 * (a mod b)) b),
      (Z.compare_spec (2 * (a mod b * c)) (b * c)); try reflexivity; nia. }
  now rewrite Hcmp.
Qed.

(** [round_to_double] is a function of the number [num / den]. *)
Lemma round_to_double_scale (neg : bool) (num den c : Z) :
  0 <= num -> 0 < den -> 0 < c ->
  round_to_double neg (num * c) (den * c) = round_to_double neg num den.
Proof.
  intros Hn Hd Hc. unfold round_to_double.
  destruct (Z.eqb_spec num 0) as [->|Hn0]; [reflexivity|].
  destruct (Z.eqb_spec (num * c) 0) as [|_]; [nia|].
  cbv zeta.
  assert (He1 :
            (if scaled_floor (num * c) (den * c)
                  (Z.log2 (num * c) - Z.log2 (den * c) - 52) <? 2 ^ 52
             then Z.log2 (num * c) - Z.log2 (den * c) - 52 - 1
             else Z.log2 (num * c) - Z.log2 (den * c) - 52)
            = (if scaled_floor num den (Z.log2 num - Z.log2 den - 52) <? 2 ^ 52
               then Z.log2 num - Z.log2 den - 52 - 1
               else Z.log2 num - Z.log2 den - 52)).
  { apply (normal_exponent_unique num den); try lia.
    - pose proof (normal_exponent_bounds (num * c) (den * c) ltac:(nia) ltac:(nia)) as H.
      cbv zeta in H. rewrite scaled_num_scale, scaled_den_scale in H.
      match type of H with
      | context [scaled_den den ?e] =>
          destruct (scaled_positive num den e ltac:(lia) Hd);
          set (sn := scaled_num num e) in *; set (sd := scaled_den den e) in *
      end.
      nia.
    - apply (normal_exponent_bounds num den); lia. }
  rewrite He1.
  set (e := Z.max _ (-1074)).
  assert (Hr : scaled_round (num * c) (den * c) e = scaled_round num den e).
  { rewrite !scaled_round_fraction, scaled_num_scale, scaled_den_scale.
    apply round_half_even_scale; [|exact Hc].
    apply (scaled_positive num den e); lia. }
  rewrite Hr. reflexivity.
Qed.

Lemma round_half_even_bounds (num den : Z) :
  0 < den -> num / den <= round_half_even num den <= num / den + 1.
Proof.
  intros Hd. unfold round_half_even.
  destruct (2 * (num mod den) ?= den); [destruct (Z.even (num / den))| |]; lia.
Qed.

(** What [round_to_double] returns is zero, an infinity, or a number in
    the form a bit pattern decodes to. *)
Lemma round_to_double_canonical (neg : bool) (num den : Z) :
  0 <= num -> 0 < den -> canonical (round_to_double neg num den).
Proof.
  intros Hn Hd. unfold round_to_double.
  destruct (Z.eqb_spec num 0) as [|Hn0]; [exact I|].
  assert (Hnpos : 0 < num) by lia. cbv zeta.
  pose proof (normal_exponent_bounds num den Hnpos Hd) as H1. cbv zeta in H1.
  set (e0 := Z.log2 num - Z.log2 den - 52) in *.
  set (e1 := if scaled_floor num den e0 <? 2 ^ 52 then e0 - 1 else e0) in *.
  set (e := Z.max e1 (-1074)).
  destruct (scaled_positive num den e Hnpos Hd) as [Hsn Hsd].
  destruct (scaled_positive num den e1 Hnpos Hd) as [Hsn1 Hsd1].
  assert (Hup : scaled_num num e < 2 ^ 53 * scaled_den den e).
  { pose proof (scaled_shift num den e1 (e - e1) ltac:(lia)) as Hs.
    replace (e1 + (e - e1)) with e in Hs by lia.
    assert (HP : 1 <= 2 ^ (e - e1)).
    { change 1 with (2 ^ 0) at 1. apply Z.pow_le_mono_r; lia. }
    set (P := 2 ^ (e - e1)) in *.
    assert (A1 : scaled_num num e1 * scaled_den den e
                 < 2 ^ 53 * scaled_den den e1 * scaled_den den e).
    { apply Z.mul_lt_mono_pos_r; lia. }
    assert (A2 : scaled_num num e * scaled_den den e1
                 <= scaled_num num e * scaled_den den e1 * P).
    { assert (0 < scaled_num num e * scaled_den den e1) by nia. nia. }
    assert (A3 : scaled_num num e * scaled_den den e1
                 < 2 ^ 53 * scaled_den den e * scaled_den den e1) by lia.
    apply (Z.mul_lt_mono_pos_r (scaled_den den e1)); lia. }
  pose proof (round_half_even_bounds (scaled_num num e) (scaled_den den e) Hsd) as Hr.
  assert (Hfloor : 0 <= scaled_num num e / scaled_den den e < 2 ^ 53).
  { apply floor_bounds; [exact Hsd|]. lia. }
  rewrite scaled_round_fraction.
  set (m := round_half_even (scaled_num num e) (scaled_den den e)) in *.
  destruct (Z.eqb_spec m 0); [exact I|].
  destruct (Z.eqb_spec m (2 ^ 53)) as [Hm|Hm].
  - destruct (Z.ltb_spec 971 (e + 1)); [exact I|]. cbn [canonical]. right. lia.
  - destruct (Z.ltb_spec 971 e); [exact I|]. cbn [canonical].
    destruct (Z.lt_ge_cases m (2 ^ 52)) as [Hsub|Hnorm]; [left | right; lia].
    split; [lia|].
    destruct (Z.eq_dec e (-1074)) as [|Hne]; [assumption|]. exfalso.
    assert (He1 : e = e1) by lia.
    assert (2 ^ 52 <= scaled_num num e / scaled_den den e).
    { apply Z.div_le_lower_bound; [lia|]. rewrite He1. lia. }
    lia.
Qed.


(** ** The decimal exponent *)

Lemma log10_down_spec (fuel : nat) :
  forall num den k j,
    0 < num -> 0 <= j -> den <= num * 10 ^ j < den * 10 ->
    (Z.to_nat j < fuel)%nat ->
    log10_down fuel num den k = k - j.
Proof.
  induction fuel as [|f IH]; intros num den k j Hnum Hj Hn Hf; [lia|].
  cbn [log10_down].
  destruct (Z.eq_dec j 0) as [->|Hj0].
  - change (10 ^ 0) with 1 in Hn.
    destruct (Z.ltb_spec num den); lia.
  - assert (Hp : 10 ^ j = 10 * 10 ^ (j - 1)).
    { rewrite <- Z.pow_succ_r by lia. f_equal. lia. }
    assert (0 < 10 ^ (j - 1)) by (apply Z.pow_pos_nonneg; lia).
    destruct (Z.ltb_spec num den); [|nia].
    rewrite (IH (num * 10) den (k - 1) (j - 1)); lia.
Qed.

Lemma floor_log10_exponent (num den X : Z) :
  0 < num -> 0 < den -> decimal_exponent_is num den X -> floor_log10 num den = X.
Proof.
  intros Hnum Hden. unfold decimal_exponent_is, floor_log10.
  destruct (Z.ltb_spec X 0) as [HX|HX]; intros Hb.
  - set (j := - X) in *.
    assert (Hp : 10 ^ j = 10 * 10 ^ (j - 1)).
    { rewrite <- Z.pow_succ_r by lia. f_equal. lia. }
    assert (Hq : 0 < 10 ^ (j - 1)) by (apply Z.pow_pos_nonneg; lia).
    assert (Hlt : num < den) by nia.
    destruct (Z.leb_spec den num); [lia|].
    rewrite (log10_down_spec _ num den 0 j); try lia.
    assert (j <= Z.log2 den); [|pose proof (Z.log2_nonneg den); lia].
    apply Z.log2_le_pow2; [lia|].
    destruct (Z.eq_dec j 1) as [->|Hj1]; [change (2 ^ 1) with 2; lia|].
    assert (H2 : 2 ^ j = 4 * 2 ^ (j - 2)).
    { change 4 with (2 ^ 2). rewrite <- Z.pow_add_r by lia. f_equal. lia. }
    assert (H10 : 10 ^ (j - 1) = 10 * 10 ^ (j - 2)).
    { rewrite <- Z.pow_succ_r by lia. f_equal. lia. }
    assert (2 ^ (j - 2) <= 10 ^ (j - 2)) by (apply Z.pow_le_mono_l; lia).
    assert (0 < 2 ^ (j - 2)) by (apply Z.pow_pos_nonneg; lia).
    nia.
  - assert (0 < 10 ^ X) by (apply Z.pow_pos_nonneg; lia).
    destruct (Z.leb_spec den num); [|nia].
    rewrite (log10_up_spec _ num den 0 X); try lia.
    assert (X <= Z.log2 num); [|lia].
    apply Z.log2_le_pow2; [lia|].
    assert (2 ^ X <= 10 ^ X) by (apply Z.pow_le_mono_l; lia). nia.
Qed.

(** The six digits are a number of six digits, or [10^6] when the
    rounding carries. *)
Lemma six_digits_range (num den X : Z) :
  0 < num -> 0 < den -> decimal_exponent_is num den X ->
  10 ^ 5 <= six_digits num den X <= 10 ^ 6.
Proof.
  intros Hnum Hden. unfold decimal_exponent_is, six_digits.
  assert (Hrange : forall n d, 0 < d -> 10 ^ 5 * d <= n < 10 ^ 6 * d ->
                               10 ^ 5 <= round_half_even n d <= 10 ^ 6).
  { intros n d Hd Hn. unfold round_half_even.
    assert (10 ^ 5 <= n / d < 10 ^ 6) by (apply floor_bounds; lia).
    destruct (2 * (n mod d) ?= d); [destruct (Z.even (n / d))| |]; lia. }
  destruct (Z.ltb_spec X 0) as [HX|HX]; intros Hb.
  - destruct (Z.leb_spec X 5); [|lia]. apply Hrange; [lia|].
    replace (5 - X) with (- X + 5) by lia. rewrite Z.pow_add_r by lia. nia.
  - destruct (Z.leb_spec X 5).
    + apply Hrange; [lia|].
      assert (Hp : 0 < 10 ^ (5 - X)) by (apply Z.pow_pos_nonneg; lia).
      assert (E1 : 10 ^ X * 10 ^ (5 - X) = 10 ^ 5).
      { rewrite <- Z.pow_add_r by lia. f_equal. lia. }
      assert (E2 : 10 ^ (X + 1) * 10 ^ (5 - X) = 10 ^ 6).
      { rewrite <- Z.pow_add_r by lia. f_equal. lia. }
      split.
      * rewrite <- E1. nia.
      * rewrite <- E2. nia.
    + assert (Hp : 0 < 10 ^ (X - 5)) by (apply Z.pow_pos_nonneg; lia).
      apply Hrange; [nia|].
      assert (E1 : 10 ^ X = 10 ^ 5 * 10 ^ (X - 5)).
      { rewrite <- Z.pow_add_r by lia. f_equal. lia. }
      assert (E2 : 10 ^ (X + 1) = 10 ^ 6 * 10 ^ (X - 5)).
      { rewrite <- Z.pow_add_r by lia. f_equal. lia. }
      rewrite E1, E2 in Hb. nia.
Qed.

(** ** The double nearest to a decimal number *)

Lemma decimal_to_double_shift (neg : bool) (M E k : Z) :
  0 <= M -> 0 <= k ->
  decimal_to_double neg (M * 10 ^ k) (E - k) = decimal_to_double neg M E.
Proof.
  intros HM Hk. unfold decimal_to_double.
  assert (Hk10 : 0 < 10 ^ k) by (apply Z.pow_pos_nonneg; lia).
  destruct (Z.ltb_spec (E - k) 0), (Z.ltb_spec E 0); try lia.
  - replace (10 ^ (- (E - k))) with (10 ^ (- E) * 10 ^ k)
      by (rewrite <- Z.pow_add_r by lia; f_equal; lia).
    apply round_to_double_scale; try lia; apply Z.pow_pos_nonneg; lia.
  - assert (Hc : 0 < 10 ^ (k - E)) by (apply Z.pow_pos_nonneg; lia).
    assert (He : 0 < 10 ^ E) by (apply Z.pow_pos_nonneg; lia).
    rewrite <- (round_to_double_scale neg (M * 10 ^ E) 1 (10 ^ (k - E))) by nia.
    f_equal.
    + rewrite <- Z.mul_assoc, <- Z.pow_add_r by lia. do 2 f_equal. lia.
    + rewrite Z.mul_1_l. f_equal. lia.
  - f_equal. rewrite <- Z.mul_assoc, <- Z.pow_add_r by lia. do 2 f_equal. lia.
Qed.

(** ** [strtod] on the text of [%.6g] *)

Lemma strip_zeros_rev_spec (l : list ascii) :
  exists k, l = (repeat "0"%char k ++ strip_zeros_rev l)%list.
Proof.
  induction l as [|c l [k IH]]; [exists 0%nat; reflexivity|].
  cbn [strip_zeros_rev]. destruct (Ascii.eqb_spec c "0") as [->|Hc].
  - exists (S k). cbn [repeat app]. now rewrite <- IH.
  - exists 0%nat. reflexivity.
Qed.

Lemma string_of_list_ascii_app (a b : list ascii) :
  string_of_list_ascii (a ++ b) = string_of_list_ascii a ++ string_of_list_ascii b.
Proof.
  induction a as [|c a IH]; cbn [app string_of_list_ascii append]; [reflexivity|].
  now rewrite IH.
Qed.

Lemma string_of_zeros (k : nat) : string_of_list_ascii (repeat "0"%char k) = zeros_text k.
Proof. induction k as [|k IH]; cbn [repeat string_of_list_ascii zeros_text]; congruence. Qed.

Lemma rev_repeat {A : Type} (x : A) (k : nat) : rev (repeat x k) = repeat x k.
Proof.
  induction k as [|k IH]; [reflexivity|]. cbn [repeat rev]. rewrite IH.
  clear IH. induction k as [|k IH]; [reflexivity|]. cbn [repeat app]. now rewrite IH.
Qed.

Lemma strip_trailing_zeros_spec (s : string) :
  exists k, s = strip_trailing_zeros s ++ zeros_text k.
Proof.
  unfold strip_trailing_zeros.
  destruct (strip_zeros_rev_spec (rev (list_ascii_of_string s))) as [k Hk].
  exists k.
  assert (Hl : list_ascii_of_string s
               = (rev (strip_zeros_rev (rev (list_ascii_of_string s)))
                  ++ repeat "0"%char k)%list).
  { rewrite <- (rev_involutive (list_ascii_of_string s)) at 1.
    rewrite Hk at 1. now rewrite rev_app_distr, rev_repeat. }
  rewrite <- (string_of_list_ascii_of_string s) at 1.
  rewrite Hl at 1.
  now rewrite string_of_list_ascii_app, string_of_zeros.
Qed.

Lemma span_digits_append (ds s : string) :
  all_digits ds ->
  (forall c r, s = String c r -> is_digit c = false) ->
  span_digits (ds ++ s) = (ds, s).
Proof.
  intros Hds Hs. induction ds as [|c ds IH].
  - cbn [append]. destruct s as [|c r]; [reflexivity|].
    cbn [span_digits]. now rewrite (Hs c r eq_refl).
  - cbn [all_digits] in Hds. destruct Hds as [Hc Hds].
    cbn [append span_digits]. now rewrite Hc, IH.
Qed.

Lemma print_exponent_parts (X : Z) :
  exists n,
    print_exponent X = String (if X <? 0 then "-"%char else "+"%char) n
    /\ all_digits n /\ n <> "" /\ digits_value n 0 = Z.abs X.
Proof.
  unfold print_exponent.
  destruct (print_uint_spec (Z.abs X) ltac:(lia)) as (d & ds & Heq & Hall & _ & _ & Hval).
  exists ((if Z.abs X <? 10 then "0" else "") ++ print_uint (Z.abs X)).
  split; [destruct (X <? 0); reflexivity|]. rewrite Heq.
  split; [|split].
  - apply all_digits_append; [|exact Hall].
    destruct (Z.abs X <? 10); cbn [all_digits]; auto.
  - destruct (Z.abs X <? 10); discriminate.
  - rewrite digits_value_append.
    destruct (Z.abs X <? 10); cbn [digits_value]; exact Hval.
Qed.

Lemma strtod_parts (neg : bool) (c : ascii) (i f ex : string) (e10 : Z) :
  all_digits (String c i) -> all_digits f ->
  (ex = "" /\ e10 = 0) \/ (ex = "e" ++ print_exponent e10) ->
  strtod ((if neg then "-" else "")
          ++ String c i ++ match f with "" => "" | _ => "." ++ f end ++ ex)
  = Some (decimal_to_double neg (digits_value (String c i ++ f) 0)
            (e10 - Z.of_nat (String.length f))).
Proof.
  intros HI Hf Hex.
  pose proof HI as HI'. cbn [all_digits] in HI'. destruct HI' as [Hc Hi].
  destruct (is_digit_not_sign c Hc) as (Hp & Hm & _).
  set (tail := match f with "" => "" | _ => "." ++ f end ++ ex).
  assert (Hex_head : forall c' r, ex = String c' r -> is_digit c' = false).
  { intros c' r Heq. destruct Hex as [[-> _]| ->]; [discriminate|].
    cbn [append] in Heq. injection Heq as <- _. reflexivity. }
  assert (Htail_head : forall c' r, tail = String c' r -> is_digit c' = false).
  { intros c' r. unfold tail. destruct f as [|cf rf]; cbn [append].
    - apply Hex_head.
    - intros Heq. injection Heq as <- _. reflexivity. }
  assert (Hfrac :
            match tail with
            | String c' r => if Ascii.eqb c' "." then span_digits r else ("", tail)
            | "" => ("", "")
            end = (f, ex)).
  { unfold tail. destruct f as [|cf rf]; cbn [append].
    - destruct Hex as [[-> _]| ->]; reflexivity.
    - cbn [Ascii.eqb Bool.eqb].
      change (String cf (rf ++ ex)) with (String cf rf ++ ex).
      now apply span_digits_append. }
  assert (Hbody :
            forall neg' : bool,
              (let (int_part, s2) := span_digits (String c i ++ tail) in
               let (frac, s3) :=
                 match s2 with
                 | String c' r => if Ascii.eqb c' "." then span_digits r else ("", s2)
                 | "" => ("", "")
                 end in
               if (String.length int_part + String.length frac =? 0)%nat then None
               else
                 let exponent : option Z :=
                   match s3 with
                   | "" => Some 0
                   | String c' r =>
                       if Ascii.eqb c' "e" then
                         let '(eneg, s4) :=
                           match r with
                           | String c2 r2 =>
                               if Ascii.eqb c2 "-" then (true, r2)
                               else if Ascii.eqb c2 "+" then (false, r2) else (false, r)
                           | "" => (false, "")
                           end in
                         match span_digits s4 with
                         | (String d ds, "") =>
                             let e := digits_value (String d ds) 0 in
                             Some (if eneg then - e else e)
                         | _ => None
                         end
                       else None
                   end in
                 match exponent with
                 | None => None
                 | Some e10 =>
                     let M := digits_value (int_part ++ frac) 0 in
                     let E := e10 - Z.of_nat (String.length frac) in
                     Some (if E <? 0 then round_to_double neg' M (10 ^ (- E))
                           else round_to_double neg' (M * 10 ^ E) 1)
                 end)
              = Some (decimal_to_double neg' (digits_value (String c i ++ f) 0)
                        (e10 - Z.of_nat (String.length f)))).
  { intros neg'. rewrite (span_digits_append (String c i) tail HI Htail_head).
    rewrite Hfrac. cbn [String.length Nat.add Nat.eqb].
    destruct Hex as [[-> ->]| ->]; [reflexivity|].
    destruct (print_exponent_parts e10) as (n & -> & Hn & Hne & Hval).
    cbn [append Ascii.eqb Bool.eqb].
    destruct (Z.ltb_spec e10 0); cbn [Ascii.eqb Bool.eqb];
      rewrite (span_digits_all n Hn); destruct n as [|d ds]; try contradiction;
      cbv zeta; rewrite Hval.
    - replace (- Z.abs e10) with e10 by lia. reflexivity.
    - replace (Z.abs e10) with e10 by lia. reflexivity. }
  unfold strtod. fold tail. destruct neg.
  - cbn [append Ascii.eqb Bool.eqb].
    change (String c (i ++ tail)) with (String c i ++ tail).
    apply Hbody.
  - cbn [append]. rewrite Hm, Hp.
    change (String c (i ++ tail)) with (String c i ++ tail).
    apply Hbody.
Qed.


Lemma with_fraction_text (int_part frac : string) :
  with_fraction int_part frac
  = int_part ++ match strip_trailing_zeros frac with
                | "" => ""
                | _ => "." ++ strip_trailing_zeros frac
                end.
Proof.
  unfold with_fraction. destruct (strip_trailing_zeros frac); [|reflexivity].
  now rewrite append_nil_r.
Qed.

Lemma strtod_with_fraction (neg : bool) (c : ascii) (i frac ex : string) (e10 : Z) :
  all_digits (String c i) -> all_digits frac ->
  (ex = "" /\ e10 = 0) \/ (ex = "e" ++ print_exponent e10) ->
  strtod ((if neg then "-" else "") ++ with_fraction (String c i) frac ++ ex)
  = Some (decimal_to_double neg (digits_value (String c i ++ frac) 0)
            (e10 - Z.of_nat (String.length frac))).
Proof.
  intros HI Hfrac Hex.
  rewrite with_fraction_text.
  destruct (strip_trailing_zeros_spec frac) as [k Hk].
  pose proof (all_digits_strip frac Hfrac) as Hf.
  remember (strip_trailing_zeros frac) as f eqn:Heqf. clear Heqf Hfrac.
  rewrite append_assoc.
  rewrite (strtod_parts neg c i f ex e10 HI Hf Hex).
  f_equal. subst frac.
  rewrite <- (append_assoc (String c i) f (zeros_text k)).
  rewrite (digits_value_append (String c i ++ f) (zeros_text k)), digits_value_zeros.
  rewrite length_append, length_zeros_text, Nat2Z.inj_add.
  rewrite <- (decimal_to_double_shift neg (digits_value (String c i ++ f) 0)
                (e10 - Z.of_nat (String.length f)) (Z.of_nat k)).
  - f_equal. lia.
  - apply digits_value_lt. now apply all_digits_append.
  - lia.
Qed.

Lemma substring_split (s : string) :
  forall n : nat,
    (n <= String.length s)%nat ->
    substring 0 n s ++ substring n (String.length s - n) s = s.
Proof.
  induction s as [|c s IH]; intros n Hn.
  - destruct n; [reflexivity | cbn [String.length] in Hn; lia].
  - destruct n as [|n].
    + cbn [substring append String.length Nat.sub]. now rewrite substring_all.
    + cbn [String.length] in Hn. cbn [substring append String.length Nat.sub].
      rewrite IH by lia. reflexivity.
Qed.

Lemma length_substring (s : string) :
  forall n m : nat,
    (n + m <= String.length s)%nat -> String.length (substring n m s) = m.
Proof.
  induction s as [|c s IH]; intros n m H; cbn [String.length] in H.
  - assert (n = 0%nat) by lia. assert (m = 0%nat) by lia. subst. reflexivity.
  - destruct n as [|n]; cbn [substring].
    + destruct m as [|m]; [reflexivity|]. cbn [String.length].
      rewrite IH by lia. reflexivity.
    + apply IH. lia.
Qed.

(** The text laid out from six digits and the exponent [X] is read by
    [strtod] as the [double] nearest to [scaled * 10^(X - 5)]. *)
Lemma strtod_layout (neg : bool) (scaled X : Z) :
  10 ^ 5 <= scaled < 10 ^ 6 ->
  strtod
    ((if neg then "-" else "")
     ++ (let digits := print_uint scaled in
         if (X <? -4) || (6 <=? X) then
           match digits with
           | String d frac => with_fraction (String d "") frac ++ "e" ++ print_exponent X
           | "" => ""
           end
         else if X <? 0 then
           with_fraction "0" (zeros_text (Z.to_nat (- X - 1)) ++ digits)
         else
           with_fraction (substring 0 (Z.to_nat (X + 1)) digits)
                         (substring (Z.to_nat (X + 1)) (6 - Z.to_nat (X + 1)) digits)))
  = Some (decimal_to_double neg scaled (X - 5)).
Proof.
  intros Hs. cbv zeta.
  destruct (print_uint_spec scaled ltac:(lia)) as (d & ds & Heq & Hall & _ & _ & Hval).
  pose proof (print_uint_length scaled 5 ltac:(lia) Hs) as Hlen.
  rewrite Heq in *. cbn [String.length] in Hlen.
  pose proof Hall as Hall'. cbn [all_digits] in Hall'. destruct Hall' as [Hd Hds].
  destruct ((X <? -4) || (6 <=? X)) eqn:Hbig.
  - rewrite (strtod_with_fraction neg d "" ds ("e" ++ print_exponent X) X);
      [ | cbn [all_digits]; auto | exact Hds | now right ].
    cbn [append]. rewrite Hval. do 2 f_equal. lia.
  - apply orb_false_iff in Hbig as [H1 H2].
    apply Z.ltb_ge in H1. apply Z.leb_gt in H2.
    destruct (Z.ltb_spec X 0) as [HX|HX].
    + rewrite <- (append_nil_r (with_fraction _ _)).
      rewrite (strtod_with_fraction neg "0" "" _ "" 0);
        [ | cbn [all_digits]; auto
          | apply all_digits_append; [apply all_digits_zeros | exact Hall]
          | now left ].
      f_equal. f_equal.
      * cbn [append digits_value].
        rewrite digits_value_append, digits_value_zeros. exact Hval.
      * rewrite length_append, length_zeros_text. cbn [String.length]. lia.
    + rewrite <- (append_nil_r (with_fraction _ _)).
      destruct (Z.to_nat (X + 1)) as [|n] eqn:Hn; [lia|].
      pose proof (substring_split (String d ds) (S n)) as Hsplit.
      cbn [String.length] in Hsplit. specialize (Hsplit ltac:(lia)).
      replace (S (String.length ds) - S n)%nat with (6 - S n)%nat in Hsplit by lia.
      cbn [substring] in Hsplit |- *.
      rewrite (strtod_with_fraction neg d (substring 0 n ds) _ "" 0);
        [ | cbn [all_digits]; split; [exact Hd | now apply all_digits_substring]
          | now apply all_digits_substring
          | now left ].
      cbn [append] in Hsplit. cbn [append]. rewrite Hsplit, Hval.
      rewrite length_substring by lia. do 2 f_equal. lia.
Qed.

(** The text of [%.6g] is read by [strtod] as the [double] nearest to the
    number rounded to six significant digits. *)
Lemma strtod_format_g (neg : bool) (num den X : Z) :
  0 < num -> 0 < den -> decimal_exponent_is num den X ->
  strtod ((if neg then "-" else "") ++ format_g num den)
  = Some (decimal_to_double neg (six_digits num den X) (X - 5)).
Proof.
  intros Hnum Hden HX.
  pose proof (six_digits_range num den X Hnum Hden HX) as Hr.
  unfold format_g. rewrite (floor_log10_exponent num den X Hnum Hden HX).
  cbv zeta. fold (six_digits num den X).
  destruct (Z.eqb_spec (six_digits num den X) (10 ^ 6)) as [Hcarry|Hcarry];
    cbv iota.
  - assert (Hb : 10 ^ 5 <= 10 ^ 5 < 10 ^ 6) by lia.
    pose proof (strtod_layout neg (10 ^ 5) (X + 1) Hb) as H.
    cbv zeta in H. rewrite H.
    rewrite Hcarry. f_equal.
    rewrite <- (decimal_to_double_shift neg (10 ^ 5) (X + 1 - 5) 1) by lia.
    f_equal. lia.
  - assert (Hb : 10 ^ 5 <= six_digits num den X < 10 ^ 6) by lia.
    pose proof (strtod_layout neg (six_digits num den X) X Hb) as H.
    cbv zeta in H. exact H.
Qed.

Lemma decode_double_sign (d : Z) (neg : bool) (m e : Z) :
  decode_double d = FFinite neg m e -> neg = (2 ^ 63 <=? d).
Proof.
  unfold decode_double. cbv zeta.
  assert (Hsign : forall s s' a b a' b',
             FFinite s a b = FFinite s' a' b' -> s' = s).
  { intros s s' a b a' b' H.
    exact (f_equal (fun x => match x with FFinite n _ _ => n | _ => s' end) (eq_sym H)). }
  destruct ((d / 2 ^ 52) mod 2 ^ 11 =? 2047).
  - destruct (d mod 2 ^ 52 =? 0); intros H; discriminate H.
  - destruct ((d / 2 ^ 52) mod 2 ^ 11 =? 0).
    + destruct (d mod 2 ^ 52 =? 0); intros H; [discriminate H|].
      exact (Hsign _ _ _ _ _ _ H).
    + intros H. exact (Hsign _ _ _ _ _ _ H).
Qed.

Lemma double_fraction_positive (m e : Z) :
  0 < m -> 0 < double_num m e /\ 0 < double_den e.
Proof.
  intros Hm. unfold double_num, double_den. destruct (Z.ltb_spec e 0).
  - split; [exact Hm | apply Z.pow_pos_nonneg; lia].
  - assert (0 < 2 ^ e) by (apply Z.pow_pos_nonneg; lia). split; [nia | lia].
Qed.

Lemma print_double_finite (d : Z) (neg : bool) (m e : Z) :
  decode_double d = FFinite neg m e ->
  print_double d
  = (if neg then "-" else "") ++ format_g (double_num m e) (double_den e).
Proof.
  intros Hdec. unfold print_double. rewrite Hdec.
  rewrite <- (decode_double_sign d neg m e Hdec).
  unfold double_num, double_den. destruct (e <? 0); reflexivity.
Qed.

Lemma strtod_print_double (d : Z) (neg : bool) (m e X : Z) :
  0 <= d < 2 ^ 64 -> decode_double d = FFinite neg m e ->
  decimal_exponent_is (double_num m e) (double_den e) X ->
  strtod (print_double d)
  = Some (decimal_to_double neg (six_digits (double_num m e) (double_den e) X) (X - 5)).
Proof.
  intros Hd Hdec HX.
  pose proof (decode_canonical d Hd) as Hc. rewrite Hdec in Hc. cbn [canonical] in Hc.
  destruct (double_fraction_positive m e ltac:(lia)) as [Hn Hden].
  rewrite (print_double_finite d neg m e Hdec).
  now apply strtod_format_g.
Qed.

(** ** Floats as number tokens *)

Lemma decimal_text_head (t : string) :
  decimal_text t -> exists c r, t = String c r /\ is_digit c = true.
Proof. intros (c & i & f & e & -> & Hc & _). cbn [append]. eauto. Qed.

Lemma number_token_double (d : Z) :
  decimal_exact d -> number_token (print_double d) (decode_double d).
Proof.
  intros (Hd & neg & m & e & Hdec & (X & HX & Hnear) & _).
  assert (Hstrtod : strtod (print_double d) = Some (decode_double d)).
  { rewrite (strtod_print_double d neg m e X Hd Hdec HX). now rewrite Hnear, Hdec. }
  destruct (print_double_shape d neg m e Hd Hdec) as (sign & t & Heq & Hsign & Ht).
  split; [|split; [|split]].
  - rewrite Heq. destruct (decimal_text_head t Ht) as (c & r & -> & Hc).
    destruct Hsign as [-> | ->]; cbn [append]; eauto.
  - intros rest Hrest. rewrite Heq, append_assoc.
    now apply scan_float_decimal.
  - exact Hstrtod.
  - intros neg'. rewrite Hdec. discriminate.
Qed.

Lemma denotes_Float (d : Z) : decimal_exact d -> denotes (print_double d) (VFloat d).
Proof.
  intros Hex. pose proof (number_token_double d Hex) as Htok.
  destruct Hex as (Hd & neg & m & e & Hdec & _ & Hint).
  replace (VFloat d) with (number_value (encode_double (decode_double d))).
  - now apply denotes_Number.
  - rewrite (encode_decode d Hd) by (rewrite Hdec; discriminate).
    apply number_value_float; [exact Hd|]. now rewrite Hdec.
Qed.

Lemma denotes_printed_exact (v : ConValue) : text_exact v -> denotes (print_ConValue v) v.
Proof.
  induction v as [| b | z | bits | s | vs IH | kvs IH | t] using ConValue_deep_ind;
    cbn [text_exact]; intros H; try contradiction.
  - destruct b; constructor.
  - destruct H. now apply denotes_Integer.
  - now apply denotes_Float.
  - now apply denotes_String.
  - assert (Hall : Forall (fun x => denotes (print_ConValue x) x) vs).
    { clear - IH H. induction IH as [|x l Hx _ IHl]; constructor.
      - apply Hx, H.
      - apply IHl, H. }
    destruct vs as [|v vs]; [apply (denotes_empty_Array ""); exact I|].
    cbn [print_ConValue].
    apply denotes_Array.
    replace (join_comma (map print_ConValue (v :: vs)))
      with ("" ++ join_comma (map print_ConValue (v :: vs))) by reflexivity.
    apply elements_printed; [exact Hall|exact I].
  - destruct H as [Hs H].
    assert (Hall : Forall (fun e => quote_free (fst e)
                                    /\ denotes (print_ConValue (snd e)) (snd e)) kvs).
    { clear - IH H. induction IH as [|x l Hx _ IHl]; constructor.
      - split; [apply H|]. apply Hx, H.
      - apply IHl, H. }
    destruct kvs as [|kv kvs]; [apply (denotes_empty_Object ""); exact I|].
    cbn [print_ConValue].
    rewrite <- (map_of_assignments_id (kv :: kvs) Hs) at 2.
    apply denotes_Object.
    replace (join_comma (map (print_entry print_ConValue) (kv :: kvs)))
      with ("" ++ join_comma (map (print_entry print_ConValue) (kv :: kvs)))
      by reflexivity.
    apply entries_printed; [exact Hall|exact I].
Qed.

Lemma text_stable_exact (v : ConValue) : text_stable v -> text_exact v.
Proof.
  induction v as [| b | z | bits | s | vs IH | kvs IH | t] using ConValue_deep_ind;
    cbn [text_stable text_exact]; intros H; try contradiction; try exact H.
  - induction IH as [|x l Hx _ IHl]; [exact I|].
    destruct H as [H1 H2]. split; [apply Hx, H1 | apply IHl, H2].
  - destruct H as [Hs H]. split; [exact Hs|]. clear Hs.
    induction IH as [|x l Hx _ IHl]; [exact I|].
    destruct H as [[Hk Hv] H]. split; [split; [exact Hk | apply Hx, Hv] | apply IHl, H].
Qed.

Lemma parse_printed_exact (v : ConValue) :
  text_exact v ->
  eventually
    (fun fuel => parse_ConValue fuel (istream_of (print_ConValue v)))
    (Returns v (after_parsed v "")).
Proof.
  intros H.
  pose proof (parse_document (print_ConValue v) v "" "" (denotes_printed_exact v H) I I)
    as Hp.
  cbn [append] in Hp. now rewrite append_nil_r in Hp.
Qed.

Lemma parse_printed_Null :
  eventually
    (fun fuel => parse_ConValue fuel (istream_of (print_ConValue VNull)))
    (Returns VNull (istream_of "null")).
Proof.
  apply eventually_intro with (n := 1%nat). intros [|f] Hf; [lia|].
  cbn [print_ConValue]. now rewrite parse_ConValue_peek by reflexivity.
Qed.

(** ** Numbers that come back from their text *)

(** Every positive number has a decimal exponent. *)
Lemma decimal_exponent_exists (num den : Z) :
  0 < num -> 0 < den -> exists X, decimal_exponent_is num den X.
Proof.
  intros Hnum Hden. destruct (Z.le_gt_cases den num) as [Hge|Hlt].
  - assert (Hq : 0 < num / den) by (apply Z.div_str_pos; lia).
    destruct (decimal_exponent (num / den) Hq) as (X & HX & Hb).
    exists X. unfold decimal_exponent_is. destruct (Z.ltb_spec X 0); [lia|].
    apply floor_bounds_inv in Hb; [|exact Hden]. lia.
  - assert (Hq : 0 < (den - 1) / num) by (apply Z.div_str_pos; lia).
    destruct (decimal_exponent ((den - 1) / num) Hq) as (Y & HY & Hb).
    exists (- (Y + 1)). unfold decimal_exponent_is.
    destruct (Z.ltb_spec (- (Y + 1)) 0); [|lia].
    apply floor_bounds_inv in Hb; [|exact Hnum].
    replace (- - (Y + 1)) with (Y + 1) by lia.
    replace (Y + 1) with (Z.succ Y) in * by lia.
    rewrite Z.pow_succ_r in * by lia. lia.
Qed.

Lemma decimal_to_double_canonical (neg : bool) (M E : Z) :
  0 <= M -> canonical (decimal_to_double neg M E).
Proof.
  intros HM. unfold decimal_to_double. destruct (Z.ltb_spec E 0).
  - apply round_to_double_canonical; [exact HM|]. apply Z.pow_pos_nonneg; lia.
  - apply round_to_double_canonical; [|lia].
    assert (0 < 10 ^ E) by (apply Z.pow_pos_nonneg; lia). nia.
Qed.

Lemma number_value_Float (y d : Z) :
  number_value y = VFloat d -> y = d /\ number_value d = VFloat d.
Proof.
  intros H. assert (Hy : y = d).
  { unfold number_value in H. destruct (double_eqb _ _); [discriminate H|].
    now injection H. }
  subst y. auto.
Qed.

(** What the parser makes of the text printed for a finite Float. *)
Lemma parse_printed_double (d : Z) (neg : bool) (m e X : Z) (fuel : nat) :
  0 <= d < 2 ^ 64 -> decode_double d = FFinite neg m e ->
  decimal_exponent_is (double_num m e) (double_den e) X ->
  exists ist,
    parse_ConValue (S fuel) (istream_of (print_double d))
    = match decimal_to_double neg
              (six_digits (double_num m e) (double_den e) X) (X - 5) with
      | FInf neg' => Returns (number_value (sign_bit neg' + DBL_MAX)) ist
      | x => Returns (number_value (encode_double x)) ist
      end.
Proof.
  intros Hd Hdec HX.
  pose proof (strtod_print_double d neg m e X Hd Hdec HX) as Hstrtod.
  destruct (print_double_shape d neg m e Hd Hdec) as (sign & t & Heq & Hsign & Ht).
  pose proof (scan_float_decimal sign t "" Hsign Ht I) as Hscan.
  rewrite append_nil_r, <- Heq in Hscan.
  assert (Hhead : exists c r, print_double d = String c r
                              /\ (c = "-"%char \/ is_digit c = true)).
  { rewrite Heq. destruct (decimal_text_head t Ht) as (c & r & -> & Hc).
    destruct Hsign as [-> | ->]; cbn [append]; eauto. }
  destruct Hhead as (c & r & Hcr & Hc).
  destruct (is_digit_not_space c Hc) as [Hsp Hjs].
  destruct (number_head_dispatch c Hc) as (Hn & Htf & Hq & Ha & Ho & _).
  rewrite Hcr in *. rewrite parse_ConValue_peek by exact Hjs.
  cbv zeta. rewrite Hn, Htf, Hq, Ha, Ho.
  rewrite istream_extract_double_head by exact Hsp.
  rewrite Hscan. cbv zeta. rewrite Hstrtod.
  destruct (decimal_to_double neg _ _); eexists; reflexivity.
Qed.

(** A Float that comes back from its text is one six digits stand for. *)
Lemma read_back_Float_exact (d : Z) (ist : istream) :
  0 <= d < 2 ^ 64 ->
  eventually
    (fun fuel => parse_ConValue fuel (istream_of (print_ConValue (VFloat d))))
    (Returns (VFloat d) ist) ->
  decimal_exact d.
Proof.
  intros Hd [n Hn]. specialize (Hn (S n) ltac:(lia)). cbn [print_ConValue] in Hn.
  destruct (decode_double d) as [neg | neg | | neg m e] eqn:Hdec.
  - exfalso. unfold print_double in Hn. rewrite Hdec in Hn.
    destruct (2 ^ 63 <=? d); cbn [append] in Hn;
      rewrite parse_ConValue_number_branch in Hn
        by first [reflexivity | repeat split; reflexivity];
      vm_compute in Hn; discriminate Hn.
  - exfalso. rewrite (print_double_Inf d neg Hdec), parse_inf in Hn. discriminate Hn.
  - exfalso. rewrite (print_double_NaN d Hdec) in Hn.
    destruct (2 ^ 63 <=? d).
    + rewrite parse_minus_nan in Hn. discriminate Hn.
    + rewrite parse_nan in Hn. discriminate Hn.
  - pose proof (decode_canonical d Hd) as Hc. rewrite Hdec in Hc. cbn [canonical] in Hc.
    destruct (double_fraction_positive m e ltac:(lia)) as [Hnum Hden].
    destruct (decimal_exponent_exists _ _ Hnum Hden) as [X HX].
    destruct (parse_printed_double d neg m e X n Hd Hdec HX) as [ist' Hp].
    rewrite Hp in Hn. clear Hp.
    pose proof (strtod_print_double d neg m e X Hd Hdec HX) as Hstrtod.
    pose proof (six_digits_range _ _ X Hnum Hden HX) as Hsix.
    pose proof (decimal_to_double_canonical neg
                  (six_digits (double_num m e) (double_den e) X) (X - 5) ltac:(lia))
      as Hcan.
    assert (Hval : forall x,
               decimal_to_double neg
                 (six_digits (double_num m e) (double_den e) X) (X - 5) = x ->
               Returns (number_value (encode_double x)) ist' = Returns (VFloat d) ist ->
               decimal_exact d).
    { intros x Hx Hret.
      assert (Hnv : number_value (encode_double x) = VFloat d) by congruence.
      apply number_value_Float in Hnv as [Henc Hnv].
      assert (Hxd : x = FFinite neg m e).
      { rewrite <- Hdec, <- Henc. symmetry. apply decode_encode. now rewrite <- Hx. }
      split; [exact Hd|]. exists neg, m, e. split; [exact Hdec|]. split.
      - exists X. split; [exact HX | congruence].
      - intros z Hz Hi. rewrite <- Hdec in Hi.
        rewrite (number_value_integer d z Hd Hz Hi) in Hnv. discriminate Hnv. }
    destruct (decimal_to_double neg _ _) as [neg' | neg' | | neg' m' e'] eqn:Hx.
    + now apply (Hval (FZero neg')).
    + exfalso.
      assert (Hnv : number_value (sign_bit neg' + DBL_MAX) = VFloat d) by congruence.
      rewrite number_value_DBL_MAX in Hnv.
      assert (Heq : d = sign_bit neg' + DBL_MAX) by congruence.
      rewrite Heq in Hstrtod.
      destruct neg'; vm_compute in Hstrtod; discriminate Hstrtod.
    + now apply (Hval FNaN).
    + now apply (Hval (FFinite neg' m' e')).
Qed.

(** ** Integers that come back from their text *)

(** [(int64_t)d] is exact as a [double], whatever [d] is. *)
Lemma int64_of_double_exact (d : Z) :
  0 <= d < 2 ^ 64 -> exact_in_double (int64_of_double d).
Proof.
  intros Hd. pose proof (decode_canonical d Hd) as Hc.
  assert (Hmin : exact_in_double (- 2 ^ 63)) by (right; vm_compute; reflexivity).
  assert (Hzero : exact_in_double 0) by (left; vm_compute; discriminate).
  destruct (decode_double d) as [neg | neg | | neg m e] eqn:Hx.
  - unfold int64_of_double. now rewrite Hx.
  - unfold int64_of_double. now rewrite Hx.
  - unfold int64_of_double. now rewrite Hx.
  - rewrite (int64_of_double_finite d neg m e Hx). cbv zeta. cbn [canonical] in Hc.
    match goal with |- exact_in_double (if ?b then _ else _) => destruct b end;
      [|exact Hmin].
    destruct (Z.ltb_spec e 0) as [He|He].
    + assert (Hp : 0 < 2 ^ (- e)) by (apply Z.pow_pos_nonneg; lia).
      assert (Ht : 0 <= m / 2 ^ (- e) < 2 ^ 53).
      { split; [apply Z.div_pos; lia|].
        apply Z.div_lt_upper_bound; [lia|]. nia. }
      set (t := m / 2 ^ (- e)) in *.
      assert (Habs : Z.abs (if neg then - t else t) = t) by (destruct neg; lia).
      unfold exact_in_double. rewrite Habs. left.
      destruct (Z.eq_dec t 0) as [->|Ht0]; [vm_compute; discriminate|].
      assert (Z.log2 t < 53) by (apply Z.log2_lt_pow2; lia). lia.
    + assert (Hm : 2 ^ 52 <= m < 2 ^ 53) by (destruct Hc as [[_ He']|[Hm _]]; lia).
      destruct (int_mantissa_large m e He Hm) as (_ & _ & Hex).
      assert (Hp : 0 < 2 ^ e) by (apply Z.pow_pos_nonneg; lia).
      unfold exact_in_double in *.
      assert (Habs : Z.abs (if neg then - (m * 2 ^ e) else m * 2 ^ e) = Z.abs (m * 2 ^ e))
        by (destruct neg; lia).
      now rewrite Habs.
Qed.

Lemma int64_of_double_range (d : Z) : - 2 ^ 63 <= int64_of_double d < 2 ^ 63.
Proof.
  unfold int64_of_double. destruct (decode_double d) as [neg | neg | | neg m e]; try lia.
  cbv zeta.
  match goal with
  | |- _ <= (if (?a <=? ?z) && (?z <? ?b) then _ else _) < _ =>
      destruct (Z.leb_spec a z), (Z.ltb_spec z b); cbn [andb]; lia
  end.
Qed.

(** An Integer a number token is read as is an [int64_t] that is exact as a
    [double]. *)
Lemma number_value_Integer_exact (y z : Z) :
  0 <= y < 2 ^ 64 -> number_value y = VInteger z ->
  - 2 ^ 63 <= z < 2 ^ 63 /\ exact_in_double z.
Proof.
  intros Hy H. unfold number_value in H.
  destruct (double_eqb _ _); [|discriminate H].
  injection H as <-. split; [apply int64_of_double_range | now apply int64_of_double_exact].
Qed.

(** An Integer that comes back from its text is an [int64_t] that is exact
    as a [double]. *)
Lemma read_back_Integer_exact (z : Z) (ist : istream) :
  eventually
    (fun fuel => parse_ConValue fuel (istream_of (print_ConValue (VInteger z))))
    (Returns (VInteger z) ist) ->
  - 2 ^ 63 <= z < 2 ^ 63 /\ exact_in_double z.
Proof.
  intros [n Hn]. specialize (Hn (S n) ltac:(lia)). cbn [print_ConValue] in Hn.
  pose proof (scan_float_int64_ends z "" I) as Hscan. rewrite append_nil_r in Hscan.
  pose proof (strtod_int64 z) as Hstrtod.
  pose proof (round_to_double_canonical (z <? 0) (Z.abs z) 1 ltac:(lia) ltac:(lia)) as Hcan.
  destruct (print_int64_head z) as (c & r & Heq & Hc).
  destruct (is_digit_not_space c Hc) as [Hsp Hjs].
  destruct (number_head_dispatch c Hc) as (Hnull & Htf & Hq & Ha & Ho & _).
  rewrite Heq in *. rewrite parse_ConValue_peek in Hn by exact Hjs.
  cbv zeta in Hn. rewrite Hnull, Htf, Hq, Ha, Ho in Hn.
  rewrite istream_extract_double_head in Hn by exact Hsp.
  rewrite Hscan in Hn. cbv zeta in Hn. rewrite Hstrtod in Hn.
  assert (Hval : forall x ist',
             canonical x ->
             Returns (number_value (encode_double x)) ist' = Returns (VInteger z) ist ->
             - 2 ^ 63 <= z < 2 ^ 63 /\ exact_in_double z).
  { intros x ist' Hx Hret.
    assert (Hnv : number_value (encode_double x) = VInteger z) by congruence.
    apply (number_value_Integer_exact (encode_double x)); [|exact Hnv].
    now apply encode_double_range. }
  destruct (round_to_double (z <? 0) (Z.abs z) 1) as [neg' | neg' | | neg' m' e'].
  - exact (Hval (FZero neg') _ Hcan Hn).
  - exfalso.
    assert (Hnv : number_value (sign_bit neg' + DBL_MAX) = VInteger z) by congruence.
    rewrite number_value_DBL_MAX in Hnv. discriminate Hnv.
  - exact (Hval FNaN _ Hcan Hn).
  - exact (Hval (FFinite neg' m' e') _ Hcan Hn).
Qed.

(** [decimal_exact d] for a literal [d] with the decimal exponent [X], by
    computation. *)
Ltac decimal_exact_of d X :=
  split; [vm_compute; split; [discriminate | reflexivity]|];
  eexists _, _, _; split; [vm_compute; reflexivity|];
  split;
  [ exists X; split;
    [vm_compute; split; [discriminate | reflexivity] | vm_compute; reflexivity]
  | let z := fresh "z" in
    let Hz := fresh "Hz" in
    let Hi := fresh "Hi" in
    intros z Hz Hi; cbn [fp_is_integer Z.ltb Z.compare Z.opp] in Hi; lia ].

(** * The claims *)

(** C1 (binary round trip).  For every value the C++ objects can hold, with
    every object a map (keys in increasing order), and a compression pair
    that undoes itself: decoding the bytes [ConValue::write] puts out at
    level 0 returns the value, and the stream is read to its end. *)
Theorem binary_round_trip (zcompress zdecompress : string -> string) (v : ConValue) :
  (forall s, zdecompress (zcompress s) = s) ->
  well_formed v ->
  representable zcompress v 0 ->
  eventually
    (fun fuel =>
       ConValue_read zdecompress fuel (istream_of (ConValue_write zcompress v 0)))
    (Returns v (istream_of "")).
Proof.
  intros Hz Hwf Hrep.
  pose proof (reads_back_all zcompress zdecompress Hz v 0 Hwf Hrep "") as H.
  now rewrite append_nil_r in H.
Qed.

Lemma binary_round_trip_witness :
  eventually
    (fun fuel =>
       ConValue_read store_only fuel (istream_of (ConValue_write store_only sample_value 0)))
    (Returns sample_value (istream_of "")).
Proof.
  apply (binary_round_trip store_only store_only sample_value).
  - intros s. reflexivity.
  - cbn [well_formed sample_value snd].
    repeat match goal with |- _ /\ _ => split end; try exact I.
    repeat constructor.
  - cbn [representable sample_value snd fst].
    unfold framed_fits.
    repeat match goal with |- _ /\ _ => split end;
      first [ exact I | vm_compute; reflexivity | vm_compute; discriminate
            | intros _; vm_compute; reflexivity ].
Defined.

(** C2 (compression eligibility).  A String, Array or Object node whose
    serialized body is larger than the threshold of 256 bytes, at a level
    between [COMPRESSION_LEVEL_MIN] and [COMPRESSION_LEVEL_MAX], is written
    compressed: the tag byte, the flag byte 1, the 8-byte size of the
    compressed body and the compressed body.  Any other node is written
    with the flag byte 0 and the body as it is, behind its 8-byte size for
    a String.  So the flag byte is 1 exactly in the first case and 0
    exactly in the second.  With the bounds both 0 a node at any other
    level, such as a string one level below the root, is written with flag
    0 whatever its size, and so is a body of 256 bytes or fewer.  The array
    at the root that holds one string of 10000 bytes is written compressed,
    and the body that is compressed there holds the count, then the string
    with its tag, flag 0, length and bytes. *)
Theorem compression_eligibility (zcompress : string -> string) (v : ConValue)
  (level : Z) (body : string) :
  node_body zcompress v level = Some body ->
  (256 < size body /\ COMPRESSION_LEVEL_MIN <= level <= COMPRESSION_LEVEL_MAX ->
   ConValue_write zcompress v level
   = String (byte_of (type_tag v))
       (String (byte_of 1) (u64 (size (zcompress body)) ++ zcompress body)))
  /\ (~ (256 < size body /\ COMPRESSION_LEVEL_MIN <= level <= COMPRESSION_LEVEL_MAX) ->
      ConValue_write zcompress v level
      = String (byte_of (type_tag v))
          (String (byte_of 0)
             (match v with VString _ => u64 (size body) ++ body | _ => body end)))
  /\ (stored_flag (ConValue_write zcompress v level) = Some 1
      <-> 256 < size body /\ COMPRESSION_LEVEL_MIN <= level <= COMPRESSION_LEVEL_MAX)
  /\ (stored_flag (ConValue_write zcompress v level) = Some 0
      <-> ~ (256 < size body /\ COMPRESSION_LEVEL_MIN <= level <= COMPRESSION_LEVEL_MAX))
  /\ (level <> 0 -> stored_flag (ConValue_write zcompress v level) = Some 0)
  /\ (size body <= 256 -> stored_flag (ConValue_write zcompress v level) = Some 0)
  /\ (forall str : string,
        stored_flag (ConValue_write zcompress (VString str) (next_level 0)) = Some 0)
  /\ (forall str : string,
        ConArray_write zcompress [VString str] 0
        = u64 1 ++ String (byte_of 4) (String (byte_of 0) (u64 (size str) ++ str)))
  /\ ConValue_write zcompress (VArray [VString long_string]) 0
     = String (byte_of 5)
         (String (byte_of 1)
            (u64 (size (zcompress nested_long_string_body))
             ++ zcompress nested_long_string_body)).
Proof.
  intros Hbody. rewrite (stored_flag_write zcompress v level body Hbody).
  rewrite (ConValue_write_node zcompress v level body Hbody).
  pose proof (ConArray_write_nested_string zcompress) as Hnested.
  pose proof (nested_long_string_written zcompress) as Hroot.
  assert (Hbelow : forall str : string,
             stored_flag (ConValue_write zcompress (VString str) (next_level 0)) = Some 0).
  { intros str.
    rewrite (stored_flag_write zcompress (VString str) (next_level 0) str eq_refl).
    now rewrite COMPRESS_COMPARE_below_root. }
  pose proof (COMPRESS_COMPARE_spec (size body) level) as Hcc.
  unfold COMPRESSION_THRESHOLD, COMPRESSION_LEVEL_MIN, COMPRESSION_LEVEL_MAX in *.
  destruct (COMPRESS_COMPARE (size body) level).
  - assert (Hin : 256 < size body /\ 0 <= level <= 0) by now apply Hcc.
    split; [reflexivity|]. split; [tauto|].
    split; [tauto|]. split; [split; [discriminate | tauto]|].
    split; [lia|]. split; [lia|]. auto.
  - assert (Hout : ~ (256 < size body /\ 0 <= level <= 0)).
    { intros Hin. apply Hcc in Hin. discriminate Hin. }
    split; [tauto|]. split; [reflexivity|].
    split; [split; [discriminate | tauto]|]. split; [tauto|].
    split; [reflexivity|]. split; [reflexivity|]. auto.
Qed.

(** The array at the root that holds a string of 10000 bytes, with a
    compression that stores its input: the root is written with flag 1,
    the size 10018 of its body and the body. *)
Lemma compression_eligibility_witness :
  ConValue_write store_only (VArray [VString long_string]) 0
  = String (byte_of 5)
      (String (byte_of 1)
         (u64 (size (store_only nested_long_string_body))
          ++ store_only nested_long_string_body))
  /\ stored_flag (ConValue_write store_only (VArray [VString long_string]) 0) = Some 1
  /\ size nested_long_string_body = 10018.
Proof.
  assert (Hbody : node_body store_only (VArray [VString long_string]) 0
                  = Some nested_long_string_body) by (vm_compute; reflexivity).
  assert (Hbig : 256 < size nested_long_string_body
                 /\ COMPRESSION_LEVEL_MIN <= 0 <= COMPRESSION_LEVEL_MAX).
  { split; [vm_compute; reflexivity|].
    unfold COMPRESSION_LEVEL_MIN, COMPRESSION_LEVEL_MAX. lia. }
  destruct (compression_eligibility store_only (VArray [VString long_string]) 0
              nested_long_string_body Hbody) as (Hc & _ & Hflag & _).
  split; [exact (Hc Hbig)|]. split; [apply Hflag; exact Hbig|].
  vm_compute. reflexivity.
Defined.

(** C3 (framing of uncompressed containers).  An Array or Object that is
    not compressed is written as its tag byte, the flag byte 0 and the body
    with no length in front; an uncompressed String has the 8-byte length
    between flag and bytes.  On decoding, flag 0 makes [ConValue::read]
    hand the live stream to [ConArray::read] or [ConObject::read], while
    for a String the length is read and then that many bytes.  The body
    ends itself: behind tag and flag 0 the decoder takes the count and the
    children of the array, or the entries of the object, off the stream,
    returns the value written and leaves whatever follows the body unread,
    with no length to tell it where the body ends: what stands behind the
    flag is the 8-byte count of the children and then the children, each
    key with its own 8-byte length in an object. *)
Theorem uncompressed_container_framing (zcompress zdecompress : string -> string) :
  (forall values level,
      COMPRESS_COMPARE (size (ConArray_write zcompress values level)) level = false ->
      ConValue_write zcompress (VArray values) level
      = String (byte_of 5) (String (byte_of 0) (ConArray_write zcompress values level)))
  /\ (forall values level,
        COMPRESS_COMPARE (size (ConObject_write zcompress values level)) level = false ->
        ConValue_write zcompress (VObject values) level
        = String (byte_of 6) (String (byte_of 0) (ConObject_write zcompress values level)))
  /\ (forall str level,
        COMPRESS_COMPARE (size str) level = false ->
        ConValue_write zcompress (VString str) level
        = String (byte_of 4) (String (byte_of 0) (u64 (size str) ++ str)))
  /\ (forall fuel rest,
        ConValue_read zdecompress (S fuel)
          (istream_of (String (byte_of 5) (String (byte_of 0) rest)))
        = match ConArray_read zdecompress fuel (istream_of rest) with
          | Returns arr ist => Returns (VArray arr) ist
          | Undefined => Undefined
          | OutOfFuel => OutOfFuel
          end)
  /\ (forall fuel rest,
        ConValue_read zdecompress (S fuel)
          (istream_of (String (byte_of 6) (String (byte_of 0) rest)))
        = match ConObject_read zdecompress fuel (istream_of rest) with
          | Returns obj ist => Returns (VObject obj) ist
          | Undefined => Undefined
          | OutOfFuel => OutOfFuel
          end)
  /\ (forall fuel str rest,
        size str < 2 ^ 64 ->
        ConValue_read zdecompress (S fuel)
          (istream_of (String (byte_of 4) (String (byte_of 0) (u64 (size str) ++ str ++ rest))))
        = Returns (VString str) (istream_of rest))
  /\ (forall (values : ConArray) (level : Z) (rest : string),
        (forall s, zdecompress (zcompress s) = s) ->
        well_formed (VArray values) ->
        representable zcompress (VArray values) level ->
        COMPRESS_COMPARE (size (ConArray_write zcompress values level)) level = false ->
        eventually
          (fun fuel =>
             ConValue_read zdecompress fuel
               (istream_of
                  (String (byte_of 5)
                     (String (byte_of 0) (ConArray_write zcompress values level ++ rest)))))
          (Returns (VArray values) (istream_of rest)))
  /\ (forall (values : ConObject) (level : Z) (rest : string),
        (forall s, zdecompress (zcompress s) = s) ->
        well_formed (VObject values) ->
        representable zcompress (VObject values) level ->
        COMPRESS_COMPARE (size (ConObject_write zcompress values level)) level = false ->
        eventually
          (fun fuel =>
             ConValue_read zdecompress fuel
               (istream_of
                  (String (byte_of 6)
                     (String (byte_of 0) (ConObject_write zcompress values level ++ rest)))))
          (Returns (VObject values) (istream_of rest)))
  /\ (forall (values : ConArray) (level : Z),
        ConArray_write zcompress values level
        = u64 (Z.of_nat (List.length values))
          ++ flatten (map (fun value => ConValue_write zcompress value (next_level level))
                        values))
  /\ (forall (values : ConObject) (level : Z),
        ConObject_write zcompress values level
        = u64 (Z.of_nat (List.length values))
          ++ flatten (map (fun kv =>
                             u64 (size (fst kv)) ++ fst kv
                             ++ ConValue_write zcompress (snd kv) (next_level level))
                        values)).
Proof.
  split; [|split; [|split; [|split; [|split; [|split; [|split; [|split; [|split]]]]]]]].
  - intros values level H. cbn [ConValue_write type_tag].
    change (ConArray_write_with (ConValue_write zcompress) values level)
      with (ConArray_write zcompress values level).
    now rewrite H.
  - intros values level H. cbn [ConValue_write type_tag].
    change (ConObject_write_with (ConValue_write zcompress) values level)
      with (ConObject_write zcompress values level).
    now rewrite H.
  - intros str level H. cbn [ConValue_write type_tag]. now rewrite H.
  - intros fuel rest. cbn [ConValue_read].
    rewrite istream_read_byte, decode_byte by lia. cbn [Z.eqb Pos.eqb].
    rewrite istream_read_byte, decode_byte by lia. cbn [Z.eqb]. reflexivity.
  - intros fuel rest. cbn [ConValue_read].
    rewrite istream_read_byte, decode_byte by lia. cbn [Z.eqb Pos.eqb].
    rewrite istream_read_byte, decode_byte by lia. cbn [Z.eqb]. reflexivity.
  - intros fuel str rest Hsize. pose proof (size_nonneg str). cbn [ConValue_read].
    rewrite istream_read_byte, decode_byte by lia. cbn [Z.eqb Pos.eqb].
    rewrite istream_read_byte, istream_read_u64, decode_u64 by lia.
    rewrite istream_read_exact by reflexivity.
    rewrite decode_byte by lia. reflexivity.
  - intros values level rest Hz. now apply plain_Array_read.
  - intros values level rest Hz. now apply plain_Object_read.
  - reflexivity.
  - reflexivity.
Qed.

(** An array at the root and an object one level below it, each with the
    bytes [tail] behind it: the decoder returns the value and leaves
    [tail]. *)
Lemma uncompressed_container_framing_witness :
  eventually
    (fun fuel =>
       ConValue_read store_only fuel
         (istream_of
            (String (byte_of 5)
               (String (byte_of 0)
                  (ConArray_write store_only [VBoolean true; VString "ab"] 0 ++ "tail")))))
    (Returns (VArray [VBoolean true; VString "ab"]) (istream_of "tail"))
  /\ eventually
       (fun fuel =>
          ConValue_read store_only fuel
            (istream_of
               (String (byte_of 6)
                  (String (byte_of 0)
                     (ConObject_write store_only [("k", VArray [VInteger 7])] 1 ++ "tail")))))
       (Returns (VObject [("k", VArray [VInteger 7])]) (istream_of "tail")).
Proof.
  pose proof (uncompressed_container_framing store_only store_only)
    as (_ & _ & _ & _ & _ & _ & HArray & HObject & _).
  split.
  - apply (HArray [VBoolean true; VString "ab"] 0 "tail").
    + intros s. reflexivity.
    + cbn [well_formed]. auto.
    + cbn [representable]. unfold framed_fits.
      repeat match goal with |- _ /\ _ => split end;
        first [ exact I | vm_compute; reflexivity | vm_compute; discriminate
              | intros _; vm_compute; reflexivity ].
    + vm_compute. reflexivity.
  - apply (HObject [("k", VArray [VInteger 7])] 1 "tail").
    + intros s. reflexivity.
    + cbn [well_formed snd].
      repeat match goal with |- _ /\ _ => split end; try exact I.
      repeat constructor.
    + cbn [representable snd fst]. unfold framed_fits.
      repeat match goal with |- _ /\ _ => split end;
        first [ exact I | vm_compute; reflexivity | vm_compute; discriminate
              | intros _; vm_compute; reflexivity ].
    + vm_compute. reflexivity.
Defined.

(** C6, as the code has it.  [ConValue::read] rejects nothing: a tag byte
    that is none of the seven tags is taken off the stream and comes back
    as the tag of a value without payload; what follows stays unread and
    no error state is raised. *)
Theorem unknown_tag_is_accepted (zdecompress : string -> string) (t : ascii)
  (rest : string) (fuel : nat) :
  7 <= Z_of_byte t ->
  ConValue_read zdecompress (S fuel) (istream_of (String t rest))
  = Returns (VInvalid t) (istream_of rest).
Proof.
  intros Ht. cbn [ConValue_read]. rewrite istream_read_byte.
  replace (decode_le (String t "")) with (Z_of_byte t) by (cbn [decode_le]; lia).
  repeat match goal with
         | |- context [Z_of_byte t =? ?k] =>
             destruct (Z.eqb_spec (Z_of_byte t) k); [lia|]
         end.
  reflexivity.
Qed.

Lemma unknown_tag_is_accepted_witness :
  ConValue_read store_only 1 (istream_of (String (byte_of 7) "rest"))
  = Returns (VInvalid (byte_of 7)) (istream_of "rest").
Proof.
  apply (unknown_tag_is_accepted store_only (byte_of 7) "rest" 0).
  vm_compute. discriminate.
Defined.

(** C6, the claim as stated fails: the stream that holds the single byte 7,
    no tag of the format, is decoded without any error; the decoder
    returns a value and the stream is still good. *)
Lemma unknown_tag_not_reported :
  ConValue_read store_only 1 (istream_of (String (byte_of 7) ""))
  = Returns (VInvalid (byte_of 7)) (istream_of "")
  /\ good (istream_of "") = true.
Proof. split; reflexivity. Qed.

(** C4, as the code has it.  The text printed for [v] is parsed back to a
    value equal to [v] when [v] is [null], or is built from Booleans,
    integers that are exact as [double], Floats that six digits stand for
    (finite, with no [int64_t] value, and the [double] nearest to their own
    value rounded to six significant decimal digits, as 42.5 and 0.1 are),
    strings and keys without a double quote, arrays and objects.  For the
    values other than [null] the stream is left as [after_parsed] tells.
    No number is left out that could be kept: an Integer or a Float that
    comes back from its text is one of these. *)
Theorem text_round_trip :
  (forall v : ConValue,
      v = VNull \/ text_exact v ->
      exists ist : istream,
        eventually
          (fun fuel => parse_ConValue fuel (istream_of (print_ConValue v)))
          (Returns v ist))
  /\ (forall v : ConValue,
        text_exact v ->
        eventually
          (fun fuel => parse_ConValue fuel (istream_of (print_ConValue v)))
          (Returns v (after_parsed v "")))
  /\ (forall (z : Z) (ist : istream),
        eventually
          (fun fuel => parse_ConValue fuel (istream_of (print_ConValue (VInteger z))))
          (Returns (VInteger z) ist) ->
        text_exact (VInteger z))
  /\ (forall (d : Z) (ist : istream),
        0 <= d < 2 ^ 64 ->
        eventually
          (fun fuel => parse_ConValue fuel (istream_of (print_ConValue (VFloat d))))
          (Returns (VFloat d) ist) ->
        text_exact (VFloat d)).
Proof.
  split; [|split; [|split]].
  - intros v [->|Hex].
    + eexists. apply parse_printed_Null.
    + eexists. now apply parse_printed_exact.
  - apply parse_printed_exact.
  - intros z ist H. cbn [text_exact]. now apply (read_back_Integer_exact z ist).
  - intros d ist Hd H. cbn [text_exact]. now apply (read_back_Float_exact d ist).
Qed.

(** A document with the Floats 42.5, 0.1 and 3.14159 in an array and the
    Floats -1.25e-07 and 1e+22 as entries of the object at the root. *)
Lemma text_round_trip_witness :
  eventually
    (fun fuel => parse_ConValue fuel (istream_of (print_ConValue sample_numbers)))
    (Returns sample_numbers (after_parsed sample_numbers "")).
Proof.
  assert (Hex : text_exact sample_numbers).
  { cbn [text_exact sample_numbers fst snd quote_free].
    repeat match goal with |- _ /\ _ => split end;
      first [ exact I | discriminate
            | solve [repeat constructor]
            | decimal_exact_of 0x4045400000000000 1
            | decimal_exact_of 0x3FB999999999999A (-1)
            | decimal_exact_of 0xBE80C6F7A0B5ED8D (-7)
            | decimal_exact_of 0x4480F0CF064DD592 22
            | decimal_exact_of 0x400921F9F01B866E 0
            | vm_compute; reflexivity | vm_compute; discriminate
            | solve [left; vm_compute; discriminate]
            | solve [right; vm_compute; reflexivity] ]. }
  exact (proj1 (proj2 text_round_trip) sample_numbers Hex).
Defined.

(** C4, the claim as stated fails.  The float 42.0 has no string in it; it
    prints as [42] and comes back as the integer 42.  The integer
    [2^53 + 1] prints in full and comes back as [2^53], the [double]
    nearest to it. *)
Lemma text_round_trip_changes_numbers :
  print_ConValue (VFloat 0x4045000000000000) = "42"
  /\ eventually
       (fun fuel => parse_ConValue fuel (istream_of (print_ConValue (VFloat 0x4045000000000000))))
       (Returns (VInteger 42) (mk_istream "" true false))
  /\ eventually
       (fun fuel => parse_ConValue fuel
                      (istream_of (print_ConValue (VInteger 9007199254740993))))
       (Returns (VInteger 9007199254740992) (mk_istream "" true false)).
Proof.
  split; [vm_compute; reflexivity|].
  split; apply eventually_intro with (n := 1%nat); intros [|f] Hf; try lia;
    vm_compute; reflexivity.
Qed.

(** C7, as the code has it.  A comma before the closing brace of an object
    is reported through [failbit], and the value left in the out-parameter
    is the object with every entry read up to there: the failure is not
    atomic.  The entries are any whose keys hold no double quote and whose
    values are of the class of the text round trip. *)
Theorem trailing_comma_leaves_partial_object (kv : string * ConValue)
  (kvs : list (string * ConValue)) (rest : string) :
  Forall (fun e => quote_free (fst e) /\ text_stable (snd e)) (kv :: kvs) ->
  eventually
    (fun fuel =>
       parse_ConValue fuel
         (istream_of
            ("{" ++ join_comma (map (print_entry print_ConValue) (kv :: kvs))
             ++ ",}" ++ rest)))
    (Returns (VObject (map_of_assignments (kv :: kvs)))
       (setstate_failbit (istream_of rest))).
Proof.
  intros Hall. apply parse_object_text_trailing_comma.
  eapply Forall_impl; [|exact Hall]. cbn beta.
  intros e [Hk Hv]. repeat split; [exact Hk | exact Hv | now apply parses_back_all].
Qed.

Lemma trailing_comma_leaves_partial_object_witness :
  eventually
    (fun fuel => parse_ConValue fuel (istream_of trailing_comma_text))
    (Returns (VObject [("a", VInteger 1)]) (mk_istream "" false true)).
Proof.
  apply (trailing_comma_leaves_partial_object ("a", VInteger 1) [] "").
  repeat constructor; first [ discriminate | vm_compute; discriminate ].
Defined.

(** C7, the claim as stated fails: on [{"a": 1,}] the parser raises
    [failbit] and what it returns is the truncated tree [{"a": 1}]. *)
Lemma trailing_comma_returns_truncated_tree :
  eventually
    (fun fuel => parse_ConValue fuel (istream_of trailing_comma_text))
    (Returns (VObject [("a", VInteger 1)]) (mk_istream "" false true))
  /\ failbit (mk_istream "" false true) = true.
Proof.
  split; [|reflexivity].
  apply eventually_intro with (n := 3%nat). intros [|[|[|f]]] Hf; try lia.
  vm_compute. reflexivity.
Qed.

(** C8, what the code does.  On [n] the parser sets the type to Null and
    takes no character off the stream: the stream it returns is the one
    it found, the [n] still first.  So [nxyz] gives Null with [nxyz]
    unread, and in [[null]] the array operator reads [n] where it expects
    a comma or the closing bracket and raises [failbit]. *)
Theorem null_takes_no_character :
  (forall (fuel : nat) (r : string),
      parse_ConValue (S fuel) (istream_of (String "n" r))
      = Returns VNull (istream_of (String "n" r)))
  /\ parse_ConValue 1 (istream_of "nxyz") = Returns VNull (istream_of "nxyz")
  /\ eventually
       (fun fuel => parse_ConValue fuel (istream_of (print_ConValue (VArray [VNull]))))
       (Returns (VArray [VNull]) (mk_istream "ull]" false true)).
Proof.
  split; [|split].
  - intros fuel r. now rewrite parse_ConValue_peek by reflexivity.
  - reflexivity.
  - apply eventually_intro with (n := 3%nat). intros [|[|[|f]]] Hf; try lia.
    vm_compute. reflexivity.
Qed.

(** C9 (number collapse).  A token that starts with a digit or a minus sign
    is read by [is >> d] as a [double]; the value stored is the Integer [z]
    when the [double] is exactly the [int64_t] [z], and the Float [d] when
    the [double] is no [int64_t].  So [42] gives Integer 42, [42.5] gives
    the Float 42.5 (mantissa [85 * 2^46], exponent [-47]), and [42.0] gives
    Integer 42. *)
Theorem number_collapse :
  (forall (fuel : nat) (c : ascii) (r : string),
      c = "-"%char \/ is_digit c = true ->
      parse_ConValue (S fuel) (istream_of (String c r))
      = match istream_extract_double (istream_of (String c r)) with
        | (Some d, ist) => Returns (number_value d) ist
        | (None, _) => Undefined
        end)
  /\ (forall d z : Z,
        0 <= d < 2 ^ 64 -> - 2 ^ 63 <= z < 2 ^ 63 ->
        fp_is_integer (decode_double d) z -> number_value d = VInteger z)
  /\ (forall d : Z,
        0 <= d < 2 ^ 64 ->
        (forall z, - 2 ^ 63 <= z < 2 ^ 63 -> ~ fp_is_integer (decode_double d) z) ->
        number_value d = VFloat d)
  /\ eventually (fun fuel => parse_ConValue fuel (istream_of "42"))
       (Returns (VInteger 42) (mk_istream "" true false))
  /\ eventually (fun fuel => parse_ConValue fuel (istream_of "42.5"))
       (Returns (VFloat 0x4045400000000000) (mk_istream "" true false))
  /\ decode_double 0x4045400000000000 = FFinite false (85 * 2 ^ 46) (-47)
  /\ eventually (fun fuel => parse_ConValue fuel (istream_of "42.0"))
       (Returns (VInteger 42) (mk_istream "" true false)).
Proof.
  split; [|split; [|split; [|split; [|split; [|split]]]]].
  - intros fuel c r Hc.
    destruct (is_digit_not_space c Hc) as [_ Hjs].
    destruct (number_head_dispatch c Hc) as (Hn & Htf & Hq & Ha & Ho & _).
    rewrite parse_ConValue_peek by exact Hjs. cbv zeta.
    now rewrite Hn, Htf, Hq, Ha, Ho.
  - exact number_value_integer.
  - exact number_value_float.
  - apply eventually_intro with (n := 1%nat). intros [|f] Hf; [lia|].
    vm_compute. reflexivity.
  - apply eventually_intro with (n := 1%nat). intros [|f] Hf; [lia|].
    vm_compute. reflexivity.
  - vm_compute. reflexivity.
  - apply eventually_intro with (n := 1%nat). intros [|f] Hf; [lia|].
    vm_compute. reflexivity.
Qed.

(** The collapse rule at the doubles 42.0 and 42.5. *)
Lemma number_collapse_witness :
  number_value 0x4045000000000000 = VInteger 42
  /\ number_value 0x4045400000000000 = VFloat 0x4045400000000000.
Proof.
  split.
  - apply (proj1 (proj2 number_collapse) 0x4045000000000000 42).
    + vm_compute. split; [discriminate | reflexivity].
    + vm_compute. split; [discriminate | reflexivity].
    + vm_compute. reflexivity.
  - apply (proj1 (proj2 (proj2 number_collapse)) 0x4045400000000000).
    + vm_compute. split; [discriminate | reflexivity].
    + intros z _. change (decode_double 0x4045400000000000)
        with (FFinite false (85 * 2 ^ 46) (-47)).
      cbn [fp_is_integer Z.ltb Z.compare]. lia.
Defined.

(** C5 (sorted object keys).  An object is filled by assignments
    [values[key] = value] only; whatever their order, its keys are
    strictly increasing, hence unique, and for distinct keys the map is the
    same for every order of insertion.  Every value the parser or the
    decoder returns has all its objects in that form.  The encoder and the
    printer go through the entries in that order.  Parsing
    [{"b": 1, "a": 2}] and printing the result gives [{"a": 2, "b": 1}]. *)
Theorem object_keys_sorted :
  (forall kvs : list (string * ConValue),
      keys_sorted (map_of_assignments kvs)
      /\ NoDup (map fst (map_of_assignments kvs)))
  /\ (forall kvs kvs' : list (string * ConValue),
        NoDup (map fst kvs) -> Permutation kvs kvs' ->
        map_of_assignments kvs = map_of_assignments kvs')
  /\ (forall fuel ist v ist',
        parse_ConValue fuel ist = Returns v ist' -> well_formed v)
  /\ (forall zdecompress fuel ist v ist',
        ConValue_read zdecompress fuel ist = Returns v ist' -> well_formed v)
  /\ (forall zcompress (obj : ConObject) level,
        ConObject_write zcompress obj level
        = u64 (Z.of_nat (List.length obj))
          ++ flatten (map (fun kv =>
                             u64 (size (fst kv)) ++ fst kv
                             ++ ConValue_write zcompress (snd kv) (next_level level))
                        obj))
  /\ (forall obj : ConObject,
        print_ConValue (VObject obj)
        = "{" ++ join_comma (map (print_entry print_ConValue) obj) ++ "}")
  /\ eventually (fun fuel => parse_ConValue fuel (istream_of unsorted_text))
       (Returns (VObject [("a", VInteger 2); ("b", VInteger 1)]) (istream_of ""))
  /\ print_ConValue (VObject [("a", VInteger 2); ("b", VInteger 1)])
     = "{" ++ quoted "a" ++ ": 2, " ++ quoted "b" ++ ": 1}".
Proof.
  split; [|split; [|split; [|split; [|split; [|split; [|split]]]]]].
  - intros kvs. pose proof (map_of_assignments_sorted kvs) as H.
    split; [exact H | now apply keys_sorted_NoDup].
  - intros kvs kvs'. apply map_of_assignments_Permutation.
  - intros fuel. apply (parse_well_formed fuel).
  - intros zdecompress fuel. apply (read_well_formed zdecompress fuel).
  - reflexivity.
  - reflexivity.
  - apply eventually_intro with (n := 4%nat). intros [|[|[|[|f]]]] Hf; try lia.
    vm_compute. reflexivity.
  - vm_compute. reflexivity.
Qed.

(** The two keys of [{"b": 1, "a": 2}], assigned in the order of the text
    and in the other order. *)
Lemma object_keys_sorted_witness :
  map_of_assignments [("b", VInteger 1); ("a", VInteger 2)]
  = map_of_assignments [("a", VInteger 2); ("b", VInteger 1)].
Proof.
  apply (proj1 (proj2 object_keys_sorted)).
  - cbn [map fst].
    constructor; [cbn [In]; intros [H|H]; [discriminate H | exact H]|].
    constructor; [intros H; exact H | constructor].
  - apply perm_swap.
Defined.

(** C10 (duplicate keys).  The entries of an object text, and the pairs of
    a binary object body, may repeat a key and come in any order: both the
    parser and the decoder assign them one after the other into the map,
    which then has one entry for each key, holding the last value the key
    was given.  The values are those of the text round trip for the
    parser and those of the binary round trip for the decoder. *)
Theorem duplicate_key_overwrite :
  (forall (kvs : list (string * ConValue)) (rest : string),
      Forall (fun e => quote_free (fst e) /\ text_stable (snd e)) kvs ->
      eventually
        (fun fuel => parse_ConValue fuel (istream_of (print_ConObject kvs ++ rest)))
        (Returns (VObject (map_of_assignments kvs)) (after_value (VObject kvs) rest)))
  /\ (forall (zcompress zdecompress : string -> string)
             (kvs : list (string * ConValue)) (level : Z) (rest : string),
        (forall s, zdecompress (zcompress s) = s) ->
        Z.of_nat (List.length kvs) < 2 ^ 64 ->
        Forall (fun kv => size (fst kv) < 2 ^ 64 /\ well_formed (snd kv)
                          /\ representable zcompress (snd kv) (next_level level)) kvs ->
        eventually
          (fun fuel =>
             ConObject_read zdecompress fuel
               (istream_of (ConObject_write zcompress kvs level ++ rest)))
          (Returns (map_of_assignments kvs) (istream_of rest)))
  /\ (forall (kvs : list (string * ConValue)) (k : string),
        map_find k (map_of_assignments kvs) = map_find k (rev kvs))
  /\ (forall kvs : list (string * ConValue), NoDup (map fst (map_of_assignments kvs)))
  /\ eventually (fun fuel => parse_ConValue fuel (istream_of duplicate_key_text))
       (Returns (VObject [("a", VInteger 2)]) (istream_of "")).
Proof.
  split; [|split; [|split; [|split]]].
  - intros kvs rest Hall. apply parse_object_text.
    eapply Forall_impl; [|exact Hall]. cbn beta.
    intros e [Hk Hv]. repeat split; [exact Hk | exact Hv | now apply parses_back_all].
  - intros zcompress zdecompress kvs level rest Hz. now apply ConObject_read_pairs.
  - intros kvs k. apply map_find_assignments.
  - intros kvs. apply keys_sorted_NoDup, map_of_assignments_sorted.
  - apply eventually_intro with (n := 4%nat). intros [|[|[|[|f]]]] Hf; try lia.
    vm_compute. reflexivity.
Qed.

(** The key [a] given 1 and then 2, in text and in binary. *)
Lemma duplicate_key_overwrite_witness :
  eventually
    (fun fuel =>
       parse_ConValue fuel
         (istream_of (print_ConObject [("a", VInteger 1); ("a", VInteger 2)] ++ "")))
    (Returns (VObject [("a", VInteger 2)]) (istream_of ""))
  /\ eventually
       (fun fuel =>
          ConObject_read store_only fuel
            (istream_of
               (ConObject_write store_only [("a", VInteger 1); ("a", VInteger 2)] 0 ++ "")))
       (Returns [("a", VInteger 2)] (istream_of "")).
Proof.
  split.
  - apply (proj1 duplicate_key_overwrite [("a", VInteger 1); ("a", VInteger 2)] "").
    repeat constructor; first [ discriminate | vm_compute; discriminate ].
  - apply (proj1 (proj2 duplicate_key_overwrite) store_only store_only
             [("a", VInteger 1); ("a", VInteger 2)] 0 "").
    + intros s. reflexivity.
    + vm_compute. reflexivity.
    + repeat constructor; first [ vm_compute; reflexivity | vm_compute; discriminate ].
Defined.

(** * Further properties of the code *)

(** ** The binary codec *)

(** X1 (the encoding delimits itself).  The bytes [ConValue::write] puts
    out for a value are never the beginning of the bytes of another value:
    when two encodings, each followed by anything, give the same stream,
    the values are the same and so is what follows.  So [.con] data needs
    no length in front, and distinct values have distinct encodings. *)
Theorem encoding_is_prefix_free (zcompress zdecompress : string -> string)
  (v v' : ConValue) (level : Z) (rest rest' : string) :
  (forall s, zdecompress (zcompress s) = s) ->
  well_formed v -> representable zcompress v level ->
  well_formed v' -> representable zcompress v' level ->
  ConValue_write zcompress v level ++ rest = ConValue_write zcompress v' level ++ rest' ->
  v = v' /\ rest = rest'.
Proof.
  intros Hz. now apply (ConValue_write_prefix_free zcompress zdecompress Hz).
Qed.

(** An array of a Boolean and an Integer, with one byte behind it. *)
Lemma encoding_is_prefix_free_witness :
  VArray [VBoolean true; VInteger 7] = VArray [VBoolean true; VInteger 7] /\ "x" = "x".
Proof.
  apply (encoding_is_prefix_free store_only store_only
           (VArray [VBoolean true; VInteger 7]) (VArray [VBoolean true; VInteger 7])
           0 "x" "x").
  - intros s. reflexivity.
  - cbn [well_formed]. auto.
  - cbn [representable]. unfold framed_fits.
    repeat match goal with |- _ /\ _ => split end;
      first [ exact I | vm_compute; reflexivity | vm_compute; discriminate
            | intros _; vm_compute; reflexivity ].
  - cbn [well_formed]. auto.
  - cbn [representable]. unfold framed_fits.
    repeat match goal with |- _ /\ _ => split end;
      first [ exact I | vm_compute; reflexivity | vm_compute; discriminate
            | intros _; vm_compute; reflexivity ].
  - reflexivity.
Defined.

(** X2 (only the root is ever compressed).  [ConArray::write] and
    [ConObject::write] pass [level+1] to every child and the window of
    levels is 0 to 0, so below the root [zcompress] is never called: the
    bytes written for a value at a level from 1 on are the same for every
    compressor.  The bound on the depth keeps [level+1] from wrapping
    around in [uint64_t]. *)
Theorem nested_values_are_never_compressed (zcompress zcompress' : string -> string)
  (v : ConValue) (level : Z) :
  0 < level -> level + depth v < 2 ^ 64 ->
  ConValue_write zcompress v level = ConValue_write zcompress' v level.
Proof. apply ConValue_write_nested. Qed.

(** A string of 10000 bytes in an array, at level 1, with a compressor that
    stores and one that drops its input. *)
Lemma nested_values_are_never_compressed_witness :
  ConValue_write store_only (VArray [VString long_string]) 1
  = ConValue_write (fun _ => "") (VArray [VString long_string]) 1.
Proof.
  apply (nested_values_are_never_compressed store_only (fun _ => "")
           (VArray [VString long_string]) 1).
  - lia.
  - vm_compute. reflexivity.
Defined.

(** X3 (the decoder follows the flag byte alone).  [ConValue::read] tests
    the flag byte with [if (compressed)] and knows nothing of threshold or
    level: a String, Array or Object stored with any flag byte other than 0
    is decompressed and decoded, whatever its size and wherever it stands,
    although [ConValue::write] produces such a node only at level 0 and
    above 256 bytes, with flag byte 1. *)
Theorem flagged_nodes_are_decompressed (zcompress zdecompress : string -> string)
  (flag : ascii) (level : Z) (rest : string) :
  (forall s, zdecompress (zcompress s) = s) ->
  Z_of_byte flag <> 0 ->
  (forall (str : string) (fuel : nat),
      size (zcompress str) < 2 ^ 64 ->
      ConValue_read zdecompress (S fuel)
        (istream_of
           (String (byte_of 4)
              (String flag (u64 (size (zcompress str)) ++ zcompress str)) ++ rest))
      = Returns (VString str) (istream_of rest))
  /\ (forall vs : list ConValue,
        Z.of_nat (List.length vs) < 2 ^ 64 ->
        size (zcompress (ConArray_write zcompress vs level)) < 2 ^ 64 ->
        Forall (fun v => well_formed v /\ representable zcompress v (next_level level)) vs ->
        eventually
          (fun fuel =>
             ConValue_read zdecompress fuel
               (istream_of
                  (String (byte_of 5)
                     (String flag
                        (u64 (size (zcompress (ConArray_write zcompress vs level)))
                         ++ zcompress (ConArray_write zcompress vs level))) ++ rest)))
          (Returns (VArray vs) (istream_of rest)))
  /\ (forall kvs : list (string * ConValue),
        Z.of_nat (List.length kvs) < 2 ^ 64 ->
        size (zcompress (ConObject_write zcompress kvs level)) < 2 ^ 64 ->
        Forall (fun kv => size (fst kv) < 2 ^ 64 /\ well_formed (snd kv)
                          /\ representable zcompress (snd kv) (next_level level)) kvs ->
        eventually
          (fun fuel =>
             ConValue_read zdecompress fuel
               (istream_of
                  (String (byte_of 6)
                     (String flag
                        (u64 (size (zcompress (ConObject_write zcompress kvs level)))
                         ++ zcompress (ConObject_write zcompress kvs level))) ++ rest)))
          (Returns (VObject (map_of_assignments kvs)) (istream_of rest))).
Proof.
  intros Hz Hflag. split; [|split].
  - intros str fuel Hsz. now apply ConValue_read_flagged_String.
  - intros vs Hn Hsz Hall.
    apply (ConValue_read_flagged_Array zcompress zdecompress Hz); try assumption.
    eapply Forall_impl; [|exact Hall]. intros v [Hwf Hrep].
    now apply (reads_back_all zcompress zdecompress Hz).
  - intros kvs Hn Hsz Hall.
    apply (ConValue_read_flagged_Object zcompress zdecompress Hz); try assumption.
    eapply Forall_impl; [|exact Hall]. intros kv (Hk & Hwf & Hrep).
    split; [exact Hk|]. now apply (reads_back_all zcompress zdecompress Hz).
Qed.

(** The flag byte 2, at level 5: a string of one byte is decoded. *)
Lemma flagged_nodes_are_decompressed_witness :
  ConValue_read store_only 1
    (istream_of
       (String (byte_of 4)
          (String (byte_of 2) (u64 (size (store_only "a")) ++ store_only "a")) ++ "z"))
  = Returns (VString "a") (istream_of "z").
Proof.
  refine (proj1 (flagged_nodes_are_decompressed store_only store_only (byte_of 2) 5 "z"
                   _ _) "a" 0%nat _).
  - intros s. reflexivity.
  - vm_compute. discriminate.
  - vm_compute. reflexivity.
Defined.

(** X4 (truncated data).  [ConValue::read], [ConArray::read] and
    [ConObject::read] never look at the state of the stream.  When the data
    ends anywhere inside the encoding of a value none of whose nodes is
    stored compressed, some [stream.read] gets fewer bytes than it asked
    for and the decoder goes on with an object that was not filled: no
    proper prefix of an encoding is decoded to a value, and none is
    reported as an error. *)
Theorem truncated_encoding_runs_off_the_end (zcompress zdecompress : string -> string)
  (v : ConValue) (level : Z) (p q : string) :
  (forall s, zdecompress (zcompress s) = s) ->
  well_formed v -> representable zcompress v level ->
  0 <= level -> level + depth v < 2 ^ 64 ->
  stored_plain zcompress v level ->
  ConValue_write zcompress v level = p ++ q -> q <> "" ->
  eventually (fun fuel => ConValue_read zdecompress fuel (istream_of p)) Undefined.
Proof.
  intros Hz Hwf Hrep Hl Hd Hplain.
  exact (cut_short_all zcompress zdecompress Hz v level Hwf Hrep Hl Hd Hplain p q).
Qed.

(** The array of the Integer 1, cut behind the tag byte of the Integer. *)
Lemma truncated_encoding_runs_off_the_end_witness :
  eventually
    (fun fuel =>
       ConValue_read store_only fuel
         (istream_of
            (String (byte_of 5) (String (byte_of 0) (u64 1 ++ String (byte_of 2) "")))))
    Undefined.
Proof.
  apply (truncated_encoding_runs_off_the_end store_only store_only
           (VArray [VInteger 1]) 0
           (String (byte_of 5) (String (byte_of 0) (u64 1 ++ String (byte_of 2) "")))
           (encode_le 8 1)).
  - intros s. reflexivity.
  - cbn [well_formed]. auto.
  - cbn [representable]. unfold framed_fits.
    repeat match goal with |- _ /\ _ => split end;
      first [ exact I | vm_compute; reflexivity | vm_compute; discriminate
            | intros _; vm_compute; reflexivity ].
  - lia.
  - vm_compute. reflexivity.
  - intros body H. injection H as <-. vm_compute. reflexivity.
  - vm_compute. reflexivity.
  - vm_compute. discriminate.
Defined.

(** ** White space *)

(** X5 ([eliminateWhitespace]).  The function takes blanks, tabs, line
    feeds and carriage returns off the stream and leaves the first other
    character unread, the stream good.  When the input ends before such a
    character comes, the last [is.get(c)] fails: the stream is left at its
    end with [eofbit] and [failbit] set. *)
Theorem eliminateWhitespace_skips_blanks (ws : string) :
  json_blank ws ->
  (forall (c : ascii) (r : string),
      is_json_space c = false ->
      eliminateWhitespace (istream_of (ws ++ String c r)) = istream_of (String c r))
  /\ eliminateWhitespace (istream_of ws) = mk_istream "" true true.
Proof.
  intros Hws. split.
  - intros c r Hc. now apply eliminateWhitespace_skip.
  - now apply eliminateWhitespace_end.
Qed.

(** A tab and a blank. *)
Lemma eliminateWhitespace_skips_blanks_witness :
  (forall (c : ascii) (r : string),
      is_json_space c = false ->
      eliminateWhitespace (istream_of (String "009" " " ++ String c r))
      = istream_of (String c r))
  /\ eliminateWhitespace (istream_of (String "009" " ")) = mk_istream "" true true.
Proof.
  apply (eliminateWhitespace_skips_blanks (String "009" " ")).
  cbn [json_blank]. auto.
Defined.

(** X6 (white space in front of a value).  [operator>>] for a [ConValue]
    starts with [eliminateWhitespace]: blanks, tabs, line feeds and
    carriage returns in front of a value change nothing in what is parsed
    and in the stream left behind. *)
Theorem parser_skips_leading_blanks (ws : string) (c : ascii) (r : string) (fuel : nat) :
  json_blank ws -> is_json_space c = false ->
  parse_ConValue fuel (istream_of (ws ++ String c r))
  = parse_ConValue fuel (istream_of (String c r)).
Proof.
  intros Hws Hc. destruct fuel as [|f]; [reflexivity|].
  cbn [parse_ConValue]. cbv zeta.
  rewrite (eliminateWhitespace_skip ws c r Hws Hc).
  now rewrite (eliminateWhitespace_head c r Hc).
Qed.

(** A line feed and a blank in front of [true]. *)
Lemma parser_skips_leading_blanks_witness :
  parse_ConValue 1 (istream_of (String "010" " " ++ String "t" "rue"))
  = parse_ConValue 1 (istream_of (String "t" "rue")).
Proof.
  apply (parser_skips_leading_blanks (String "010" " ") "t" "rue" 1).
  - cbn [json_blank]. auto.
  - reflexivity.
Defined.

(** X7 (no input).  [operator>>] for a [ConValue] does not test whether
    [is.get(c)] gave a character.  On a stream that is not good (a file
    that could not be opened, a stream that failed before) and on input
    that is empty or holds white space only, the [get] fails, [c] is left
    uninitialised, and the parser branches on it. *)
Theorem parser_reads_uninitialised_char (ist : istream) (fuel : nat) :
  good ist = false \/ json_blank (buf ist) ->
  parse_ConValue (S fuel) ist = Undefined.
Proof.
  intros H. destruct (good ist) eqn:Hg.
  - destruct H as [H|H]; [discriminate H|].
    destruct ist as [b e fl]. unfold good in Hg. cbn [eofbit failbit] in Hg.
    destruct e; [discriminate Hg|]. destruct fl; [discriminate Hg|].
    cbn [buf] in H. change (mk_istream b false false) with (istream_of b).
    cbn [parse_ConValue]. cbv zeta. rewrite eliminateWhitespace_end by assumption.
    reflexivity.
  - now apply parse_ConValue_not_good.
Qed.

(** Two blanks and nothing else. *)
Lemma parser_reads_uninitialised_char_witness :
  parse_ConValue 1 (istream_of "  ") = Undefined.
Proof.
  apply (parser_reads_uninitialised_char (istream_of "  ") 0).
  right. cbn [json_blank istream_of buf]. auto.
Defined.

(** ** Tokens *)

(** X8 (the literals [true] and [false]).  On [t] the parser takes four
    characters off the stream and on [f] five, whatever they are, and
    stores [true] or [false]: the literal is not compared with anything.
    When fewer characters are left, the value is stored all the same and
    the stream is left at its end with [eofbit] and [failbit] set. *)
Theorem boolean_literal_is_not_checked (fuel : nat) (a rest : string) :
  (String.length a = 3%nat ->
   parse_ConValue (S fuel) (istream_of (String "t" (a ++ rest)))
   = Returns (VBoolean true) (istream_of rest))
  /\ (String.length a = 4%nat ->
      parse_ConValue (S fuel) (istream_of (String "f" (a ++ rest)))
      = Returns (VBoolean false) (istream_of rest))
  /\ ((String.length a < 3)%nat ->
      parse_ConValue (S fuel) (istream_of (String "t" a))
      = Returns (VBoolean true) (mk_istream "" true true))
  /\ ((String.length a < 4)%nat ->
      parse_ConValue (S fuel) (istream_of (String "f" a))
      = Returns (VBoolean false) (mk_istream "" true true)).
Proof.
  repeat match goal with |- _ /\ _ => split end; intros Ha;
    rewrite parse_ConValue_peek by reflexivity; cbv zeta;
    cbn [Ascii.eqb Bool.eqb orb]; f_equal.
  - change 4%nat with (S 3). rewrite <- Ha.
    change (String "t" (a ++ rest)) with (String "t" a ++ rest).
    apply (get_n_append (String "t" a)).
  - change 5%nat with (S 4). rewrite <- Ha.
    change (String "f" (a ++ rest)) with (String "f" a ++ rest).
    apply (get_n_append (String "f" a)).
  - apply get_n_short. cbn [String.length]. lia.
  - apply get_n_short. cbn [String.length]. lia.
Qed.

(** X9 (a double quote inside a string).  The printer writes the bytes of
    a string between two double quotes without escaping anything, and the
    parser ends a string at the first double quote, a backslash before it
    or not.  So a String that holds a double quote is printed as it is and
    comes back cut off at that quote; what follows it is left on the
    stream. *)
Theorem printed_quote_cuts_string (a b rest : string) :
  quote_free a ->
  print_ConValue (VString (a ++ String dquote b)) = quoted (a ++ String dquote b)
  /\ eventually
       (fun fuel =>
          parse_ConValue fuel
            (istream_of (print_ConValue (VString (a ++ String dquote b)) ++ rest)))
       (Returns (VString a) (istream_of (b ++ String dquote rest))).
Proof.
  intros Hq. split; [reflexivity|].
  apply eventually_intro with (n := S (S (String.length a))). intros [|f] Hf; [lia|].
  cbn [print_ConValue append]. rewrite parse_ConValue_peek by reflexivity.
  cbv zeta. cbn [Ascii.eqb Bool.eqb orb]. unfold dquote at 1. cbn [Ascii.eqb Bool.eqb orb].
  rewrite Ascii.eqb_refl.
  rewrite !append_assoc. cbn [append].
  rewrite string_loop_spec by (try assumption; lia). reflexivity.
Qed.

(** The string of [a], a backslash, a double quote and [b]: the backslash
    is an ordinary character. *)
Lemma printed_quote_cuts_string_witness :
  print_ConValue (VString ("a\" ++ String dquote "b")) = quoted ("a\" ++ String dquote "b")
  /\ eventually
       (fun fuel =>
          parse_ConValue fuel
            (istream_of (print_ConValue (VString ("a\" ++ String dquote "b")) ++ "")))
       (Returns (VString "a\") (istream_of ("b" ++ String dquote ""))).
Proof.
  apply (printed_quote_cuts_string "a\" "b" "").
  cbn [quote_free]. repeat split; discriminate.
Defined.

(** X10 (a token that is no number).  A token whose first character is
    none of [n], [t], [f], the double quote, [[] and [{] is read with
    [is >> d].  When the characters gathered are no decimal number the
    extraction fails, [d] is set to zero, and as [0 == (int64_t)0] the
    value stored is the Integer 0, with [failbit] set on the stream: a word
    such as [xyz] is taken for 0. *)
Theorem non_number_token_gives_zero (fuel : nat) (c : ascii) (r xtrc rest : string) :
  is_space c = false -> number_branch c ->
  scan_float (String c r) = (xtrc, rest) ->
  strtod xtrc = None ->
  parse_ConValue (S fuel) (istream_of (String c r))
  = Returns (VInteger 0) (failed_at rest).
Proof. apply parse_ConValue_non_number. Qed.

(** The word [xyz]: no character is gathered. *)
Lemma non_number_token_gives_zero_witness :
  parse_ConValue 1 (istream_of "xyz") = Returns (VInteger 0) (failed_at "xyz").
Proof.
  apply (non_number_token_gives_zero 0 "x" "yz" "" "xyz");
    [ reflexivity | repeat split; reflexivity | reflexivity | reflexivity ].
Defined.

(** X11 (a number out of the range of [double]).  When the decimal number
    of a token is too large for a [double], [is >> d] stores the largest
    finite [double] with the sign of the number and sets [failbit]; the
    value stored is that Float. *)
Theorem out_of_range_number_gives_DBL_MAX (fuel : nat) (c : ascii)
  (r xtrc rest : string) (neg : bool) :
  is_space c = false -> number_branch c ->
  scan_float (String c r) = (xtrc, rest) ->
  strtod xtrc = Some (FInf neg) ->
  parse_ConValue (S fuel) (istream_of (String c r))
  = Returns (VFloat (sign_bit neg + DBL_MAX)) (failed_at rest).
Proof.
  intros Hs Hb Hscan Hinf.
  rewrite parse_ConValue_number_branch by (try apply is_space_json; assumption).
  rewrite istream_extract_double_head by assumption.
  rewrite Hscan. cbv zeta. rewrite Hinf. now rewrite number_value_DBL_MAX.
Qed.

(** The token [-1e999] with a comma behind it. *)
Lemma out_of_range_number_gives_DBL_MAX_witness :
  parse_ConValue 1 (istream_of "-1e999,")
  = Returns (VFloat (sign_bit true + DBL_MAX)) (failed_at ",").
Proof.
  apply (out_of_range_number_gives_DBL_MAX 0 "-" "1e999," "-1e999" "," true);
    [ reflexivity | repeat split; reflexivity | reflexivity | vm_compute; reflexivity ].
Defined.

(** ** Failures inside containers *)

(** X12 (an element that fails to parse).  The loop of the object operator
    tests [is.fail()] behind the value and returns without storing the
    entry; the loop of the array operator has no such test and appends
    what the value parser left.  So for a token that is no number the
    array gets the Integer 0 as an element, while the object stays without
    the entry; both leave [failbit] set. *)
Theorem failed_element_kept_by_array_dropped_by_object (fuel : nat) (k : string)
  (c : ascii) (r xtrc rest : string) :
  is_space c = false -> number_branch c ->
  c <> ","%char -> c <> "]"%char ->
  scan_float (String c r) = (xtrc, rest) ->
  strtod xtrc = None ->
  quote_free k ->
  parse_ConValue (S (S (S fuel))) (istream_of ("[" ++ String c r))
  = Returns (VArray [VInteger 0]) (failed_at rest)
  /\ parse_ConValue (S (S (S fuel))) (istream_of ("{" ++ quoted k ++ ": " ++ String c r))
     = Returns (VObject []) (failed_at rest).
Proof.
  intros Hs Hb Hcomma Hbr Hscan Hnone Hk. split.
  - now apply parse_array_failed_element with (xtrc := xtrc).
  - now apply parse_object_failed_value with (xtrc := xtrc).
Qed.

(** The word [x] as the element of an array and as the value of the key
    [k]. *)
Lemma failed_element_kept_by_array_dropped_by_object_witness :
  parse_ConValue 3 (istream_of ("[" ++ "x]"))
  = Returns (VArray [VInteger 0]) (failed_at "x]")
  /\ parse_ConValue 3 (istream_of ("{" ++ quoted "k" ++ ": " ++ "x]"))
     = Returns (VObject []) (failed_at "x]").
Proof.
  apply (failed_element_kept_by_array_dropped_by_object 0 "k" "x" "]" "" "x]");
    [ reflexivity | repeat split; reflexivity | discriminate | discriminate
    | reflexivity | reflexivity | split; [discriminate | exact I] ].
Defined.

(** X13 (a comma before the closing bracket of an array).  Behind the
    comma the array loop parses a value from [[]]: the number extraction
    fails and sets [failbit].  The loop does not test the stream; its
    [is >> c] fails and leaves the comma in [c], so the loop goes round
    again, and the value parser, whose [is.get(c)] fails, branches on an
    uninitialised character.  Unlike the object operator on [{"a": 1,}],
    the array operator does not return with [failbit]. *)
Theorem array_trailing_comma_is_not_reported (v : ConValue) (vs : list ConValue)
  (rest : string) :
  Forall text_stable (v :: vs) ->
  eventually
    (fun fuel =>
       parse_ConValue fuel
         (istream_of ("[" ++ join_comma (map print_ConValue (v :: vs)) ++ ",]" ++ rest)))
    Undefined.
Proof.
  intros Hall. apply parse_array_text_trailing_comma.
  eapply Forall_impl; [|exact Hall]. intros x Hx. split; [exact Hx|].
  now apply parses_back_all.
Qed.

(** The text [[1, true,]]. *)
Lemma array_trailing_comma_is_not_reported_witness :
  eventually
    (fun fuel =>
       parse_ConValue fuel
         (istream_of ("[" ++ join_comma (map print_ConValue [VInteger 1; VBoolean true])
                      ++ ",]" ++ "")))
    Undefined.
Proof.
  apply (array_trailing_comma_is_not_reported (VInteger 1) [VBoolean true] "").
  constructor; [|constructor; [exact I|constructor]].
  split; [lia|]. left. vm_compute. discriminate.
Defined.

(** X14 (empty containers).  An opening bracket followed, after any white
    space, by the closing one gives an empty Array, and likewise braces an
    empty Object; only in this case the operator runs [eliminateWhitespace]
    behind the closing character.  At the end of the input that call sets
    [failbit], so a document that is [[]] or [{}] is parsed to the empty
    container and leaves the stream failed.  The printer writes the empty
    containers as [[]] and [{}]. *)
Theorem empty_containers (fuel : nat) (ws rest : string) :
  json_blank ws ->
  parse_ConValue (S fuel) (istream_of ("[" ++ ws ++ "]" ++ rest))
  = Returns (VArray []) (eliminateWhitespace (istream_of rest))
  /\ parse_ConValue (S fuel) (istream_of ("{" ++ ws ++ "}" ++ rest))
     = Returns (VObject []) (eliminateWhitespace (istream_of rest))
  /\ eliminateWhitespace (istream_of "") = mk_istream "" true true
  /\ print_ConValue (VArray []) = "[]"
  /\ print_ConValue (VObject []) = "{}".
Proof.
  intros Hws. split; [now apply parse_empty_Array|].
  split; [now apply parse_empty_Object|]. repeat split.
Qed.

(** The document [[ ]]. *)
Lemma empty_containers_witness :
  parse_ConValue 1 (istream_of ("[" ++ " " ++ "]" ++ ""))
  = Returns (VArray []) (eliminateWhitespace (istream_of ""))
  /\ parse_ConValue 1 (istream_of ("{" ++ " " ++ "}" ++ ""))
     = Returns (VObject []) (eliminateWhitespace (istream_of ""))
  /\ eliminateWhitespace (istream_of "") = mk_istream "" true true
  /\ print_ConValue (VArray []) = "[]"
  /\ print_ConValue (VObject []) = "{}".
Proof.
  apply (empty_containers 0 " " "").
  cbn [json_blank]. auto.
Defined.

(** X15 (the types of parsed values).  Whatever the text, a value the
    parser returns has one of the seven types of [ConType] at every node,
    Null among them: the parser builds values with the constructors only.
    So for a parsed value the printer, which has a case for each of the
    seven, never comes to its [default] branch and never writes
    [Invalid type]. *)
Theorem parser_yields_known_types (fuel : nat) (ist ist' : istream) (v : ConValue) :
  parse_ConValue fuel ist = Returns v ist' -> known_types v.
Proof. apply (proj1 (parse_known_types fuel)). Qed.

(** The text [[true]]. *)
Lemma parser_yields_known_types_witness : known_types (VArray [VBoolean true]).
Proof.
  apply (parser_yields_known_types 3 (istream_of "[true]") (istream_of "")
           (VArray [VBoolean true])).
  vm_compute. reflexivity.
Defined.

(** ** [ConObject::operator[]] and assignment *)

(** X16 ([obj[key]]).  Looking up a key the object does not hold inserts
    it with the value Null, so the object grows by one entry; a key it
    holds gives the value stored and leaves the object as it is.  In both
    cases the entry of [key] then holds the value referred to, the entries
    of the other keys are untouched, and the keys stay in increasing
    order. *)
Theorem subscript_inserts_null (key : string) (obj : ConObject) :
  (map_find key obj = None ->
   ConObject_subscript key obj = (VNull, map_assign key VNull obj)
   /\ List.length (snd (ConObject_subscript key obj)) = S (List.length obj))
  /\ (forall value, map_find key obj = Some value ->
                    ConObject_subscript key obj = (value, obj))
  /\ map_find key (snd (ConObject_subscript key obj))
     = Some (fst (ConObject_subscript key obj))
  /\ (forall k, k <> key ->
                map_find k (snd (ConObject_subscript key obj)) = map_find k obj)
  /\ (keys_sorted obj -> keys_sorted (snd (ConObject_subscript key obj))).
Proof. apply ConObject_subscript_spec. Qed.

(** X17 ([values[key] = value]).  The assignment both readers use to fill
    an object stores [value] under [key] and changes no other entry; the
    keys stay in increasing order.  The object grows by one entry when it
    had none for [key] and keeps its size when it had one, and of two
    assignments to one key the second alone counts. *)
Theorem assignment_overwrites_or_inserts (key : string) (value : ConValue)
  (obj : ConObject) :
  keys_sorted obj ->
  map_find key (map_assign key value obj) = Some value
  /\ (forall k, k <> key -> map_find k (map_assign key value obj) = map_find k obj)
  /\ keys_sorted (map_assign key value obj)
  /\ List.length (map_assign key value obj)
     = match map_find key obj with
       | Some _ => List.length obj
       | None => S (List.length obj)
       end
  /\ (forall value', map_assign key value (map_assign key value' obj)
                     = map_assign key value obj).
Proof.
  intros Hs. split; [apply map_find_assign_same|].
  split; [intros k Hk; now apply map_find_assign_other|].
  split; [now apply map_assign_sorted|]. split.
  - destruct (map_find key obj) as [v0|] eqn:E.
    + now apply map_assign_length_old with (v0 := v0).
    + now apply map_assign_length_new.
  - intros value'. apply map_assign_twice.
Qed.

(** The key [b] assigned in an object that holds [a] and [b]. *)
Lemma assignment_overwrites_or_inserts_witness :
  map_find "b" (map_assign "b" VNull [("a", VBoolean true); ("b", VInteger 1)]) = Some VNull
  /\ (forall k, k <> "b" ->
                map_find k (map_assign "b" VNull [("a", VBoolean true); ("b", VInteger 1)])
                = map_find k [("a", VBoolean true); ("b", VInteger 1)])
  /\ keys_sorted (map_assign "b" VNull [("a", VBoolean true); ("b", VInteger 1)])
  /\ List.length (map_assign "b" VNull [("a", VBoolean true); ("b", VInteger 1)])
     = match map_find "b" [("a", VBoolean true); ("b", VInteger 1)] with
       | Some _ => List.length [("a", VBoolean true); ("b", VInteger 1)]
       | None => S (List.length [("a", VBoolean true); ("b", VInteger 1)])
       end
  /\ (forall value',
        map_assign "b" VNull
          (map_assign "b" value' [("a", VBoolean true); ("b", VInteger 1)])
        = map_assign "b" VNull [("a", VBoolean true); ("b", VInteger 1)]).
Proof.
  apply (assignment_overwrites_or_inserts "b" VNull
           [("a", VBoolean true); ("b", VInteger 1)]).
  repeat constructor.
Defined.

(** ** [main] *)

(** X18 ([main] on a document).  For a document that is the text of a
    value of the class of the text round trip, [main] writes the same text
    to [MOCK_DATA2.json] and the encoding of the value at level 0 to
    [MOCK_DATA.con], and decoding that file gives the value back: the
    conversion from text to binary loses nothing. *)
Theorem main_converts_a_document (zcompress zdecompress : string -> string)
  (v : ConValue) :
  (forall s, zdecompress (zcompress s) = s) ->
  text_stable v ->
  representable zcompress v 0 ->
  eventually
    (fun fuel => main zcompress fuel (Some (print_ConValue v)))
    (Returns (mk_output_files (print_ConValue v) (ConValue_write zcompress v 0))
       (document_end v))
  /\ eventually
       (fun fuel =>
          ConValue_read zdecompress fuel (istream_of (ConValue_write zcompress v 0)))
       (Returns v (istream_of "")).
Proof.
  intros Hz Hst Hrep. split.
  - pose proof (parses_back_all v Hst "" I) as [n Hn]. rewrite append_nil_r in Hn.
    apply eventually_intro with (n := n). intros fuel Hf.
    unfold main, ifstream_open. rewrite Hn by assumption.
    destruct v; try reflexivity. contradiction.
  - pose proof (reads_back_all zcompress zdecompress Hz v 0
                  (text_stable_well_formed v Hst) Hrep "") as H.
    now rewrite append_nil_r in H.
Qed.

(** The sample document. *)
Lemma main_converts_a_document_witness :
  eventually
    (fun fuel => main store_only fuel (Some (print_ConValue sample_document)))
    (Returns
       (mk_output_files (print_ConValue sample_document)
          (ConValue_write store_only sample_document 0))
       (document_end sample_document))
  /\ eventually
       (fun fuel =>
          ConValue_read store_only fuel
            (istream_of (ConValue_write store_only sample_document 0)))
       (Returns sample_document (istream_of "")).
Proof.
  apply (main_converts_a_document store_only store_only sample_document).
  - intros s. reflexivity.
  - cbn [text_stable sample_document fst snd quote_free].
    repeat match goal with |- _ /\ _ => split end;
      first [ exact I | discriminate | vm_compute; reflexivity | vm_compute; discriminate
            | solve [left; vm_compute; discriminate]
            | solve [right; vm_compute; reflexivity]
            | solve [repeat constructor] ].
  - cbn [representable sample_document snd fst].
    unfold framed_fits.
    repeat match goal with |- _ /\ _ => split end;
      first [ exact I | vm_compute; reflexivity | vm_compute; discriminate
            | intros _; vm_compute; reflexivity ].
Defined.

(** X19 ([main] checks nothing).  [main] never looks at the state of a
    stream.  When [MOCK_DATA.json] cannot be opened the parser is run on
    the failed stream and branches on an uninitialised character.  When
    parsing fails, as on an object with a comma before its closing brace,
    both output files are written all the same, from the entries read up
    to the failure. *)
Theorem main_checks_no_stream_state (zcompress : string -> string) :
  (forall fuel, main zcompress (S fuel) None = Undefined)
  /\ (forall (kv : string * ConValue) (kvs : list (string * ConValue)) (rest : string),
        Forall (fun e => quote_free (fst e) /\ text_stable (snd e)) (kv :: kvs) ->
        eventually
          (fun fuel =>
             main zcompress fuel
               (Some ("{" ++ join_comma (map (print_entry print_ConValue) (kv :: kvs))
                      ++ ",}" ++ rest)))
          (Returns
             (mk_output_files
                (print_ConValue (VObject (map_of_assignments (kv :: kvs))))
                (ConValue_write zcompress (VObject (map_of_assignments (kv :: kvs))) 0))
             (setstate_failbit (istream_of rest)))).
Proof.
  split.
  - intros fuel. unfold main, ifstream_open.
    now rewrite parse_ConValue_not_good by reflexivity.
  - intros kv kvs rest Hall.
    assert (Hall' : Forall (fun e => quote_free (fst e) /\ text_stable (snd e)
                                     /\ parses_back (snd e)) (kv :: kvs)).
    { eapply Forall_impl; [|exact Hall]. intros e [Hq Hst].
      repeat split; try assumption. now apply parses_back_all. }
    destruct (parse_object_text_trailing_comma kv kvs rest Hall') as [n Hn].
    apply eventually_intro with (n := n). intros fuel Hf.
    unfold main, ifstream_open. now rewrite Hn by assumption.
Qed.

(** ** Strings and numbers at the limits *)

(** X20 (a string the input does not close).  The loop that gathers a
    string has no test for the end of the input: when no closing double
    quote comes, every [is.get(c)] fails, [c] keeps the last character
    read, and the loop appends it for ever; the parser never returns.
    Only when the opening quote is the last character of the input does
    [c] still hold a double quote, and the loop ends with the empty
    string.  A key that is not closed is read by [std::getline], not by
    that loop: the object operator then misses the colon and returns with
    [failbit]. *)
Theorem unterminated_string_loops_forever (s : string) (fuel : nat) :
  quote_free s ->
  (s <> "" -> parse_ConValue fuel (istream_of (String dquote s)) = OutOfFuel)
  /\ parse_ConValue (S (S fuel)) (istream_of (String dquote ""))
     = Returns (VString "") (mk_istream "" true true)
  /\ parse_ConValue (S (S fuel)) (istream_of ("{" ++ String dquote s))
     = Returns (VObject []) (mk_istream "" true true).
Proof.
  intros Hq. split; [|split].
  - intros Hs. now apply parse_unterminated_string.
  - apply parse_lone_quote.
  - now apply parse_unterminated_key.
Qed.

(** The input of a double quote and [abc], with fuel for 1000 steps. *)
Lemma unterminated_string_loops_forever_witness :
  ("abc" <> "" -> parse_ConValue 1000 (istream_of (String dquote "abc")) = OutOfFuel)
  /\ parse_ConValue (S (S 1000)) (istream_of (String dquote ""))
     = Returns (VString "") (mk_istream "" true true)
  /\ parse_ConValue (S (S 1000)) (istream_of ("{" ++ String dquote "abc"))
     = Returns (VObject []) (mk_istream "" true true).
Proof.
  apply (unterminated_string_loops_forever "abc" 1000).
  cbn [quote_free]. repeat split; discriminate.
Defined.

(** X21 (Floats that are no numbers).  The printer writes a NaN as [nan] or
    [-nan] and an infinity as [inf] or [-inf].  The parser takes the [n] of
    [nan] for Null and leaves the text unread; on [-nan], [inf] and [-inf]
    the number extraction fails and the value is the Integer 0 with
    [failbit] set.  No such Float comes back from its text. *)
Theorem non_finite_floats_are_not_read_back (bits : Z) (fuel : nat) :
  (decode_double bits = FNaN -> bits < 2 ^ 63 ->
   print_ConValue (VFloat bits) = "nan"
   /\ parse_ConValue (S fuel) (istream_of (print_ConValue (VFloat bits)))
      = Returns VNull (istream_of "nan"))
  /\ (decode_double bits = FNaN -> 2 ^ 63 <= bits ->
      print_ConValue (VFloat bits) = "-nan"
      /\ parse_ConValue (S fuel) (istream_of (print_ConValue (VFloat bits)))
         = Returns (VInteger 0) (failed_at "nan"))
  /\ (forall neg, decode_double bits = FInf neg ->
      print_ConValue (VFloat bits) = (if neg then "-inf" else "inf")
      /\ parse_ConValue (S fuel) (istream_of (print_ConValue (VFloat bits)))
         = Returns (VInteger 0) (failed_at "inf"))
  /\ decode_double 0x7FF8000000000000 = FNaN
  /\ decode_double 0xFFF8000000000000 = FNaN
  /\ decode_double 0x7FF0000000000000 = FInf false
  /\ decode_double 0xFFF0000000000000 = FInf true.
Proof.
  split; [|split; [|split]].
  - intros H Hlt. cbn [print_ConValue]. rewrite print_double_NaN by assumption.
    destruct (Z.leb_spec (2 ^ 63) bits); [lia|]. split; [reflexivity|apply parse_nan].
  - intros H Hge. cbn [print_ConValue]. rewrite print_double_NaN by assumption.
    destruct (Z.leb_spec (2 ^ 63) bits); [|lia]. split; [reflexivity|apply parse_minus_nan].
  - intros neg H. cbn [print_ConValue]. rewrite (print_double_Inf bits neg H).
    split; [reflexivity|apply parse_inf].
  - repeat split; vm_compute; reflexivity.
Qed.

(** X22 (Floats with an integer value).  A Float whose value is an integer
    of at most six digits is printed by [os << double] without decimal
    point and exponent, in the very characters of the Integer of that
    value; parsed back, the text gives the Integer.  The text does not
    keep apart the Float 42.0 and the Integer 42. *)
Theorem integral_float_prints_as_integer (z : Z) :
  - 10 ^ 6 < z < 10 ^ 6 ->
  print_ConValue (VFloat (double_of_int64 z)) = print_ConValue (VInteger z)
  /\ eventually
       (fun fuel =>
          parse_ConValue fuel (istream_of (print_ConValue (VFloat (double_of_int64 z)))))
       (Returns (VInteger z) (mk_istream "" true false)).
Proof.
  intros Hz. cbn [print_ConValue]. rewrite print_double_integer by exact Hz.
  split; [reflexivity|].
  assert (Hex : exact_in_double z).
  { left. destruct (Z.eq_dec z 0) as [->|Hz0]; [vm_compute; discriminate|].
    assert (Z.log2 (Z.abs z) < 20) by (apply Z.log2_lt_pow2; lia). lia. }
  pose proof (parses_back_Integer z ltac:(lia) Hex "" I) as H.
  cbn [print_ConValue after_value] in H. now rewrite append_nil_r in H.
Qed.

(** The Float -1234.0. *)
Lemma integral_float_prints_as_integer_witness :
  print_ConValue (VFloat (double_of_int64 (-1234))) = print_ConValue (VInteger (-1234))
  /\ eventually
       (fun fuel =>
          parse_ConValue fuel
            (istream_of (print_ConValue (VFloat (double_of_int64 (-1234))))))
       (Returns (VInteger (-1234)) (mk_istream "" true false)).
Proof.
  apply (integral_float_prints_as_integer (-1234)). lia.
Defined.

(** ** Documents in any layout *)

(** X23 (the parser on any layout).  The parser calls
    [eliminateWhitespace] before every value, key, colon, comma and closing
    bracket.  So for every text that is a document of a value in the sense
    of [denotes], with blanks, tabs, line feeds and carriage returns
    wherever the grammar has a gap, and with nothing, white space or a
    delimiter behind it, the parser returns that value and stops behind
    the text.  The literals are [true] and [false]; [null] is left out. *)
Theorem parser_accepts_any_layout (t : string) (v : ConValue) (ws rest : string) :
  denotes t v -> json_blank ws -> value_ends rest ->
  eventually
    (fun fuel => parse_ConValue fuel (istream_of (ws ++ t ++ rest)))
    (Returns v (after_parsed v rest)).
Proof. apply parse_document. Qed.

(** The sample on two lines, a blank in front and a line feed behind. *)
Lemma parser_accepts_any_layout_witness :
  eventually
    (fun fuel =>
       parse_ConValue fuel (istream_of (" " ++ sample_layout ++ String "010" "")))
    (Returns sample_layout_value (after_parsed sample_layout_value (String "010" ""))).
Proof.
  apply (parser_accepts_any_layout sample_layout sample_layout_value
           " " (String "010" "")).
  - apply sample_layout_denotes.
  - cbn [json_blank]. auto.
  - left. reflexivity.
Defined.

(** X24 ([main] on any layout).  Whatever the layout of the document in
    [MOCK_DATA.json], [main] writes the value in the layout of the printer
    to [MOCK_DATA2.json], the entries of every object in the order of
    their keys, and the encoding of the value to [MOCK_DATA.con]; decoding
    that file gives the value of the document back. *)
Theorem main_normalizes_the_layout (zcompress zdecompress : string -> string)
  (t : string) (v : ConValue) (ws rest : string) :
  (forall s, zdecompress (zcompress s) = s) ->
  denotes t v -> json_blank ws -> value_ends rest ->
  representable zcompress v 0 ->
  eventually
    (fun fuel => main zcompress fuel (Some (ws ++ t ++ rest)))
    (Returns (mk_output_files (print_ConValue v) (ConValue_write zcompress v 0))
       (after_parsed v rest))
  /\ eventually
       (fun fuel =>
          ConValue_read zdecompress fuel (istream_of (ConValue_write zcompress v 0)))
       (Returns v (istream_of "")).
Proof.
  intros Hz Ht Hws Hrest Hrep.
  destruct (parse_document t v ws rest Ht Hws Hrest) as [n Hn].
  split.
  - apply eventually_intro with (n := n). intros fuel Hf.
    unfold main, ifstream_open. now rewrite Hn by assumption.
  - assert (Hwf : well_formed v).
    { apply (proj1 (parse_well_formed n) _ _ _ (Hn n (Nat.le_refl n))). }
    pose proof (reads_back_all zcompress zdecompress Hz v 0 Hwf Hrep "") as H.
    now rewrite append_nil_r in H.
Qed.

(** The sample on two lines. *)
Lemma main_normalizes_the_layout_witness :
  eventually
    (fun fuel => main store_only fuel (Some (" " ++ sample_layout ++ String "010" "")))
    (Returns
       (mk_output_files (print_ConValue sample_layout_value)
          (ConValue_write store_only sample_layout_value 0))
       (after_parsed sample_layout_value (String "010" "")))
  /\ eventually
       (fun fuel =>
          ConValue_read store_only fuel
            (istream_of (ConValue_write store_only sample_layout_value 0)))
       (Returns sample_layout_value (istream_of "")).
Proof.
  apply (main_normalizes_the_layout store_only store_only sample_layout
           sample_layout_value " " (String "010" "")).
  - intros s. reflexivity.
  - apply sample_layout_denotes.
  - cbn [json_blank]. auto.
  - left. reflexivity.
  - change sample_layout_value
      with (VObject (map_of_assignments
                       [("id", VInteger 1);
                        ("tags", VArray [VString "a"; VBoolean true])])).
    replace (map_of_assignments
               [("id", VInteger 1); ("tags", VArray [VString "a"; VBoolean true])])
      with [("id", VInteger 1); ("tags", VArray [VString "a"; VBoolean true])]
      by reflexivity.
    cbn [representable snd fst]. unfold framed_fits.
    repeat match goal with |- _ /\ _ => split end;
      first [ exact I | vm_compute; reflexivity | vm_compute; discriminate
            | intros _; vm_compute; reflexivity ].
Defined.
